(* ===== verification/_CoqProject ===== *)
-Q . S2P
Prelude.v
CInt.v
ViMachine.v
ViMem.v
ViMemSpec.v
CFloat.v
ViArith.v
ViSpecial.v
ViFloat.v
ViRun.v
ViInv.v
ViDemo.v
ViMemThm.v
Qsort.v
QsortThm.v
VlObj.v
VlOptab.v
VlSym.v
VlWp.v
VlSymThm.v
VlSpan.v
VlAsm.v
Mips.v
MipsIsa.v
ViSim.v
ViAlu.v
ViExec.v
ViUnaligned.v
ViIsa.v
ViRefine.v
ViSteps.v
VlEnc.v
VlTables.v
VlDemo.v
VlLib.v
VlEmit.v
VlLook.v
VlLayout.v
VlAddr.v
VlCode.v
VlInstr.v
VlPass.v
VlPatch.v
VlFollow.v
VlSched.v
VlDep.v
VlMoves.v
VlRegs.v
VlSchedThm.v
VlNoop.v
VlData.v
VlNumber.v
VlLd.v
VlLdLib.v
VlDat.v
VlDatThm.v
VaOut.v
VaLd.v
VlExpand.v
VlBlocks.v
MachSym.v
VlLines.v
VlOut.v
VlOutThm.v
VlAsmb.v
VlLinesThm.v
