(* ===== verification/Prelude.v ===== *)
(** * A verification of the MIPS chain of goken9cc

    goken9cc is a port of the Plan 9 C tool chain: for each machine a compiler, an
    assembler, a linker and for some an emulator. This development models the end of the
    chain for MIPS: the linker [linkers/vl], which turns the instructions of the assembler
    into machine words, and the emulator [machines/vi], which runs them.

    ** The parts

    - The emulator keeps registers, four demand-paged segments, breakpoints and counters in
      global variables; a handler per instruction changes them, and traps leave by
      [longjmp(errjmp, 0)]. Here the globals are the record [ViMachine.vi] and a handler a
      function of the monad [ViMachine.M], whose outcomes are a return, a [longjmp], the exit
      of the emulator, undefined behaviour of C ([Fault]) and running out of fuel
      ([Diverge]). The width of the host's [long], the file being run, the system calls
      ([syscall.c]) and the call tree are the class [ViMachine.ViEnv].
    - The linker keeps lists of [Prog] and [Sym] structures in memory. Here they are two
      stores (finite maps) in the record [VlObj.vl], and a function of a pass one of the
      monad [VlObj.L], whose outcomes are a return, the linker's own exit, a null or dangling
      pointer, and running out of fuel.

    ** The files

    - [Prelude], [CInt]: equations between bit expressions, C's integer types.
    - [CFloat]: C's [float] and [double] on bit patterns, by the standard library's SpecFloat.
    - [ViMachine], [ViMem], [ViArith], [ViSpecial], [ViFloat], [ViRun]: the emulator,
      [mips.h], [mem.c] with [brkchk] of [bpt.c] and [initmap] of [vi.c], [mul] and [mulu] of
      [vi.c], [special.c], [float.c] and [run.c]; a definition per C function, of its name.
    - [ViMemSpec], [ViMemThm]: the memory of the program as a function of addresses, which
      loads read and stores update whatever page-in happens on the way.
    - [ViInv]: the invariant of the machine state ([wf]) and its preservation, handler by
      handler, against the interface [EnvKeeps] of what is not modelled.
    - [Mips]: the part of the MIPS architecture that serves as specification.
    - [ViSim], [ViAlu], [ViExec], [ViUnaligned]: instructions against the architecture.
    - [MipsIsa]: a machine of the architecture, with its memory, delay slots and steps;
      [ViIsa], [ViRefine], [ViSteps]: the emulator against it, instruction by instruction and
      for whole runs.
    - [ViDemo]: hosts of 32 and 64 bits and a small program, for the examples.
    - [Qsort], [QsortThm]: [qsort] of the C library, which sorts the linker's table.
    - [VlObj], [VlOptab], [VlSym], [VlSpan], [VlAsm]: the linker, [v.out.h] and [l.h], the
      instruction table of [optab.c], [lookup] of [obj.c], [span.c], and of [asm.c] the
      output buffer, [asmout] and the text loop of [asmb].
    - [VlEnc]: the fields of an encoded word as the emulator decodes them.
    - [VlTables]: the tables [buildop] makes, computed, against a direct search of [optab].
    - [VlLib], [VlEmit]: what the passes of the linker leave alone, and what they write.
    - [VlLook]: [aclass] and [oplook] against the direct search.
    - [VlLayout], [VlAddr]: the addresses [span] assigns, and the text loop that writes there.
    - [VlCode], [VlInstr]: what the words of an instruction do in the architecture, and the
      way from the instruction to its bytes.
    - [VlWp]: what a pass establishes, as weakest preconditions; lists of instructions in the store.
    - [VlSymThm]: the hash table of the symbols.
    - [VlPass], [VlPatch], [VlFollow]: [patch], [mkfwd], [brloop], [follow] and [xfol] of
      [pass.c], the targets of the branches, and the order of the instructions.
    - [VlSched]: [sched.c]; [VlDep]: what it means that instructions do not depend on each
      other; [VlMoves]: the moves in a block exchange independent neighbours; [VlRegs]:
      [regsused] changes annotations only; [VlSchedThm]: blocks in the store, before and after.
    - [VlNoop]: the four passes of [noop.c]; [VlExpand], [VlBlocks]: the third and the fourth.
    - [VlData]: [dodata], [undef] and [atolwhex] of [pass.c]; [VlNumber]: the numbers of the
      command line.
    - [VlLd]: [ldobj] of [obj.c] and what it calls, the reading of an object file; [VlLdLib]:
      what the reading leaves alone. [VaOut]: the writing, [zname], [zaddr] and [outcode] of
      the assembler [assemblers/va/lex.c] with [ieeedtod] of [compilers/cck/lexbody], on a
      record [VaOut.va] of its variables; [VaLd]: the file between the two.
    - [VlDat]: the data segment, [nuxiinit] and [find1] of [obj.c], [datblk] of [asm.c] and the
      loops of [asmb] over its blocks; the byte order of the host is a parameter. [VlDatThm]:
      the bytes of the segment.
    - [VlLines]: the line table, [asmlc] of [asm.c]; [VlOut]: the rest of [asm.c], the symbol
      table ([asmsym], [putsymb]), [entryvalue] and [asmb]. [MachSym]: [syminit], [decodename],
      [pc2line] and [line2addr] of [lib_toolchain/libmach/sym.c], which the debuggers read the
      tables with; [VlLinesThm], [VlOutThm]: the tables between the two; [VlAsmb]: the parts of
      the whole file and its header.
    - [VlDemo]: a small program in the linker, for the examples.

    ** What the theorems show

    - Memory: [ViMemThm.initmap_loads], [load_correct], [store_correct], [store_load] and
      [memio_roundtrip]: [initmap] makes the image of the file visible, loads and stores are
      those of a byte-addressed big-endian memory, with the traps of the architecture.
    - Instructions: [ViAlu.alu_correct], [muldiv_correct], [ViExec.branch_correct] and
      [ViUnaligned.lwl_correct] against [Mips]; the deviations have theorems of their own.
    - The machine: [ViSteps.run_refines] (a run of the emulator is a run of the architecture
      [MipsIsa]), [ViExec.run_keeps_wf] (the types of the state hold in every run) and
      [Iexec_terminates].
    - The library: [QsortThm.qsort_total] and [qsort_sorts].
    - The passes of the linker: [VlSymThm.lookup_unique] (one symbol for a name and version),
      [VlPatch.patch_resolves] (every branch gets its target, chains of jumps cut short) and
      [VlFollow.follow_keeps_traces] (the program laid out anew executes the same instructions,
      whatever the tests yield), [VlExpand.noops_expands] and [calls_return] (the instructions
      for [TEXT] and [RET], and that they restore the stack pointer and come back to the
      caller), [VlBlocks.noops_blocks] (every block [sched] gets is whole and within its array),
      [VlSchedThm.sched_keeps_effect] and [sched_fills_slots] (a block reordered has the same
      effect, and no delay slot holds an instruction that disturbs).
    - The input of the linker: [VaLd.ldobj_assembled] (the file the assembler writes is read
      to the effect of its instructions one by one) and [VlNumber.atolwhex_reads] (the
      addresses of the command line, as the library prints them).
    - The output of the linker: [VlInstr.instruction_assembled] (the bytes of an instruction of registers
      and constants compute what it says), [VlLook.oplook_search] ([oplook] is the linear search of [optab] for every
      opcode and all operand classes), [VlEmit.asmout_size] and [asmout_words] (an instruction
      gets the bytes its entry says), [VlAddr.span_lays_out] (the addresses are consecutive),
      [VlAddr.text_written] (the output pass agrees with them), [VlDatThm.data_written] (every
      data statement at its place, in the byte order of the target), [VlOutThm.symbols_read]
      ([syminit] finds exactly the symbols of the program), [VlLinesThm.pc2line_asmlc] (the line
      of an address is found again), [VlAsmb.asmb_layout] (the parts of the file follow each
      other where the header says).

    ** Bounds and fuel

    [Iexec] calls itself for delay slots; a fuel of 2 is enough where the slot holds no
    branch ([Iexec_terminates]), and no fuel is where a jump is in its own slot
    ([jump_in_delay_slot_diverges]). The fuel of [run] is the number of instructions. The
    fuel of [qsort] is the number of elements plus one ([qsort_total]). [span] and
    [asmb_text] take the number of instructions they may visit; running out of it is the
    outcome [LDiverge], never a result. [ldobj] takes a fuel for the rounds of its loop, of
    which [ldobj_assembled] gives enough; [asmlc] one for the instructions it visits, [datblk]
    one for the statements, [datblks] one for its blocks, [asmsym] one for the functions and one
    for the variables of each, [syminit] one for the entries of the table; [data_written] and
    [symbols_read] say how much is enough. The label [jackpot] of [outcode] is reached at most
    twice, and [VaOut.out_syms] has a fuel of 3. [int32] and [ulong] arithmetic is written with
    its wrap-around ([CInt]); sizes of C's [long] are a parameter of the emulator.

    ** Not modelled

    Of the emulator the command loop, the printing of symbols and statistics and the system
    calls of the host. Of the linker [main] and its options, the archives ([objfile]) and
    the search for libraries ([addlib], a parameter of [VlLd]), the profiling calls of
    [doprof1] and [doprof2], and the header of an ELF file ([elf32], a parameter of
    [VlOut]). The listing options ([-a], [-O], [-v], [-V], [-W]) only print and are off. Of
    the assembler the lexer, the grammar and the history of the source files; of libmach the
    searches by name and address, and the tables they build. The other machines and the
    compilers are not modelled, nor are the utilities and the trees GO and BOOT. *)
From Stdlib Require Export ZArith Lia Bool Btauto.
From stdpp Require Export base gmap list strings option.

#[global] Open Scope Z_scope.

(** * Bitwise extensionality

    [zbits] proves an equation between bit expressions over [Z] whose shift
    amounts and masks are literals: it compares bit [n] of both sides, for each
    literal [n] below a bound and then for every larger [n]. *)

Create HintDb zbit.

Lemma testbit_neg (x n : Z) : n < 0 -> Z.testbit x n = false.
Proof. intros H. by apply Z.testbit_neg_r. Qed.

(** A literal below [2^k] has no bit from [k] on. *)
Lemma testbit_small (x k n : Z) :
  0 <= k -> 0 <= x < 2 ^ k -> k <= n -> Z.testbit x n = false.
Proof.
  intros Hk Hx Hn. rewrite <- (Z.mod_small x (2 ^ k)) by lia.
  apply Z.mod_pow2_bits_high; lia.
Qed.

Lemma small_from_bits (x k : Z) :
  0 <= k -> (forall n, k <= n -> Z.testbit x n = false) -> 0 <= x < 2 ^ k.
Proof.
  intros Hk Hb.
  assert (x mod 2 ^ k = x) as <-.
  { apply Z.bits_inj'. intros n Hn. destruct (Z.lt_ge_cases n k).
    - by apply Z.mod_pow2_bits_low.
    - rewrite Z.mod_pow2_bits_high by lia. symmetry. by apply Hb. }
  apply Z.mod_pos_bound. lia.
Qed.

(** Disjoint operands: bitwise or is addition. *)
Lemma lor_add_disjoint (a b : Z) : Z.land a b = 0 -> Z.lor a b = a + b.
Proof.
  intros H. rewrite <- Z.lxor_lor by done. symmetry.
  by apply Z.add_nocarry_lxor.
Qed.

Lemma land_shiftl_low (a b k : Z) :
  0 <= k -> 0 <= b < 2 ^ k -> Z.land (Z.shiftl a k) b = 0.
Proof.
  intros Hk Hb. apply Z.bits_inj'. intros n Hn.
  rewrite Z.land_spec, Z.shiftl_spec, Z.bits_0 by lia.
  destruct (Z.lt_ge_cases n k).
  - rewrite (testbit_neg a (n - k)) by lia. done.
  - rewrite (testbit_small b k n) by lia. by rewrite andb_false_r.
Qed.

Lemma lor_shiftl_add (a b k : Z) :
  0 <= k -> 0 <= b < 2 ^ k -> Z.lor (Z.shiftl a k) b = a * 2 ^ k + b.
Proof.
  intros Hk Hb. rewrite lor_add_disjoint by by apply land_shiftl_low.
  by rewrite Z.shiftl_mul_pow2 by lia.
Qed.

(** Unconditional forms of the [testbit] equations: the side condition becomes
    a boolean guard, so that rewriting never gets stuck on nested shifts. *)
Lemma tb_shiftl a k m : Z.testbit (Z.shiftl a k) m = negb (m <? 0) && Z.testbit a (m - k).
Proof. destruct (Z.ltb_spec m 0); [by apply testbit_neg | by apply Z.shiftl_spec]. Qed.

Lemma tb_shiftr a k m : Z.testbit (Z.shiftr a k) m = negb (m <? 0) && Z.testbit a (m + k).
Proof. destruct (Z.ltb_spec m 0); [by apply testbit_neg | by apply Z.shiftr_spec]. Qed.

Lemma tb_lnot a m : Z.testbit (Z.lnot a) m = negb (m <? 0) && negb (Z.testbit a m).
Proof. destruct (Z.ltb_spec m 0); [by apply testbit_neg | by apply Z.lnot_spec]. Qed.

Lemma tb_ones k m : 0 <= k -> Z.testbit (Z.ones k) m = negb (m <? 0) && (m <? k).
Proof.
  intros Hk. destruct (Z.ltb_spec m 0); [by apply testbit_neg|].
  rewrite Z.testbit_ones_nonneg by lia. done.
Qed.

Lemma tb_mod_pow2 a n m : 0 <= n -> Z.testbit (a mod 2 ^ n) m = (m <? n) && Z.testbit a m.
Proof. intros. by apply Z.testbit_mod_pow2. Qed.

(** Rewrites of masks that are [2^k - 1] to [Z.ones k], for the literals that occur in
    the sources. *)
Ltac masks_to_ones :=
  change 31 with (Z.ones 5); change 63 with (Z.ones 6); change 255 with (Z.ones 8);
  change 511 with (Z.ones 9); change 32767 with (Z.ones 15);
  change 65535 with (Z.ones 16); change 16383 with (Z.ones 14);
  change 16777215 with (Z.ones 24); change 67108863 with (Z.ones 26);
  change 4294967295 with (Z.ones 32).

Ltac tb_push :=
  repeat first
    [ rewrite Z.land_spec | rewrite Z.lor_spec | rewrite Z.lxor_spec
    | rewrite tb_shiftr | rewrite tb_shiftl | rewrite tb_lnot
    | rewrite Z.bits_0
    | rewrite tb_ones by lia | rewrite tb_mod_pow2 by lia ].

Ltac tb_split :=
  repeat match goal with
  | |- context [?a <? ?b] => destruct (Z.ltb_spec a b); try lia
  end.

(** Index expressions that are equal as integers become the same variable. *)
Ltac tb_unify :=
  repeat match goal with
  | |- context [Z.testbit _ ?i] =>
      assert_fails (is_var i); let l := fresh "l" in remember i as l
  end;
  repeat match goal with
  | |- context [Z.testbit ?x ?i] =>
      match goal with
      | |- context [Z.testbit x ?j] =>
          tryif constr_eq i j then fail else replace j with i by lia
      end
  end.

Ltac tb_finish :=
  cbn [negb andb orb xorb];
  rewrite ?andb_true_r, ?andb_false_r, ?orb_false_r, ?orb_true_r;
  tb_unify; first [ reflexivity | btauto | idtac ].

Ltac zbits :=
  apply Z.bits_inj'; let i := fresh "i" in let Hi := fresh "Hi" in intros i Hi;
  masks_to_ones; tb_push; tb_split; tb_finish.
