(* ===== verification/CInt.v ===== *)
(** C integer arithmetic: the fixed-width types of <u.h> as ranges of [Z]. *)
From S2P Require Import Prelude.

(** ** Conversions *)

(** Conversion to an unsigned type of [n] bits. *)
Definition wrapu (n x : Z) : Z := x mod 2 ^ n.

(** Conversion to a signed (two's complement) type of [n] bits. *)
Definition wraps (n x : Z) : Z := (x + 2 ^ (n - 1)) mod 2 ^ n - 2 ^ (n - 1).

Definition u8 (x : Z) : Z := wrapu 8 x.
Definition u16 (x : Z) : Z := wrapu 16 x.
Definition u32 (x : Z) : Z := wrapu 32 x.
Definition u64 (x : Z) : Z := wrapu 64 x.
Definition s8 (x : Z) : Z := wraps 8 x.
Definition s16 (x : Z) : Z := wraps 16 x.
Definition s32 (x : Z) : Z := wraps 32 x.
Definition s64 (x : Z) : Z := wraps 64 x.

Definition in_u (n x : Z) : Prop := 0 <= x < 2 ^ n.
Definition in_s (n x : Z) : Prop := - 2 ^ (n - 1) <= x < 2 ^ (n - 1).

#[global] Instance in_u_dec n x : Decision (in_u n x).
Proof. unfold in_u. apply _. Defined.
#[global] Instance in_s_dec n x : Decision (in_s n x).
Proof. unfold in_s. apply _. Defined.

Lemma wrapu_range n x : 0 <= n -> in_u n (wrapu n x).
Proof. intros. unfold in_u, wrapu. apply Z.mod_pos_bound. lia. Qed.

Lemma pow2_half n : 0 < n -> 2 ^ n = 2 * 2 ^ (n - 1).
Proof. intros. replace n with (Z.succ (n - 1)) at 1 by lia. rewrite Z.pow_succ_r; lia. Qed.

Lemma wraps_range n x : 0 < n -> in_s n (wraps n x).
Proof.
  intros. unfold in_s, wraps. rewrite (pow2_half n) by lia.
  pose proof (Z.mod_pos_bound (x + 2 ^ (n - 1)) (2 * 2 ^ (n - 1))). lia.
Qed.

Lemma wrapu_id n x : in_u n x -> wrapu n x = x.
Proof. intros. by apply Z.mod_small. Qed.

Lemma wraps_id n x : 0 < n -> in_s n x -> wraps n x = x.
Proof.
  intros Hn Hx. unfold wraps, in_s in *. rewrite (pow2_half n) in * by lia.
  rewrite Z.mod_small; lia.
Qed.

(** Two integers convert alike exactly when they agree modulo [2^n]. *)
Lemma wraps_mod n x : 0 < n -> wraps n x mod 2 ^ n = x mod 2 ^ n.
Proof.
  intros. unfold wraps. rewrite Zminus_mod_idemp_l. f_equal. lia.
Qed.

Lemma wraps_congr n x y : x mod 2 ^ n = y mod 2 ^ n -> wraps n x = wraps n y.
Proof.
  intros H. unfold wraps. f_equal.
  rewrite <- (Zplus_mod_idemp_l x), H, Zplus_mod_idemp_l. done.
Qed.

Lemma wraps_inj n x y :
  0 < n -> wraps n x = wraps n y -> x mod 2 ^ n = y mod 2 ^ n.
Proof. intros Hn H. rewrite <- (wraps_mod n x), <- (wraps_mod n y) by lia. by rewrite H. Qed.

Lemma mod_mod_pow2 x m n : 0 <= n <= m -> (x mod 2 ^ m) mod 2 ^ n = x mod 2 ^ n.
Proof.
  intros. apply Z.mod_mod_divide. exists (2 ^ (m - n)).
  rewrite <- Z.pow_add_r by lia. f_equal. lia.
Qed.

Lemma wraps_wrapu m n x : 0 < n <= m -> wraps n (wrapu m x) = wraps n x.
Proof. intros. apply wraps_congr. unfold wrapu. apply mod_mod_pow2. lia. Qed.

Lemma wraps_wraps m n x : 0 < n <= m -> wraps n (wraps m x) = wraps n x.
Proof.
  intros. apply wraps_congr.
  rewrite <- (mod_mod_pow2 (wraps m x) m n), <- (mod_mod_pow2 x m n) by lia.
  by rewrite wraps_mod by lia.
Qed.

Lemma wrapu_wraps m n x : 0 <= n <= m -> 0 < m -> wrapu n (wraps m x) = wrapu n x.
Proof.
  intros. unfold wrapu.
  rewrite <- (mod_mod_pow2 (wraps m x) m n), <- (mod_mod_pow2 x m n) by lia.
  by rewrite wraps_mod by lia.
Qed.

Lemma wrapu_wrapu m n x : 0 <= n <= m -> wrapu n (wrapu m x) = wrapu n x.
Proof. intros. unfold wrapu. by apply mod_mod_pow2. Qed.

(** ** Bits of converted values *)

Lemma tb_wrapu n x i : 0 <= n -> Z.testbit (wrapu n x) i = (i <? n) && Z.testbit x i.
Proof. apply tb_mod_pow2. Qed.

Lemma in_s_sign_bits n x i :
  0 < n -> in_s n x -> n - 1 <= i -> Z.testbit x i = (x <? 0).
Proof.
  intros Hn Hx Hi. unfold in_s in Hx. destruct (Z.ltb_spec x 0).
  - rewrite <- (Z.lnot_involutive x), Z.lnot_spec by lia.
    rewrite (testbit_small (Z.lnot x) (n - 1)) by (unfold Z.lnot; lia). done.
  - by apply (testbit_small x (n - 1)); lia.
Qed.

Lemma tb_wraps n x i :
  0 < n -> 0 <= i ->
  Z.testbit (wraps n x) i = Z.testbit x (if i <? n then i else n - 1).
Proof.
  intros Hn Hi.
  assert (forall j, 0 <= j < n -> Z.testbit (wraps n x) j = Z.testbit x j) as Hlow.
  { intros j Hj. rewrite <- (Z.mod_pow2_bits_low (wraps n x) n j) by lia.
    rewrite wraps_mod by lia. apply Z.mod_pow2_bits_low. lia. }
  destruct (Z.ltb_spec i n); [by apply Hlow|].
  rewrite (in_s_sign_bits n) by (auto using wraps_range || lia).
  rewrite <- (in_s_sign_bits n _ (n - 1)) by (auto using wraps_range || lia).
  apply Hlow. lia.
Qed.

Lemma in_s_from_bits n x :
  0 < n -> (forall i, n - 1 <= i -> Z.testbit x i = Z.testbit x (n - 1)) -> in_s n x.
Proof.
  intros Hn Hb.
  assert (wraps n x = x) as <-; [|by apply wraps_range].
  apply Z.bits_inj'. intros i Hi. rewrite tb_wraps by lia.
  destruct (Z.ltb_spec i n); [done|]. symmetry. apply Hb. lia.
Qed.

(** Bitwise operators on an [n]-bit signed integer stay in the type. *)
Lemma in_s_land n x y : 0 < n -> in_s n x -> in_s n y -> in_s n (Z.land x y).
Proof.
  intros Hn Hx Hy. apply in_s_from_bits; [done|]. intros i Hi.
  rewrite !Z.land_spec, !(in_s_sign_bits n) by (done || lia). done.
Qed.

Lemma in_s_lor n x y : 0 < n -> in_s n x -> in_s n y -> in_s n (Z.lor x y).
Proof.
  intros Hn Hx Hy. apply in_s_from_bits; [done|]. intros i Hi.
  rewrite !Z.lor_spec, !(in_s_sign_bits n) by (done || lia). done.
Qed.

Lemma in_s_lxor n x y : 0 < n -> in_s n x -> in_s n y -> in_s n (Z.lxor x y).
Proof.
  intros Hn Hx Hy. apply in_s_from_bits; [done|]. intros i Hi.
  rewrite !Z.lxor_spec, !(in_s_sign_bits n) by (done || lia). done.
Qed.

Lemma in_s_lnot n x : 0 < n -> in_s n x -> in_s n (Z.lnot x).
Proof. unfold in_s, Z.lnot. lia. Qed.

Lemma in_s_shiftr n x k : 0 < n -> 0 <= k -> in_s n x -> in_s n (Z.shiftr x k).
Proof.
  intros Hn Hk Hx. apply in_s_from_bits; [done|]. intros i Hi.
  rewrite !Z.shiftr_spec, !(in_s_sign_bits n) by (done || lia). done.
Qed.

Lemma in_s_mono m n x : 0 < m <= n -> in_s m x -> in_s n x.
Proof.
  intros H Hx. unfold in_s in *.
  pose proof (Z.pow_le_mono_r 2 (m - 1) (n - 1)). lia.
Qed.

Lemma in_u_in_s m n x : 0 <= m < n -> in_u m x -> in_s n x.
Proof.
  intros H Hx. unfold in_s, in_u in *.
  pose proof (Z.pow_le_mono_r 2 m (n - 1)). lia.
Qed.

Lemma in_u_mono m n x : 0 <= m <= n -> in_u m x -> in_u n x.
Proof. unfold in_u. pose proof (Z.pow_le_mono_r 2 m n). lia. Qed.

Lemma land_ones_in_u k x : 0 <= k -> in_u k (Z.land x (Z.ones k)).
Proof. intros. rewrite Z.land_ones by lia. by apply wrapu_range. Qed.

(** Signed values are determined by their low bits. *)
Lemma wraps_eq_signed n x v :
  0 < n -> in_s n v -> x mod 2 ^ n = v mod 2 ^ n -> wraps n x = v.
Proof. intros Hn Hv H. rewrite <- (wraps_id n v) by done. by apply wraps_congr. Qed.

Lemma wrapu_add_wraps n x y : 0 < n -> wraps n (wraps n x + y) = wraps n (x + y).
Proof.
  intros. apply wraps_congr. rewrite <- Zplus_mod_idemp_l, wraps_mod, Zplus_mod_idemp_l by lia.
  done.
Qed.

Create HintDb cint.
#[export] Hint Resolve wraps_range wrapu_range in_s_land in_s_lor in_s_lxor in_s_lnot
  in_s_shiftr : cint.
#[export] Hint Extern 1 (_ < _) => lia : cint.
#[export] Hint Extern 1 (_ <= _) => lia : cint.

Lemma tb_wraps_guard n x i :
  0 < n ->
  Z.testbit (wraps n x) i = negb (i <? 0) && Z.testbit x (if i <? n then i else n - 1).
Proof.
  intros. destruct (Z.ltb_spec i 0); [by apply testbit_neg|]. by apply tb_wraps.
Qed.

(** [cbits]: [zbits] that also knows the conversions. *)
Ltac cbits_step :=
  progress (repeat (progress (tb_push;
    repeat (rewrite tb_wrapu by lia); repeat (rewrite tb_wraps_guard by lia)));
    tb_split).

Ltac cbits :=
  apply Z.bits_inj'; let i := fresh "i" in let Hi := fresh "Hi" in intros i Hi;
  unfold u8, u16, u32, u64, s8, s16, s32, s64;
  masks_to_ones; repeat cbits_step; tb_finish.

