(* ===== verification/ViMachine.v ===== *)
(** The state of the MIPS emulator machines/vi ([mips.h]) and the effects its
    handlers have: registers, demand-paged segments, breakpoints, statistics, the
    output stream [bioout], and the [longjmp(errjmp, 0)] that every trap ends with. *)
From S2P Require Import Prelude CInt.

(** ** Data of mips.h *)

(** Breakpoint types: bit masks. *)
Definition Instruction : Z := 1.
Definition Read : Z := 2.
Definition Write : Z := 4.
Definition Access : Z := Z.lor 2 4.
Definition Equal : Z := Z.lor 4 8.

Record Breakpoint := mkBreakpoint {
  b_type : Z; b_addr : Z; b_count : Z; b_done : Z }.

(** Statistics of one row of an instruction table. *)
Record InstStat := mkInstStat { i_count : Z; i_taken : Z; i_useddelay : Z }.
Definition InstStat0 : InstStat := mkInstStat 0 0 0.

Definition Nmaxtlb : Z := 64.

Record Tlb := mkTlb {
  tlb_on : bool; tlb_size : Z; tlb_ent : list Z; tlb_hit : Z; tlb_miss : Z }.

Definition FPd : Z := 0.
Definition FPs : Z := 1.
Definition FPmemory : Z := 2.

Inductive segtype := Stack | Text | Data | Bss.

(** Index of a segment in [memory.seg]. *)
Definition seg_index (t : segtype) : nat :=
  match t with Stack => 0 | Text => 1 | Data => 2 | Bss => 3 end%nat.

(** A page is the [BY2PG] bytes [emalloc] returns, zero where the map is undefined. *)
Abbreviation page := (gmap Z Z).

Record Segment := mkSegment {
  seg_type : segtype; seg_base : Z; seg_end : Z; seg_fileoff : Z; seg_fileend : Z;
  seg_rss : Z; seg_refs : Z; seg_table : list (option page) }.

(** [reg]. The union of [double fd[16]], [float fl[32]] and [ulong di[32]] is kept as its
    32-bit host words [reg_fpw], lowest address first. *)
Record Registers := mkRegisters {
  reg_pc : Z; reg_ir : Z; reg_ip : Z; reg_r : list Z; reg_mhi : Z; reg_mlo : Z;
  reg_fpsr : Z; reg_fpw : list Z; reg_ft : list Z }.

(** What is printed on [bioout]: an [itrace] line, or a message with its arguments. *)
Inductive event :=
  | Etrace (pc ir : Z) (fmt : string) (args : list Z)
  | Eprint (fmt : string) (args : list Z).

Record vi := mkvi {
  reg : Registers; memory : list Segment; tlb : Tlb; icache_on : bool;
  textbase : Z; iprof : gmap Z Z; iprof_len : Z; istat : gmap Z InstStat;
  nopcount : Z; seed : Z; trace : bool; calltree : bool; rtrace : Z;
  membpt : Z; bplist : list Breakpoint; count : Z; atbpt : Z; bioout : list event }.

(** ** Constants of mips.h *)

Definition BY2PG : Z := 16 * 1024.
Definition BY2WD : Z := 4.
Definition STACKTOP : Z := 0x80000000.
Definition STACKSIZE : Z := 0x10000.
Definition PROFGRAN : Z := 4.
Definition INOP : Z := 0x27.
Definition SIGNBIT : Z := 0x80000000.
Definition FP_U : Z := 3.
Definition FP_L : Z := 1.
Definition FP_G : Z := 2.
Definition FP_E : Z := 0.
Definition FP_CBIT : Z := Z.shiftl 1 23.

(** Opcode decoders. *)
Definition Getrs (i : Z) : Z := Z.land (Z.shiftr i 21) 0x1f.
Definition Getrt (i : Z) : Z := Z.land (Z.shiftr i 16) 0x1f.
Definition Getrd (i : Z) : Z := Z.land (Z.shiftr i 11) 0x1f.
Definition Getfd (i : Z) : Z := Z.land (Z.shiftr i 6) 0x1f.
Definition Getshamt (i : Z) : Z := Z.land (Z.shiftr i 6) 0x1f.

(** [(short)(inst&0xffff)] and [inst&0xffff]. *)
Definition simm (i : Z) : Z := s16 (Z.land i 0xffff).
Definition uimm (i : Z) : Z := Z.land i 0xffff.

(** ** Effects *)

(** A handler returns, jumps to [errjmp], exits the emulator ([fatal]), does something C
    leaves undefined (an access outside a host array, a trapping division), or does not
    return within the fuel. *)
Inductive outcome (A : Type) :=
  | Ok (a : A) (s : vi)
  | Longjmp (s : vi)
  | Exits (s : vi)
  | Fault
  | Diverge.
Arguments Ok {A} a s.
Arguments Longjmp {A} s.
Arguments Exits {A} s.
Arguments Fault {A}.
Arguments Diverge {A}.

Definition M (A : Type) : Type := vi -> outcome A.

#[export] Instance M_ret : MRet M := fun A a s => Ok a s.
#[export] Instance M_bind : MBind M := fun A B k m s =>
  match m s with
  | Ok a s' => k a s'
  | Longjmp s' => Longjmp s'
  | Exits s' => Exits s'
  | Fault => Fault
  | Diverge => Diverge
  end.

Definition gets {A} (f : vi -> A) : M A := fun s => Ok (f s) s.
Definition modify (f : vi -> vi) : M unit := fun s => Ok tt (f s).
Definition longjmp {A} : M A := fun s => Longjmp s.
Definition exits {A} : M A := fun s => Exits s.
Definition fault {A} : M A := fun _ => Fault.
Definition diverge {A} : M A := fun _ => Diverge.
Definition skip : M unit := mret tt.

(** The part of the host and of the rest of the program the emulator core runs against:
    the width of [long] on the host, the file of the program being run, the random
    numbers of the TLB statistics, the system calls of [syscall.c], what the call tree
    prints, and the NaN the host's arithmetic delivers. *)
Class ViEnv := {
  ulong_bits : Z;
  text_read : Z -> option (list Z);
  lnrand : Z -> Z -> Z * Z;
  Ssyscall : Z -> M unit;
  printcall : Z -> Z -> M unit;
  host_nan32 : Z;
  host_nan64 : Z }.

Class ViEnvOk (E : ViEnv) : Prop := {
  ulong_bits_cases : ulong_bits = 32 \/ ulong_bits = 64;
  text_read_ok : forall off, exists bs, text_read off = Some bs
     /\ Z.of_nat (length bs) <= BY2PG /\ Forall (in_u 8) bs;
  lnrand_range : forall g n, 0 < n -> 0 <= fst (lnrand g n) < n }.

Section Conversions.
Context {E : ViEnv}.
Definition ulong (x : Z) : Z := wrapu ulong_bits x.
Definition slong (x : Z) : Z := wraps ulong_bits x.
End Conversions.

(** ** Field updates *)

Definition set_reg (v : Registers) (s : vi) : vi :=
  mkvi v (memory s) (tlb s) (icache_on s) (textbase s) (iprof s) (iprof_len s)
  (istat s) (nopcount s) (seed s) (trace s) (calltree s) (rtrace s) (membpt s)
  (bplist s) (count s) (atbpt s) (bioout s).
Definition set_memory (v : list Segment) (s : vi) : vi :=
  mkvi (reg s) v (tlb s) (icache_on s) (textbase s) (iprof s) (iprof_len s) (istat s)
  (nopcount s) (seed s) (trace s) (calltree s) (rtrace s) (membpt s) (bplist s)
  (count s) (atbpt s) (bioout s).
Definition set_tlb (v : Tlb) (s : vi) : vi :=
  mkvi (reg s) (memory s) v (icache_on s) (textbase s) (iprof s) (iprof_len s)
  (istat s) (nopcount s) (seed s) (trace s) (calltree s) (rtrace s) (membpt s)
  (bplist s) (count s) (atbpt s) (bioout s).
Definition set_iprof (v : gmap Z Z) (s : vi) : vi :=
  mkvi (reg s) (memory s) (tlb s) (icache_on s) (textbase s) v (iprof_len s) (istat s)
  (nopcount s) (seed s) (trace s) (calltree s) (rtrace s) (membpt s) (bplist s)
  (count s) (atbpt s) (bioout s).
Definition set_istat (v : gmap Z InstStat) (s : vi) : vi :=
  mkvi (reg s) (memory s) (tlb s) (icache_on s) (textbase s) (iprof s) (iprof_len s) v
  (nopcount s) (seed s) (trace s) (calltree s) (rtrace s) (membpt s) (bplist s)
  (count s) (atbpt s) (bioout s).
Definition set_nopcount (v : Z) (s : vi) : vi :=
  mkvi (reg s) (memory s) (tlb s) (icache_on s) (textbase s) (iprof s) (iprof_len s)
  (istat s) v (seed s) (trace s) (calltree s) (rtrace s) (membpt s) (bplist s)
  (count s) (atbpt s) (bioout s).
Definition set_seed (v : Z) (s : vi) : vi :=
  mkvi (reg s) (memory s) (tlb s) (icache_on s) (textbase s) (iprof s) (iprof_len s)
  (istat s) (nopcount s) v (trace s) (calltree s) (rtrace s) (membpt s) (bplist s)
  (count s) (atbpt s) (bioout s).
Definition set_trace (v : bool) (s : vi) : vi :=
  mkvi (reg s) (memory s) (tlb s) (icache_on s) (textbase s) (iprof s) (iprof_len s)
  (istat s) (nopcount s) (seed s) v (calltree s) (rtrace s) (membpt s) (bplist s)
  (count s) (atbpt s) (bioout s).
Definition set_bplist (v : list Breakpoint) (s : vi) : vi :=
  mkvi (reg s) (memory s) (tlb s) (icache_on s) (textbase s) (iprof s) (iprof_len s)
  (istat s) (nopcount s) (seed s) (trace s) (calltree s) (rtrace s) (membpt s) v
  (count s) (atbpt s) (bioout s).
Definition set_count (v : Z) (s : vi) : vi :=
  mkvi (reg s) (memory s) (tlb s) (icache_on s) (textbase s) (iprof s) (iprof_len s)
  (istat s) (nopcount s) (seed s) (trace s) (calltree s) (rtrace s) (membpt s)
  (bplist s) v (atbpt s) (bioout s).
Definition set_atbpt (v : Z) (s : vi) : vi :=
  mkvi (reg s) (memory s) (tlb s) (icache_on s) (textbase s) (iprof s) (iprof_len s)
  (istat s) (nopcount s) (seed s) (trace s) (calltree s) (rtrace s) (membpt s)
  (bplist s) (count s) v (bioout s).
Definition set_bioout (v : list event) (s : vi) : vi :=
  mkvi (reg s) (memory s) (tlb s) (icache_on s) (textbase s) (iprof s) (iprof_len s)
  (istat s) (nopcount s) (seed s) (trace s) (calltree s) (rtrace s) (membpt s)
  (bplist s) (count s) (atbpt s) v.
Definition set_pc (v : Z) (s : vi) : vi :=
  set_reg (mkRegisters v (reg_ir (reg s)) (reg_ip (reg s)) (reg_r (reg s))
  (reg_mhi (reg s)) (reg_mlo (reg s)) (reg_fpsr (reg s)) (reg_fpw (reg s))
  (reg_ft (reg s))) s.
Definition set_ir (v : Z) (s : vi) : vi :=
  set_reg (mkRegisters (reg_pc (reg s)) v (reg_ip (reg s)) (reg_r (reg s))
  (reg_mhi (reg s)) (reg_mlo (reg s)) (reg_fpsr (reg s)) (reg_fpw (reg s))
  (reg_ft (reg s))) s.
Definition set_ip (v : Z) (s : vi) : vi :=
  set_reg (mkRegisters (reg_pc (reg s)) (reg_ir (reg s)) v (reg_r (reg s))
  (reg_mhi (reg s)) (reg_mlo (reg s)) (reg_fpsr (reg s)) (reg_fpw (reg s))
  (reg_ft (reg s))) s.
Definition set_r (v : list Z) (s : vi) : vi :=
  set_reg (mkRegisters (reg_pc (reg s)) (reg_ir (reg s)) (reg_ip (reg s)) v
  (reg_mhi (reg s)) (reg_mlo (reg s)) (reg_fpsr (reg s)) (reg_fpw (reg s))
  (reg_ft (reg s))) s.
Definition set_mhi (v : Z) (s : vi) : vi :=
  set_reg (mkRegisters (reg_pc (reg s)) (reg_ir (reg s)) (reg_ip (reg s))
  (reg_r (reg s)) v (reg_mlo (reg s)) (reg_fpsr (reg s)) (reg_fpw (reg s))
  (reg_ft (reg s))) s.
Definition set_mlo (v : Z) (s : vi) : vi :=
  set_reg (mkRegisters (reg_pc (reg s)) (reg_ir (reg s)) (reg_ip (reg s))
  (reg_r (reg s)) (reg_mhi (reg s)) v (reg_fpsr (reg s)) (reg_fpw (reg s))
  (reg_ft (reg s))) s.
Definition set_fpsr (v : Z) (s : vi) : vi :=
  set_reg (mkRegisters (reg_pc (reg s)) (reg_ir (reg s)) (reg_ip (reg s))
  (reg_r (reg s)) (reg_mhi (reg s)) (reg_mlo (reg s)) v (reg_fpw (reg s))
  (reg_ft (reg s))) s.
Definition set_fpw (v : list Z) (s : vi) : vi :=
  set_reg (mkRegisters (reg_pc (reg s)) (reg_ir (reg s)) (reg_ip (reg s))
  (reg_r (reg s)) (reg_mhi (reg s)) (reg_mlo (reg s)) (reg_fpsr (reg s)) v
  (reg_ft (reg s))) s.
Definition set_ft (v : list Z) (s : vi) : vi :=
  set_reg (mkRegisters (reg_pc (reg s)) (reg_ir (reg s)) (reg_ip (reg s))
  (reg_r (reg s)) (reg_mhi (reg s)) (reg_mlo (reg s)) (reg_fpsr (reg s))
  (reg_fpw (reg s)) v) s.
