(* ===== verification/ViMem.v ===== *)
(** Memory of the MIPS emulator: [mem.c] (demand-paged segments, the simulated TLB,
    loads and stores of every width) with [brkchk] of [bpt.c] and the segment layout
    [initmap] of [vi.c]. Addresses and values are passed at the widths the C
    declarations give them; [ulong] is as wide as the host's. *)
From S2P Require Import Prelude CInt ViMachine.

(** What a [uchar*] into a page of a segment is: segment index, page index. *)
Abbreviation hostpage := (nat * Z)%type.

(** [read] of at most [BY2PG] bytes into a page [emalloc] has cleared. *)
Definition page_of_bytes (bs : list Z) : page :=
  list_to_map (zip (seqZ 0 (Z.of_nat (length bs))) bs).

(** [memset(a + d, 0, BY2PG - d)]. *)
Definition page_clear_from (d : Z) (p : page) : page :=
  filter (fun '(i, _) => i < d) p.

Definition page_get (p : page) (o : Z) : Z := default 0 (p !! o).

Section Mem.
Context {E : ViEnv}.

Definition Bprint (fmt : string) (args : list Z) : M unit :=
  modify (fun s => set_bioout (Eprint fmt args :: bioout s) s).

Definition itrace (fmt : string) (args : list Z) : M unit :=
  modify (fun s =>
    set_bioout (Etrace (reg_pc (reg s)) (reg_ir (reg s)) fmt args :: bioout s) s).

(** [if(trace) m] *)
Definition tracing (m : M unit) : M unit :=
  fun s => if trace s then m s else Ok tt s.

(** [fatal]: the message goes to standard error, the emulator exits. *)
Definition fatal {A} : M A := exits.

Definition dotlb (va : Z) : M unit := fun s =>
  let va := Z.land va (Z.lnot (BY2PG - 1)) in
  let t := tlb s in
  if bool_decide (va ∈ take (Z.to_nat (tlb_size t)) (tlb_ent t)) then
    Ok tt (set_tlb (mkTlb (tlb_on t) (tlb_size t) (tlb_ent t)
                          (s32 (tlb_hit t + 1)) (tlb_miss t)) s)
  else
    let '(k, g) := lnrand (seed s) (tlb_size t) in
    if (0 <=? k) && (k <? Z.of_nat (length (tlb_ent t))) then
      Ok tt (set_seed g (set_tlb (mkTlb (tlb_on t) (tlb_size t)
               (<[Z.to_nat k := va]> (tlb_ent t)) (tlb_hit t)
               (s32 (tlb_miss t + 1))) s))
    else Fault.

Definition upd_seg (k : nat) (f : Segment -> Segment) : M unit :=
  modify (fun s => set_memory (alter f k (memory s)) s).

Definition seg_ref (sg : Segment) : Segment :=
  mkSegment (seg_type sg) (seg_base sg) (seg_end sg) (seg_fileoff sg)
    (seg_fileend sg) (seg_rss sg) (s32 (seg_refs sg + 1)) (seg_table sg).

(** [s->rss++] and [*p = pg] *)
Definition seg_fill (off : nat) (pg : page) (sg : Segment) : Segment :=
  mkSegment (seg_type sg) (seg_base sg) (seg_end sg) (seg_fileoff sg)
    (seg_fileend sg) (s32 (seg_rss sg + 1)) (seg_refs sg)
    (<[off := Some pg]> (seg_table sg)).

(** The [switch(s->type)] of [vaddr1]: the contents of a page on first touch. *)
Definition pagein (sg : Segment) (off : Z) : M page :=
  match seg_type sg with
  | Text =>
      match text_read (ulong (seg_fileoff sg + off * BY2PG)) with
      | None => fatal
      | Some bs => mret (page_of_bytes bs)
      end
  | Data =>
      let foff := s32 (seg_fileoff sg + off * BY2PG) in
      match text_read foff with
      | None => fatal
      | Some bs =>
          let n := Z.of_nat (length bs) in
          let p := page_of_bytes bs in
          if seg_fileend sg <? ulong (s32 (foff + n)) then
            let d := ulong (seg_fileend sg - foff) in
            if d <=? BY2PG then mret (page_clear_from d p) else fault
          else mret p
      end
  | Bss | Stack => mret ∅
  end.

(** The loop body of [vaddr1] for the segment that holds [addr]. *)
Definition vaddr_seg (addr : Z) (k : nat) (sg : Segment) : M hostpage :=
  upd_seg k seg_ref;;
  let off := s32 (ulong (addr - seg_base sg) / BY2PG) in
  match seg_table sg !! Z.to_nat off with
  | None => fault
  | Some (Some _) => mret (k, off)
  | Some None =>
      pg ← pagein sg off;
      upd_seg k (seg_fill (Z.to_nat off) pg);;
      mret (k, off)
  end.

Fixpoint vaddr_scan (addr : Z) (k : nat) (l : list Segment) : M (option hostpage) :=
  match l with
  | [] => mret None
  | sg :: l' =>
      if (seg_base sg <=? addr) && (addr <? seg_end sg) then
        p ← vaddr_seg addr k sg; mret (Some p)
      else vaddr_scan addr (S k) l'
  end.

Definition vaddr1 (addr : Z) : M (option hostpage) :=
  on ← gets (fun s => tlb_on (tlb s));
  (if (on : bool) then dotlb addr else skip);;
  segs ← gets memory;
  vaddr_scan addr 0 segs.

Definition vaddr (addr : Z) : M hostpage :=
  v ← vaddr1 addr;
  match v with
  | None => Bprint "User TLB miss vaddr 0x%.8lux\n" [addr];; longjmp
  | Some p => mret p
  end.

Definition badvaddr (addr n : Z) : M bool :=
  if negb (Z.land addr (n - 1) =? 0) then mret true
  else
    v ← vaddr1 addr;
    mret (match v with None => true | Some _ => false end).

(** [va[i]] and [va[i] = b] for [va = p + (addr&(BY2PG-1))]. *)
Definition peek (p : hostpage) (o : Z) : M Z := fun s =>
  match memory s !! p.1 ≫= fun sg => seg_table sg !! Z.to_nat p.2 with
  | Some (Some pg) => if o <? BY2PG then Ok (page_get pg o) s else Fault
  | _ => Fault
  end.

Definition seg_poke (off : nat) (o b : Z) (sg : Segment) : Segment :=
  mkSegment (seg_type sg) (seg_base sg) (seg_end sg) (seg_fileoff sg)
    (seg_fileend sg) (seg_rss sg) (seg_refs sg)
    (alter (fmap (fun pg : page => <[o := b]> pg)) off (seg_table sg)).

Definition poke (p : hostpage) (o b : Z) : M unit := fun s =>
  match memory s !! p.1 ≫= fun sg => seg_table sg !! Z.to_nat p.2 with
  | Some (Some _) =>
      if o <? BY2PG then upd_seg p.1 (seg_poke (Z.to_nat p.2) o (u8 b)) s else Fault
  | _ => Fault
  end.

Definition pgoff (addr : Z) : Z := Z.land addr (BY2PG - 1).

(** ** Breakpoints: bpt.c *)

Definition set_done (d : Z) (b : Breakpoint) : Breakpoint :=
  mkBreakpoint (b_type b) (b_addr b) (b_count b) d.

Definition hitbpt : M unit :=
  modify (fun s => set_atbpt 1 (set_count 1 s)).

(** The loop of [brkchk] from entry [i] on; [gm4] is [getmem_4], which [brkchk] and
    the loads call mutually. *)
Fixpoint brkchk_loop (gm4 : Z -> M Z) (addr ty : Z) (n i : nat) : M unit :=
  match n with
  | O => skip
  | S n' =>
      l ← gets bplist;
      match l !! i with
      | None => skip
      | Some b =>
          if (b_addr b =? addr) && negb (Z.land (b_type b) ty =? 0) then
            eq ← (if b_type b =? Equal then
                    v ← gm4 addr; mret (v =? u32 (b_count b))
                  else mret false);
            if (eq : bool) then hitbpt
            else
              l ← gets bplist;
              match l !! i with
              | None => skip
              | Some b =>
                  let d := s32 (b_done b - 1) in
                  modify (fun s => set_bplist (<[i := set_done d b]> (bplist s)) s);;
                  if d =? 0 then
                    modify (fun s => set_bplist
                      (<[i := set_done (b_count b) b]> (bplist s)) s);;
                    hitbpt
                  else brkchk_loop gm4 addr ty n' (S i)
              end
          else brkchk_loop gm4 addr ty n' (S i)
      end
  end.

Definition brkchk_with (gm4 : Z -> M Z) (addr ty : Z) : M unit :=
  l ← gets bplist; brkchk_loop gm4 addr ty (length l) 0.

(** [if(membpt) brkchk(addr, ty)] *)
Definition on_membpt (m : M unit) : M unit :=
  fun s => if membpt s =? 0 then Ok tt s else m s.

Definition getmem_b (addr : Z) : M Z :=
  on_membpt (brkchk_with (fun _ => diverge) addr Read);;
  p ← vaddr addr;
  peek p (pgoff addr).

Definition getmem_4 (addr : Z) : M Z :=
  b0 ← getmem_b addr;
  b1 ← getmem_b (ulong (addr + 1));
  b2 ← getmem_b (ulong (addr + 2));
  b3 ← getmem_b (ulong (addr + 3));
  mret (u32 (Z.lor (Z.shiftl (u32 (Z.lor (Z.shiftl (u32 (Z.lor (Z.shiftl b0 8) b1)) 8)
                                          b2)) 8) b3)).

Definition brkchk (addr ty : Z) : M unit := brkchk_with getmem_4 addr ty.

(** ** Loads and stores *)

Definition getmem_2 (addr : Z) : M Z :=
  b0 ← getmem_b addr;
  b1 ← getmem_b (ulong (addr + 1));
  mret (ulong (Z.lor (Z.shiftl b0 8) b1)).

(** [va[0]<<24 | va[1]<<16 | va[2]<<8 | va[3]] read as a [u32int]. *)
Definition be32 (b0 b1 b2 b3 : Z) : Z :=
  u32 (Z.lor (Z.lor (Z.lor (Z.shiftl b0 24) (Z.shiftl b1 16)) (Z.shiftl b2 8)) b3).

Definition peek_w (p : hostpage) (o : Z) : M Z :=
  b0 ← peek p o; b1 ← peek p (o + 1); b2 ← peek p (o + 2); b3 ← peek p (o + 3);
  mret (be32 b0 b1 b2 b3).

(** [iprof[(addr-textbase)/PROFGRAN]++], an array of [iprof_len] elements. *)
Definition count_iprof (addr : Z) : M unit := fun s =>
  let i := ulong (addr - textbase s) / PROFGRAN in
  if i <? iprof_len s then
    Ok tt (set_iprof (<[i := ulong (default 0 (iprof s !! i) + 1)]> (iprof s)) s)
  else Fault.

(** [icacheinit] and [updateicache] have empty bodies. *)
Definition updateicache (addr : Z) : M unit := skip.

Definition ifetch (addr : Z) : M Z :=
  if negb (Z.land addr 3 =? 0) then
    Bprint "Address error (I-fetch) vaddr %.8lux\n" [addr];; longjmp
  else
    on ← gets icache_on;
    (if (on : bool) then updateicache addr else skip);;
    count_iprof addr;;
    p ← vaddr addr;
    peek_w p (pgoff addr).

Definition getmem_w (addr : Z) : M Z :=
  if negb (Z.land addr 3 =? 0) then
    Bprint "Address error (Load) vaddr %.8lux\n" [addr];; longjmp
  else
    on_membpt (brkchk addr Read);;
    p ← vaddr addr;
    peek_w p (pgoff addr).

Definition getmem_v (addr : Z) : M Z :=
  h ← getmem_w addr;
  l ← getmem_w (ulong (addr + 4));
  mret (Z.lor (u64 (Z.shiftl h 32)) l).

Definition getmem_h (addr : Z) : M Z :=
  if negb (Z.land addr 1 =? 0) then
    Bprint "Address error (Load) vaddr %.8lux\n" [addr];; longjmp
  else
    on_membpt (brkchk addr Read);;
    p ← vaddr addr;
    b0 ← peek p (pgoff addr); b1 ← peek p (pgoff addr + 1);
    mret (u16 (Z.lor (Z.shiftl b0 8) b1)).

Definition putmem_w (addr data : Z) : M unit :=
  if negb (Z.land addr 3 =? 0) then
    Bprint "Address error (Store) vaddr %.8lux\n" [addr];; longjmp
  else
    p ← vaddr addr;
    let o := pgoff addr in
    poke p o (Z.shiftr data 24);;
    poke p (o + 1) (Z.shiftr data 16);;
    poke p (o + 2) (Z.shiftr data 8);;
    poke p (o + 3) data;;
    on_membpt (brkchk addr Write).

Definition putmem_v (addr data : Z) : M unit :=
  putmem_w addr (ulong (Z.shiftr data 32));;
  putmem_w (ulong (addr + 4)) (ulong data).

Definition putmem_b (addr data : Z) : M unit :=
  p ← vaddr addr;
  poke p (pgoff addr) data;;
  on_membpt (brkchk addr Write).

Definition putmem_h (addr data : Z) : M unit :=
  if negb (Z.land addr 1 =? 0) then
    Bprint "Address error (Store) vaddr %.8lux\n" [addr];; longjmp
  else
    p ← vaddr addr;
    poke p (pgoff addr) (Z.shiftr data 8);;
    poke p (pgoff addr + 1) data;;
    on_membpt (brkchk addr Write).

(** ** memio: copies between a host buffer and the program's memory *)

Fixpoint memio_read (mem : Z) (n : nat) : M (list Z) :=
  match n with
  | O => mret []
  | S n' => b ← getmem_b mem; bs ← memio_read (ulong (mem + 1)) n'; mret (b :: bs)
  end.

Fixpoint memio_readstring (mem : Z) (n : nat) : M (list Z) :=
  match n with
  | O => Bprint "memio: user/kernel copy too long for mipsim\n" [];; longjmp
  | S n' =>
      c ← getmem_b mem;
      if c =? 0 then mret [c]
      else bs ← memio_readstring (ulong (mem + 1)) n'; mret (c :: bs)
  end.

Fixpoint memio_write (mem : Z) (bs : list Z) : M unit :=
  match bs with
  | [] => skip
  | b :: bs' => putmem_b mem b;; memio_write (ulong (mem + 1)) bs'
  end.

(** ** initmap *)

Record Fhdr := mkFhdr {
  txtaddr : Z; txtsz : Z; txtoff : Z; datsz : Z; datoff : Z; bsssz : Z;
  hdrsz : Z; entry : Z }.

Definition pground (x : Z) : Z := Z.land (ulong (x + (BY2PG - 1))) (Z.lnot (BY2PG - 1)).

Definition newseg (t : segtype) (base end' fileoff fileend : Z) : Segment :=
  mkSegment t base end' fileoff fileend 0 0
    (replicate (Z.to_nat (ulong (end' - base) / BY2PG)) None).

Definition initmap (h : Fhdr) : M unit :=
  let t := pground (txtaddr h + txtsz h) in
  let d := pground (t + datsz h) in
  let bssend := ulong (t + datsz h + bsssz h) in
  let b := pground bssend in
  let tbase := ulong (txtaddr h - hdrsz h) in
  let toff := ulong (txtoff h - hdrsz h) in
  modify (fun s =>
    set_pc (entry h)
    (set_memory
      [newseg Stack (STACKTOP - STACKSIZE) STACKTOP 0 0;
       newseg Text tbase t toff (ulong (toff + txtsz h));
       newseg Data t d (datoff h) (ulong (datoff h + datsz h));
       newseg Bss d b 0 0]
    (mkvi (reg s) (memory s) (tlb s) (icache_on s) tbase ∅
      (ulong (t - tbase) / PROFGRAN) (istat s) (nopcount s) (seed s) (trace s)
      (calltree s) (rtrace s) (membpt s) (bplist s) (count s) (atbpt s) (bioout s)))).
End Mem.
