(* ===== verification/ViMemSpec.v ===== *)
(** The emulator's demand-paged memory against its specification, a flat partial map
    from addresses to bytes: paging, the TLB and the statistics are invisible, a load
    reads the map in big-endian order, a store updates exactly its own bytes. *)
From S2P Require Import Prelude CInt ViMachine ViMem.

(** ** Running a computation to its result *)

Definition runs {A} (m : M A) (s : vi) (P : A -> vi -> Prop) : Prop :=
  match m s with Ok a s' => P a s' | _ => False end.

Lemma runs_ret {A} (a : A) s (P : A -> vi -> Prop) : P a s -> runs (mret a) s P.
Proof. done. Qed.

Lemma runs_bind {A B} (m : M A) (k : A -> M B) s (P : B -> vi -> Prop) :
  runs m s (fun a s' => runs (k a) s' P) -> runs (m ≫= k) s P.
Proof. unfold runs, mbind, M_bind. by destruct (m s). Qed.

Lemma runs_mono {A} (m : M A) s (P Q : A -> vi -> Prop) :
  runs m s P -> (forall a s', P a s' -> Q a s') -> runs m s Q.
Proof. unfold runs. destruct (m s); naive_solver. Qed.

Lemma runs_inv {A} (m : M A) s P :
  runs m s P -> exists a s', m s = Ok a s' /\ P a s'.
Proof. unfold runs. destruct (m s); naive_solver. Qed.

Lemma runs_gets {A} (f : vi -> A) s (P : A -> vi -> Prop) : P (f s) s -> runs (gets f) s P.
Proof. done. Qed.

Lemma runs_modify f s (P : unit -> vi -> Prop) : P tt (f s) -> runs (modify f) s P.
Proof. done. Qed.

Section Spec.
Context {E : ViEnv}.

(** ** The flat view of memory *)

Fixpoint seg_find (a : Z) (k : nat) (l : list Segment) : option (nat * Segment) :=
  match l with
  | [] => None
  | sg :: l' =>
      if (seg_base sg <=? a) && (a <? seg_end sg) then Some (k, sg)
      else seg_find a (S k) l'
  end.

(** The page an address is in. *)
Definition pageof (s : vi) (a : Z) : option hostpage :=
  '(k, sg) ← seg_find a 0 (memory s); Some (k, (a - seg_base sg) / BY2PG).

(** What a page holds, or will hold once it is touched. *)
Definition seg_content (sg : Segment) (off : Z) : option page :=
  match seg_table sg !! Z.to_nat off with
  | Some (Some pg) => Some pg
  | Some None =>
      match seg_type sg with
      | Text => page_of_bytes <$> text_read (seg_fileoff sg + off * BY2PG)
      | Data =>
          let foff := seg_fileoff sg + off * BY2PG in
          bs ← text_read foff;
          Some (if seg_fileend sg <? foff + Z.of_nat (length bs)
                then page_clear_from (seg_fileend sg - foff) (page_of_bytes bs)
                else page_of_bytes bs)
      | Bss | Stack => Some ∅
      end
  | None => None
  end.

Definition content (s : vi) (p : hostpage) : option page :=
  sg ← memory s !! p.1; seg_content sg p.2.

Definition view (s : vi) (a : Z) : option Z :=
  p ← pageof s a; pg ← content s p; Some (page_get pg (pgoff a)).

(** ** Segments and pages *)

Lemma seg_find_spec a l n k sg :
  seg_find a n l = Some (k, sg) ->
  (n <= k)%nat /\ l !! (k - n)%nat = Some sg /\ seg_base sg <= a < seg_end sg.
Proof.
  revert n. induction l as [|sg' l IH]; intros n H; simpl in H; [done|].
  destruct ((seg_base sg' <=? a) && (a <? seg_end sg')) eqn:Hin.
  - simplify_eq. rewrite Nat.sub_diag. split_and!; [lia|done|lia|lia].
  - apply IH in H as (? & ? & ?). split_and!; try lia.
    by replace (k - n)%nat with (S (k - S n)) by lia.
Qed.

Lemma seg_find_lookup s a k sg :
  seg_find a 0 (memory s) = Some (k, sg) ->
  memory s !! k = Some sg /\ seg_base sg <= a < seg_end sg.
Proof. intros (_ & H & ?)%seg_find_spec. by rewrite Nat.sub_0_r in H. Qed.

(** ** Well-formed segments *)

Record seg_ok (sg : Segment) : Prop := {
  so_base : 0 <= seg_base sg;
  so_base_al : seg_base sg mod BY2PG = 0;
  so_end : seg_end sg <= 2 ^ 31;
  so_end_al : seg_end sg mod BY2PG = 0;
  so_table : Z.of_nat (length (seg_table sg))
             = (Z.max (seg_base sg) (seg_end sg) - seg_base sg) / BY2PG;
  so_bytes : forall off pg, seg_table sg !! off = Some (Some pg) ->
             map_Forall (fun _ b => in_u 8 b) pg;
  so_file : 0 <= seg_fileoff sg
            /\ seg_fileoff sg + Z.of_nat (length (seg_table sg)) * BY2PG
               < 2 ^ 31 - BY2PG
            /\ 0 <= seg_fileend sg < 2 ^ 31;
  so_data : seg_type sg = Data -> forall off, 0 <= off ->
            off < Z.of_nat (length (seg_table sg)) ->
            seg_fileoff sg + off * BY2PG <= seg_fileend sg }.

Definition tlb_ok (t : Tlb) : Prop :=
  0 < tlb_size t <= Z.of_nat (length (tlb_ent t)).

Definition mem_ok (s : vi) : Prop := Forall seg_ok (memory s) /\ tlb_ok (tlb s).

(** A change of the statistics only: same address space, same contents. *)
Record mem_eq (s t : vi) : Prop := {
  me_page : forall a, pageof s a = pageof t a;
  me_content : forall p, 0 <= p.2 -> content s p = content t p }.

#[global] Instance mem_eq_equiv : Equivalence mem_eq.
Proof.
  split.
  - done.
  - intros s t [H1 H2]. split; intros; symmetry; auto.
  - intros s t u [H1 H2] [H3 H4].
    split; [intros a; by rewrite H1|intros p Hp; by rewrite H2, H4 by done].
Qed.

Lemma pageof_nonneg s a p : pageof s a = Some p -> 0 <= p.2.
Proof.
  unfold pageof. intros H.
  destruct (seg_find a 0 (memory s)) as [[k sg]|] eqn:Hf; simpl in H; simplify_eq.
  apply seg_find_lookup in Hf as [_ ?].
  simpl. apply Z.div_pos; unfold BY2PG; lia.
Qed.

Lemma mem_eq_view s t a : mem_eq s t -> view s a = view t a.
Proof.
  intros [H1 H2]. unfold view. rewrite H1. 
  destruct (pageof t a) eqn:Hp; simpl; [|done].
  by rewrite H2 by by eapply pageof_nonneg.
Qed.

(** Updates of a segment that keep its bounds keep the page of every address. *)
Definition keeps_bounds (f : Segment -> Segment) : Prop :=
  forall sg, seg_base (f sg) = seg_base sg /\ seg_end (f sg) = seg_end sg.

Lemma seg_find_alter f a l n k :
  keeps_bounds f ->
  seg_find a n (alter f k l) =
    '(j, sg) ← seg_find a n l; Some (j, if decide (j = n + k)%nat then f sg else sg).
Proof.
  intros Hf. revert n k. induction l as [|sg l IH]; intros n k; [done|].
  destruct (Hf sg) as [Hb He].
  destruct k as [|k]; simpl.
  - rewrite Hb, He. destruct (_ && _); simpl.
    + by rewrite decide_True by lia.
    + destruct (seg_find a (S n) l) as [[j sg']|] eqn:Hl; simpl; [|done].
      apply seg_find_spec in Hl as [? _]. by rewrite decide_False by lia.
  - destruct (_ && _); simpl.
    + by rewrite decide_False by lia.
    + change (list_alter f k l) with (alter f k l). rewrite IH.
      destruct (seg_find a (S n) l) as [[j sg']|]; simpl; [|done].
      repeat case_decide; (done || lia).
Qed.

Lemma pageof_alter s f k a :
  keeps_bounds f -> pageof (set_memory (alter f k (memory s)) s) a = pageof s a.
Proof.
  intros Hf. unfold pageof. cbn [memory set_memory]. rewrite seg_find_alter by done.
  destruct (seg_find a 0 (memory s)) as [[j sg]|]; simpl; [|done].
  destruct (decide (j = k)); [|done]. by rewrite (proj1 (Hf sg)).
Qed.

Lemma content_alter s f k p :
  content (set_memory (alter f k (memory s)) s) p =
    sg ← memory s !! p.1;
    seg_content (if decide (p.1 = k) then f sg else sg) p.2.
Proof.
  unfold content. cbn [memory set_memory]. destruct (decide (p.1 = k)) as [->|].
  - rewrite list_lookup_alter_eq. by destruct (memory s !! k).
  - by rewrite list_lookup_alter_ne by done.
Qed.

Lemma keeps_bounds_ref : keeps_bounds seg_ref.
Proof. done. Qed.
Lemma keeps_bounds_fill off pg : keeps_bounds (seg_fill off pg).
Proof. done. Qed.
Lemma keeps_bounds_poke off o b : keeps_bounds (seg_poke off o b).
Proof. done. Qed.

Lemma seg_content_fill sg off pg j :
  0 <= off -> 0 <= j -> seg_table sg !! Z.to_nat off = Some None -> seg_content sg off = Some pg ->
  seg_content (seg_fill (Z.to_nat off) pg sg) j = seg_content sg j.
Proof.
  intros Ho Hj Ht Hc. unfold seg_content at 1. simpl.
  destruct (decide (Z.to_nat j = Z.to_nat off)) as [Hjo|Hne].
  - assert (j = off) as -> by lia.
    rewrite list_lookup_insert_eq by by apply lookup_lt_Some in Ht. done.
  - rewrite list_lookup_insert_ne by done. done.
Qed.

(** ** Statistics-only changes of the machine *)

(** Same registers and same control state. *)
Record regs_eq (s t : vi) : Prop := {
  re_reg : reg s = reg t;
  re_textbase : textbase s = textbase t;
  re_iprof_len : iprof_len s = iprof_len t;
  re_icache : icache_on s = icache_on t;
  re_trace : trace s = trace t;
  re_calltree : calltree s = calltree t;
  re_rtrace : rtrace s = rtrace t;
  re_membpt : membpt s = membpt t;
  re_bplist : bplist s = bplist t;
  re_count : count s = count t;
  re_atbpt : atbpt s = atbpt t }.

#[global] Instance regs_eq_equiv : Equivalence regs_eq.
Proof.
  split.
  - done.
  - intros s t []. split; by symmetry.
  - intros s t u [] []. split; etrans; eassumption.
Qed.

Definition arch_eq (s t : vi) : Prop := mem_eq s t /\ regs_eq s t.

#[global] Instance arch_eq_equiv : Equivalence arch_eq.
Proof.
  split.
  - done.
  - intros s t []. split; by symmetry.
  - intros s t u [] []. split; etrans; eassumption.
Qed.

Lemma arch_eq_view s t a : arch_eq s t -> view s a = view t a.
Proof. intros H. apply mem_eq_view, H. Qed.

(** [m] succeeds and changes statistics only. *)
Definition quiet {A} (m : M A) (s : vi) (P : A -> vi -> Prop) : Prop :=
  runs m s (fun a s' => arch_eq s' s /\ mem_ok s' /\ P a s').

Lemma quiet_ret {A} (a : A) s (P : A -> vi -> Prop) :
  mem_ok s -> P a s -> quiet (mret a) s P.
Proof. done. Qed.

Lemma quiet_bind {A B} (m : M A) (k : A -> M B) s (P : B -> vi -> Prop) :
  quiet m s (fun a s' => quiet (k a) s' P) -> quiet (m ≫= k) s P.
Proof.
  intros H. apply runs_bind. eapply runs_mono; [exact H|].
  intros a s1 (H1 & _ & H2). eapply runs_mono; [exact H2|].
  intros b s2 (H3 & H4 & H5). split_and!; [by etrans|done|done].
Qed.

Lemma quiet_mono {A} (m : M A) s (P Q : A -> vi -> Prop) :
  quiet m s P -> (forall a s', arch_eq s' s -> mem_ok s' -> P a s' -> Q a s') ->
  quiet m s Q.
Proof. intros H HPQ. eapply runs_mono; [exact H|].
  intros a s' (? & ? & ?). auto.
Qed.

Lemma quiet_gets {A} (f : vi -> A) s (P : A -> vi -> Prop) :
  mem_ok s -> P (f s) s -> quiet (gets f) s P.
Proof. done. Qed.

(** ** Paging is transparent *)

Lemma page_of_bytes_ok bs :
  Forall (in_u 8) bs -> map_Forall (fun _ b => in_u 8 b) (page_of_bytes bs).
Proof.
  intros H i b Hb. apply elem_of_list_to_map_2, elem_of_zip_r in Hb.
  rewrite list.Forall_forall in H. by apply H.
Qed.

Lemma page_clear_from_ok d pg :
  map_Forall (fun _ b => in_u 8 b) pg ->
  map_Forall (fun _ b => in_u 8 b) (page_clear_from d pg).
Proof. intros H i b [Hb _]%map_lookup_filter_Some. by apply (H i). Qed.

Context {EOk : ViEnvOk E}.

Lemma ulong_bits_ge : 32 <= ulong_bits.
Proof. destruct (ulong_bits_cases (E := E)) as [-> | ->]; lia. Qed.

Lemma ulong_id x : 0 <= x < 2 ^ 32 -> ulong x = x.
Proof.
  intros H. unfold ulong. apply wrapu_id. unfold in_u.
  pose proof ulong_bits_ge. pose proof (Z.pow_le_mono_r 2 32 ulong_bits). lia.
Qed.

Lemma pagein_ok sg off s :
  seg_ok sg -> 0 <= off < Z.of_nat (length (seg_table sg)) ->
  seg_table sg !! Z.to_nat off = Some None ->
  exists pg, pagein sg off s = Ok pg s /\ seg_content sg off = Some pg
    /\ map_Forall (fun _ b => in_u 8 b) pg.
Proof.
  intros [] Hoff Ht. unfold pagein, seg_content. rewrite Ht.
  destruct (text_read_ok (seg_fileoff sg + off * BY2PG)) as (bs & Hbs & Hlen & Hb).
  assert (0 <= seg_fileoff sg + off * BY2PG < 2 ^ 31 - BY2PG) as Hr.
  { unfold BY2PG in *. lia. }
  destruct (seg_type sg) eqn:Hty.
  - by exists ∅.
  - rewrite ulong_id by lia. rewrite Hbs.
    eexists. split_and!; [done..|by apply page_of_bytes_ok].
  - unfold s32. rewrite (wraps_id 32) by (unfold in_s; lia). rewrite Hbs. simpl.
    rewrite wraps_id by (unfold in_s, BY2PG in *; lia).
    specialize (so_data0 eq_refl off).
    rewrite (ulong_id (_ + Z.of_nat _)) by lia.
    destruct (Z.ltb_spec (seg_fileend sg)
      (seg_fileoff sg + off * BY2PG + Z.of_nat (length bs))).
    + rewrite ulong_id by lia. rewrite (proj2 (Z.leb_le _ _)) by lia.
      eexists. split_and!; [done..|by apply page_clear_from_ok, page_of_bytes_ok].
    + eexists. split_and!; [done..|by apply page_of_bytes_ok].
  - by exists ∅.
Qed.

(** A page that is in memory. *)
Definition resident (s : vi) (p : hostpage) (pg : page) : Prop :=
  0 <= p.2 /\ (memory s !! p.1 ≫= fun sg => seg_table sg !! Z.to_nat p.2) = Some (Some pg).

Lemma resident_content s p pg : resident s p pg -> content s p = Some pg.
Proof.
  intros [_ H]. unfold content, seg_content. destruct (memory s !! p.1) as [sg|]; [|done].
  simpl in *. by rewrite H.
Qed.

Lemma peek_runs s p pg o :
  resident s p pg -> o < BY2PG -> peek p o s = Ok (page_get pg o) s.
Proof.
  intros [_ H] Ho. unfold peek. rewrite H. by rewrite (proj2 (Z.ltb_lt _ _)) by done.
Qed.

(** Updates of one segment of a well-formed memory. *)
Lemma mem_ok_alter s f k :
  mem_ok s -> (forall sg, memory s !! k = Some sg -> seg_ok sg -> seg_ok (f sg)) ->
  mem_ok (set_memory (alter f k (memory s)) s).
Proof.
  intros [Hs Ht] Hf. split; [|done]. cbn [memory set_memory].
  apply Forall_alter; [done|]. intros sg Hk _. apply Hf; [done|].
  by eapply Forall_lookup_1 in Hs.
Qed.

Lemma arch_eq_alter s f k :
  keeps_bounds f ->
  (forall sg off, memory s !! k = Some sg -> 0 <= off ->
     seg_content (f sg) off = seg_content sg off) ->
  arch_eq (set_memory (alter f k (memory s)) s) s.
Proof.
  intros Hf Hc. split; [|done]. split.
  - intros a. by apply pageof_alter.
  - intros p Hp. rewrite content_alter. unfold content.
    destruct (memory s !! p.1) as [sg|] eqn:Hk; simpl; [|done].
    case_decide; [|done]. subst. by apply Hc.
Qed.

Lemma seg_ok_ref sg : seg_ok sg -> seg_ok (seg_ref sg).
Proof. intros []. by split. Qed.

Lemma seg_ok_fill sg off pg :
  map_Forall (fun _ b => in_u 8 b) pg -> seg_ok sg -> seg_ok (seg_fill off pg sg).
Proof.
  intros Hpg []. split; simpl; rewrite ?length_insert; try done.
  intros j pg' Hj.
  destruct (decide (j = off)) as [->|Hne].
  - destruct (decide (off < length (seg_table sg))%nat).
    + rewrite list_lookup_insert_eq in Hj by done. by simplify_eq.
    + rewrite list_insert_ge in Hj by lia. by eapply so_bytes0.
  - rewrite list_lookup_insert_ne in Hj by done. by eapply so_bytes0.
Qed.

Lemma seg_off_bound sg a :
  seg_ok sg -> seg_base sg <= a < seg_end sg ->
  0 <= (a - seg_base sg) / BY2PG < Z.of_nat (length (seg_table sg)).
Proof.
  intros [] Ha. rewrite so_table0. rewrite Z.max_r by lia.
  unfold BY2PG in *. Z.div_mod_to_equations. lia.
Qed.

Lemma quiet_dotlb a s :
  mem_ok s -> quiet (dotlb a) s (fun _ s' => memory s' = memory s).
Proof.
  intros [Hs Ht]. unfold quiet, runs, dotlb. unfold tlb_ok in Ht.
  case_bool_decide; [by split_and!|].
  pose proof (lnrand_range (E := E) (seed s) (tlb_size (tlb s))) as Hr.
  destruct (lnrand _ _) as [k g]. simpl in Hr.
  rewrite (proj2 (Z.leb_le _ _)), (proj2 (Z.ltb_lt _ _)) by lia. simpl.
  split_and!; [done| |done]. split; [done|]. unfold tlb_ok. simpl.
  by rewrite length_insert.
Qed.

Lemma quiet_vaddr_seg s a k sg :
  mem_ok s -> memory s !! k = Some sg -> seg_base sg <= a < seg_end sg ->
  quiet (vaddr_seg a k sg) s (fun p s' =>
    p = (k, (a - seg_base sg) / BY2PG) /\ exists pg, resident s' p pg).
Proof.
  intros Hok Hk Ha. pose proof Hok as [Hall _].
  assert (seg_ok sg) as Hsg by by eapply Forall_lookup_1 in Hall.
  pose proof (seg_off_bound sg a Hsg Ha) as Hoff.
  set (off := (a - seg_base sg) / BY2PG) in *.
  assert (s32 (ulong (a - seg_base sg) / BY2PG) = off) as Ho.
  { destruct Hsg. rewrite ulong_id by lia. fold off. unfold s32. apply wraps_id; [lia|].
    unfold in_s, BY2PG in *. lia. }
  unfold vaddr_seg. rewrite Ho. apply quiet_bind.
  eapply (runs_modify _ s).
  set (s1 := set_memory (alter seg_ref k (memory s)) s).
  assert (memory s1 !! k = Some (seg_ref sg)) as Hk1.
  { cbn. by rewrite list_lookup_alter_eq, Hk. }
  split_and!.
  - by apply arch_eq_alter.
  - apply mem_ok_alter; [done|]. intros; by apply seg_ok_ref.
  - assert (mem_ok s1) as Hok1.
    { apply mem_ok_alter; [done|]. intros; by apply seg_ok_ref. }
    assert (is_Some (seg_table sg !! Z.to_nat off)) as [e He].
    { apply lookup_lt_is_Some. lia. }
    rewrite He. destruct e as [pg|].
    + apply quiet_ret; [done|]. split; [done|]. exists pg. split; [simpl; lia|].
      cbn [fst snd]. by rewrite Hk1.
    + destruct (pagein_ok sg off s1 Hsg Hoff He) as (pg & Hp & Hc & Hb).
      unfold quiet, runs, mbind, M_bind. rewrite Hp. cbn -[alter seg_fill].
      split_and!.
      * etrans; [apply (arch_eq_alter s1)|done]; [done|].
        intros sg' j Hsg' Hj. rewrite Hk1 in Hsg'. simplify_eq.
        by apply seg_content_fill; [lia| |..].
      * apply (mem_ok_alter s1); [done|]. intros. by apply seg_ok_fill.
      * done.
      * exists pg. split; [simpl; lia|]. cbn [memory set_memory fst snd].
        rewrite list_lookup_alter_eq. change (alter seg_ref k (memory s)) with (memory s1).
        rewrite Hk1. simpl. apply list_lookup_insert_eq. by eapply lookup_lt_Some.
Qed.

Lemma vaddr_scan_find a k l s :
  vaddr_scan a k l s =
    match seg_find a k l with
    | None => Ok None s
    | Some (j, sg) => (p ← vaddr_seg a j sg; mret (Some p)) s
    end.
Proof.
  revert k. induction l as [|sg l IH]; intros k; simpl; [done|]. by destruct (_ && _).
Qed.

Lemma quiet_vaddr1 s a :
  mem_ok s ->
  quiet (vaddr1 a) s (fun v s' => v = pageof s a
    /\ forall p, v = Some p -> exists pg, resident s' p pg).
Proof.
  intros Hok. unfold vaddr1. apply quiet_bind, quiet_gets; [done|]. apply quiet_bind.
  assert (quiet (if tlb_on (tlb s) then dotlb a else skip) s
            (fun _ s' => memory s' = memory s)) as Ht.
  { destruct (tlb_on (tlb s)); [by apply quiet_dotlb|by apply quiet_ret]. }
  eapply quiet_mono; [exact Ht|]. clear Ht. intros [] s1 Hs1 Hok1 Hmem.
  apply quiet_bind, quiet_gets; [done|]. unfold quiet, runs. rewrite vaddr_scan_find.
  rewrite Hmem. unfold pageof.
  destruct (seg_find a 0 (memory s)) as [[j sg]|] eqn:Hf; simpl.
  2: { split_and!; try done. }
  apply seg_find_lookup in Hf as [Hj Ha].
  assert (quiet (vaddr_seg a j sg) s1 (fun p s' =>
    p = (j, (a - seg_base sg) / BY2PG) /\ exists pg, resident s' p pg)) as Hq.
  { apply quiet_vaddr_seg; [done|by rewrite Hmem|done]. }
  unfold quiet, runs, mbind, M_bind in *. destruct (vaddr_seg a j sg s1); try done.
  destruct Hq as (? & ? & -> & pg & ?). split_and!; try done.
  intros p ?. simplify_eq. eauto.
Qed.

Lemma quiet_vaddr s a p :
  mem_ok s -> pageof s a = Some p ->
  quiet (vaddr a) s (fun p' s' => p' = p /\ exists pg, resident s' p pg).
Proof.
  intros Hok Hp. unfold vaddr. apply quiet_bind.
  eapply quiet_mono; [by apply quiet_vaddr1|].
  intros v s1 _ Hok1 [-> Hres]. rewrite Hp. apply quiet_ret; [done|]. eauto.
Qed.

Lemma vaddr_miss s a :
  mem_ok s -> pageof s a = None -> exists s', vaddr a s = Longjmp s'.
Proof.
  intros Hok Hp. unfold vaddr, mbind, M_bind. pose proof (quiet_vaddr1 s a Hok) as Hq.
  unfold quiet, runs in Hq. destruct (vaddr1 a s) as [v s1| | | |]; try done.
  destruct Hq as (_ & _ & -> & _). rewrite Hp. simpl. eauto.
Qed.

(** ** Aligned accesses stay in a page *)

Lemma pgoff_mod a : pgoff a = a mod BY2PG.
Proof. unfold pgoff. change (BY2PG - 1) with (Z.ones 14). by rewrite Z.land_ones by lia. Qed.

Lemma pgoff_lt a : 0 <= pgoff a < BY2PG.
Proof. rewrite pgoff_mod. apply Z.mod_pos_bound. done. Qed.

(** [addr & (2^k-1)] is zero when [addr] is aligned. *)
Lemma aligned_pgoff a k i :
  0 <= k <= 14 -> a mod 2 ^ k = 0 -> 0 <= i < 2 ^ k ->
  pgoff (a + i) = pgoff a + i /\ pgoff a + i < BY2PG /\ (a + i) / BY2PG = a / BY2PG.
Proof.
  intros Hk Ha Hi. rewrite !pgoff_mod.
  assert (exists q, BY2PG = 2 ^ k * q /\ 0 < q) as (q & Hq & Hq0).
  { exists (2 ^ (14 - k)). rewrite <- Z.pow_add_r by lia.
    split; [by replace (k + (14 - k)) with 14 by lia|lia]. }
  assert (exists m, a = 2 ^ k * m) as (m & ->).
  { exists (a / 2 ^ k). by apply Z.div_exact; [lia|]. }
  rewrite Hq.
  assert (2 ^ k * m mod (2 ^ k * q) = 2 ^ k * (m mod q)) as Hm.
  { by rewrite Z.mul_mod_distr_l by lia. }
  pose proof (Z.mod_pos_bound m q Hq0).
  assert (2 ^ k * (m mod q) + i < 2 ^ k * q) by nia.
  pose proof (Z.div_mod (2 ^ k * m) (2 ^ k * q)).
  set (d := 2 ^ k * m / (2 ^ k * q)) in *.
  assert (2 ^ k * m + i = (2 ^ k * q) * d + (2 ^ k * (m mod q) + i)) as Hdm by nia.
  split_and!; [|lia|].
  - rewrite Hdm, Z.mul_comm, Z.add_comm, Z.mod_add, Z.mod_small by nia. lia.
  - rewrite Hdm, Z.mul_comm, Z.add_comm, Z.div_add, Z.div_small by nia. lia.
Qed.

Lemma seg_find_same l n a b :
  (forall sg, In sg l -> (seg_base sg <= a < seg_end sg) <-> (seg_base sg <= b < seg_end sg)) ->
  seg_find a n l = seg_find b n l.
Proof.
  revert n. induction l as [|sg l IH]; intros n H; simpl; [done|].
  pose proof (H sg (or_introl eq_refl)).
  rewrite IH by (intros; apply H; by right).
  destruct (Z.leb_spec (seg_base sg) a), (Z.leb_spec (seg_base sg) b),
    (Z.ltb_spec a (seg_end sg)), (Z.ltb_spec b (seg_end sg)); simpl; try done; lia.
Qed.

(** All bytes of a page-sized, page-aligned block are in one page. *)
Lemma pageof_same s a b :
  mem_ok s -> a / BY2PG = b / BY2PG -> pageof s a = pageof s b.
Proof.
  intros [Hs _] Hab. unfold pageof.
  rewrite (seg_find_same (memory s) 0 a b).
  - destruct (seg_find b 0 (memory s)) as [[k sg]|] eqn:Hf; simpl; [|done].
    apply seg_find_lookup in Hf as [Hk _].
    eapply Forall_lookup_1 in Hs; [|exact Hk]. destruct Hs.
    do 2 f_equal. unfold BY2PG in *. Z.div_mod_to_equations. lia.
  - intros sg Hin. rewrite <- list_elem_of_In in Hin.
    rewrite list.Forall_forall in Hs. apply Hs in Hin as [].
    unfold BY2PG in *. Z.div_mod_to_equations. lia.
Qed.

(** ** Loads *)

Definition view_h (s : vi) (a : Z) : option Z :=
  b0 ← view s a; b1 ← view s (a + 1); Some (u16 (Z.lor (Z.shiftl b0 8) b1)).

(** The big-endian word at [a]. *)
Definition view_w (s : vi) (a : Z) : option Z :=
  b0 ← view s a; b1 ← view s (a + 1); b2 ← view s (a + 2); b3 ← view s (a + 3);
  Some (be32 b0 b1 b2 b3).

Lemma view_in_page s p pg a k i :
  mem_ok s -> resident s p pg -> pageof s a = Some p ->
  0 <= k <= 14 -> a mod 2 ^ k = 0 -> 0 <= i < 2 ^ k ->
  view s (a + i) = Some (page_get pg (pgoff a + i)).
Proof.
  intros Hok Hr Hp Hk Ha Hi. destruct (aligned_pgoff a k i) as (Ho & _ & Hd); try done.
  unfold view. rewrite (pageof_same s (a + i) a) by done. rewrite Hp. simpl.
  rewrite (resident_content s p pg) by done. simpl. by rewrite Ho.
Qed.

Lemma view_in_page_0 s p pg a :
  resident s p pg -> pageof s a = Some p -> view s a = Some (page_get pg (pgoff a)).
Proof. intros Hr Hp. unfold view. rewrite Hp. simpl. by rewrite (resident_content s p pg). Qed.

Lemma land3_mod a : Z.land a 3 = a mod 4.
Proof. change 3 with (Z.ones 2). by rewrite Z.land_ones by lia. Qed.
Lemma land1_mod a : Z.land a 1 = a mod 2.
Proof. change 1 with (Z.ones 1) at 1. by rewrite Z.land_ones by lia. Qed.

Lemma arch_eq_view_w s t a : arch_eq s t -> view_w s a = view_w t a.
Proof. intros H. unfold view_w. by rewrite !(arch_eq_view s t). Qed.
Lemma arch_eq_view_h s t a : arch_eq s t -> view_h s a = view_h t a.
Proof. intros H. unfold view_h. by rewrite !(arch_eq_view s t). Qed.
Lemma arch_eq_pageof s t a : arch_eq s t -> pageof s a = pageof t a.
Proof. intros [H _]. apply H. Qed.

Lemma on_membpt_off m s : membpt s = 0 -> on_membpt m s = Ok tt s.
Proof. intros H. unfold on_membpt. by rewrite H. Qed.

Lemma quiet_on_membpt m s :
  mem_ok s -> membpt s = 0 -> quiet (on_membpt m) s (fun _ s' => s' = s).
Proof. intros. unfold quiet, runs. rewrite on_membpt_off by done. done. Qed.

(** Translate an address, then read its page: the common part of the loads. *)
Lemma quiet_load {A} s a p k (f : page -> option A) (m : hostpage -> M A) :
  mem_ok s -> pageof s a = Some p -> 0 <= k <= 14 -> a mod 2 ^ k = 0 ->
  (forall s1 pg, arch_eq s1 s -> mem_ok s1 -> resident s1 p pg ->
     (forall i, 0 <= i < 2 ^ k ->
        view s (a + i) = Some (page_get pg (pgoff a + i)) /\ pgoff a + i < BY2PG) ->
     quiet (m p) s1 (fun v _ => f pg = Some v)) ->
  quiet (p ← vaddr a; m p) s (fun v _ => exists pg, f pg = Some v /\
     forall i, 0 <= i < 2 ^ k -> view s (a + i) = Some (page_get pg (pgoff a + i))).
Proof.
  intros Hok Hp Hk Ha Hm. apply quiet_bind.
  eapply quiet_mono; [by apply quiet_vaddr|].
  intros p' s1 Hs1 Hok1 [-> [pg Hpg]].
  assert (forall i, 0 <= i < 2 ^ k ->
    view s (a + i) = Some (page_get pg (pgoff a + i)) /\ pgoff a + i < BY2PG) as Hv.
  { intros i Hi. rewrite <- (arch_eq_view s1 s) by done. split.
    - eapply (view_in_page s1 p pg a k); try done. by rewrite (arch_eq_pageof s1 s).
    - by destruct (aligned_pgoff a k i) as (_ & ? & _). }
  eapply quiet_mono; [by apply Hm|]. intros v s2 _ _ Hf. exists pg. split; [done|].
  intros i Hi. by apply Hv.
Qed.

Lemma quiet_getmem_b s a p :
  mem_ok s -> membpt s = 0 -> pageof s a = Some p ->
  quiet (getmem_b a) s (fun v _ => view s a = Some v).
Proof.
  intros Hok Hm Hp. unfold getmem_b. apply quiet_bind.
  eapply quiet_mono; [by apply quiet_on_membpt|]. intros [] s0 _ _ ->.
  eapply quiet_mono.
  - apply (quiet_load s a p 0 (fun pg => Some (page_get pg (pgoff a)))); try done; try lia.
    + by rewrite Z.mod_1_r.
    + intros s1 pg _ Hok1 Hpg Hv. unfold quiet, runs.
      rewrite (peek_runs s1 p pg) by (done || apply pgoff_lt). done.
  - intros v s' _ _ (pg & Hf & Hv). simplify_eq.
    specialize (Hv 0). rewrite !Z.add_0_r in Hv. by apply Hv.
Qed.

Lemma peek_w_runs s p pg o :
  resident s p pg -> o + 3 < BY2PG ->
  peek_w p o s = Ok (be32 (page_get pg o) (page_get pg (o + 1)) (page_get pg (o + 2))
                          (page_get pg (o + 3))) s.
Proof.
  intros Hr Ho. unfold peek_w, mbind, M_bind.
  by rewrite !(peek_runs s p pg) by (done || lia).
Qed.

Lemma quiet_word s a p :
  mem_ok s -> pageof s a = Some p -> a mod 4 = 0 ->
  quiet (p ← vaddr a; peek_w p (pgoff a)) s (fun w _ => view_w s a = Some w).
Proof.
  intros Hok Hp Ha. eapply quiet_mono.
  - apply (quiet_load s a p 2 (fun pg => let o := pgoff a in
      Some (be32 (page_get pg o) (page_get pg (o + 1)) (page_get pg (o + 2))
                 (page_get pg (o + 3))))); try done; try lia.
    intros s1 pg _ Hok1 Hpg Hv. unfold quiet, runs.
    destruct (Hv 3); [lia|]. rewrite (peek_w_runs s1 p pg) by done. done.
  - intros w s' _ _ (pg & Hf & Hv). simpl in Hf. simplify_eq. unfold view_w.
    pose proof (Hv 0) as Hv0. rewrite !Z.add_0_r in Hv0.
    rewrite Hv0, !Hv by lia. done.
Qed.

Lemma quiet_getmem_w s a p :
  mem_ok s -> membpt s = 0 -> pageof s a = Some p -> a mod 4 = 0 ->
  quiet (getmem_w a) s (fun w _ => view_w s a = Some w).
Proof.
  intros Hok Hm Hp Ha. unfold getmem_w. rewrite land3_mod, Ha. simpl.
  apply quiet_bind. eapply quiet_mono; [by apply quiet_on_membpt|]. intros [] s0 _ _ ->.
  by apply (quiet_word s a p).
Qed.

Lemma quiet_getmem_h s a p :
  mem_ok s -> membpt s = 0 -> pageof s a = Some p -> a mod 2 = 0 ->
  quiet (getmem_h a) s (fun w _ => view_h s a = Some w).
Proof.
  intros Hok Hm Hp Ha. unfold getmem_h. rewrite land1_mod, Ha. simpl.
  apply quiet_bind. eapply quiet_mono; [by apply quiet_on_membpt|]. intros [] s0 _ _ ->.
  eapply quiet_mono.
  - apply (quiet_load s a p 1 (fun pg => let o := pgoff a in
      Some (u16 (Z.lor (Z.shiftl (page_get pg o) 8) (page_get pg (o + 1))))));
      try done; try lia.
    intros s1 pg _ Hok1 Hpg Hv. unfold quiet, runs, mbind, M_bind.
    destruct (Hv 1); [lia|]. by rewrite !(peek_runs s1 p pg) by (done || lia).
  - intros w s' _ _ (pg & Hf & Hv). simpl in Hf. simplify_eq. unfold view_h.
    pose proof (Hv 0) as Hv0. rewrite !Z.add_0_r in Hv0.
    rewrite Hv0, !Hv by lia. done.
Qed.

(** An instruction fetch, inside the text segment the profile counts. *)
Definition fetchable (s : vi) (a : Z) : Prop :=
  a mod 4 = 0 /\ ulong (a - textbase s) / PROFGRAN < iprof_len s
  /\ is_Some (pageof s a).

Lemma quiet_ifetch s a :
  mem_ok s -> fetchable s a -> quiet (ifetch a) s (fun w _ => view_w s a = Some w).
Proof.
  intros Hok (Ha & Hi & p & Hp). unfold ifetch. rewrite land3_mod, Ha. simpl.
  apply quiet_bind, quiet_gets; [done|]. apply quiet_bind.
  assert (forall b : bool, quiet (if b then updateicache a else skip) s
            (fun _ s' => s' = s)) as Hic by by intros [].
  eapply quiet_mono; [apply Hic|]. intros [] s0 _ _ ->. apply quiet_bind.
  unfold quiet at 1, runs, count_iprof. rewrite (proj2 (Z.ltb_lt _ _)) by done.
  split_and!; [done|done|].
  eapply quiet_mono; [by apply (quiet_word (set_iprof _ s) a p)|done].
Qed.

(** ** Stores *)

(** [s'] is [s] with the bytes of page [p] replaced by [pg']. *)
Record page_upd (s s' : vi) (p : hostpage) (pg' : page) : Prop := {
  pu_ok : mem_ok s';
  pu_regs : regs_eq s' s;
  pu_pageof : forall a, pageof s' a = pageof s a;
  pu_res : resident s' p pg';
  pu_other : forall p', 0 <= p'.2 -> p' <> p -> content s' p' = content s p' }.

Lemma page_upd_refl s p pg : mem_ok s -> resident s p pg -> page_upd s s p pg.
Proof. by split. Qed.

Lemma page_upd_trans s1 s2 s3 p pg2 pg3 :
  page_upd s1 s2 p pg2 -> page_upd s2 s3 p pg3 -> page_upd s1 s3 p pg3.
Proof.
  intros [] []. split; try done.
  - by etrans.
  - intros a. by rewrite pu_pageof1.
  - intros p' ??. by rewrite pu_other1, pu_other0.
Qed.

Lemma seg_ok_poke sg off o b : seg_ok sg -> seg_ok (seg_poke off o (u8 b) sg).
Proof.
  intros []. split; simpl; rewrite ?length_alter; try done.
  intros j pg Hj. destruct (decide (j = off)) as [->|Hne].
  - rewrite list_lookup_alter_eq in Hj.
    destruct (seg_table sg !! off) as [[pg0|]|] eqn:He; simpl in Hj; simplify_eq.
    apply map_Forall_insert_2; [by apply wrapu_range|]. by eapply so_bytes0.
  - rewrite list_lookup_alter_ne in Hj by done. by eapply so_bytes0.
Qed.

Lemma poke_runs s p pg o b :
  mem_ok s -> resident s p pg -> o < BY2PG ->
  runs (poke p o b) s (fun _ s' => page_upd s s' p (<[o := u8 b]> pg)).
Proof.
  intros Hok [Hp Hr] Ho. destruct p as [k j]. cbn [fst snd] in *.
  unfold runs, poke. cbn [fst snd]. rewrite Hr, (proj2 (Z.ltb_lt _ _)) by done.
  unfold upd_seg, modify. set (f := seg_poke (Z.to_nat j) o (u8 b)).
  destruct (memory s !! k) as [sg|] eqn:Hk; simpl in Hr; [|done].
  split.
  - apply mem_ok_alter; [done|]. intros; by apply seg_ok_poke.
  - done.
  - intros a. by apply pageof_alter.
  - split; [done|]. cbn -[alter]. rewrite list_lookup_alter_eq, Hk. simpl.
    change (list_alter ?g ?n ?l) with (alter g n l).
    by rewrite list_lookup_alter_eq, Hr.
  - intros [k' j'] Hj' Hne. rewrite content_alter. unfold content. cbn [fst snd] in *.
    destruct (memory s !! k') as [sg'|] eqn:Hk'; simpl; [|done].
    case_decide as Hkk; [|done]. subst k'. unfold seg_content, f. simpl.
    rewrite list_lookup_alter_ne; [done|]. intros Hjj. apply Hne. f_equal. lia.
Qed.

Fixpoint poke_list (p : hostpage) (o : Z) (bs : list Z) : M unit :=
  match bs with
  | [] => skip
  | b :: bs' => poke p o b;; poke_list p (o + 1) bs'
  end.

Fixpoint page_put (o : Z) (bs : list Z) (pg : page) : page :=
  match bs with
  | [] => pg
  | b :: bs' => page_put (o + 1) bs' (<[o := u8 b]> pg)
  end.

Lemma poke_list_runs bs s p pg o :
  mem_ok s -> resident s p pg -> o + Z.of_nat (length bs) <= BY2PG ->
  runs (poke_list p o bs) s (fun _ s' => page_upd s s' p (page_put o bs pg)).
Proof.
  revert s pg o. induction bs as [|b bs IH]; intros s pg o Hok Hr Ho; simpl in *.
  - by apply page_upd_refl.
  - apply runs_bind. eapply runs_mono; [by apply poke_runs; [..|lia]|].
    intros [] s1 H1. pose proof H1 as [Hok1 _ _ Hr1 _].
    eapply runs_mono; [apply IH; [done..|lia]|].
    intros [] s2 H2. by eapply page_upd_trans.
Qed.

Lemma page_put_get bs pg o j :
  page_get (page_put o bs pg) j =
    if decide (o <= j < o + Z.of_nat (length bs))
    then default 0 (u8 <$> bs !! Z.to_nat (j - o)) else page_get pg j.
Proof.
  revert pg o. induction bs as [|b bs IH]; intros pg o; cbn [page_put length].
  - by rewrite decide_False by lia.
  - rewrite IH. destruct (decide (o = j)) as [->|Hne].
    + rewrite decide_False, decide_True by lia. rewrite Z.sub_diag. simpl.
      unfold page_get. by rewrite lookup_insert_eq.
    + unfold page_get at 1. rewrite lookup_insert_ne by done.
      destruct (decide (o + 1 <= j < o + 1 + Z.of_nat (length bs))).
      * rewrite decide_True by lia.
        by replace (Z.to_nat (j - o)) with (S (Z.to_nat (j - (o + 1)))) by lia.
      * rewrite decide_False by lia. done.
Qed.

(** The flat map [v] with [bs] written from [a] on. *)
Definition upd_view (v : Z -> option Z) (a : Z) (bs : list Z) (x : Z) : option Z :=
  if decide (a <= x < a + Z.of_nat (length bs))
  then u8 <$> bs !! Z.to_nat (x - a) else v x.

Lemma pageof_inj s x y p :
  mem_ok s -> pageof s x = Some p -> pageof s y = Some p -> pgoff x = pgoff y -> x = y.
Proof.
  intros [Hs _] Hx Hy Hxy. unfold pageof in *.
  destruct (seg_find x 0 (memory s)) as [[k sg]|] eqn:Hfx; simpl in Hx; [|done].
  destruct (seg_find y 0 (memory s)) as [[k' sg']|] eqn:Hfy; simpl in Hy; [|done].
  apply seg_find_lookup in Hfx as [Hk _], Hfy as [Hk' _]. simplify_eq.
  eapply Forall_lookup_1 in Hs; [|exact Hk]. destruct Hs.
  rewrite !pgoff_mod in Hxy. unfold BY2PG in *. Z.div_mod_to_equations. lia.
Qed.

(** A store: the registers and the address space stay, the view is updated. *)
Record store_eq (s s' : vi) (a : Z) (bs : list Z) : Prop := {
  se_ok : mem_ok s';
  se_regs : regs_eq s' s;
  se_pageof : forall x, pageof s' x = pageof s x;
  se_view : forall x, view s' x = upd_view (view s) a bs x }.

Lemma page_upd_store s s' a p pg bs k :
  mem_ok s -> resident s p pg -> pageof s a = Some p ->
  0 <= k <= 14 -> a mod 2 ^ k = 0 -> Z.of_nat (length bs) <= 2 ^ k ->
  page_upd s s' p (page_put (pgoff a) bs pg) -> store_eq s s' a bs.
Proof.
  intros Hok Hr Hp Hk Ha Hlen []. split; try done. intros x. unfold upd_view.
  case_decide as Hx.
  - replace x with (a + (x - a)) at 1 by lia.
    rewrite (view_in_page s' p _ a k) by (done || lia || by rewrite pu_pageof0).
    rewrite page_put_get, decide_True by lia.
    replace (pgoff a + (x - a) - pgoff a) with (x - a) by lia.
    destruct (bs !! Z.to_nat (x - a)) eqn:Hb; simpl; [done|].
    apply lookup_ge_None in Hb. lia.
  - unfold view. rewrite pu_pageof0. destruct (pageof s x) as [p'|] eqn:Hpx; simpl; [|done].
    destruct (decide (p' = p)) as [->|Hne].
    + rewrite (resident_content s p pg), (resident_content s' p _) by done. simpl. f_equal.
      rewrite page_put_get. apply decide_False. intros Hin. apply Hx.
      assert (exists i, i = pgoff x - pgoff a) as [i Hi] by eauto.
      destruct (aligned_pgoff a k i) as (Hoi & _ & Hdi); [done|done|lia|].
      assert (x = a + i) as ->; [|lia].
      apply (pageof_inj s x (a + i) p); try done; [|lia].
      by rewrite (pageof_same s (a + i) a).
    + rewrite pu_other0; [done| |done]. by eapply pageof_nonneg.
Qed.

Lemma arch_eq_store s0 s s' a bs :
  arch_eq s s0 -> store_eq s s' a bs -> store_eq s0 s' a bs.
Proof.
  intros H []. split; try done.
  - etrans; [done|]. apply H.
  - intros x. rewrite se_pageof0. by apply arch_eq_pageof.
  - intros x. rewrite se_view0. unfold upd_view. case_decide; [done|].
    by apply arch_eq_view.
Qed.

Lemma runs_store s a p k bs :
  mem_ok s -> membpt s = 0 -> pageof s a = Some p ->
  0 <= k <= 14 -> a mod 2 ^ k = 0 -> Z.of_nat (length bs) <= 2 ^ k ->
  runs (p ← vaddr a; poke_list p (pgoff a) bs;; on_membpt (brkchk a Write)) s
    (fun _ s' => store_eq s s' a bs).
Proof.
  intros Hok Hm Hp Hk Ha Hlen. apply runs_bind.
  eapply runs_mono; [by apply quiet_vaddr|].
  intros p' s1 (Hs1 & Hok1 & -> & pg & Hpg). apply runs_bind.
  assert (pageof s1 a = Some p) as Hp1 by by rewrite (arch_eq_pageof s1 s).
  eapply runs_mono.
  { apply (poke_list_runs bs s1 p pg); [done..|].
    destruct (aligned_pgoff a k (2 ^ k - 1)) as (? & ? & ?); [done|done|lia|]. lia. }
  intros [] s2 H2. unfold runs. rewrite on_membpt_off.
  - eapply arch_eq_store; [done|]. by eapply page_upd_store.
  - rewrite (re_membpt s2 s1) by apply H2. by rewrite (re_membpt s1 s) by apply Hs1.
Qed.

(** ** Breakpoints on loads *)

(** [Equal] has no bit of [Read]: a load never compares, so never loads again. *)
Lemma equal_not_read b : b_type b = Equal -> Z.land (b_type b) Read = 0.
Proof. by intros ->. Qed.

Lemma brkchk_read_same gm4 gm4' a n : forall i s,
  brkchk_loop gm4 a Read n i s = brkchk_loop gm4' a Read n i s.
Proof.
  induction n as [|n IH]; intros i s; [done|].
  cbn [brkchk_loop]. unfold mbind, M_bind, gets.
  destruct (bplist s !! i) as [b|]; [|done].
  destruct (Z.eqb_spec (b_addr b) a); cbn [andb]; [|apply IH].
  destruct (Z.eqb_spec (Z.land (b_type b) Read) 0) as [|Hr]; cbn [negb]; [apply IH|].
  destruct (Z.eqb_spec (b_type b) Equal) as [He|]; [by apply equal_not_read in He|].
  cbn -[Z.sub]. destruct (bplist s !! i); [|done]. cbn -[Z.sub].
  destruct (_ =? 0); [done|]. apply IH.
Qed.
End Spec.
