(* ===== verification/CFloat.v ===== *)
(** The [float] and [double] arithmetic of C on IEEE 754 bit patterns: the standard
    library's [SpecFloat] between a decoder and an encoder of the two formats. *)
From Stdlib Require Import SpecFloat.
From S2P Require Import Prelude CInt.

Section Format.
(** Significand and exponent parameters ([24,128] or [53,1024]) and the pattern used
    for NaN results. *)
Variables (prec emax nan : Z).

Definition mant_bits : Z := prec - 1.
Definition exp_max : Z := 2 * emax - 1.

Definition sign_mask : Z := Z.shiftl (2 * emax) mant_bits.

Definition of_bits (b : Z) : spec_float :=
  let s := Z.testbit b (mant_bits + Z.log2 (2 * emax)) in
  let e := Z.shiftr b mant_bits mod (2 * emax) in
  let m := b mod 2 ^ mant_bits in
  if e =? exp_max then
    if m =? 0 then S754_infinity s else S754_nan
  else if e =? 0 then
    match m with Z.pos p => S754_finite s p (SpecFloat.emin prec emax) | _ => S754_zero s end
  else
    match m + 2 ^ mant_bits with
    | Z.pos p => S754_finite s p (e + SpecFloat.emin prec emax - 1)
    | _ => S754_nan
    end.

Definition to_bits (f : spec_float) : Z :=
  let signed (s : bool) v := if s then sign_mask + v else v in
  match f with
  | S754_zero s => signed s 0
  | S754_infinity s => signed s (exp_max * 2 ^ mant_bits)
  | S754_nan => nan
  | S754_finite s p e =>
      if Z.pos p <? 2 ^ mant_bits then signed s (Z.pos p)
      else signed s ((e - SpecFloat.emin prec emax + 1) * 2 ^ mant_bits
                     + (Z.pos p - 2 ^ mant_bits))
  end.

Definition f_add (a b : Z) : Z := to_bits (SFadd prec emax (of_bits a) (of_bits b)).
Definition f_sub (a b : Z) : Z := to_bits (SFsub prec emax (of_bits a) (of_bits b)).
Definition f_mul (a b : Z) : Z := to_bits (SFmul prec emax (of_bits a) (of_bits b)).
Definition f_div (a b : Z) : Z := to_bits (SFdiv prec emax (of_bits a) (of_bits b)).
Definition f_neg (a : Z) : Z := Z.lxor a sign_mask.
Definition f_cmp (a b : Z) : option comparison := SFcompare (of_bits a) (of_bits b).

(** Conversion of an integer, rounding to nearest. *)
Definition f_of_int (z : Z) : Z := to_bits (binary_normalize prec emax z 0 false).

(** Conversion of a value of another format. *)
Definition f_of_float (f : spec_float) : Z :=
  to_bits match f with
          | S754_finite s p e =>
              binary_normalize prec emax (if s then Z.neg p else Z.pos p) e s
          | _ => f
          end.
End Format.

(** Truncation towards zero; undefined on NaN and infinities. *)
Definition int_of_float (f : spec_float) : option Z :=
  match f with
  | S754_zero _ => Some 0
  | S754_finite s p e =>
      let v := if 0 <=? e then Z.pos p * 2 ^ e else Z.pos p / 2 ^ (- e) in
      Some (if s then - v else v)
  | _ => None
  end.

Example f_add_1_2 : f_add 24 128 0x7fc00000 0x3f800000 0x40000000 = 0x40400000.
Proof. reflexivity. Qed.
Example f_of_int_m3 : f_of_int 53 1024 0 (-3) = 0xc008000000000000.
Proof. reflexivity. Qed.
Example f_div_1_3 : f_div 53 1024 0 0x3ff0000000000000 0x4008000000000000 = 0x3fd5555555555555.
Proof. vm_compute. reflexivity. Qed.
Example f_narrow : f_of_float 24 128 0 (of_bits 53 1024 0x3fd5555555555555) = 0x3eaaaaab.
Proof. vm_compute. reflexivity. Qed.
Example f_trunc : int_of_float (of_bits 53 1024 0xc00e000000000000) = Some (-3).
Proof. reflexivity. Qed.
Example f_denormal : to_bits 24 128 0 (of_bits 24 128 0x80000001) = 0x80000001.
Proof. reflexivity. Qed.
