(* ===== verification/ViArith.v ===== *)
(** The 32x32 to 64 bit multiplications of [vi.c], written for a host whose [ulong] is
    as wide as the emulated word. *)
From S2P Require Import Prelude CInt ViMachine.

Section Arith.
Context {E : ViEnv}.

(** [Mulu mulu(ulong, ulong)]: (lo, hi). *)
Definition mulu (u1 u2 : Z) : Z * Z :=
  let lo1 := Z.land u1 0xffff in
  let lo2 := Z.land u2 0xffff in
  let hi1 := Z.shiftr u1 16 in
  let hi2 := Z.shiftr u2 16 in
  let lo := ulong (lo1 * lo2) in
  let t1 := ulong (lo1 * hi2) in
  let t2 := ulong (lo2 * hi1) in
  let hi := ulong (hi1 * hi2) in
  let t := lo in
  let lo := ulong (lo + ulong (Z.shiftl t1 16)) in
  let hi := if lo <? t then ulong (hi + 1) else hi in
  let t := lo in
  let lo := ulong (lo + ulong (Z.shiftl t2 16)) in
  let hi := if lo <? t then ulong (hi + 1) else hi in
  let hi := ulong (hi + ulong (Z.shiftr t1 16 + Z.shiftr t2 16)) in
  (lo, hi).

(** [Mul mul(long, long)]: (lo, hi). *)
Definition mul (l1 l2 : Z) : Z * Z :=
  let sign := false in
  let '(sign, l1) := if l1 <? 0 then (negb sign, slong (- l1)) else (sign, l1) in
  let '(sign, l2) := if l2 <? 0 then (negb sign, slong (- l2)) else (sign, l2) in
  let '(lo, hi) := mulu (ulong l1) (ulong l2) in
  if (sign : bool) then
    let lo := ulong (Z.lnot lo) in
    let t := lo in
    let hi := ulong (Z.lnot hi) in
    let lo := ulong (lo + 1) in
    let hi := if lo <? t then ulong (hi + 1) else hi in
    (slong lo, slong hi)
  else (slong lo, slong hi).
End Arith.
