(* ===== verification/ViSpecial.v ===== *)
(** [special.c]: the register instructions of the MIPS emulator, opcode 0. *)
From S2P Require Import Prelude CInt ViMachine ViMem ViArith.

(** ** Registers and statistics *)

(** [reg.r[i]]: 32 elements; any other index is outside the array. *)
Definition rget (i : Z) : M Z := fun s =>
  match reg_r (reg s) !! Z.to_nat i with Some v => Ok v s | None => Fault end.

(** [reg.r[i] = v], with the conversion to [int32]. *)
Definition rset (i v : Z) : M unit := fun s =>
  if i <? Z.of_nat (length (reg_r (reg s)))
  then Ok tt (set_r (<[Z.to_nat i := s32 v]> (reg_r (reg s))) s) else Fault.

(** The rows of the instruction tables: [itab], [ispec] and [cop1]. *)
Definition row_itab (i : Z) : Z := i.
Definition row_ispec (i : Z) : Z := 64 + i.
Definition row_cop1 (i : Z) : Z := 128 + i.

Definition bump (f : InstStat -> InstStat) (k : Z) : M unit :=
  modify (fun s => set_istat (<[k := f (default InstStat0 (istat s !! k))]> (istat s)) s).

(** [i->count++] *)
Definition stat_count : Z -> M unit :=
  bump (fun i => mkInstStat (s32 (i_count i + 1)) (i_taken i) (i_useddelay i)).
Definition stat_taken : Z -> M unit :=
  bump (fun i => mkInstStat (i_count i) (s32 (i_taken i + 1)) (i_useddelay i)).
Definition stat_useddelay : Z -> M unit :=
  bump (fun i => mkInstStat (i_count i) (i_taken i) (s32 (i_useddelay i + 1))).

(** [Statbra()] *)
Definition Statbra : M unit :=
  ip ← gets (fun s => reg_ip (reg s));
  ir ← gets (fun s => reg_ir (reg s));
  stat_taken ip;;
  (if ir =? INOP then skip else stat_useddelay ip).

Section Special.
Context {E : ViEnv}.

Definition undef (inst : Z) : M unit :=
  Bprint "Undefined Instruction Trap IR %.8lux\n" [inst];; longjmp.

Definition Snor (inst : Z) : M unit :=
  let rs := Getrs inst in let rt := Getrt inst in let rd := Getrd inst in
  tracing (itrace "nor\tr%d,r%d,r%d" [rd; rs; rt]);;
  if inst =? INOP then modify (fun s => set_nopcount (s32 (nopcount s + 1)) s)
  else
    t ← rget rt; v ← rget rs; rset rd (Z.lnot (Z.lor t v)).

Definition Ssll (inst : Z) : M unit :=
  let rt := Getrt inst in let rd := Getrd inst in let shamt := Getshamt inst in
  tracing (itrace "sll\tr%d,r%d,%d" [rd; rt; shamt]);;
  t ← rget rt; rset rd (Z.shiftl t shamt).

Definition Ssllv (inst : Z) : M unit :=
  let rs := Getrs inst in let rt := Getrt inst in let rd := Getrd inst in
  tracing (itrace "sllv\tr%d,r%d,r%d" [rd; rt; rs]);;
  t ← rget rt; v ← rget rs; rset rd (Z.shiftl t (Z.land v 0x1f)).

(** [(ulong)reg.r[rt] >> n]: the operand is sign-extended to the host's [ulong]. *)
Definition Ssrlv (inst : Z) : M unit :=
  let rs := Getrs inst in let rt := Getrt inst in let rd := Getrd inst in
  tracing (itrace "srlv\tr%d,r%d,r%d" [rd; rt; rs]);;
  t ← rget rt; v ← rget rs; rset rd (Z.shiftr (ulong t) (Z.land v 0x1f)).

(** The common expression of [Ssra] and [Ssrav]. *)
Definition sra (t shamt : Z) : Z :=
  if negb (shamt =? 0) && negb (Z.land t SIGNBIT =? 0) then
    Z.lor (Z.shiftr t shamt) (Z.lnot (s32 (s32 (Z.shiftl 1 (32 - shamt)) - 1)))
  else Z.shiftr t shamt.

Definition Ssrav (inst : Z) : M unit :=
  let rs := Getrs inst in let rt := Getrt inst in let rd := Getrd inst in
  tracing (itrace "srav\tr%d,r%d,r%d" [rd; rt; rs]);;
  v ← rget rs; t ← rget rt; rset rd (sra t (Z.land v 0x1f)).

Definition Ssrl (inst : Z) : M unit :=
  let rt := Getrt inst in let rd := Getrd inst in let shamt := Getshamt inst in
  tracing (itrace "srl\tr%d,r%d,%d" [rd; rt; shamt]);;
  t ← rget rt; rset rd (Z.shiftr (ulong t) shamt).

Definition Ssra (inst : Z) : M unit :=
  let rt := Getrt inst in let rd := Getrd inst in let shamt := Getshamt inst in
  tracing (itrace "sra\tr%d,r%d,%d" [rd; rt; shamt]);;
  t ← rget rt; rset rd (sra t shamt).

Definition Sslt (inst : Z) : M unit :=
  let rs := Getrs inst in let rt := Getrt inst in let rd := Getrd inst in
  tracing (itrace "slt\tr%d,r%d,r%d" [rd; rs; rt]);;
  v ← rget rs; t ← rget rt; rset rd (if v <? t then 1 else 0).

Definition Ssltu (inst : Z) : M unit :=
  let rs := Getrs inst in let rt := Getrt inst in let rd := Getrd inst in
  tracing (itrace "sltu\tr%d,r%d,r%d" [rd; rs; rt]);;
  v ← rget rs; t ← rget rt; rset rd (if u32 v <? u32 t then 1 else 0).

Definition Sand (inst : Z) : M unit :=
  let rs := Getrs inst in let rt := Getrt inst in let rd := Getrd inst in
  tracing (itrace "and\tr%d,r%d,r%d" [rd; rs; rt]);;
  v ← rget rs; t ← rget rt; rset rd (Z.land v t).

Definition Saddu (inst : Z) : M unit :=
  let rs := Getrs inst in let rt := Getrt inst in let rd := Getrd inst in
  tracing (itrace "addu\tr%d,r%d,r%d" [rd; rs; rt]);;
  v ← rget rs; t ← rget rt; rset rd (v + t).

Definition Sadd (inst : Z) : M unit :=
  let rs := Getrs inst in let rt := Getrt inst in let rd := Getrd inst in
  tracing (itrace "add\tr%d,r%d,r%d" [rd; rs; rt]);;
  v ← rget rs; t ← rget rt; rset rd (v + t).

Definition Ssubu (inst : Z) : M unit :=
  let rs := Getrs inst in let rt := Getrt inst in let rd := Getrd inst in
  tracing (itrace "subu\tr%d,r%d,r%d" [rd; rs; rt]);;
  v ← rget rs; t ← rget rt; rset rd (v - t).

Definition Sor (inst : Z) : M unit :=
  let rs := Getrs inst in let rt := Getrt inst in let rd := Getrd inst in
  tracing (itrace "or\tr%d,r%d,r%d" [rd; rs; rt]);;
  v ← rget rs; t ← rget rt; rset rd (Z.lor v t).

Definition Sxor (inst : Z) : M unit :=
  let rs := Getrs inst in let rt := Getrt inst in let rd := Getrd inst in
  tracing (itrace "or\tr%d,r%d,r%d" [rd; rs; rt]);;
  v ← rget rs; t ← rget rt; rset rd (Z.lxor v t).

Definition Sdivu (inst : Z) : M unit :=
  let rs := Getrs inst in let rt := Getrt inst in
  tracing (itrace "divu\tr%d,r%d" [rs; rt]);;
  v ← rget rs; t ← rget rt;
  if ulong t =? 0 then fault
  else
    modify (set_mlo (ulong v / ulong t));;
    modify (set_mhi (ulong v mod ulong t)).

(** [int / int] traps on a zero divisor and on the quotient [2^31]. *)
Definition Sdiv (inst : Z) : M unit :=
  let rs := Getrs inst in let rt := Getrt inst in
  tracing (itrace "div\tr%d,r%d" [rs; rt]);;
  v ← rget rs; t ← rget rt;
  if (t =? 0) || (Z.quot v t =? 2 ^ 31) then fault
  else
    modify (set_mlo (ulong (Z.quot v t)));;
    modify (set_mhi (ulong (Z.rem v t))).

(** [rd = (inst>>11)&0x1ff]: nine bits select one of 32 registers. *)
Definition Smfhi (inst : Z) : M unit :=
  let rd := Z.land (Z.shiftr inst 11) 0x1ff in
  tracing (itrace "mfhi\tr%d" [rd]);;
  h ← gets (fun s => reg_mhi (reg s)); rset rd h.

Definition Smflo (inst : Z) : M unit :=
  let rd := Z.land (Z.shiftr inst 11) 0x1ff in
  tracing (itrace "mflo\tr%d" [rd]);;
  l ← gets (fun s => reg_mlo (reg s)); rset rd l.

Definition Smult (inst : Z) : M unit :=
  let rs := Getrs inst in let rt := Getrt inst in
  tracing (itrace "mult\tr%d,r%d" [rs; rt]);;
  v ← rget rs; t ← rget rt;
  let '(lo, hi) := mul v t in
  modify (set_mlo (ulong lo));; modify (set_mhi (ulong hi)).

Definition Smultu (inst : Z) : M unit :=
  let rs := Getrs inst in let rt := Getrt inst in
  tracing (itrace "multu\tr%d,r%d" [rs; rt]);;
  v ← rget rs; t ← rget rt;
  let '(lo, hi) := mulu (ulong v) (ulong t) in
  modify (set_mlo lo);; modify (set_mhi hi).

(** ** Jumps: [Iexec] runs the delay slot *)

Section Jumps.
Variable Iexec : Z -> M unit.

(** [reg.ir = ifetch(reg.pc+4); Statbra(); Iexec(reg.ir);] *)
Definition delay_slot (stat : bool) : M unit :=
  pc ← gets (fun s => reg_pc (reg s));
  w ← ifetch (ulong (pc + 4));
  modify (set_ir w);;
  (if stat then Statbra else skip);;
  ir ← gets (fun s => reg_ir (reg s));
  Iexec ir.

Definition Sjr (inst : Z) : M unit :=
  let rs := Getrs inst in
  v ← rget rs;
  let npc := ulong v in
  tracing (itrace "jr\t0x%lux" [npc]);;
  delay_slot true;;
  ct ← gets calltree;
  (if (ct : bool) && ((rs =? 31) || (rs =? 2)) then printcall inst npc else skip);;
  modify (set_pc (ulong (npc - 4))).

Definition Sjalr (inst : Z) : M unit :=
  let rs := Getrs inst in let rd := Getrd inst in
  v ← rget rs;
  let npc := ulong v in
  tracing (itrace "jalr\tr%d,r%d" [rd; rs]);;
  pc ← gets (fun s => reg_pc (reg s));
  rset rd (ulong (pc + 8));;
  delay_slot true;;
  ct ← gets calltree;
  (if (ct : bool) then printcall inst npc else skip);;
  modify (set_pc (ulong (npc - 4))).

(** The table [ispec]. *)
Definition ispec : list (Z -> M unit) :=
  [ Ssll; undef; Ssrl; Ssra; Ssllv; undef; Ssrlv; Ssrav;
    Sjr; Sjalr; undef; undef; Ssyscall; undef; undef; undef;
    Smfhi; undef; Smflo; undef; undef; undef; undef; undef;
    Smult; Smultu; Sdiv; Sdivu; undef; undef; undef; undef;
    Sadd; Saddu; undef; Ssubu; Sand; Sor; Sxor; Snor;
    undef; undef; Sslt; Ssltu; undef; undef; undef; undef;
    undef; undef; undef; undef; undef; undef; undef; undef;
    undef; undef; undef; undef; undef; undef; undef; undef ].

Definition Ispecial (inst : Z) : M unit :=
  let k := Z.land inst 0x3f in
  modify (set_ip (row_ispec k));;
  stat_count (row_ispec k);;
  match ispec !! Z.to_nat k with Some f => f inst | None => fault end.
End Jumps.
End Special.
