(* ===== verification/ViFloat.v ===== *)
(** [float.c]: coprocessor 1 of the MIPS emulator. Registers live in a union of
    [double fd[16]], [float fl[32]] and [ulong di[32]], kept here as 32-bit words of a
    little-endian host: [fl[i]] is word [i], [fd[k]] words [2k] and [2k+1], and [di[i]]
    word [i] where [ulong] has 32 bits but words [2i] and [2i+1] where it has 64. *)
From Stdlib Require Import SpecFloat.
From S2P Require Import Prelude CInt CFloat ViMachine ViMem ViSpecial.

Section Float.
Context {E : ViEnv}.

(** ** The register union *)

Definition wget (i : Z) : M Z := fun s =>
  match reg_fpw (reg s) !! Z.to_nat i with Some v => Ok v s | None => Fault end.
Definition wset (i v : Z) : M unit := fun s =>
  if i <? Z.of_nat (length (reg_fpw (reg s)))
  then Ok tt (set_fpw (<[Z.to_nat i := u32 v]> (reg_fpw (reg s))) s) else Fault.

Definition wget2 (i : Z) : M Z :=
  l ← wget i; h ← wget (i + 1); mret (l + 2 ^ 32 * h).
Definition wset2 (i v : Z) : M unit :=
  wset i v;; wset (i + 1) (Z.shiftr v 32).

Definition fl_get (i : Z) : M Z := wget i.
Definition fl_set (i v : Z) : M unit := wset i v.
Definition fd_get (k : Z) : M Z := wget2 (2 * k).
Definition fd_set (k v : Z) : M unit := wset2 (2 * k) v.
Definition di_get (i : Z) : M Z := if ulong_bits =? 32 then wget i else wget2 (2 * i).
Definition di_set (i v : Z) : M unit :=
  if ulong_bits =? 32 then wset i v else wset2 (2 * i) v.

(** [reg.ft], 32 elements. *)
Definition ft_get (i : Z) : M Z := fun s =>
  match reg_ft (reg s) !! Z.to_nat i with Some v => Ok v s | None => Fault end.
Definition ft_set (i v : Z) : M unit := fun s =>
  if i <? Z.of_nat (length (reg_ft (reg s)))
  then Ok tt (set_ft (<[Z.to_nat i := v]> (reg_ft (reg s))) s) else Fault.

(** ** The host's arithmetic *)

Definition dec32 : Z -> spec_float := of_bits 24 128.
Definition dec64 : Z -> spec_float := of_bits 53 1024.
Definition add32 : Z -> Z -> Z := f_add 24 128 host_nan32.
Definition sub32 : Z -> Z -> Z := f_sub 24 128 host_nan32.
Definition mul32 : Z -> Z -> Z := f_mul 24 128 host_nan32.
Definition div32 : Z -> Z -> Z := f_div 24 128 host_nan32.
Definition neg32 : Z -> Z := f_neg 24 128.
Definition cmp32 : Z -> Z -> option comparison := f_cmp 24 128.
Definition add64 : Z -> Z -> Z := f_add 53 1024 host_nan64.
Definition sub64 : Z -> Z -> Z := f_sub 53 1024 host_nan64.
Definition mul64 : Z -> Z -> Z := f_mul 53 1024 host_nan64.
Definition div64 : Z -> Z -> Z := f_div 53 1024 host_nan64.
Definition neg64 : Z -> Z := f_neg 53 1024.
Definition cmp64 : Z -> Z -> option comparison := f_cmp 53 1024.

(** ** Traps *)

Definition unimp (inst : Z) : M unit :=
  Bprint "Unimplemented floating point Trap IR %.8lux\n" [inst];; longjmp.
Definition inval (inst : Z) : M unit :=
  Bprint "Invalid Operation Exception IR %.8lux\n" [inst];; longjmp.
Definition ifmt (r : Z) : M unit :=
  pc ← gets (fun s => reg_pc (reg s));
  Bprint "Invalid Floating Data Format f%d pc 0x%lux\n" [r; pc];; longjmp.

(** ** Formats of the operands *)

Definition floatop (dst s1 s2 : Z) : M unit :=
  t1 ← ft_get s1;
  (if (t1 =? FPd) && negb (s1 =? 24) then ifmt s1 else skip);;
  t2 ← ft_get s2;
  (if (t2 =? FPd) && negb (s2 =? 24) then ifmt s2 else skip);;
  ft_set dst FPs.

(** [l = reg.di[i]; reg.di[i] = reg.di[i+1]; reg.di[i+1] = l;] *)
Definition swap_di (i : Z) : M unit :=
  l ← di_get i; h ← di_get (i + 1); di_set i h;; di_set (i + 1) l.

Definition doubop_src (s1 : Z) : M unit :=
  t1 ← ft_get s1;
  if t1 =? FPd then skip
  else
    (if (t1 =? FPs) && negb (s1 =? 24) then ifmt s1 else skip);;
    swap_di s1;;
    ft_set s1 FPd.

Definition doubop (dst s1 s2 : Z) : M unit :=
  doubop_src s1;; doubop_src s2;; ft_set dst FPd.

(** ** Loads, stores and moves *)

Definition Iswc1 (inst : Z) : M unit :=
  let rb := Getrs inst in let rt := Getrt inst in let off := simm inst in
  b ← rget rb;
  tracing (itrace "swc1\tf%d,0x%x(r%d) ea=%lux" [rt; off; rb; s32 (b + off)]);;
  let ert := Z.land rt (Z.lnot 1) in
  t ← ft_get ert;
  (if t =? FPd then swap_di ert;; ft_set ert FPmemory else skip);;
  v ← di_get rt;
  putmem_w (ulong (s32 (b + off))) v.

Definition Ilwc1 (inst : Z) : M unit :=
  let rb := Getrs inst in let rt := Getrt inst in let off := simm inst in
  b ← rget rb;
  tracing (itrace "lwc1\tf%d,0x%x(r%d) ea=%lux" [rt; off; rb; s32 (b + off)]);;
  v ← getmem_w (ulong (s32 (b + off)));
  di_set rt v;;
  ft_set rt FPmemory.

Definition Imtct (ir : Z) : M unit :=
  let rt := Getrt ir in let fs := Getrd ir in
  if Z.testbit ir 22 then tracing (itrace "ctc1\tr%d,f%d" [rt; fs])
  else
    tracing (itrace "mtc1\tr%d,f%d" [rt; fs]);;
    v ← rget rt; di_set fs (ulong v);; ft_set fs FPmemory.

Definition Imfcf (ir : Z) : M unit :=
  let rt := Getrt ir in let fs := Getrd ir in
  if Z.testbit ir 22 then tracing (itrace "cfc1\tr%d,f%d" [rt; fs])
  else
    tracing (itrace "mfc1\tr%d,f%d" [rt; fs]);;
    v ← di_get fs; rset rt v.

(** ** Arithmetic *)

(** [fmt]: the character a trace shows, and the format field of an instruction. *)
Definition fmt_s : Z := 115.
Definition fmt_d : Z := 100.
Definition fmt_w : Z := 119.
Definition ffmt (ir : Z) : Z := Z.land (Z.shiftr ir 21) 0xf.

Definition Ifsub (ir : Z) : M unit :=
  let fs := Getrd ir in let ft := Getrt ir in let fd := Getfd ir in
  fmt ← match ffmt ir with
        | 0 => floatop fd fs ft;;
               a ← fl_get fs; b ← fl_get ft; fl_set fd (sub32 a b);; mret fmt_s
        | 1 => doubop fd fs ft;;
               a ← fd_get (Z.shiftr fs 1); b ← fd_get (Z.shiftr ft 1);
               fd_set (Z.shiftr fd 1) (sub64 a b);; mret fmt_d
        | 4 => a ← di_get fs; b ← di_get ft; di_set fd (ulong (a - b));; mret fmt_w
        | _ => unimp ir;; mret 0
        end;
  tracing (itrace "sub.%c\tf%d,f%d,f%d" [fmt; fd; fs; ft]).

Definition Ifmov (ir : Z) : M unit :=
  let fs := Getrd ir in let fd := Getfd ir in
  fmt ← match ffmt ir with
        | 0 => a ← fl_get fs; fl_set fd a;; t ← ft_get fs; ft_set fd t;; mret fmt_s
        | 1 => a ← fd_get (Z.shiftr fs 1); fd_set (Z.shiftr fd 1) a;;
               t ← ft_get fs; ft_set fd t;; mret fmt_d
        | 4 => a ← di_get fs; di_set fd a;; t ← ft_get fs; ft_set fd t;; mret fmt_w
        | _ => unimp ir;; mret 0
        end;
  tracing (itrace "mov.%c\tf%d,f%d" [fmt; fd; fs]).

Definition Ifabs (ir : Z) : M unit :=
  let fs := Getrd ir in let fd := Getfd ir in
  fmt ← match ffmt ir with
        | 0 => floatop fd fs fs;;
               a ← fl_get fs;
               fl_set fd (if decide (cmp32 a 0 = Some Lt) then neg32 a else a);; mret fmt_s
        | 1 => doubop fd fs fs;;
               a ← fd_get (Z.shiftr fs 1);
               fd_set (Z.shiftr fd 1) (if decide (cmp64 a 0 = Some Lt) then neg64 a else a);;
               mret fmt_d
        | 4 => a ← di_get fs;
               di_set fd (if slong a <? 0 then ulong (- a) else a);; mret fmt_w
        | _ => unimp ir;; mret 0
        end;
  tracing (itrace "abs.%c\tf%d,f%d" [fmt; fd; fs]).

Definition Ifneg (ir : Z) : M unit :=
  let fs := Getrd ir in let fd := Getfd ir in
  fmt ← match ffmt ir with
        | 0 => floatop fd fs fs;; a ← fl_get fs; fl_set fd (neg32 a);; mret fmt_s
        | 1 => doubop fd fs fs;; a ← fd_get (Z.shiftr fs 1);
               fd_set (Z.shiftr fd 1) (neg64 a);; mret fmt_d
        | 4 => a ← di_get fs; di_set fd (ulong (- a));; mret fmt_w
        | _ => unimp ir;; mret 0
        end;
  tracing (itrace "neg.%c\tf%d,f%d" [fmt; fd; fs]).

Definition Icvtd (ir : Z) : M unit :=
  let fs := Getrd ir in let fd := Getfd ir in
  fmt ← match ffmt ir with
        | 0 => floatop fs fs fs;;
               a ← fl_get fs;
               fd_set (Z.shiftr fd 1) (f_of_float 53 1024 host_nan64 (dec32 a));;
               ft_set fd FPd;; mret fmt_s
        | 1 => doubop fd fs fs;;
               a ← fd_get (Z.shiftr fs 1); fd_set (Z.shiftr fd 1) a;; mret fmt_d
        | 4 => a ← di_get fs;
               fd_set (Z.shiftr fd 1) (f_of_int 53 1024 host_nan64 (slong a));;
               ft_set fd FPd;; mret fmt_w
        | _ => unimp ir;; mret 0
        end;
  tracing (itrace "cvt.d.%c\tf%d,f%d" [fmt; fd; fs]).

Definition Icvts (ir : Z) : M unit :=
  let fs := Getrd ir in let fd := Getfd ir in
  fmt ← match ffmt ir with
        | 0 => floatop fd fs fs;; a ← fl_get fs; fl_set fd a;; mret fmt_s
        | 1 => doubop fs fs fs;;
               a ← fd_get (Z.shiftr fs 1);
               fl_set fd (f_of_float 24 128 host_nan32 (dec64 a));;
               ft_set fd FPs;; mret fmt_d
        | 4 => a ← di_get fs;
               fl_set fd (f_of_int 24 128 host_nan32 (slong a));;
               ft_set fd FPs;; mret fmt_w
        | _ => unimp ir;; mret 0
        end;
  tracing (itrace "cvt.s.%c\tf%d,f%d" [fmt; fd; fs]).

(** [(long)x]: C leaves a value outside [long] undefined. *)
Definition long_of_float (f : spec_float) : M Z :=
  match int_of_float f with
  | Some v => if decide (in_s ulong_bits v) then mret v else fault
  | None => fault
  end.

Definition Icvtw (ir : Z) : M unit :=
  let fs := Getrd ir in let fd := Getfd ir in
  '(v, fmt) ← match ffmt ir with
        | 0 => floatop fs fs fs;;
               a ← fl_get fs; v ← long_of_float (dec32 a); mret (v, fmt_s)
        | 1 => doubop fs fs fs;;
               a ← fd_get (Z.shiftr fs 1); v ← long_of_float (dec64 a); mret (v, fmt_d)
        | 4 => a ← di_get fs; mret (slong a, fmt_w)
        | _ => unimp ir;; mret (0, 0)
        end;
  di_set fd (ulong v);;
  ft_set fd FPmemory;;
  tracing (itrace "cvt.w.%c\tf%d,f%d" [fmt; fd; fs]).

Definition Ifadd (ir : Z) : M unit :=
  let fs := Getrd ir in let ft := Getrt ir in let fd := Getfd ir in
  fmt ← match ffmt ir with
        | 0 => floatop fd fs ft;;
               a ← fl_get fs; b ← fl_get ft; fl_set fd (add32 a b);; mret fmt_s
        | 1 => doubop fd fs ft;;
               a ← fd_get (Z.shiftr fs 1); b ← fd_get (Z.shiftr ft 1);
               fd_set (Z.shiftr fd 1) (add64 a b);; mret fmt_d
        | 4 => a ← di_get fs; b ← di_get ft; di_set fd (ulong (a + b));; mret fmt_w
        | _ => unimp ir;; mret 0
        end;
  tracing (itrace "add.%c\tf%d,f%d,f%d" [fmt; fd; fs; ft]).

Definition Ifmul (ir : Z) : M unit :=
  let fs := Getrd ir in let ft := Getrt ir in let fd := Getfd ir in
  fmt ← match ffmt ir with
        | 0 => floatop fd fs ft;;
               a ← fl_get fs; b ← fl_get ft; fl_set fd (mul32 a b);; mret fmt_s
        | 1 => doubop fd fs ft;;
               a ← fd_get (Z.shiftr fs 1); b ← fd_get (Z.shiftr ft 1);
               fd_set (Z.shiftr fd 1) (mul64 a b);; mret fmt_d
        | 4 => a ← di_get fs; b ← di_get ft; di_set fd (ulong (a * b));; mret fmt_w
        | _ => unimp ir;; mret 0
        end;
  tracing (itrace "mul.%c\tf%d,f%d,f%d" [fmt; fd; fs; ft]).

Definition Ifdiv (ir : Z) : M unit :=
  let fs := Getrd ir in let ft := Getrt ir in let fd := Getfd ir in
  fmt ← match ffmt ir with
        | 0 => floatop fd fs ft;;
               a ← fl_get fs; b ← fl_get ft; fl_set fd (div32 a b);; mret fmt_s
        | 1 => doubop fd fs ft;;
               a ← fd_get (Z.shiftr fs 1); b ← fd_get (Z.shiftr ft 1);
               fd_set (Z.shiftr fd 1) (div64 a b);; mret fmt_d
        | 4 => a ← di_get fs; b ← di_get ft;
               (if b =? 0 then fault else di_set fd (a / b));; mret fmt_w
        | _ => unimp ir;; mret 0
        end;
  tracing (itrace "div.%c\tf%d,f%d,f%d" [fmt; fd; fs; ft]).

(** ** Comparisons *)

(** [FP_U], [FP_E], [FP_L] or [FP_G]. *)
Definition fc_of (c : option comparison) : Z :=
  match c with
  | None => FP_U | Some Eq => FP_E | Some Lt => FP_L | Some Gt => FP_G
  end.

(** The second [switch] of [Ifcmp]: whether condition [c] holds of the relation [fc], and
    the mnemonic of a trace. *)
Definition fcond (c fc : Z) : bool :=
  let E := fc =? FP_E in let L := fc =? FP_L in let U := fc =? FP_U in
  match c with
  | 0 => false | 1 => U | 2 => E | 3 => E || U
  | 4 => L | 5 => L || U | 6 => E || L | 7 => E || L || U
  | 8 => false | 9 => U | 10 => E | 11 => E || U
  | 12 => L | 13 => L || U | 14 => E || L | _ => E || L || U
  end.

Definition fcond_name (c : Z) : string :=
  match c with
  | 0 => "c.f.%c\tf%d,f%d" | 1 => "c.un.%c\tf%d,f%d" | 2 => "c.eq.%c\tf%d,f%d"
  | 3 => "c.ueq.%c\tf%d,f%d" | 4 => "c.lt.%c\tf%d,f%d" | 5 => "c.ult.%c\tf%d,f%d"
  | 6 => "c.le.%c\tf%d,f%d" | 7 => "c.ule.%c\tf%d,f%d" | 8 => "c.sf.%c\tf%d,f%d"
  | 9 => "c.ngle.%c\tf%d,f%d" | 10 => "c.seq.%c\tf%d,f%d" | 11 => "c.ngl.%c\tf%d,f%d"
  | 12 => "c.lt.%c\tf%d,f%d" | 13 => "c.nge.%c\tf%d,f%d" | 14 => "c.le.%c\tf%d,f%d"
  | _ => "c.ngt.%c\tf%d,f%d"
  end.

Definition Ifcmp (ir : Z) : M unit :=
  let ft := Getrt ir in let fs := Getrd ir in
  '(fc, fmt) ← match ffmt ir with
        | 0 => floatop fs fs ft;;
               a ← fl_get fs; b ← fl_get ft; mret (fc_of (cmp32 a b), fmt_s)
        | 1 => doubop fs fs ft;;
               a ← fd_get (Z.shiftr fs 1); b ← fd_get (Z.shiftr ft 1);
               mret (fc_of (cmp64 a b), fmt_d)
        | 4 => a ← di_get fs; b ← di_get ft; mret (fc_of (Some (a ?= b)), fmt_w)
        | _ => unimp ir;; mret (0, 0)
        end;
  modify (fun s => set_fpsr (Z.land (reg_fpsr (reg s)) (Z.lnot FP_CBIT)) s);;
  let c := Z.land ir 0xf in
  tracing (itrace (fcond_name c) [fmt; fs; ft]);;
  (if fcond c fc
   then modify (fun s => set_fpsr (Z.lor (reg_fpsr (reg s)) FP_CBIT) s) else skip);;
  (if (8 <=? c) && (fc =? FP_U) then inval ir else skip).

(** The table [cop1]. *)
Definition cop1 : list (Z -> M unit) :=
  [ Ifadd; Ifsub; Ifmul; Ifdiv; unimp; Ifabs; Ifmov; Ifneg;
    unimp; unimp; unimp; unimp; unimp; unimp; unimp; unimp;
    unimp; unimp; unimp; unimp; unimp; unimp; unimp; unimp;
    unimp; unimp; unimp; unimp; unimp; unimp; unimp; unimp;
    Icvts; Icvtd; unimp; unimp; Icvtw; unimp; unimp; unimp;
    unimp; unimp; unimp; unimp; unimp; unimp; unimp; unimp;
    Ifcmp; Ifcmp; Ifcmp; Ifcmp; Ifcmp; Ifcmp; Ifcmp; Ifcmp;
    Ifcmp; Ifcmp; Ifcmp; Ifcmp; Ifcmp; Ifcmp; Ifcmp; Ifcmp ].

Section Branch.
Variable Iexec : Z -> M unit.

Definition Ibcfbct (inst : Z) : M unit :=
  let off := simm inst in
  pc ← gets (fun s => reg_pc (reg s));
  let npc := ulong (pc + s32 (Z.shiftl off 2) + 4) in
  fpsr ← gets (fun s => reg_fpsr (reg s));
  let c := negb (Z.land fpsr FP_CBIT =? 0) in
  takeit ← (if Z.testbit inst 16 then
              tracing (itrace "bc1t\t0x%lux" [npc]);; mret c
            else
              tracing (itrace "bc1f\t0x%lux" [npc]);; mret (negb c));
  if (takeit : bool) then
    delay_slot Iexec true;; modify (set_pc (ulong (npc - 4)))
  else skip.

Definition Icop1 (ir : Z) : M unit :=
  match Z.land (Z.shiftr ir 23) 7 with
  | 0 => Imfcf ir
  | 1 => Imtct ir
  | 2 | 3 => Ibcfbct ir
  | _ =>
      let k := Z.land ir 0x3f in
      stat_count (row_cop1 k);;
      match cop1 !! Z.to_nat k with Some f => f ir | None => fault end
  end.
End Branch.
End Float.
