(* ===== verification/ViRun.v ===== *)
(** [run.c]: the instructions of the MIPS emulator and its main loop. *)
From S2P Require Import Prelude CInt ViMachine ViMem ViSpecial ViFloat.

Section Run.
Context {E : ViEnv}.

(** ** Arithmetic with an immediate *)

Definition Iaddi (inst : Z) : M unit :=
  let rs := Getrs inst in let rt := Getrt inst in let imm := simm inst in
  tracing (itrace "addi\tr%d,r%d,#0x%x" [rt; rs; imm]);;
  v ← rget rs; rset rt (v + imm).

Definition Iandi (inst : Z) : M unit :=
  let rs := Getrs inst in let rt := Getrt inst in let imm := uimm inst in
  tracing (itrace "andi\tr%d,r%d,#0x%x" [rt; rs; imm]);;
  v ← rget rs; rset rt (Z.land v imm).

Definition Iori (inst : Z) : M unit :=
  let rs := Getrs inst in let rt := Getrt inst in let imm := uimm inst in
  tracing (itrace "ori\tr%d,r%d,#0x%x" [rt; rs; imm]);;
  v ← rget rs; rset rt (Z.lor v imm).

Definition Ixori (inst : Z) : M unit :=
  let rs := Getrs inst in let rt := Getrt inst in let imm := uimm inst in
  tracing (itrace "xori\tr%d,r%d,#0x%x" [rt; rs; imm]);;
  v ← rget rs; rset rt (Z.lxor v imm).

Definition Iaddiu (inst : Z) : M unit :=
  let rs := Getrs inst in let rt := Getrt inst in let imm := simm inst in
  tracing (itrace "addiu\tr%d,r%d,#0x%x" [rt; rs; imm]);;
  v ← rget rs; rset rt (v + imm).

Definition Islti (inst : Z) : M unit :=
  let rs := Getrs inst in let rt := Getrt inst in let imm := simm inst in
  tracing (itrace "slti\tr%d,r%d,#0x%x" [rt; rs; imm]);;
  v ← rget rs; rset rt (if v <? imm then 1 else 0).

Definition Isltiu (inst : Z) : M unit :=
  let rs := Getrs inst in let rt := Getrt inst in let imm := simm inst in
  tracing (itrace "sltiu\tr%d,r%d,#0x%x" [rt; rs; imm]);;
  v ← rget rs; rset rt (if ulong v <? ulong imm then 1 else 0).

Definition Ilui (inst : Z) : M unit :=
  let rt := Getrt inst in
  let imm := s32 (ulong (Z.shiftl inst 16)) in
  tracing (itrace "lui\tr%d,#0x%x" [rt; imm]);;
  rset rt imm.

(** ** Stores *)

(** [reg.r[rb]+off], an [int]. *)
Definition ea (b off : Z) : Z := s32 (b + off).

Definition Isw (inst : Z) : M unit :=
  let rb := Getrs inst in let rt := Getrt inst in let off := simm inst in
  v ← rget rt;
  let value := ulong v in
  b ← rget rb;
  tracing (itrace "sw\tr%d,0x%x(r%d) %lux=%lux" [rt; off; rb; ea b off; value]);;
  putmem_w (ulong (ea b off)) value.

Definition Isb (inst : Z) : M unit :=
  let rb := Getrs inst in let rt := Getrt inst in let off := simm inst in
  v ← rget rt;
  let value := u8 v in
  b ← rget rb;
  tracing (itrace "sb\tr%d,0x%x(r%d) %lux=%lux" [rt; off; rb; ea b off; value]);;
  putmem_b (ulong (ea b off)) value.

Definition Ish (inst : Z) : M unit :=
  let rb := Getrs inst in let rt := Getrt inst in let off := simm inst in
  v ← rget rt;
  let value := u16 v in
  b ← rget rb;
  tracing (itrace "sh\tr%d,0x%x(r%d) %lux=%lux" [rt; off; rb; ea b off; Z.land value 0xffff]);;
  putmem_h (ulong (ea b off)) (s16 value).

(** [ll] and [sc] are a load and a store: one processor is simulated. *)
Definition Isc (inst : Z) : M unit :=
  let rb := Getrs inst in let rt := Getrt inst in let off := simm inst in
  v ← rget rt;
  let value := ulong v in
  b ← rget rb;
  tracing (itrace "sc\tr%d,0x%x(r%d) %lux=%lux" [rt; off; rb; ea b off; value]);;
  putmem_w (ulong (ea b off)) value.

(** ** Loads *)

(** The tracing of a load: the value is shown if [badvaddr] finds none wrong. *)
Definition trace_load (fmt : string) (rt off rb va n : Z) (get : M Z) : M unit :=
  tracing
    (bad ← badvaddr va n;
     v ← (if (bad : bool) then mret 0 else get);
     itrace fmt [rt; off; rb; va; v]).

Definition Ilw (inst : Z) : M unit :=
  let rb := Getrs inst in let rt := Getrt inst in let off := simm inst in
  b ← rget rb;
  let va := ulong (ea b off) in
  trace_load "lw\tr%d,0x%x(r%d) %lux=%lux" rt off rb va 4
    (v ← getmem_w va; mret (ulong v));;
  v ← getmem_w va; rset rt v.

Definition Ilh (inst : Z) : M unit :=
  let rb := Getrs inst in let rt := Getrt inst in let off := simm inst in
  b ← rget rb;
  let va := ulong (ea b off) in
  trace_load "lw\tr%d,0x%x(r%d) %lux=%lux" rt off rb va 2
    (v ← getmem_h va; mret (ulong (s16 v)));;
  v ← getmem_h va; rset rt (s16 v).

Definition Ilhu (inst : Z) : M unit :=
  let rb := Getrs inst in let rt := Getrt inst in let off := simm inst in
  b ← rget rb;
  let va := ulong (ea b off) in
  trace_load "lhu\tr%d,0x%x(r%d) %lux=%lux" rt off rb va 2
    (v ← getmem_h va; mret (Z.land v 0xffff));;
  v ← getmem_h va; rset rt (Z.land v 0xffff).

Definition Ilb (inst : Z) : M unit :=
  let rb := Getrs inst in let rt := Getrt inst in let off := simm inst in
  b ← rget rb;
  let va := ulong (ea b off) in
  trace_load "lb\tr%d,0x%x(r%d) %lux=%lux" rt off rb va 1
    (v ← getmem_b va; mret (ulong (s8 v)));;
  v ← getmem_b va; rset rt (s8 v).

Definition Ilbu (inst : Z) : M unit :=
  let rb := Getrs inst in let rt := Getrt inst in let off := simm inst in
  b ← rget rb;
  let va := ulong (ea b off) in
  trace_load "lbu\tr%d,0x%x(r%d) %lux=%lux" rt off rb va 1
    (v ← getmem_b va; mret (Z.land v 0xff));;
  v ← getmem_b va; rset rt (Z.land v 0xff).

Definition Ill (inst : Z) : M unit :=
  let rb := Getrs inst in let rt := Getrt inst in let off := simm inst in
  b ← rget rb;
  let va := ulong (ea b off) in
  trace_load "ll\tr%d,0x%x(r%d) %lux=%lux" rt off rb va 4
    (v ← getmem_w va; mret (ulong v));;
  v ← getmem_w va; rset rt v.

Definition Ilwl (inst : Z) : M unit :=
  let rb := Getrs inst in let rt := Getrt inst in let off := simm inst in
  b ← rget rb;
  let va := ulong (ea b off) in
  let wa := Z.land va (Z.lnot 3) in
  trace_load "lwl\tr%d,0x%x(r%d) %lux=%lux" rt off rb va 4
    (v ← getmem_w wa; mret (ulong (u32 (Z.shiftl v (Z.shiftl (Z.land va 3) 3)))));;
  v ← getmem_w wa;
  t ← rget rt;
  match Z.land va 3 with
  | 0 => rset rt v
  | 1 => rset rt (Z.lor (ulong (Z.shiftl v 8)) (ulong (Z.land t 0xff)))
  | 2 => rset rt (Z.lor (ulong (Z.shiftl v 16)) (ulong (Z.land t 0xffff)))
  | _ => rset rt (Z.lor (ulong (Z.shiftl v 24)) (ulong (Z.land t 0xffffff)))
  end.

Definition Ilwr (inst : Z) : M unit :=
  let rb := Getrs inst in let rt := Getrt inst in let off := simm inst in
  b ← rget rb;
  let va := ulong (ea b off) in
  let wa := Z.land va (Z.lnot 3) in
  trace_load "lwr\tr%d,0x%x(r%d) %lux=%lux" rt off rb va 4
    (v ← getmem_w wa; mret (ulong (u32 (Z.shiftl v (Z.shiftl (Z.land va 3) 3)))));;
  v ← getmem_w wa;
  t ← rget rt;
  match Z.land va 3 with
  | 0 => skip
  | 1 => rset rt (Z.lor (Z.shiftr v 24) (Z.land (u32 t) 0xffffff00))
  | 2 => rset rt (Z.lor (Z.shiftr v 16) (Z.land (u32 t) 0xffff0000))
  | _ => rset rt (Z.lor (Z.shiftr v 8) (Z.land (u32 t) 0xff000000))
  end.

(** ** Jumps and branches *)

(** [(reg.pc&0xF0000000)|((inst&0x3FFFFFF)<<2)] *)
Definition jtarget (pc inst : Z) : Z :=
  Z.lor (Z.land pc 0xF0000000) (ulong (Z.shiftl (Z.land inst 0x3FFFFFF) 2)).

(** [reg.pc + (off<<2) + 4] *)
Definition btarget (pc off : Z) : Z := ulong (pc + s32 (Z.shiftl off 2) + 4).

Section Branches.
Variable Iexec : Z -> M unit.

Definition goto (npc : Z) : M unit := modify (set_pc (ulong (npc - 4))).

(** [reg.pc += 4]: a branch-likely that is not taken skips its delay slot. *)
Definition skip_slot : M unit :=
  modify (fun s => set_pc (ulong (reg_pc (reg s) + 4)) s).

Definition Ijal (inst : Z) : M unit :=
  pc ← gets (fun s => reg_pc (reg s));
  let npc := jtarget pc inst in
  tracing (itrace "jal\t0x%lux" [npc]);;
  rset 31 (ulong (pc + 8));;
  delay_slot Iexec true;;
  ct ← gets calltree;
  (if (ct : bool) then printcall inst npc else skip);;
  goto npc.

Definition Ij (inst : Z) : M unit :=
  pc ← gets (fun s => reg_pc (reg s));
  let npc := jtarget pc inst in
  tracing (itrace "j\t0x%lux" [npc]);;
  delay_slot Iexec true;;
  goto npc.

Definition Ibeq (inst : Z) : M unit :=
  let rs := Getrs inst in let rt := Getrt inst in let off := simm inst in
  pc ← gets (fun s => reg_pc (reg s));
  let npc := btarget pc off in
  tracing (itrace "beq\tr%d,r%d,0x%lux" [rs; rt; npc]);;
  v ← rget rs; t ← rget rt;
  if v =? t then delay_slot Iexec true;; goto npc else skip.

Definition Ibeql (inst : Z) : M unit :=
  let rs := Getrs inst in let rt := Getrt inst in let off := simm inst in
  pc ← gets (fun s => reg_pc (reg s));
  let npc := btarget pc off in
  tracing (itrace "beq\tr%d,r%d,0x%lux" [rs; rt; npc]);;
  v ← rget rs; t ← rget rt;
  if v =? t then delay_slot Iexec true;; goto npc else skip_slot.

Definition Ibgtz (inst : Z) : M unit :=
  let rs := Getrs inst in let off := simm inst in
  pc ← gets (fun s => reg_pc (reg s));
  let npc := btarget pc off in
  tracing (itrace "bgtz\tr%d,0x%lux" [rs; npc]);;
  v ← rget rs;
  let r := ulong v in
  if (Z.land r SIGNBIT =? 0) && negb (r =? 0) then delay_slot Iexec false;; goto npc else skip.

Definition Ibgtzl (inst : Z) : M unit :=
  let rs := Getrs inst in let off := simm inst in
  pc ← gets (fun s => reg_pc (reg s));
  let npc := btarget pc off in
  tracing (itrace "bgtz\tr%d,0x%lux" [rs; npc]);;
  v ← rget rs;
  let r := ulong v in
  if (Z.land r SIGNBIT =? 0) && negb (r =? 0) then delay_slot Iexec false;; goto npc else skip_slot.

Definition Iblez (inst : Z) : M unit :=
  let rs := Getrs inst in let off := simm inst in
  pc ← gets (fun s => reg_pc (reg s));
  let npc := btarget pc off in
  tracing (itrace "blez\tr%d,0x%lux" [rs; npc]);;
  v ← rget rs;
  let r := ulong v in
  if negb (Z.land r SIGNBIT =? 0) || (r =? 0) then delay_slot Iexec true;; goto npc else skip.

Definition Iblezl (inst : Z) : M unit :=
  let rs := Getrs inst in let off := simm inst in
  pc ← gets (fun s => reg_pc (reg s));
  let npc := btarget pc off in
  tracing (itrace "blez\tr%d,0x%lux" [rs; npc]);;
  v ← rget rs;
  let r := ulong v in
  if negb (Z.land r SIGNBIT =? 0) || (r =? 0) then delay_slot Iexec true;; goto npc else skip_slot.

Definition Ibne (inst : Z) : M unit :=
  let rs := Getrs inst in let rt := Getrt inst in let off := simm inst in
  pc ← gets (fun s => reg_pc (reg s));
  let npc := btarget pc off in
  tracing (itrace "bne\tr%d,r%d,0x%lux" [rs; rt; npc]);;
  v ← rget rs; t ← rget rt;
  if negb (v =? t) then delay_slot Iexec true;; goto npc else skip.

Definition Ibnel (inst : Z) : M unit :=
  let rs := Getrs inst in let rt := Getrt inst in let off := simm inst in
  pc ← gets (fun s => reg_pc (reg s));
  let npc := btarget pc off in
  tracing (itrace "bne\tr%d,r%d,0x%lux" [rs; rt; npc]);;
  v ← rget rs; t ← rget rt;
  if negb (v =? t) then delay_slot Iexec true;; goto npc else skip_slot.

(** The [bran] field of [bcond]. *)
Definition Bltz : Z := 0.
Definition Bgez : Z := 1.
Definition Bltzal : Z := 0x10.
Definition Bgezal : Z := 0x11.
Definition Bltzl : Z := 2.
Definition Bgezl : Z := 3.
Definition Bltzall : Z := 0x12.
Definition Bgezall : Z := 0x13.

(** What [switch(bran)] selects: whether the branch links, tests for a negative
    register, and is likely; [None] for the default case. *)
Definition bcond_of (bran : Z) : option (bool * bool * bool) :=
  if bran =? Bltzl then Some (false, true, true)
  else if bran =? Bltz then Some (false, true, false)
  else if bran =? Bgezl then Some (false, false, true)
  else if bran =? Bgez then Some (false, false, false)
  else if bran =? Bltzall then Some (true, true, true)
  else if bran =? Bltzal then Some (true, true, false)
  else if bran =? Bgezall then Some (true, false, true)
  else if bran =? Bgezal then Some (true, false, false)
  else None.

Definition Ibcond (inst : Z) : M unit :=
  let rs := Getrs inst in let bran := Getrt inst in let off := simm inst in
  pc ← gets (fun s => reg_pc (reg s));
  let npc := btarget pc off in
  match bcond_of bran with
  | None => Bprint "bcond=%d\n" [bran];; undef inst
  | Some (link, neg, likely) =>
      (if (link : bool) then rset 31 (ulong (pc + 8)) else skip);;
      v ← rget rs;
      let doit := eqb (negb (Z.land v SIGNBIT =? 0)) neg in
      tracing (itrace "b%s\tr%d,0x%lux" [bran; rs; npc]);;
      if doit then delay_slot Iexec true;; goto npc
      else if (likely : bool) then skip_slot else skip
  end.

(** The table [itab]. *)
Definition itab : list (Z -> M unit) :=
  [ Ispecial Iexec; Ibcond; Ij; Ijal; Ibeq; Ibne; Iblez; Ibgtz;
    Iaddi; Iaddiu; Islti; Isltiu; Iandi; Iori; Ixori; Ilui;
    undef; Icop1 Iexec; undef; undef; Ibeql; Ibnel; Iblezl; Ibgtzl;
    undef; undef; undef; undef; undef; undef; undef; undef;
    Ilb; Ilh; Ilwl; Ilw; Ilbu; Ilhu; Ilwr; undef;
    Isb; Ish; undef; Isw; undef; undef; undef; undef;
    Ill; Ilwc1; undef; undef; undef; undef; undef; undef;
    Isc; Iswc1; undef; undef; undef; undef; undef; undef ].
End Branches.

(** [Iexec(ir)]: dispatch through [itab]. A branch executes its delay slot by a
    recursive [Iexec]; the fuel bounds the nesting. *)
Fixpoint Iexec (fuel : nat) (ir : Z) : M unit :=
  match fuel with
  | O => diverge
  | S n =>
      let k := Z.shiftr ir 26 in
      modify (set_ip (row_itab k));;
      stat_count (row_itab k);;
      match itab (Iexec n) !! Z.to_nat k with Some f => f ir | None => fault end
  end.

(** [if(bplist) brkchk(reg.pc, Instruction)] and [dortrace] after an instruction. *)
Definition dortrace : M unit :=
  rt ← gets rtrace; r ← gets (fun s => reg_r (reg s));
  modify (fun s => set_bioout
    (rev (omap (fun i => if Z.testbit rt (Z.of_nat i)
                         then Some (Eprint "R%.2d %.8lux\n" [Z.of_nat i; default 0 (r !! i)])
                         else None) (seq 0 32)) ++ bioout s) s).

(** The body of the loop of [run]. *)
Definition run1 (fuel : nat) : M unit :=
  rset 0 0;;
  pc ← gets (fun s => reg_pc (reg s));
  w ← ifetch pc;
  modify (set_ir w);;
  Iexec fuel w;;
  modify (fun s => set_pc (ulong (reg_pc (reg s) + 4)) s);;
  l ← gets bplist;
  pc ← gets (fun s => reg_pc (reg s));
  (match l with [] => skip | _ => brkchk pc Instruction end);;
  rt ← gets rtrace;
  (if rt =? 0 then skip else dortrace).

(** [do { ... } while(--count)]: [steps] bounds the iterations. *)
Fixpoint run (steps fuel : nat) : M unit :=
  match steps with
  | O => diverge
  | S n =>
      run1 fuel;;
      c ← gets count;
      let c := s32 (c - 1) in
      modify (set_count c);;
      if c =? 0 then skip else run n fuel
  end.
End Run.
