(* ===== verification/ViInv.v ===== *)
(** The type invariant of the emulator's state, and that every handler keeps it whatever
    the instruction word and however the handler ends. *)
From S2P Require Import Prelude CInt ViMachine ViMem ViMemSpec ViArith ViSpecial ViFloat ViRun.

Section Inv.
Context {E : ViEnv} {EOk : ViEnvOk E}.

(** Every register holds a value of its C type. *)
Record regs_ok (s : vi) : Prop := {
  ro_pc : in_u ulong_bits (reg_pc (reg s));
  ro_ir : in_u 32 (reg_ir (reg s));
  ro_r : length (reg_r (reg s)) = 32%nat;
  ro_rv : Forall (in_s 32) (reg_r (reg s));
  ro_mhi : in_u ulong_bits (reg_mhi (reg s));
  ro_mlo : in_u ulong_bits (reg_mlo (reg s));
  ro_fpsr : in_u ulong_bits (reg_fpsr (reg s));
  ro_fpw : Z.of_nat (length (reg_fpw (reg s))) = ulong_bits;
  ro_fpwv : Forall (in_u 32) (reg_fpw (reg s));
  ro_ft : length (reg_ft (reg s)) = 32%nat }.

Record wf (s : vi) : Prop := { wf_mem : mem_ok s; wf_regs : regs_ok s }.

Lemma regs_ok_eq s t : reg s = reg t -> regs_ok t -> regs_ok s.
Proof. intros H []. split; by rewrite H. Qed.

(** ** Correctness of a computation against the invariant *)

(** Whether it may fail to return: [True] where only the invariant matters. *)
Context (D : Prop).

Definition keeps {A} (Q : A -> Prop) (m : M A) : Prop := forall s, wf s ->
  match m s with
  | Ok a s' => wf s' /\ Q a
  | Longjmp s' | Exits s' => wf s'
  | Fault => True
  | Diverge => D
  end.

Lemma keeps_bind {A B} (Q1 : A -> Prop) (Q : B -> Prop) (m : M A) (k : A -> M B) :
  keeps Q1 m -> (forall a, Q1 a -> keeps Q (k a)) -> keeps Q (m ≫= k).
Proof.
  intros Hm Hk s Hs. specialize (Hm s Hs). unfold mbind, M_bind.
  destruct (m s); try done. destruct Hm as [Hs' HQ]. by apply Hk.
Qed.

Lemma keeps_ret {A} (Q : A -> Prop) (a : A) : Q a -> keeps Q (mret a).
Proof. intros HQ s Hs. done. Qed.

Lemma keeps_skip (Q : unit -> Prop) : Q tt -> keeps Q skip.
Proof. intros HQ s Hs. done. Qed.

Lemma keeps_mono {A} (Q Q' : A -> Prop) (m : M A) :
  (forall a, Q a -> Q' a) -> keeps Q m -> keeps Q' m.
Proof.
  intros HQ Hm s Hs. specialize (Hm s Hs). destruct (m s); try done.
  destruct Hm as [? ?]. auto.
Qed.

Lemma keeps_gets {A} (Q : A -> Prop) (f : vi -> A) :
  (forall s, wf s -> Q (f s)) -> keeps Q (gets f).
Proof. intros Hf s Hs. split; [done|]. by apply Hf. Qed.

Lemma keeps_modify (Q : unit -> Prop) (f : vi -> vi) :
  Q tt -> (forall s, wf s -> wf (f s)) -> keeps Q (modify f).
Proof. intros HQ Hf s Hs. split; [by apply Hf|done]. Qed.

Lemma keeps_longjmp {A} (Q : A -> Prop) : keeps Q longjmp.
Proof. intros s Hs. done. Qed.
Lemma keeps_exits {A} (Q : A -> Prop) : keeps Q exits.
Proof. intros s Hs. done. Qed.
Lemma keeps_fault {A} (Q : A -> Prop) : keeps Q fault.
Proof. intros s Hs. done. Qed.
Lemma keeps_diverge {A} (Q : A -> Prop) : D -> keeps Q diverge.
Proof. intros HD s Hs. done. Qed.

Lemma keeps_tracing (m : M unit) : keeps (fun _ => True) m -> keeps (fun _ => True) (tracing m).
Proof. intros Hm s Hs. unfold tracing. destruct (trace s); [by apply Hm|done]. Qed.

Lemma keeps_on_membpt (m : M unit) :
  keeps (fun _ => True) m -> keeps (fun _ => True) (on_membpt m).
Proof. intros Hm s Hs. unfold on_membpt. destruct (_ =? _); [done|by apply Hm]. Qed.

(** A state that differs outside registers, segments and TLB. *)
Lemma wf_outside s s' :
  reg s' = reg s -> memory s' = memory s -> tlb s' = tlb s -> wf s -> wf s'.
Proof.
  intros Hr Hm Ht [[Hmem Htlb] Hregs]. split; [|by eapply regs_ok_eq].
  split; [by rewrite Hm|by rewrite Ht].
Qed.

Lemma wf_set_regs s rg : wf s -> regs_ok (set_reg rg s) -> wf (set_reg rg s).
Proof. intros [Hm _] Hr. split; [|done]. destruct Hm. by split. Qed.

Lemma keeps_bprint f l : keeps (fun _ => True) (Bprint f l).
Proof. apply keeps_modify; [done|]. intros s. by apply wf_outside. Qed.
Lemma keeps_itrace f l : keeps (fun _ => True) (itrace f l).
Proof. apply keeps_modify; [done|]. intros s. by apply wf_outside. Qed.
Lemma keeps_bump f k : keeps (fun _ => True) (bump f k).
Proof. apply keeps_modify; [done|]. intros s. by apply wf_outside. Qed.
Lemma keeps_hitbpt : keeps (fun _ => True) hitbpt.
Proof. apply keeps_modify; [done|]. intros s. by apply wf_outside. Qed.

(** ** Memory *)

Lemma wf_arch_eq s s' : wf s -> arch_eq s' s -> mem_ok s' -> wf s'.
Proof. intros [_ Hr] [_ Hq] Hm. split; [done|]. eapply regs_ok_eq; [|done]. apply Hq. Qed.

Lemma keeps_quiet {A} (Q : A -> Prop) (m : M A) :
  (forall s, mem_ok s -> quiet m s (fun a _ => Q a)) -> keeps Q m.
Proof.
  intros Hm s Hs. specialize (Hm s (wf_mem s Hs)). unfold quiet, runs in Hm.
  destruct (m s); try done. destruct Hm as (? & ? & ?). split; [by eapply wf_arch_eq|done].
Qed.

Lemma keeps_vaddr1 a : keeps (fun _ => True) (vaddr1 a).
Proof. apply keeps_quiet. intros s Hs. eapply quiet_mono; [by apply quiet_vaddr1|done]. Qed.

Lemma keeps_vaddr a : keeps (fun _ => True) (vaddr a).
Proof.
  unfold vaddr. eapply keeps_bind; [apply keeps_vaddr1|]. intros [p|] _.
  - by apply keeps_ret.
  - eapply keeps_bind; [apply keeps_bprint|]. intros. apply keeps_longjmp.
Qed.

Lemma keeps_badvaddr a n : keeps (fun _ => True) (badvaddr a n).
Proof.
  unfold badvaddr. destruct (negb _); [by apply keeps_ret|].
  eapply keeps_bind; [apply keeps_vaddr1|]. intros. by apply keeps_ret.
Qed.

Lemma keeps_peek p o : keeps (in_u 8) (peek p o).
Proof.
  intros s Hs. unfold peek.
  destruct (memory s !! p.1) as [sg|] eqn:Hk; simpl; [|done].
  destruct (seg_table sg !! Z.to_nat p.2) as [[pg|]|] eqn:Hp; [|done..].
  destruct (o <? BY2PG); [|done]. split; [done|].
  destruct Hs as [[Hall _] _]. eapply Forall_lookup_1 in Hall; [|exact Hk].
  destruct Hall. specialize (so_bytes _ _ Hp). unfold page_get.
  destruct (pg !! o) as [b|] eqn:Hb; [by apply (so_bytes o)|]. by unfold in_u.
Qed.

Lemma keeps_poke p o b : keeps (fun _ => True) (poke p o b).
Proof.
  intros s Hs. unfold poke.
  destruct (memory s !! p.1) as [sg|] eqn:Hk; simpl; [|done].
  destruct (seg_table sg !! Z.to_nat p.2) as [[pg|]|] eqn:Hp; [|done..].
  destruct (o <? BY2PG); [|done]. split; [|done]. split.
  - apply mem_ok_alter; [apply Hs|]. intros. by apply seg_ok_poke.
  - by apply (regs_ok_eq _ s); [|apply Hs].
Qed.

Create HintDb keeps discriminated.
Hint Constants Opaque : keeps.
Hint Variables Opaque : keeps.
Hint Resolve keeps_bprint keeps_itrace keeps_bump keeps_hitbpt keeps_vaddr1 keeps_vaddr
  keeps_badvaddr keeps_peek keeps_poke keeps_longjmp keeps_exits keeps_fault
  keeps_tracing keeps_on_membpt : keeps.

(** One step through the structure of a computation; [keeps_auto] repeats it. *)
Ltac keeps_step :=
  lazymatch goal with
  | |- keeps _ (mbind _ (if _ then _ else _)) =>
      apply (keeps_bind (fun _ => True)); [|intros ? _]
  | |- keeps _ (mbind _ (match _ with _ => _ end)) =>
      apply (keeps_bind (fun _ => True)); [|intros ? _]
  | |- keeps _ (mbind _ skip) => apply (keeps_bind (fun _ => True)); [|intros ? _]
  | |- keeps _ (mbind _ (mbind _ _)) => apply (keeps_bind (fun _ => True)); [|intros ? _]
  | |- keeps _ (mbind _ _) => eapply keeps_bind; [|intros ? ?]
  | |- keeps _ (mret _) => apply keeps_ret; try done
  | |- keeps _ skip => apply keeps_skip; try done
  | |- keeps _ (gets _) => apply (keeps_gets (fun _ => True)); try done
  | |- keeps _ (if ?b then _ else _) => destruct b
  | |- keeps _ (match ?x with _ => _ end) => destruct x
  | |- keeps _ (tracing _) => apply keeps_tracing
  | |- keeps _ (on_membpt _) => apply keeps_on_membpt
  | |- keeps _ _ => solve [eauto with keeps | eapply keeps_mono; [|eauto with keeps]; done]
  end.
Ltac keeps_auto := repeat keeps_step; try done.

Lemma keeps_brkchk_loop gm4 a ty n i :
  (forall x, keeps (fun _ => True) (gm4 x)) ->
  keeps (fun _ => True) (brkchk_loop gm4 a ty n i).
Proof.
  intros Hg. revert i. induction n as [|n IH]; intros i; simpl; [keeps_auto|].
  assert (forall l, keeps (fun _ => True) (modify (set_bplist l))) as Hb.
  { intros l. apply keeps_modify; [done|]. intros s. by apply wf_outside. }
  assert (forall g, keeps (fun _ => True) (modify (fun s => set_bplist (g s) s))) as Hb'.
  { intros l. apply keeps_modify; [done|]. intros s. by apply wf_outside. }
  keeps_auto.
Qed.

Lemma keeps_brkchk_with gm4 a ty :
  (forall x, keeps (fun _ => True) (gm4 x)) -> keeps (fun _ => True) (brkchk_with gm4 a ty).
Proof.
  intros Hg. unfold brkchk_with. eapply keeps_bind; [by apply (keeps_gets (fun _ => True))|].
  intros. by apply keeps_brkchk_loop.
Qed.

Lemma keeps_getmem_b a : keeps (in_u 8) (getmem_b a).
Proof.
  unfold getmem_b. eapply keeps_bind.
  { apply keeps_on_membpt. intros s Hs.
    pose proof (keeps_brkchk_with (fun _ => mret 0) a Read
      ltac:(intros; by apply keeps_ret) s Hs) as H.
    unfold brkchk_with, mbind, M_bind, gets in *.
    by rewrite (brkchk_read_same _ (fun _ => mret 0)). }
  intros [] _. eapply keeps_bind; [apply keeps_vaddr|]. intros. apply keeps_peek.
Qed.

Lemma keeps_getmem_4 a : keeps (fun _ => True) (getmem_4 a).
Proof.
  unfold getmem_4. do 4 (eapply keeps_bind; [apply keeps_getmem_b|intros ? _]).
  by apply keeps_ret.
Qed.

Lemma keeps_brkchk a ty : keeps (fun _ => True) (brkchk a ty).
Proof. apply keeps_brkchk_with, keeps_getmem_4. Qed.
Hint Resolve keeps_brkchk keeps_getmem_b keeps_getmem_4 : keeps.

Lemma keeps_peek_w p o : keeps (in_u 32) (peek_w p o).
Proof.
  unfold peek_w. do 4 (eapply keeps_bind; [apply keeps_peek|intros ? _]).
  apply keeps_ret. by apply wrapu_range.
Qed.

Lemma keeps_count_iprof a : keeps (fun _ => True) (count_iprof a).
Proof.
  intros s Hs. unfold count_iprof. destruct (_ <? _); [|done]. split; [|done].
  by apply (wf_outside s).
Qed.
Hint Resolve keeps_peek_w keeps_count_iprof : keeps.

Lemma keeps_ifetch a : keeps (in_u 32) (ifetch a).
Proof. unfold ifetch, updateicache. keeps_auto. Qed.

Lemma keeps_getmem_w a : keeps (in_u 32) (getmem_w a).
Proof. unfold getmem_w. keeps_auto. Qed.

Lemma keeps_getmem_h a : keeps (fun _ => True) (getmem_h a).
Proof. unfold getmem_h. keeps_auto. Qed.

Lemma keeps_putmem_w a v : keeps (fun _ => True) (putmem_w a v).
Proof. unfold putmem_w. keeps_auto. Qed.
Lemma keeps_putmem_h a v : keeps (fun _ => True) (putmem_h a v).
Proof. unfold putmem_h. keeps_auto. Qed.
Lemma keeps_putmem_b a v : keeps (fun _ => True) (putmem_b a v).
Proof. unfold putmem_b. keeps_auto. Qed.
Hint Resolve keeps_ifetch keeps_getmem_w keeps_getmem_h keeps_putmem_w keeps_putmem_h
  keeps_putmem_b : keeps.

(** ** Registers *)

Lemma ulong_range x : in_u ulong_bits (ulong x).
Proof. apply wrapu_range. pose proof ulong_bits_ge. lia. Qed.

Lemma in_u_ulong_32 x : in_u 32 x -> in_u ulong_bits x.
Proof. apply in_u_mono. pose proof ulong_bits_ge. lia. Qed.

Lemma keeps_rget i : keeps (in_s 32) (rget i).
Proof.
  intros s Hs. unfold rget. destruct (reg_r (reg s) !! Z.to_nat i) eqn:Hi; [|done].
  split; [done|]. eapply Forall_lookup_1; [apply (ro_rv s), Hs|done].
Qed.

Lemma keeps_rset i v : keeps (fun _ => True) (rset i v).
Proof.
  intros s Hs. unfold rset. destruct (_ <? _); [|done]. split; [|done].
  apply wf_set_regs; [done|]. destruct Hs as [_ []]. split; cbn; try done.
  - by rewrite length_insert.
  - apply Forall_insert; [done|]. by apply wraps_range.
Qed.

Lemma keeps_wget i : keeps (in_u 32) (wget i).
Proof.
  intros s Hs. unfold wget. destruct (reg_fpw (reg s) !! Z.to_nat i) eqn:Hi; [|done].
  split; [done|]. eapply Forall_lookup_1; [apply (ro_fpwv s), Hs|done].
Qed.

Lemma keeps_wset i v : keeps (fun _ => True) (wset i v).
Proof.
  intros s Hs. unfold wset. destruct (_ <? _); [|done]. split; [|done].
  apply wf_set_regs; [done|]. destruct Hs as [_ []]. split; cbn; try done.
  - by rewrite length_insert.
  - apply Forall_insert; [done|]. by apply wrapu_range.
Qed.

Lemma keeps_ft_get i : keeps (fun _ => True) (ft_get i).
Proof. intros s Hs. unfold ft_get. by destruct (reg_ft (reg s) !! Z.to_nat i). Qed.

Lemma keeps_ft_set i v : keeps (fun _ => True) (ft_set i v).
Proof.
  intros s Hs. unfold ft_set. destruct (_ <? _); [|done]. split; [|done].
  apply wf_set_regs; [done|]. destruct Hs as [_ []]. split; cbn; try done.
  by rewrite length_insert.
Qed.

Lemma keeps_set_pc v : in_u ulong_bits v -> keeps (fun _ => True) (modify (set_pc v)).
Proof.
  intros Hv. apply keeps_modify; [done|]. intros s Hs. apply wf_set_regs; [done|].
  destruct Hs as [_ []]. by split.
Qed.
Lemma keeps_set_pc' f :
  keeps (fun _ => True) (modify (fun s => set_pc (ulong (f s)) s)).
Proof.
  apply keeps_modify; [done|]. intros s Hs. apply wf_set_regs; [done|].
  destruct Hs as [_ []]. split; try done. apply ulong_range.
Qed.
Lemma keeps_set_ir v : in_u 32 v -> keeps (fun _ => True) (modify (set_ir v)).
Proof.
  intros Hv. apply keeps_modify; [done|]. intros s Hs. apply wf_set_regs; [done|].
  destruct Hs as [_ []]. by split.
Qed.
Lemma keeps_set_ip v : keeps (fun _ => True) (modify (set_ip v)).
Proof.
  apply keeps_modify; [done|]. intros s Hs. apply wf_set_regs; [done|].
  destruct Hs as [_ []]. by split.
Qed.
Lemma keeps_set_mhi v : in_u ulong_bits v -> keeps (fun _ => True) (modify (set_mhi v)).
Proof.
  intros Hv. apply keeps_modify; [done|]. intros s Hs. apply wf_set_regs; [done|].
  destruct Hs as [_ []]. by split.
Qed.
Lemma keeps_set_mlo v : in_u ulong_bits v -> keeps (fun _ => True) (modify (set_mlo v)).
Proof.
  intros Hv. apply keeps_modify; [done|]. intros s Hs. apply wf_set_regs; [done|].
  destruct Hs as [_ []]. by split.
Qed.
Lemma keeps_set_fpsr f :
  (forall x, in_u ulong_bits x -> in_u ulong_bits (f x)) ->
  keeps (fun _ => True) (modify (fun s => set_fpsr (f (reg_fpsr (reg s))) s)).
Proof.
  intros Hf. apply keeps_modify; [done|]. intros s Hs. apply wf_set_regs; [done|].
  destruct Hs as [_ []]. split; try done. by apply Hf.
Qed.
Lemma keeps_nopcount f : keeps (fun _ => True) (modify (fun s => set_nopcount (f s) s)).
Proof. apply keeps_modify; [done|]. intros s. by apply wf_outside. Qed.

Lemma keeps_get_ir : keeps (in_u 32) (gets (fun s => reg_ir (reg s))).
Proof. apply keeps_gets. intros s Hs. apply Hs. Qed.

Hint Resolve keeps_rget keeps_rset keeps_wget keeps_wset keeps_ft_get keeps_ft_set
  keeps_set_pc' keeps_set_ip keeps_nopcount ulong_range in_u_ulong_32 : keeps.
Hint Extern 2 (keeps _ (modify (set_pc _))) => apply keeps_set_pc : keeps.
Hint Extern 2 (keeps _ (modify (set_ir _))) => apply keeps_set_ir : keeps.
Hint Extern 2 (keeps _ (modify (set_mhi _))) => apply keeps_set_mhi : keeps.
Hint Extern 2 (keeps _ (modify (set_mlo _))) => apply keeps_set_mlo : keeps.

(** ** Instructions *)

Lemma keeps_stat k f : keeps (fun _ => True) (bump f k).
Proof. apply keeps_bump. Qed.

Lemma keeps_Statbra : keeps (fun _ => True) Statbra.
Proof. unfold Statbra, stat_taken, stat_useddelay. keeps_auto. Qed.

Lemma keeps_undef i : keeps (fun _ => True) (undef i).
Proof. unfold undef. keeps_auto. Qed.
Hint Resolve keeps_Statbra keeps_undef : keeps.

Lemma udiv_range a b : in_u ulong_bits a -> in_u ulong_bits b -> b <> 0 ->
  in_u ulong_bits (a / b) /\ in_u ulong_bits (a mod b).
Proof.
  unfold in_u. intros Ha Hb Hz. pose proof (Z.mod_pos_bound a b).
  pose proof (Z.div_pos a b). pose proof (Z.div_le_upper_bound a b a). nia.
Qed.

Lemma mulu_range a b :
  in_u ulong_bits (fst (mulu a b)) /\ in_u ulong_bits (snd (mulu a b)).
Proof. split; apply ulong_range. Qed.

Lemma keeps_hilo lo hi :
  in_u ulong_bits lo -> in_u ulong_bits hi ->
  keeps (fun _ => True) (modify (set_mlo lo);; modify (set_mhi hi)).
Proof. intros. keeps_auto. Qed.

(** Past the trace line and the two register reads of a handler. *)
Ltac keeps_operands v t :=
  eapply keeps_bind; [apply keeps_tracing, keeps_itrace|intros _ _];
  eapply keeps_bind; [apply keeps_rget|intros v _];
  eapply keeps_bind; [apply keeps_rget|intros t _].

Lemma keeps_Ssll i : keeps (fun _ => True) (Ssll i).
Proof. unfold Ssll. keeps_auto. Qed.
Lemma keeps_Ssrl i : keeps (fun _ => True) (Ssrl i).
Proof. unfold Ssrl. keeps_auto. Qed.
Lemma keeps_Ssra i : keeps (fun _ => True) (Ssra i).
Proof. unfold Ssra. keeps_auto. Qed.
Lemma keeps_Ssllv i : keeps (fun _ => True) (Ssllv i).
Proof. unfold Ssllv. keeps_auto. Qed.
Lemma keeps_Ssrlv i : keeps (fun _ => True) (Ssrlv i).
Proof. unfold Ssrlv. keeps_auto. Qed.
Lemma keeps_Ssrav i : keeps (fun _ => True) (Ssrav i).
Proof. unfold Ssrav. keeps_auto. Qed.
Lemma keeps_Smfhi i : keeps (fun _ => True) (Smfhi i).
Proof. unfold Smfhi. keeps_auto. Qed.
Lemma keeps_Smflo i : keeps (fun _ => True) (Smflo i).
Proof. unfold Smflo. keeps_auto. Qed.
Lemma keeps_Sdiv i : keeps (fun _ => True) (Sdiv i).
Proof. unfold Sdiv. keeps_auto. Qed.
Lemma keeps_Sadd i : keeps (fun _ => True) (Sadd i).
Proof. unfold Sadd. keeps_auto. Qed.
Lemma keeps_Saddu i : keeps (fun _ => True) (Saddu i).
Proof. unfold Saddu. keeps_auto. Qed.
Lemma keeps_Ssubu i : keeps (fun _ => True) (Ssubu i).
Proof. unfold Ssubu. keeps_auto. Qed.
Lemma keeps_Sand i : keeps (fun _ => True) (Sand i).
Proof. unfold Sand. keeps_auto. Qed.
Lemma keeps_Sor i : keeps (fun _ => True) (Sor i).
Proof. unfold Sor. keeps_auto. Qed.
Lemma keeps_Sxor i : keeps (fun _ => True) (Sxor i).
Proof. unfold Sxor. keeps_auto. Qed.
Lemma keeps_Snor i : keeps (fun _ => True) (Snor i).
Proof. unfold Snor. keeps_auto. Qed.
Lemma keeps_Sslt i : keeps (fun _ => True) (Sslt i).
Proof. unfold Sslt. keeps_auto. Qed.
Lemma keeps_Ssltu i : keeps (fun _ => True) (Ssltu i).
Proof. unfold Ssltu. keeps_auto. Qed.
Lemma keeps_Smult i : keeps (fun _ => True) (Smult i).
Proof.
  unfold Smult. keeps_operands v t. destruct (mul v t) as [lo hi].
  apply keeps_hilo; apply ulong_range.
Qed.
Lemma keeps_Smultu i : keeps (fun _ => True) (Smultu i).
Proof.
  unfold Smultu. keeps_operands v t. pose proof (mulu_range (ulong v) (ulong t)) as Hm.
  destruct (mulu (ulong v) (ulong t)) as [lo hi].
  by apply keeps_hilo; apply Hm.
Qed.
Lemma keeps_Sdivu i : keeps (fun _ => True) (Sdivu i).
Proof.
  unfold Sdivu. keeps_operands v t.
  destruct (Z.eqb_spec (ulong t) 0); [apply keeps_fault|].
  apply keeps_hilo; (apply udiv_range; [apply ulong_range|apply ulong_range|done]).
Qed.
Hint Resolve keeps_Ssll keeps_Ssrl keeps_Ssra keeps_Ssllv keeps_Ssrlv keeps_Ssrav keeps_Smfhi
  keeps_Smflo keeps_Sdiv keeps_Sadd keeps_Saddu keeps_Ssubu keeps_Sand keeps_Sor keeps_Sxor
  keeps_Snor keeps_Sslt keeps_Ssltu keeps_Smult keeps_Smultu keeps_Sdivu : keeps.

(** ** Coprocessor 1 *)

Lemma wget2_range i : keeps (fun v => 0 <= v < 2 ^ 64) (wget2 i).
Proof.
  unfold wget2. eapply keeps_bind; [apply keeps_wget|intros l Hl].
  eapply keeps_bind; [apply keeps_wget|intros h Hh]. apply keeps_ret.
  unfold in_u in *. lia.
Qed.

Lemma keeps_wset2 i v : keeps (fun _ => True) (wset2 i v).
Proof. unfold wset2. keeps_auto. Qed.

Lemma keeps_wget2 i : keeps (fun _ => True) (wget2 i).
Proof. unfold wget2. keeps_auto. Qed.
Hint Resolve keeps_wget2 keeps_wset2 : keeps.

Lemma keeps_di_get i : keeps (fun _ => True) (di_get i).
Proof. unfold di_get. keeps_auto. Qed.
Lemma keeps_di_set i v : keeps (fun _ => True) (di_set i v).
Proof. unfold di_set. keeps_auto. Qed.
Lemma keeps_fl_get i : keeps (fun _ => True) (fl_get i).
Proof. unfold fl_get. keeps_auto. Qed.
Lemma keeps_fl_set i v : keeps (fun _ => True) (fl_set i v).
Proof. unfold fl_set. keeps_auto. Qed.
Lemma keeps_fd_get i : keeps (fun _ => True) (fd_get i).
Proof. unfold fd_get. keeps_auto. Qed.
Lemma keeps_fd_set i v : keeps (fun _ => True) (fd_set i v).
Proof. unfold fd_set. keeps_auto. Qed.
Lemma keeps_unimp i : keeps (fun _ => True) (unimp i).
Proof. unfold unimp. keeps_auto. Qed.
Lemma keeps_inval i : keeps (fun _ => True) (inval i).
Proof. unfold inval. keeps_auto. Qed.
Lemma keeps_ifmt i : keeps (fun _ => True) (ifmt i).
Proof. unfold ifmt. keeps_auto. Qed.
Hint Resolve keeps_di_get keeps_di_set keeps_fl_get keeps_fl_set keeps_fd_get keeps_fd_set
  keeps_unimp keeps_inval keeps_ifmt : keeps.

Lemma keeps_floatop d a b : keeps (fun _ => True) (floatop d a b).
Proof. unfold floatop. keeps_auto. Qed.
Lemma keeps_swap_di i : keeps (fun _ => True) (swap_di i).
Proof. unfold swap_di. keeps_auto. Qed.
Hint Resolve keeps_swap_di : keeps.
Lemma keeps_doubop_src a : keeps (fun _ => True) (doubop_src a).
Proof. unfold doubop_src. keeps_auto. Qed.
Hint Resolve keeps_doubop_src keeps_floatop : keeps.
Lemma keeps_doubop d a b : keeps (fun _ => True) (doubop d a b).
Proof. unfold doubop. keeps_auto. Qed.
Lemma keeps_long_of_float f : keeps (fun _ => True) (long_of_float f).
Proof. unfold long_of_float. keeps_auto. Qed.
Hint Resolve keeps_doubop keeps_long_of_float : keeps.

Lemma keeps_clear_cbit :
  keeps (fun _ => True)
    (modify (fun s => set_fpsr (Z.land (reg_fpsr (reg s)) (Z.lnot FP_CBIT)) s)).
Proof.
  apply (keeps_set_fpsr (fun x => Z.land x (Z.lnot FP_CBIT))). intros x Hx.
  apply small_from_bits; [pose proof ulong_bits_ge; lia|]. intros n Hn.
  rewrite Z.land_spec, (testbit_small x ulong_bits n) by
    (pose proof ulong_bits_ge; unfold in_u in *; lia). done.
Qed.

Lemma keeps_set_cbit :
  keeps (fun _ => True)
    (modify (fun s => set_fpsr (Z.lor (reg_fpsr (reg s)) FP_CBIT) s)).
Proof.
  apply (keeps_set_fpsr (fun x => Z.lor x FP_CBIT)). intros x Hx.
  pose proof ulong_bits_ge.
  apply small_from_bits; [lia|]. intros n Hn.
  rewrite Z.lor_spec, (testbit_small x ulong_bits n) by (unfold in_u in *; lia).
  apply (testbit_small FP_CBIT 24); [lia|by vm_compute|lia].
Qed.
Hint Resolve keeps_clear_cbit keeps_set_cbit : keeps.

(** The format switch of the arithmetic handlers. *)
Lemma keeps_ffmt {A} (Q : A -> Prop) x (a b c d : M A) :
  keeps Q a -> keeps Q b -> keeps Q c -> keeps Q d ->
  keeps Q (match x with 0 => a | 1 => b | 4 => c | _ => d end).
Proof. intros. destruct x as [|[[]|[[]|[]|]|]|]; done. Qed.

Ltac keeps_float :=
  apply (keeps_bind (fun _ => True)); [apply keeps_ffmt; keeps_auto|];
  intros ? _; keeps_auto.

Lemma keeps_Ifadd i : keeps (fun _ => True) (Ifadd i).
Proof. unfold Ifadd. keeps_float. Qed.
Lemma keeps_Ifsub i : keeps (fun _ => True) (Ifsub i).
Proof. unfold Ifsub. keeps_float. Qed.
Lemma keeps_Ifmul i : keeps (fun _ => True) (Ifmul i).
Proof. unfold Ifmul. keeps_float. Qed.
Lemma keeps_Ifdiv i : keeps (fun _ => True) (Ifdiv i).
Proof. unfold Ifdiv. keeps_float. Qed.
Lemma keeps_Ifabs i : keeps (fun _ => True) (Ifabs i).
Proof. unfold Ifabs. keeps_float. Qed.
Lemma keeps_Ifmov i : keeps (fun _ => True) (Ifmov i).
Proof. unfold Ifmov. keeps_float. Qed.
Lemma keeps_Ifneg i : keeps (fun _ => True) (Ifneg i).
Proof. unfold Ifneg. keeps_float. Qed.
Lemma keeps_Icvts i : keeps (fun _ => True) (Icvts i).
Proof. unfold Icvts. keeps_float. Qed.
Lemma keeps_Icvtd i : keeps (fun _ => True) (Icvtd i).
Proof. unfold Icvtd. keeps_float. Qed.
Lemma keeps_Icvtw i : keeps (fun _ => True) (Icvtw i).
Proof. unfold Icvtw. keeps_float. Qed.
Lemma keeps_Ifcmp i : keeps (fun _ => True) (Ifcmp i).
Proof. unfold Ifcmp. keeps_float. Qed.
Hint Resolve keeps_Ifadd keeps_Ifsub keeps_Ifmul keeps_Ifdiv keeps_Ifabs keeps_Ifmov
  keeps_Ifneg keeps_Icvts keeps_Icvtd keeps_Icvtw keeps_Ifcmp : keeps.

Ltac keeps_table :=
  repeat (apply Forall_cons_2; [cbv beta; solve [eauto with keeps]|]); apply Forall_nil_2.

Lemma keeps_cop1 ir : Forall (fun f : Z -> M unit => keeps (fun _ => True) (f ir)) cop1.
Proof. unfold cop1. keeps_table. Qed.

Lemma keeps_Imfcf i : keeps (fun _ => True) (Imfcf i).
Proof. unfold Imfcf. keeps_auto. Qed.
Lemma keeps_Imtct i : keeps (fun _ => True) (Imtct i).
Proof. unfold Imtct. keeps_auto. Qed.
Lemma keeps_Ilwc1 i : keeps (fun _ => True) (Ilwc1 i).
Proof. unfold Ilwc1. keeps_auto. Qed.
Lemma keeps_Iswc1 i : keeps (fun _ => True) (Iswc1 i).
Proof. unfold Iswc1. keeps_auto. Qed.
Hint Resolve keeps_Imfcf keeps_Imtct keeps_Ilwc1 keeps_Iswc1 : keeps.

(** ** Loads, stores and immediates *)

Lemma keeps_Iaddi i : keeps (fun _ => True) (Iaddi i).
Proof. unfold Iaddi. keeps_auto. Qed.
Lemma keeps_Iandi i : keeps (fun _ => True) (Iandi i).
Proof. unfold Iandi. keeps_auto. Qed.
Lemma keeps_Iori i : keeps (fun _ => True) (Iori i).
Proof. unfold Iori. keeps_auto. Qed.
Lemma keeps_Ixori i : keeps (fun _ => True) (Ixori i).
Proof. unfold Ixori. keeps_auto. Qed.
Lemma keeps_Iaddiu i : keeps (fun _ => True) (Iaddiu i).
Proof. unfold Iaddiu. keeps_auto. Qed.
Lemma keeps_Islti i : keeps (fun _ => True) (Islti i).
Proof. unfold Islti. keeps_auto. Qed.
Lemma keeps_Isltiu i : keeps (fun _ => True) (Isltiu i).
Proof. unfold Isltiu. keeps_auto. Qed.
Lemma keeps_Ilui i : keeps (fun _ => True) (Ilui i).
Proof. unfold Ilui. keeps_auto. Qed.
Lemma keeps_Isw i : keeps (fun _ => True) (Isw i).
Proof. unfold Isw. keeps_auto. Qed.
Lemma keeps_Isb i : keeps (fun _ => True) (Isb i).
Proof. unfold Isb. keeps_auto. Qed.
Lemma keeps_Ish i : keeps (fun _ => True) (Ish i).
Proof. unfold Ish. keeps_auto. Qed.
Lemma keeps_Isc i : keeps (fun _ => True) (Isc i).
Proof. unfold Isc. keeps_auto. Qed.

Lemma keeps_trace_load fmt rt off rb va n get :
  keeps (fun _ => True) get -> keeps (fun _ => True) (trace_load fmt rt off rb va n get).
Proof. intros Hg. unfold trace_load. keeps_auto. Qed.
Hint Extern 1 (keeps _ (trace_load _ _ _ _ _ _ _)) => apply keeps_trace_load; keeps_auto : keeps.

Lemma keeps_Ilw i : keeps (fun _ => True) (Ilw i).
Proof. unfold Ilw. keeps_auto. Qed.
Lemma keeps_Ilh i : keeps (fun _ => True) (Ilh i).
Proof. unfold Ilh. keeps_auto. Qed.
Lemma keeps_Ilhu i : keeps (fun _ => True) (Ilhu i).
Proof. unfold Ilhu. keeps_auto. Qed.
Lemma keeps_Ilb i : keeps (fun _ => True) (Ilb i).
Proof. unfold Ilb. keeps_auto. Qed.
Lemma keeps_Ilbu i : keeps (fun _ => True) (Ilbu i).
Proof. unfold Ilbu. keeps_auto. Qed.
Lemma keeps_Ill i : keeps (fun _ => True) (Ill i).
Proof. unfold Ill. keeps_auto. Qed.
Lemma keeps_Ilwl i : keeps (fun _ => True) (Ilwl i).
Proof. unfold Ilwl. keeps_auto. Qed.
Lemma keeps_Ilwr i : keeps (fun _ => True) (Ilwr i).
Proof. unfold Ilwr. keeps_auto. Qed.
Hint Resolve keeps_Iaddi keeps_Iandi keeps_Iori keeps_Ixori keeps_Iaddiu keeps_Islti
  keeps_Isltiu keeps_Ilui keeps_Isw keeps_Isb keeps_Ish keeps_Isc keeps_Ilw keeps_Ilh
  keeps_Ilhu keeps_Ilb keeps_Ilbu keeps_Ill keeps_Ilwl keeps_Ilwr : keeps.

(** ** Jumps, system calls and dispatch *)

(** What the parts of the emulator outside the core promise: the system calls and the
    call tree leave a well-formed state. *)
Class EnvKeeps : Prop := {
  Ssyscall_keeps : forall i, keeps (fun _ => True) (Ssyscall i);
  printcall_keeps : forall i npc, keeps (fun _ => True) (printcall i npc) }.

Context {EK : EnvKeeps}.
Hint Resolve Ssyscall_keeps printcall_keeps : keeps.

Section Exec.
Variable Iexec : Z -> M unit.
Hypothesis Iexec_keeps : forall ir, keeps (fun _ => True) (Iexec ir).
Hint Resolve Iexec_keeps : keeps.

Lemma keeps_delay_slot b : keeps (fun _ => True) (delay_slot Iexec b).
Proof. unfold delay_slot. keeps_auto. Qed.
Lemma keeps_goto npc : keeps (fun _ => True) (goto npc).
Proof. unfold goto. keeps_auto. Qed.
Lemma keeps_skip_slot : keeps (fun _ => True) skip_slot.
Proof. unfold skip_slot. keeps_auto. Qed.
Hint Resolve keeps_delay_slot keeps_goto keeps_skip_slot : keeps.

Lemma keeps_Sjr i : keeps (fun _ => True) (Sjr Iexec i).
Proof. unfold Sjr. keeps_auto. Qed.
Lemma keeps_Sjalr i : keeps (fun _ => True) (Sjalr Iexec i).
Proof. unfold Sjalr. keeps_auto. Qed.
Lemma keeps_Ijal i : keeps (fun _ => True) (Ijal Iexec i).
Proof. unfold Ijal. keeps_auto. Qed.
Lemma keeps_Ij i : keeps (fun _ => True) (Ij Iexec i).
Proof. unfold Ij. keeps_auto. Qed.
Lemma keeps_Ibeq i : keeps (fun _ => True) (Ibeq Iexec i).
Proof. unfold Ibeq. keeps_auto. Qed.
Lemma keeps_Ibeql i : keeps (fun _ => True) (Ibeql Iexec i).
Proof. unfold Ibeql. keeps_auto. Qed.
Lemma keeps_Ibgtz i : keeps (fun _ => True) (Ibgtz Iexec i).
Proof. unfold Ibgtz. keeps_auto. Qed.
Lemma keeps_Ibgtzl i : keeps (fun _ => True) (Ibgtzl Iexec i).
Proof. unfold Ibgtzl. keeps_auto. Qed.
Lemma keeps_Iblez i : keeps (fun _ => True) (Iblez Iexec i).
Proof. unfold Iblez. keeps_auto. Qed.
Lemma keeps_Iblezl i : keeps (fun _ => True) (Iblezl Iexec i).
Proof. unfold Iblezl. keeps_auto. Qed.
Lemma keeps_Ibne i : keeps (fun _ => True) (Ibne Iexec i).
Proof. unfold Ibne. keeps_auto. Qed.
Lemma keeps_Ibnel i : keeps (fun _ => True) (Ibnel Iexec i).
Proof. unfold Ibnel. keeps_auto. Qed.
Lemma keeps_Ibcfbct i : keeps (fun _ => True) (Ibcfbct Iexec i).
Proof. unfold Ibcfbct. keeps_auto. Qed.
Hint Resolve keeps_Sjr keeps_Sjalr keeps_Ijal keeps_Ij keeps_Ibeq keeps_Ibeql keeps_Ibgtz
  keeps_Ibgtzl keeps_Iblez keeps_Iblezl keeps_Ibne keeps_Ibnel keeps_Ibcfbct : keeps.

Lemma keeps_Ibcond i : keeps (fun _ => True) (Ibcond Iexec i).
Proof.
  unfold Ibcond. eapply keeps_bind; [by apply (keeps_gets (fun _ => True))|intros pc _].
  destruct (bcond_of _) as [[[[] neg] likely]|]; keeps_auto.
Qed.
Hint Resolve keeps_Ibcond : keeps.

Lemma keeps_lookup (tab : list (Z -> M unit)) k ir :
  Forall (fun f : Z -> M unit => keeps (fun _ => True) (f ir)) tab ->
  keeps (fun _ => True)
    (match tab !! k with Some f => f ir | None => fault end).
Proof.
  intros Ht. destruct (tab !! k) as [f|] eqn:Hf; [|apply keeps_fault].
  exact (Forall_lookup_1 _ _ _ _ Ht Hf).
Qed.

Lemma keeps_ispec i :
  Forall (fun f : Z -> M unit => keeps (fun _ => True) (f i)) (ispec Iexec).
Proof. unfold ispec. keeps_table. Qed.

Lemma keeps_Ispecial i : keeps (fun _ => True) (Ispecial Iexec i).
Proof.
  unfold Ispecial. eapply keeps_bind; [apply keeps_set_ip|intros _ _].
  eapply keeps_bind; [apply keeps_bump|intros _ _]. apply keeps_lookup, keeps_ispec.
Qed.

Lemma keeps_Icop1 i : keeps (fun _ => True) (Icop1 Iexec i).
Proof.
  assert (keeps (fun _ => True) (stat_count (row_cop1 (Z.land i 0x3f));;
    match cop1 !! Z.to_nat (Z.land i 0x3f) with Some f => f i | None => fault end)) as Ho.
  { eapply keeps_bind; [apply keeps_bump|intros _ _]. apply keeps_lookup, keeps_cop1. }
  unfold Icop1. destruct (Z.land (Z.shiftr i 23) 7) as [|[[]|[]|]|]; eauto with keeps.
Qed.
Hint Resolve keeps_Ispecial keeps_Icop1 : keeps.

Lemma keeps_itab i :
  Forall (fun f : Z -> M unit => keeps (fun _ => True) (f i)) (itab Iexec).
Proof. unfold itab. keeps_table. Qed.
End Exec.

(** One dispatch of [Iexec], with [ex] for the recursive call. *)
Definition exec1 (ex : Z -> M unit) (ir : Z) : M unit :=
  let k := Z.shiftr ir 26 in
  modify (set_ip (row_itab k));;
  stat_count (row_itab k);;
  match itab ex !! Z.to_nat k with Some f => f ir | None => fault end.

Lemma Iexec_S n ir : Iexec (S n) ir = exec1 (Iexec n) ir.
Proof. done. Qed.

Lemma keeps_exec1 ex ir :
  (forall ir, keeps (fun _ => True) (ex ir)) -> keeps (fun _ => True) (exec1 ex ir).
Proof.
  intros Hex. unfold exec1. eapply keeps_bind; [apply keeps_set_ip|intros _ _].
  eapply keeps_bind; [apply keeps_bump|intros _ _].
  by apply keeps_lookup, keeps_itab.
Qed.

Lemma keeps_dortrace : keeps (fun _ => True) dortrace.
Proof.
  unfold dortrace. do 2 (eapply keeps_bind; [by apply (keeps_gets (fun _ => True))|intros ? _]).
  apply keeps_modify; [done|]. intros s. by apply wf_outside.
Qed.
Hint Resolve keeps_dortrace : keeps.

Lemma keeps_set_count c : keeps (fun _ => True) (modify (set_count c)).
Proof. apply keeps_modify; [done|]. intros s. by apply wf_outside. Qed.
Hint Resolve keeps_set_count : keeps.

Context (HD : D).

Lemma keeps_Iexec fuel ir : keeps (fun _ => True) (Iexec fuel ir).
Proof.
  revert ir. induction fuel as [|n IH]; intros ir; [by apply keeps_diverge|].
  rewrite Iexec_S. by apply keeps_exec1.
Qed.
Hint Resolve keeps_Iexec : keeps.

Lemma keeps_run1 fuel : keeps (fun _ => True) (run1 fuel).
Proof. unfold run1. keeps_auto. Qed.
Hint Resolve keeps_run1 : keeps.

Lemma keeps_run steps fuel : keeps (fun _ => True) (run steps fuel).
Proof. induction steps as [|n IH]; cbn [run]; [by apply keeps_diverge|]. keeps_auto. Qed.
End Inv.
