(* ===== verification/ViDemo.v ===== *)
(** Two concrete hosts (32-bit and 64-bit [ulong]) and a small program image: the inputs of
    the witnesses of the emulator's theorems. *)
From S2P Require Import Prelude CInt ViMachine ViMem ViMemSpec ViSpecial ViFloat ViRun ViInv.

(** ** The image: a 32-byte header, eight words of text, eight bytes of data *)

Definition demo_text : list Z :=
  [0x24010005;  (* 4020 addiu r1, r0, 5 *)
   0x14200002;  (* 4024 bne   r1, r0, 4030 *)
   0x24210007;  (* 4028 addiu r1, r1, 7 *)
   0x0000000d;  (* 402c undefined *)
   0x08001010;  (* 4030 j     4040 *)
   0xac018000;  (* 4034 sw    r1, -32768(r0) *)
   0x00000027;  (* 4038 nor   r0, r0, r0 *)
   0x00000027]. (* 403c nor   r0, r0, r0 *)

Definition word_bytes (w : Z) : list Z :=
  [u8 (Z.shiftr w 24); u8 (Z.shiftr w 16); u8 (Z.shiftr w 8); u8 w].

Definition demo_file : list Z :=
  replicate 32 0 ++ concat (map word_bytes demo_text) ++ [1; 2; 3; 4; 0xf5; 6; 7; 8].

Definition demo_hdr : Fhdr :=
  mkFhdr 0x4020 32 32 8 64 0x5000 32 0x4020.

(** [pread] of at most a page. *)
Definition read_file (file : list Z) (off : Z) : option (list Z) :=
  Some (take (Z.to_nat BY2PG) (drop (Z.to_nat off) file)).

Definition host (bits : Z) : ViEnv := {|
  ulong_bits := bits; text_read := read_file demo_file;
  lnrand := fun g n => (g mod n, g + 1);
  Ssyscall := fun _ => skip; printcall := fun _ _ => skip;
  host_nan32 := 0x7fc00000; host_nan64 := 0x7ff8000000000000 |}.

Definition host32 : ViEnv := host 32.
Definition host64 : ViEnv := host 64.

Lemma demo_file_bytes : Forall (in_u 8) demo_file.
Proof. apply (bool_decide_unpack _). by vm_compute. Qed.

Lemma host_ok bits : bits = 32 \/ bits = 64 -> ViEnvOk (host bits).
Proof.
  intros Hb. split; [done| |].
  - intros off. eexists. split; [done|]. split.
    + rewrite length_take. unfold BY2PG. lia.
    + apply Forall_take, Forall_drop, demo_file_bytes.
  - intros g n Hn. by apply Z.mod_pos_bound.
Qed.

Lemma host32_ok : ViEnvOk host32.
Proof. apply host_ok. by left. Qed.
Lemma host64_ok : ViEnvOk host64.
Proof. apply host_ok. by right. Qed.

Lemma host_keeps bits D : EnvKeeps (E := host bits) D.
Proof. split; intros; by apply keeps_skip. Qed.

(** ** A machine that has loaded it *)

Definition regs0 (bits : Z) : Registers :=
  mkRegisters 0 0 0 (replicate 32 0) 0 0 0 (replicate (Z.to_nat bits) 0) (replicate 32 FPmemory).

Definition blank (bits : Z) : vi :=
  mkvi (regs0 bits) [] (mkTlb true 4 (replicate 64 0) 0 0) false 0 ∅ 0 ∅ 0 7 false false 0 0
    [] 0 0 [].

Definition boot (bits : Z) : vi :=
  match @initmap (host bits) demo_hdr (blank bits) with Ok _ s => s | _ => blank bits end.

Lemma seg_ok_empty t base end' fo fe :
  0 <= base -> base mod BY2PG = 0 -> base <= end' <= 2 ^ 31 -> end' mod BY2PG = 0 ->
  0 <= fo -> fo + (end' - base) < 2 ^ 31 - BY2PG -> 0 <= fe < 2 ^ 31 ->
  (t = Data -> forall off, 0 <= off -> off * BY2PG < end' - base -> fo + off * BY2PG <= fe) ->
  seg_ok (mkSegment t base end' fo fe 0 0
            (replicate (Z.to_nat ((end' - base) / BY2PG)) None)).
Proof.
  intros Hb Hba He Hea Hfo Hlen Hfe Hdata.
  assert (0 <= (end' - base) / BY2PG) as Hn by (apply Z.div_pos; unfold BY2PG; lia).
  assert ((end' - base) mod BY2PG = 0) as Hm by (rewrite Zminus_mod, Hba, Hea; done).
  pose proof (Z.div_mod (end' - base) BY2PG ltac:(done)) as Hdm. rewrite Hm in Hdm.
  split; cbn [seg_base seg_end seg_type seg_fileoff seg_fileend seg_table];
    rewrite ?length_replicate, ?Z2Nat.id by done; try done; try lia.
  - by rewrite Z.max_r by lia.
  - intros off pg Hx. by apply lookup_replicate in Hx as [? _].
  - intros Ht off Ho Hoff. apply Hdata; [done|done|]. unfold BY2PG in *. lia.
Qed.

Lemma wf_boot bits : bits = 32 \/ bits = 64 -> wf (E := host bits) (boot bits).
Proof.
  intros Hb. split.
  - split; [|by destruct Hb as [-> | ->]; vm_compute].
    assert (memory (boot bits) =
      let sg t b e fo fe := mkSegment t b e fo fe 0 0 (replicate (Z.to_nat ((e - b) / BY2PG)) None) in
      [sg Stack 0x7fff0000 0x80000000 0 0; sg Text 0x4000 0x8000 0 32;
       sg Data 0x8000 0xc000 64 72; sg Bss 0xc000 0x10000 0 0]) as ->
      by (destruct Hb as [-> | ->]; vm_compute; reflexivity).
    repeat apply Forall_cons_2; [..|apply Forall_nil_2];
      (apply seg_ok_empty; unfold BY2PG; try (lia || done)).
  - assert (reg (boot bits) = mkRegisters 0x4020 0 0 (replicate 32 0) 0 0 0
      (replicate (Z.to_nat bits) 0) (replicate 32 FPmemory)) as Hr
      by (destruct Hb as [-> | ->]; vm_compute; reflexivity).
    assert (32 <= @ulong_bits (host bits)) as Hw by (simpl; lia).
    assert (0x4020 < 2 ^ 32 <= 2 ^ @ulong_bits (host bits)) as Hp
      by (split; [done|by apply Z.pow_le_mono_r]).
    split; rewrite Hr; cbn [reg_pc reg_ir reg_r reg_mhi reg_mlo reg_fpsr reg_fpw reg_ft];
      rewrite ?length_replicate; try apply Forall_replicate; unfold in_u, in_s; try done; try lia.
    simpl. lia.
Qed.

Lemma boot_quiet bits : bits = 32 \/ bits = 64 ->
  trace (boot bits) = false /\ membpt (boot bits) = 0 /\ bplist (boot bits) = []
  /\ reg_pc (reg (boot bits)) = 0x4020.
Proof. by intros [-> | ->]; vm_compute. Qed.
