(* ===== verification/ViMemThm.v ===== *)
(** The emulator's memory refines a flat, demand-filled, big-endian byte memory: loads and
    stores of every width on every branch, copies, the initial image, and the breakpoint
    checks they make. *)
From S2P Require Import Prelude CInt ViMachine ViMem ViMemSpec ViSpecial ViFloat ViRun ViInv ViDemo.

Section Thm.
Context {E : ViEnv} {EOk : ViEnvOk E}.

Lemma bind_assoc {A B C} (m : M A) (f : A -> M B) (g : B -> M C) s :
  ((m ≫= f) ≫= g) s = (m ≫= fun x => f x ≫= g) s.
Proof. unfold mbind, M_bind. by destruct (m s). Qed.

Lemma runs_assoc {A B C} (m : M A) (f : A -> M B) (g : B -> M C) s P :
  runs ((m ≫= f) ≫= g) s P <-> runs (m ≫= fun x => f x ≫= g) s P.
Proof. unfold runs. by rewrite bind_assoc. Qed.

(** ** Traps *)

(** A trap of an access: a message, and nothing else. *)
Definition traps {A} (m : M A) (s : vi) : Prop :=
  exists s', m s = Longjmp s' /\ arch_eq s' s /\ mem_ok s'.

Lemma vaddr_traps {B} s a (k : hostpage -> M B) :
  mem_ok s -> pageof s a = None -> traps (vaddr a ≫= k) s.
Proof.
  intros Hok Hp. unfold traps, vaddr, mbind, M_bind. pose proof (quiet_vaddr1 s a Hok) as Hq.
  unfold quiet, runs in Hq. destruct (vaddr1 a s) as [v s1| | | |]; try done.
  destruct Hq as (Heq & Hok1 & -> & _). rewrite Hp. simpl. eexists. split; [done|].
  split; [|done]. etrans; [|exact Heq]. done.
Qed.

Lemma print_traps {A} f l s : mem_ok s -> traps (Bprint f l;; @longjmp A) s.
Proof. intros Hok. by eexists. Qed.

Lemma traps_on_membpt {B} m (k : M B) s :
  membpt s = 0 -> traps k s -> traps (on_membpt m;; k) s.
Proof. intros Hm (s' & Hs' & ?). exists s'. unfold mbind, M_bind. by rewrite on_membpt_off. Qed.

(** What a load does: the value of the flat memory, or a trap when the address is not
    aligned or not mapped. *)
Definition load_ok (m : M Z) (s : vi) (a al : Z) (v : option Z) : Prop :=
  if decide (a mod al = 0 /\ is_Some (pageof s a)) then
    quiet m s (fun w _ => v = Some w)
  else traps m s.

Lemma load_w s a :
  mem_ok s -> membpt s = 0 -> load_ok (getmem_w a) s a 4 (view_w s a).
Proof.
  intros Hok Hm. unfold load_ok. case_decide as Ha.
  - destruct Ha as [Ha [p Hp]]. by apply (quiet_getmem_w s a p).
  - unfold getmem_w. rewrite land3_mod. destruct (Z.eqb_spec (a mod 4) 0); cbn [negb].
    + apply traps_on_membpt; [done|]. apply vaddr_traps; [done|].
      destruct (pageof s a) eqn:Hp; [|done]. exfalso. apply Ha. by split.
    + by apply print_traps.
Qed.

Lemma load_h s a :
  mem_ok s -> membpt s = 0 -> load_ok (getmem_h a) s a 2 (view_h s a).
Proof.
  intros Hok Hm. unfold load_ok. case_decide as Ha.
  - destruct Ha as [Ha [p Hp]]. by apply (quiet_getmem_h s a p).
  - unfold getmem_h. rewrite land1_mod. destruct (Z.eqb_spec (a mod 2) 0); cbn [negb].
    + apply traps_on_membpt; [done|]. apply vaddr_traps; [done|].
      destruct (pageof s a) eqn:Hp; [|done]. exfalso. apply Ha. by split.
    + by apply print_traps.
Qed.

Lemma load_b s a :
  mem_ok s -> membpt s = 0 -> load_ok (getmem_b a) s a 1 (view s a).
Proof.
  intros Hok Hm. unfold load_ok. case_decide as Ha.
  - destruct Ha as [Ha [p Hp]]. by apply (quiet_getmem_b s a p).
  - unfold getmem_b. apply traps_on_membpt; [done|]. apply vaddr_traps; [done|].
    destruct (pageof s a) eqn:Hp; [|done]. exfalso. apply Ha. rewrite Z.mod_1_r. by split.
Qed.

(** ** Stores *)

Definition store_ok (m : M unit) (s : vi) (a al : Z) (bs : list Z) : Prop :=
  if decide (a mod al = 0 /\ is_Some (pageof s a)) then
    runs m s (fun _ s' => store_eq s s' a bs)
  else traps m s.

(** The bytes of a stored word, most significant first. *)
Definition w_bytes (v : Z) : list Z := [Z.shiftr v 24; Z.shiftr v 16; Z.shiftr v 8; v].
Definition h_bytes (v : Z) : list Z := [Z.shiftr v 8; v].

Lemma store_body s a k bs :
  mem_ok s -> membpt s = 0 -> 0 <= k <= 14 -> Z.of_nat (length bs) <= 2 ^ k ->
  store_ok (p ← vaddr a; poke_list p (pgoff a) bs;; on_membpt (brkchk a Write)) s a (2 ^ k) bs
  \/ a mod 2 ^ k <> 0.
Proof.
  intros Hok Hm Hk Hlen. destruct (Z.eq_dec (a mod 2 ^ k) 0) as [Ha|]; [left|by right].
  unfold store_ok. case_decide as Hd.
  - destruct Hd as [_ [p Hp]]. by apply (runs_store s a p k).
  - apply vaddr_traps; [done|]. destruct (pageof s a) eqn:Hp; [|done].
    exfalso. apply Hd. by split.
Qed.

Lemma store_ok_ext (m m' : M unit) s a al bs :
  (forall s, m s = m' s) -> store_ok m s a al bs -> store_ok m' s a al bs.
Proof.
  intros H. unfold store_ok, runs, traps. rewrite (H s). done.
Qed.

(** [poke_list] of a known list, as the sources spell it. *)
Ltac unroll_pokes :=
  intros t; unfold w_bytes, h_bytes, mbind, M_bind;
  match goal with |- context [vaddr ?a ?t] => destruct (vaddr a t) as [p t1| | | |] end;
  try done; cbn [poke_list]; unfold mbind, M_bind;
  rewrite <- ?Z.add_assoc; change (1 + (1 + 1)) with 3; change (1 + 1) with 2;
  repeat match goal with |- context [match poke ?p ?o ?b ?t with _ => _ end] =>
    destruct (poke p o b t) as [[] ?| | | |]; try done end.

Lemma store_w s a v :
  mem_ok s -> membpt s = 0 -> store_ok (putmem_w a v) s a 4 (w_bytes v).
Proof.
  intros Hok Hm. unfold putmem_w. rewrite land3_mod.
  destruct (Z.eqb_spec (a mod 4) 0) as [Ha|Ha]; cbn [negb].
  - destruct (store_body s a 2 (w_bytes v)) as [H|]; try done.
    eapply store_ok_ext; [|exact H]. unroll_pokes.
  - unfold store_ok. rewrite decide_False by by intros [? _]. by apply print_traps.
Qed.

Lemma store_h s a v :
  mem_ok s -> membpt s = 0 -> store_ok (putmem_h a v) s a 2 (h_bytes v).
Proof.
  intros Hok Hm. unfold putmem_h. rewrite land1_mod.
  destruct (Z.eqb_spec (a mod 2) 0) as [Ha|Ha]; cbn [negb].
  - destruct (store_body s a 1 (h_bytes v)) as [H|]; try done.
    eapply store_ok_ext; [|exact H]. unroll_pokes.
  - unfold store_ok. rewrite decide_False by by intros [? _]. by apply print_traps.
Qed.

Lemma store_b s a v :
  mem_ok s -> membpt s = 0 -> store_ok (putmem_b a v) s a 1 [v].
Proof.
  intros Hok Hm. destruct (store_body s a 0 [v]) as [H|H]; try done.
  - eapply store_ok_ext; [|exact H]. unfold putmem_b. unroll_pokes.
  - by rewrite Z.mod_1_r in H.
Qed.

(** ** A store followed by loads *)

Lemma upd_view_hit f a bs i :
  0 <= i < Z.of_nat (length bs) -> upd_view f a bs (a + i) = u8 <$> bs !! Z.to_nat i.
Proof. intros Hi. unfold upd_view. rewrite decide_True by lia. do 3 f_equal. lia. Qed.

Lemma upd_view_miss f a bs x :
  ~ (a <= x < a + Z.of_nat (length bs)) -> upd_view f a bs x = f x.
Proof. intros Hx. unfold upd_view. by rewrite decide_False. Qed.

Lemma be32_bytes v :
  be32 (u8 (Z.shiftr v 24)) (u8 (Z.shiftr v 16)) (u8 (Z.shiftr v 8)) (u8 v) = u32 v.
Proof. unfold be32. cbits. Qed.

Lemma store_eq_view_w s s' a v :
  store_eq s s' a (w_bytes v) -> view_w s' a = Some (u32 v).
Proof.
  intros H. unfold view_w. rewrite !(se_view s s' a (w_bytes v) H).
  rewrite !upd_view_hit by (simpl; lia).
  pose proof (upd_view_hit (view s) a (w_bytes v) 0 ltac:(simpl; lia)) as H0.
  rewrite Z.add_0_r in H0. rewrite H0.
  rewrite <- be32_bytes. reflexivity.
Qed.

Lemma store_eq_view_other s s' a b v :
  store_eq s s' a (w_bytes v) -> a mod 4 = 0 -> b mod 4 = 0 -> a <> b ->
  view_w s' b = view_w s b.
Proof.
  intros H Ha Hb Hne. unfold view_w. rewrite !(se_view s s' a (w_bytes v) H).
  rewrite !upd_view_miss; [done|cbn [length w_bytes]; Z.div_mod_to_equations; lia..].
Qed.

Lemma view_w_pageof s a w : view_w s a = Some w -> is_Some (pageof s a).
Proof. unfold view_w, view. by destruct (pageof s a). Qed.

Lemma store_eq_byte s s' a v i :
  store_eq s s' a (w_bytes v) -> 0 <= i < 4 ->
  view s' (a + i) = Some (u8 (Z.shiftr v (24 - 8 * i))).
Proof.
  intros H Hi. rewrite (se_view s s' a _ H), upd_view_hit by done.
  assert (i = 0 \/ i = 1 \/ i = 2 \/ i = 3) as [-> | [-> | [-> | ->]]] by lia; try done.
Qed.

Lemma store_eq_membpt s s' a bs : store_eq s s' a bs -> membpt s' = membpt s.
Proof. intros H. apply (se_regs s s' a bs H). Qed.

Lemma runs_getmem_w s a w :
  mem_ok s -> membpt s = 0 -> a mod 4 = 0 -> view_w s a = Some w ->
  exists s', getmem_w a s = Ok w s' /\ arch_eq s' s /\ mem_ok s'.
Proof.
  intros Hok Hm Ha Hv. destruct (view_w_pageof s a w Hv) as [p Hp].
  pose proof (quiet_getmem_w s a p Hok Hm Hp Ha) as Hq. unfold quiet, runs in Hq.
  destruct (getmem_w a s) as [w' s'| | | |]; try done. destruct Hq as (? & ? & Hw).
  rewrite Hv in Hw. injection Hw as <-. eauto.
Qed.

Lemma runs_getmem_b s a b :
  mem_ok s -> membpt s = 0 -> view s a = Some b ->
  exists s', getmem_b a s = Ok b s' /\ arch_eq s' s /\ mem_ok s'.
Proof.
  intros Hok Hm Hv. assert (is_Some (pageof s a)) as [p Hp].
  { unfold view in Hv. by destruct (pageof s a). }
  pose proof (quiet_getmem_b s a p Hok Hm Hp) as Hq. unfold quiet, runs in Hq.
  destruct (getmem_b a s) as [b' s'| | | |]; try done. destruct Hq as (? & ? & Hw).
  rewrite Hv in Hw. injection Hw as <-. eauto.
Qed.

(** ** Copies: memio *)

(** [n] addresses from [a] on are mapped and do not wrap. *)
Definition mapped (s : vi) (a : Z) (n : nat) : Prop :=
  0 <= a /\ a + Z.of_nat n <= 2 ^ 31 /\
  forall i, 0 <= i < Z.of_nat n -> is_Some (pageof s (a + i)).

Lemma mapped_S s a n : mapped s a (S n) -> is_Some (pageof s a) /\ mapped s (a + 1) n.
Proof.
  intros (H0 & H1 & H2). split.
  - specialize (H2 0). rewrite Z.add_0_r in H2. apply H2. lia.
  - split_and!; [lia..|]. intros i Hi. replace (a + 1 + i) with (a + (1 + i)) by lia.
    apply H2. lia.
Qed.

Lemma runs_putmem_b s a v p :
  mem_ok s -> membpt s = 0 -> pageof s a = Some p ->
  exists s', putmem_b a v s = Ok tt s' /\ store_eq s s' a [v].
Proof.
  intros Hok Hm Hp. pose proof (store_b s a v Hok Hm) as Hs. unfold store_ok in Hs.
  rewrite decide_True in Hs by (split; [apply Z.mod_1_r|by rewrite Hp]).
  unfold runs in Hs. destruct (putmem_b a v s) as [[] s'| | | |]; try done. eauto.
Qed.

Lemma memio_write_runs bs : forall s a,
  mem_ok s -> membpt s = 0 -> mapped s a (length bs) ->
  exists s', memio_write a bs s = Ok tt s' /\ mem_ok s' /\ regs_eq s' s
    /\ (forall x, pageof s' x = pageof s x)
    /\ forall x, view s' x = upd_view (view s) a bs x.
Proof.
  induction bs as [|b bs IH]; intros s a Hok Hm Hmap.
  - exists s. split_and!; try done. intros x. rewrite upd_view_miss; [done|simpl; lia].
  - pose proof (mapped_S s a _ Hmap) as [[p Hp] Hmap'].
    destruct (runs_putmem_b s a b p Hok Hm Hp) as (s1 & Hs1 & Heq).
    destruct Hmap as (Ha0 & Ha1 & _).
    destruct (IH s1 (a + 1)) as (s2 & Hs2 & Hok2 & Hr2 & Hp2 & Hv2).
    { apply Heq. }
    { by rewrite (store_eq_membpt s s1 a [b]). }
    { destruct Hmap' as (? & ? & Hm'). split_and!; [done..|]. intros i Hi.
      rewrite (se_pageof s s1 a [b] Heq). by apply Hm'. }
    exists s2. split_and!; [|done| | |].
    + cbn [memio_write]. unfold mbind, M_bind. rewrite Hs1, ulong_id by (simpl in *; lia). done.
    + etrans; [done|]. apply Heq.
    + intros x. by rewrite Hp2, (se_pageof s s1 a [b] Heq).
    + intros x. rewrite Hv2. unfold upd_view. cbn [length].
      destruct (decide (a = x)) as [->|Hne].
      * rewrite decide_False, decide_True by lia. rewrite (se_view s s1 x [b] Heq).
        rewrite <- (Z.add_0_r x) at 2. rewrite upd_view_hit by (simpl; lia).
        by rewrite Z.sub_diag.
      * destruct (decide (a + 1 <= x < a + 1 + Z.of_nat (length bs))).
        -- rewrite decide_True by lia.
           by replace (Z.to_nat (x - a)) with (S (Z.to_nat (x - (a + 1)))) by lia.
        -- rewrite decide_False by lia. rewrite (se_view s s1 a [b] Heq).
           apply upd_view_miss. simpl. lia.
Qed.

Lemma memio_read_runs bs : forall s a,
  mem_ok s -> membpt s = 0 -> 0 <= a -> a + Z.of_nat (length bs) <= 2 ^ 31 ->
  (forall i b, bs !! i = Some b -> view s (a + Z.of_nat i) = Some b) ->
  exists s', memio_read a (length bs) s = Ok bs s' /\ arch_eq s' s /\ mem_ok s'.
Proof.
  induction bs as [|b bs IH]; intros s a Hok Hm Ha0 Ha1 Hv.
  - by exists s.
  - destruct (runs_getmem_b s a b) as (s1 & Hs1 & Heq1 & Hok1); [done..| |].
    { specialize (Hv 0%nat b eq_refl). by rewrite Z.add_0_r in Hv. }
    destruct (IH s1 (a + 1)) as (s2 & Hs2 & Heq2 & Hok2); [done| |lia|simpl in *; lia| |].
    { by rewrite (re_membpt s1 s) by apply Heq1. }
    { intros i x Hi. rewrite (arch_eq_view s1 s) by done.
      specialize (Hv (S i) x Hi). by replace (a + 1 + Z.of_nat i) with (a + Z.of_nat (S i)) by lia. }
    exists s2. split_and!; [|by etrans|done]. cbn [memio_read length]. unfold mbind, M_bind.
    rewrite Hs1, ulong_id by (simpl in *; lia). by rewrite Hs2.
Qed.

(** ** The initial image *)

Lemma page_of_bytes_get bs o :
  0 <= o -> page_get (page_of_bytes bs) o = default 0 (bs !! Z.to_nat o).
Proof.
  intros Ho. unfold page_get, page_of_bytes.
  assert (Forall2 (fun _ _ => True) (seqZ 0 (Z.of_nat (length bs))) bs) as Hlen.
  { apply Forall2_same_length_lookup_2; [rewrite length_seqZ; lia|done]. }
  destruct (bs !! Z.to_nat o) as [b|] eqn:Hb.
  - rewrite (elem_of_list_to_map_1 _ o b); [done| |].
    + rewrite fst_zip by (rewrite length_seqZ; lia). apply NoDup_seqZ.
    + apply list_elem_of_lookup. exists (Z.to_nat o). apply lookup_zip_with_Some.
      exists o, b. split_and!; [done| |done].
      apply lookup_seqZ. apply lookup_lt_Some in Hb. lia.
  - rewrite not_elem_of_list_to_map_1; [done|].
    rewrite fst_zip by (rewrite length_seqZ; lia). rewrite elem_of_seqZ.
    apply lookup_ge_None in Hb. lia.
Qed.

Lemma page_clear_from_get d pg o :
  page_get (page_clear_from d pg) o = if decide (o < d) then page_get pg o else 0.
Proof.
  unfold page_get, page_clear_from.
  destruct (filter _ pg !! o) as [b|] eqn:H.
  - apply map_lookup_filter_Some in H as [Hb Ho]. simpl in Ho. by rewrite decide_True, Hb.
  - apply map_lookup_filter_None in H as [H|H]; [rewrite H; by case_decide|].
    case_decide as Ho; [|done]. destruct (pg !! o) as [b|] eqn:Hb; [|done].
    by destruct (H b eq_refl).
Qed.

Lemma pground_spec x :
  0 <= x < 2 ^ 31 -> pground x mod BY2PG = 0 /\ x <= pground x < x + BY2PG.
Proof.
  intros Hx. unfold pground. rewrite ulong_id by (unfold BY2PG; lia).
  change (BY2PG - 1) with (Z.ones 14). rewrite <- Z.ldiff_land, Z.ldiff_ones_r by lia.
  rewrite Z.shiftl_mul_pow2, Z.shiftr_div_pow2 by lia. change (2 ^ 14) with BY2PG.
  change (Z.ones 14) with (BY2PG - 1). split; [by rewrite Z.mod_mul by done|].
  unfold BY2PG. Z.div_mod_to_equations. lia.
Qed.

(** The file of the program, as [pread] returns it. *)
Definition reads_file (file : list Z) : Prop :=
  Forall (in_u 8) file /\ forall off, 0 <= off -> text_read off = read_file file off.

(** A header [vl] writes: the text starts a page after its header, nothing reaches the
    stack, and file offsets fit. *)
Record hdr_ok (h : Fhdr) : Prop := {
  ho_hdr : 0 <= hdrsz h <= txtaddr h;
  ho_off : hdrsz h <= txtoff h;
  ho_base : (txtaddr h - hdrsz h) mod BY2PG = 0;
  ho_sizes : 0 <= txtsz h /\ 0 <= datsz h /\ 0 <= bsssz h /\ 0 <= datoff h;
  ho_top : txtaddr h + txtsz h + datsz h + bsssz h + 3 * BY2PG <= STACKTOP - STACKSIZE;
  ho_files : txtoff h + txtsz h + 3 * BY2PG < 2 ^ 31 /\ datoff h + datsz h + 3 * BY2PG < 2 ^ 31 }.

(** The segments [initmap] lays out, with the page counts computed. *)
Definition fresh (t : segtype) (b e fo fe : Z) : Segment :=
  mkSegment t b e fo fe 0 0 (replicate (Z.to_nat ((e - b) / BY2PG)) None).

Definition t_end (h : Fhdr) : Z := pground (txtaddr h + txtsz h).
Definition d_end (h : Fhdr) : Z := pground (t_end h + datsz h).
Definition b_end (h : Fhdr) : Z := pground (t_end h + datsz h + bsssz h).

Lemma newseg_fresh t b e fo fe :
  0 <= b <= e -> e < 2 ^ 32 -> newseg t b e fo fe = fresh t b e fo fe.
Proof. intros. unfold newseg, fresh. by rewrite ulong_id by lia. Qed.

Lemma hdr_bounds h : hdr_ok h ->
  (t_end h mod BY2PG = 0 /\ txtaddr h + txtsz h <= t_end h < txtaddr h + txtsz h + BY2PG)
  /\ (d_end h mod BY2PG = 0 /\ t_end h + datsz h <= d_end h < t_end h + datsz h + BY2PG)
  /\ (b_end h mod BY2PG = 0 /\ t_end h + datsz h + bsssz h <= b_end h
      < t_end h + datsz h + bsssz h + BY2PG)
  /\ d_end h <= b_end h <= STACKTOP - STACKSIZE.
Proof.
  intros []. unfold STACKTOP, STACKSIZE in *.
  pose proof (pground_spec (txtaddr h + txtsz h)) as Ht. fold (t_end h) in Ht.
  unfold BY2PG in *. destruct Ht as [Ht1 Ht2]; [lia|].
  pose proof (pground_spec (t_end h + datsz h)) as Hd. fold (d_end h) in Hd.
  unfold BY2PG in *. destruct Hd as [Hd1 Hd2]; [lia|].
  pose proof (pground_spec (t_end h + datsz h + bsssz h)) as Hb. fold (b_end h) in Hb.
  unfold BY2PG in *. destruct Hb as [Hb1 Hb2]; [lia|].
  assert (d_end h <= b_end h).
  { apply Z.div_exact in Hd1, Hb1; try done. Z.div_mod_to_equations. lia. }
  split_and!; try done; lia.
Qed.

Definition image (h : Fhdr) : list Segment :=
  [fresh Stack (STACKTOP - STACKSIZE) STACKTOP 0 0;
   fresh Text (txtaddr h - hdrsz h) (t_end h) (txtoff h - hdrsz h)
     (txtoff h - hdrsz h + txtsz h);
   fresh Data (t_end h) (d_end h) (datoff h) (datoff h + datsz h);
   fresh Bss (d_end h) (b_end h) 0 0].

Lemma initmap_runs h s : hdr_ok h ->
  exists s', initmap h s = Ok tt s' /\ memory s' = image h /\ tlb s' = tlb s
    /\ reg s' = reg (set_pc (entry h) s) /\ textbase s' = txtaddr h - hdrsz h
    /\ iprof_len s' = (t_end h - (txtaddr h - hdrsz h)) / PROFGRAN /\ membpt s' = membpt s.
Proof.
  intros Hh. pose proof (hdr_bounds h Hh) as (Ht & Hd & Hb & Htop). destruct Hh.
  unfold STACKTOP, STACKSIZE, BY2PG in *. unfold initmap.
  fold (t_end h). fold (d_end h).
  rewrite (ulong_id (t_end h + datsz h + bsssz h)) by lia. fold (b_end h).
  rewrite !newseg_fresh by (rewrite ?ulong_id; unfold STACKTOP, STACKSIZE; lia).
  eexists. split; [reflexivity|]. cbn [memory set_memory set_pc set_reg tlb reg textbase iprof_len membpt].
  rewrite (ulong_id (txtaddr h - hdrsz h)), (ulong_id (txtoff h - hdrsz h)),
    (ulong_id (txtoff h - hdrsz h + txtsz h)), (ulong_id (datoff h + datsz h)) by lia.
  rewrite ulong_id by lia. done.
Qed.

Lemma image_ok h : hdr_ok h -> Forall seg_ok (image h).
Proof.
  intros Hh. pose proof (hdr_bounds h Hh) as (Ht & Hd & Hb & Htop). destruct Hh.
  unfold image, STACKTOP, STACKSIZE in *.
  repeat apply Forall_cons_2; [..|apply Forall_nil_2];
    (apply seg_ok_empty; try done; unfold BY2PG in *; try lia).
  intros _ off ??. Z.div_mod_to_equations. lia.
Qed.

Lemma file_page file off o :
  0 <= off -> 0 <= o < BY2PG ->
  page_get (page_of_bytes (take (Z.to_nat BY2PG) (drop (Z.to_nat off) file))) o =
    default 0 (file !! Z.to_nat (off + o)).
Proof.
  intros Hoff Ho. rewrite page_of_bytes_get by lia.
  rewrite lookup_take_lt by lia. rewrite lookup_drop. do 2 f_equal. lia.
Qed.

Lemma view_fresh s k a t b e fo fe pg :
  seg_find a 0 (memory s) = Some (k, fresh t b e fo fe) ->
  e mod BY2PG = 0 -> b mod BY2PG = 0 ->
  seg_content (fresh t b e fo fe) ((a - b) / BY2PG) = Some pg ->
  view s a = Some (page_get pg ((a - b) mod BY2PG)).
Proof.
  intros Hf He Hb Hpg. pose proof (seg_find_lookup s a k _ Hf) as [Hk Ha].
  unfold view, pageof. rewrite Hf. simpl. unfold content. cbn [fst snd]. rewrite Hk. simpl.
  cbn [fresh seg_base] in *. rewrite Hpg. simpl. do 2 f_equal. rewrite pgoff_mod.
  by rewrite Zminus_mod, Hb, Z.sub_0_r, Z.mod_mod by done.
Qed.

Lemma fresh_table t b e fo fe a :
  b mod BY2PG = 0 -> e mod BY2PG = 0 -> b <= a < e ->
  seg_table (fresh t b e fo fe) !! Z.to_nat ((a - b) / BY2PG) = Some None.
Proof.
  intros Hb He Ha. cbn [fresh seg_table]. apply lookup_replicate_2.
  unfold BY2PG in *. Z.div_mod_to_equations. lia.
Qed.

Lemma div_mod_page x fo : 0 <= x -> fo + x / BY2PG * BY2PG + x mod BY2PG = fo + x.
Proof. intros. pose proof (Z.div_mod x BY2PG ltac:(done)). lia. Qed.

Lemma text_content file b e fo fe a :
  reads_file file -> b mod BY2PG = 0 -> e mod BY2PG = 0 -> b <= a < e -> 0 <= fo ->
  exists pg, seg_content (fresh Text b e fo fe) ((a - b) / BY2PG) = Some pg
    /\ page_get pg ((a - b) mod BY2PG) = default 0 (file !! Z.to_nat (fo + (a - b))).
Proof.
  intros [_ Hfile] Hb He Ha Hfo. unfold seg_content. rewrite fresh_table by done.
  cbn [fresh seg_type seg_fileoff].
  assert (0 <= fo + (a - b) / BY2PG * BY2PG) by (unfold BY2PG; Z.div_mod_to_equations; lia).
  rewrite Hfile by done. eexists. split; [done|].
  rewrite file_page by (done || by apply Z.mod_pos_bound). by rewrite div_mod_page by lia.
Qed.

Lemma data_content file b e fo fe a :
  reads_file file -> b mod BY2PG = 0 -> e mod BY2PG = 0 -> b <= a < e -> 0 <= fo ->
  exists pg, seg_content (fresh Data b e fo fe) ((a - b) / BY2PG) = Some pg
    /\ page_get pg ((a - b) mod BY2PG) =
       if decide (fo + (a - b) < fe) then default 0 (file !! Z.to_nat (fo + (a - b))) else 0.
Proof.
  intros [_ Hfile] Hb He Ha Hfo. unfold seg_content. rewrite fresh_table by done.
  cbn [fresh seg_type seg_fileoff seg_fileend].
  assert (0 <= fo + (a - b) / BY2PG * BY2PG) by (unfold BY2PG; Z.div_mod_to_equations; lia).
  rewrite Hfile by done. unfold read_file. eexists. split; [reflexivity|].
  pose proof (div_mod_page (a - b) fo) as Hdm.
  pose proof (Z.mod_pos_bound (a - b) BY2PG ltac:(done)) as Hmod.
  set (foff := fo + (a - b) / BY2PG * BY2PG) in *.
  set (o := (a - b) mod BY2PG) in *. set (bs := take _ _).
  destruct (Z.ltb_spec fe (foff + Z.of_nat (length bs))).
  - rewrite page_clear_from_get. unfold bs. rewrite file_page by done.
    rewrite Hdm by lia.
    destruct (decide (o < fe - foff)), (decide (fo + (a - b) < fe)); (done || lia).
  - case_decide; unfold bs; [rewrite file_page by done; by rewrite Hdm by lia|].
    rewrite page_of_bytes_get by lia. rewrite (proj2 (lookup_ge_None _ _)); [done|].
    fold bs. lia.
Qed.

Lemma zero_content t b e a :
  t = Bss \/ t = Stack -> b mod BY2PG = 0 -> e mod BY2PG = 0 -> b <= a < e ->
  seg_content (fresh t b e 0 0) ((a - b) / BY2PG) = Some ∅.
Proof.
  intros Ht Hb He Ha. unfold seg_content. rewrite fresh_table by done.
  by destruct Ht as [-> | ->].
Qed.

Lemma seg_find_cons a n sg l :
  seg_find a n (sg :: l) =
    if decide (seg_base sg <= a < seg_end sg) then Some (n, sg) else seg_find a (S n) l.
Proof.
  cbn [seg_find]. destruct (decide (seg_base sg <= a < seg_end sg)).
  - by rewrite (proj2 (Z.leb_le _ _)), (proj2 (Z.ltb_lt _ _)) by lia.
  - destruct (Z.leb_spec (seg_base sg) a), (Z.ltb_spec a (seg_end sg)); try done; lia.
Qed.

(** The memory a program starts with, byte by byte. *)
Definition image_view (h : Fhdr) (file : list Z) (a : Z) : option Z :=
  let base := txtaddr h - hdrsz h in
  if decide (STACKTOP - STACKSIZE <= a < STACKTOP) then Some 0
  else if decide (base <= a < t_end h) then
    Some (default 0 (file !! Z.to_nat (txtoff h - hdrsz h + (a - base))))
  else if decide (t_end h <= a < d_end h) then
    Some (if decide (a < t_end h + datsz h)
          then default 0 (file !! Z.to_nat (datoff h + (a - t_end h))) else 0)
  else if decide (d_end h <= a < b_end h) then Some 0
  else None.

Lemma image_view_correct h file s a :
  hdr_ok h -> reads_file file -> memory s = image h -> view s a = image_view h file a.
Proof.
  intros Hh Hfile Hmem. pose proof (hdr_bounds h Hh) as (Ht & Hd & Hb & Htop).
  pose proof (ho_base h Hh) as Hbase. pose proof (ho_off h Hh) as Hoff.
  pose proof (ho_sizes h Hh) as (_ & _ & _ & Hdat).
  assert (seg_find a 0 (memory s) = seg_find a 0 (image h)) as Hf by by rewrite Hmem.
  unfold image in Hf. rewrite !seg_find_cons in Hf. cbn [fresh seg_base seg_end] in Hf.
  unfold image_view. case_decide as H0.
  { rewrite (view_fresh s _ a _ _ _ _ _ ∅ Hf); try done.
    by apply zero_content; [right| | |]. }
  case_decide as H1.
  { destruct (text_content file (txtaddr h - hdrsz h) (t_end h) (txtoff h - hdrsz h)
      (txtoff h - hdrsz h + txtsz h) a) as (pg & Hpg & Hv); try done; [apply Ht|lia|].
    rewrite (view_fresh s _ a _ _ _ _ _ pg Hf); try done; [by rewrite Hv|apply Ht]. }
  case_decide as H2.
  { destruct (data_content file (t_end h) (d_end h) (datoff h) (datoff h + datsz h) a)
      as (pg & Hpg & Hv); try done; [apply Ht|apply Hd|].
    rewrite (view_fresh s _ a _ _ _ _ _ pg Hf); try done; [|apply Hd|apply Ht].
    rewrite Hv. f_equal.
    destruct (decide (datoff h + (a - t_end h) < datoff h + datsz h)),
      (decide (a < t_end h + datsz h)); (done || lia). }
  case_decide as H3.
  { rewrite (view_fresh s _ a _ _ _ _ _ ∅ Hf); try done; [apply Hb|apply Hd|].
    apply zero_content; [by left|apply Hd|apply Hb|done]. }
  unfold view, pageof. by rewrite Hf.
Qed.

(** ** Breakpoints on loads *)

(** Only breakpoints and the run count change. *)
Record bp_eq (s s' : vi) : Prop := {
  bp_reg : reg s' = reg s;
  bp_memory : memory s' = memory s;
  bp_hit : (atbpt s' = 1 /\ count s' = 1) \/ (atbpt s' = atbpt s /\ count s' = count s) }.

Lemma bp_eq_refl s : bp_eq s s.
Proof. split; auto. Qed.

Lemma bp_eq_trans s t u : bp_eq s t -> bp_eq t u -> bp_eq s u.
Proof.
  intros [] []. split; [by etrans|by etrans|].
  destruct bp_hit1 as [|[-> ->]]; [by left|]. done.
Qed.

Lemma brkchk_read_loop gm4 a n : forall i s,
  exists s', bp_eq s s' /\ brkchk_loop gm4 a Read n i s = Ok tt s'.
Proof.
  induction n as [|n IH]; intros i s; [exists s; split; [apply bp_eq_refl|done]|].
  cbn [brkchk_loop]. unfold mbind, M_bind, gets.
  destruct (bplist s !! i) as [b|]; [|exists s; split; [apply bp_eq_refl|done]].
  destruct (Z.eqb_spec (b_addr b) a); cbn [andb]; [|apply IH].
  destruct (Z.eqb_spec (Z.land (b_type b) Read) 0) as [|Hr]; cbn [negb]; [apply IH|].
  destruct (Z.eqb_spec (b_type b) Equal) as [He|]; [by apply equal_not_read in He|].
  cbn -[Z.sub]. destruct (bplist s !! i) as [b'|] eqn:Hb'; [|exists s; split; [apply bp_eq_refl|done]].
  cbn -[Z.sub]. destruct (_ =? 0).
  - eexists. split; [|reflexivity]. split; [done|done|by left].
  - match goal with |- context [brkchk_loop _ _ _ _ _ ?t] => destruct (IH (S i) t) as (s' & Hs' & Hl) end.
    exists s'. split; [|done]. eapply bp_eq_trans; [|exact Hs']. split; [done|done|by right].
Qed.

End Thm.

(** ** The theorems *)

(** C20: [initmap] lays out the address space of a program image: afterwards every address of
    the text segment holds the byte of the file it comes from, data the initialised bytes
    and zero up to the page end, bss and stack zero, every other address is unmapped; the
    memory is well formed and the pc is the entry point. *)
Theorem initmap_loads (E : ViEnv) (EOk : ViEnvOk E) h file s :
  hdr_ok h -> reads_file file -> tlb_ok (tlb s) ->
  exists s', initmap h s = Ok tt s' /\ mem_ok s' /\ reg_pc (reg s') = entry h
    /\ forall a, view s' a = image_view h file a.
Proof.
  intros Hh Hfile Htlb. destruct (initmap_runs h s Hh) as (s' & Hs' & Hm & Ht & Hr & _).
  exists s'. split_and!; [done| | |].
  - split; [rewrite Hm; by apply image_ok|by rewrite Ht].
  - by rewrite Hr.
  - intros a. by apply image_view_correct.
Qed.

Lemma demo_hdr_ok : hdr_ok demo_hdr.
Proof. split; cbn; try done; try lia; unfold BY2PG, STACKTOP, STACKSIZE; lia. Qed.

Lemma demo_reads bits : @reads_file (host bits) demo_file.
Proof. split; [exact demo_file_bytes|done]. Qed.

Lemma initmap_loads_witness :
  exists s', @initmap host64 demo_hdr (blank 64) = Ok tt s' /\ mem_ok s'
    /\ reg_pc (reg s') = 0x4020
    /\ forall a, @view host64 s' a = image_view (E := host64) demo_hdr demo_file a.
Proof.
  apply (initmap_loads host64 host64_ok demo_hdr demo_file (blank 64)).
  - exact demo_hdr_ok.
  - exact (demo_reads 64).
  - by vm_compute.
Defined.



(** C25: a store of a word, halfword or byte to an aligned, mapped address changes exactly the
    bytes it covers, in big-endian order, keeps the address space, the registers and the
    well-formedness of memory; to any other address it traps and changes nothing. *)
Theorem store_correct (E : ViEnv) (EOk : ViEnvOk E) s a v :
  mem_ok s -> membpt s = 0 ->
  store_ok (putmem_w a v) s a 4 (w_bytes v) /\ store_ok (putmem_h a v) s a 2 (h_bytes v)
  /\ store_ok (putmem_b a v) s a 1 [v].
Proof. intros Hok Hm. split_and!; [by apply store_w|by apply store_h|by apply store_b]. Qed.

Lemma store_correct_witness :
  store_ok (E := host64) (putmem_w (E := host64) 0xc010 0xdeadbeef) (boot 64) 0xc010 4
    (w_bytes 0xdeadbeef)
  /\ store_ok (E := host64) (putmem_h (E := host64) 0xc010 0xdeadbeef) (boot 64) 0xc010 2
    (h_bytes 0xdeadbeef)
  /\ store_ok (E := host64) (putmem_b (E := host64) 0xc010 0xdeadbeef) (boot 64) 0xc010 1
    [0xdeadbeef].
Proof.
  apply (store_correct host64 host64_ok (boot 64) 0xc010 0xdeadbeef).
  - apply (wf_boot 64). by right.
  - reflexivity.
Defined.

(** C18: after a word is stored it is read back unchanged, each of its bytes is read at its
    big-endian place, and every other aligned word reads as before the store. *)
Theorem store_load (E : ViEnv) (EOk : ViEnvOk E) s a v :
  mem_ok s -> membpt s = 0 -> a mod 4 = 0 -> is_Some (pageof s a) -> in_u 32 v ->
  exists s1, putmem_w a v s = Ok tt s1
    /\ (exists s2, getmem_w a s1 = Ok v s2)
    /\ (forall i, 0 <= i < 4 ->
          exists s2, getmem_b (a + i) s1 = Ok (u8 (Z.shiftr v (24 - 8 * i))) s2)
    /\ (forall b w, b mod 4 = 0 -> a <> b -> view_w s b = Some w ->
          exists s2, getmem_w b s1 = Ok w s2).
Proof.
  intros Hok Hm Ha Hp Hv. pose proof (store_w s a v Hok Hm) as Hs. unfold store_ok in Hs.
  rewrite decide_True in Hs by done. unfold runs in Hs.
  destruct (putmem_w a v s) as [[] s1| | | |] eqn:Hput; try done.
  pose proof (se_ok _ _ _ _ Hs) as Hok1. pose proof (store_eq_membpt _ _ _ _ Hs) as Hm1.
  rewrite Hm in Hm1. exists s1. split_and!; [done| | |].
  - destruct (runs_getmem_w s1 a v) as (s2 & ? & _); try done; [|by exists s2].
    rewrite (store_eq_view_w s s1 a v Hs). f_equal. by apply wrapu_id.
  - intros i Hi. destruct (runs_getmem_b s1 (a + i) (u8 (Z.shiftr v (24 - 8 * i))))
      as (s2 & ? & _); try done; [by apply (store_eq_byte s)|by exists s2].
  - intros b w Hb Hne Hw. destruct (runs_getmem_w s1 b w) as (s2 & ? & _); try done.
    + by rewrite (store_eq_view_other s s1 a b v Hs).
    + by exists s2.
Qed.

Lemma store_load_witness :
  exists s1, @putmem_w host32 0x7ffffff0 0x12345678 (boot 32) = Ok tt s1
    /\ (exists s2, @getmem_w host32 0x7ffffff0 s1 = Ok 0x12345678 s2)
    /\ (forall i, 0 <= i < 4 -> exists s2, @getmem_b host32 (0x7ffffff0 + i) s1
          = Ok (u8 (Z.shiftr 0x12345678 (24 - 8 * i))) s2)
    /\ (forall b w, b mod 4 = 0 -> 0x7ffffff0 <> b -> @view_w host32 (boot 32) b = Some w ->
          exists s2, @getmem_w host32 b s1 = Ok w s2).
Proof.
  apply (store_load host32 host32_ok (boot 32) 0x7ffffff0 0x12345678).
  - apply (wf_boot 32). by left.
  - reflexivity.
  - reflexivity.
  - vm_compute. by eexists.
  - by unfold in_u.
Defined.

(** C32: what [memio] copies into the program's memory it copies back: writing a buffer and
    reading the same range returns the buffer, for any mapped range, also across pages. *)
Theorem memio_roundtrip (E : ViEnv) (EOk : ViEnvOk E) s a bs :
  mem_ok s -> membpt s = 0 -> mapped s a (length bs) -> Forall (in_u 8) bs ->
  exists s1 s2, memio_write a bs s = Ok tt s1 /\ memio_read a (length bs) s1 = Ok bs s2
    /\ regs_eq s2 s.
Proof.
  intros Hok Hm Hmap Hbs.
  destruct (memio_write_runs bs s a Hok Hm Hmap) as (s1 & Hs1 & Hok1 & Hr1 & _ & Hv1).
  destruct Hmap as (Ha0 & Ha1 & _).
  destruct (memio_read_runs bs s1 a) as (s2 & Hs2 & Heq2 & _); try done.
  - by rewrite (re_membpt s1 s Hr1).
  - intros i b Hi. rewrite Hv1. pose proof (lookup_lt_Some _ _ _ Hi).
    rewrite upd_view_hit by lia. rewrite Nat2Z.id, Hi. simpl. f_equal.
    apply wrapu_id. by eapply Forall_lookup_1 in Hbs.
  - exists s1, s2. split_and!; [done..|]. etrans; [apply Heq2|done].
Qed.

Lemma memio_roundtrip_witness :
  exists s1 s2, @memio_write host64 0xbffe [1; 2; 3; 255] (boot 64) = Ok tt s1
    /\ @memio_read host64 0xbffe 4 s1 = Ok [1; 2; 3; 255] s2 /\ regs_eq s2 (boot 64).
Proof.
  apply (memio_roundtrip host64 host64_ok (boot 64) 0xbffe [1; 2; 3; 255]).
  - apply (wf_boot 64). by right.
  - reflexivity.
  - split_and!; [done|done|]. intros i Hi. simpl in Hi.
    assert (i = 0 \/ i = 1 \/ i = 2 \/ i = 3) as [-> | [-> | [-> | ->]]] by lia;
      vm_compute; by eexists.
  - apply (bool_decide_unpack _). by vm_compute.
Defined.

(** C35: the check of read breakpoints never loads memory itself, so a load that checks
    breakpoints does not recurse: whatever the breakpoint list, the check returns, leaves
    registers and memory alone, and either stops the run ([atbpt = 1], [count = 1]) or
    leaves both. *)
Theorem read_breakpoints_return (E : ViEnv) s a :
  exists s', brkchk a Read s = Ok tt s'
    /\ brkchk_with (fun _ => diverge) a Read s = Ok tt s' /\ bp_eq s s'.
Proof.
  destruct (brkchk_read_loop getmem_4 a (length (bplist s)) 0 s) as (s' & Hbp & Hs').
  exists s'. split_and!; [exact Hs'| |done].
  change (brkchk_loop (fun _ => diverge) a Read (length (bplist s)) 0 s = Ok tt s').
  by rewrite (brkchk_read_same _ getmem_4).
Qed.

(** C40: [ifetch] counts the fetch in the profile before it looks the address up, and the
    profile has elements for the text segment only: a jump to any aligned address beyond
    it, mapped or not, writes outside the profile array instead of trapping. *)
Theorem ifetch_writes_outside_profile (E : ViEnv) s a :
  icache_on s = false -> a mod 4 = 0 -> iprof_len s <= ulong (a - textbase s) / PROFGRAN ->
  ifetch a s = Fault.
Proof.
  intros Hic Ha Hp. unfold ifetch. rewrite land3_mod, Ha. cbn [Z.eqb negb].
  unfold mbind, M_bind, gets. rewrite Hic. cbn.
  unfold count_iprof. by rewrite (proj2 (Z.ltb_ge _ _)).
Qed.

Lemma ifetch_writes_outside_profile_witness : @ifetch host32 0x9000 (boot 32) = Fault.
Proof.
  apply (ifetch_writes_outside_profile host32 (boot 32) 0x9000).
  - reflexivity.
  - reflexivity.
  - by vm_compute.
Defined.
