(* ===== verification/Qsort.v ===== *)
(** [qsort.c] of the C library: the in-place quicksort the linkers sort their tables with.
    The array is a list; pointers are indices into it, and the byte-wise swap of two
    elements is a swap of list elements. *)
From S2P Require Import Prelude.

Section Qsort.
Context {A : Type} (cmp : A -> A -> Z).

(** [swapb]/[swapi] *)
Definition swap (i j : nat) (a : list A) : list A :=
  match a !! i, a !! j with
  | Some x, Some y => <[j := x]> (<[i := y]> a)
  | _, _ => a
  end.

(** [p->cmp(i, j)] *)
Definition cmp_at (a : list A) (i j : nat) : option Z :=
  x ← a !! i; y ← a !! j; Some (cmp x y).

(** The [a] argument of [pivot] and [qsorts] is the index [lo] of the part to sort. *)
Definition pivot (a : list A) (lo n : nat) : option nat :=
  let j := (n / 6)%nat in
  let pi := (lo + j)%nat in
  let pj := (pi + (j + j))%nat in
  let pk := (pj + (j + j))%nat in
  ij ← cmp_at a pi pj;
  if ij <? 0 then
    ik ← cmp_at a pi pk;
    if ik <? 0 then
      jk ← cmp_at a pj pk;
      if jk <? 0 then Some pj else Some pk
    else Some pi
  else
    jk ← cmp_at a pj pk;
    if jk <? 0 then
      ik ← cmp_at a pi pk;
      if ik <? 0 then Some pi else Some pk
    else Some pj.

(** [do pi += es; while(pi < pn && cmp(pi, a) < 0)] *)
Fixpoint scan_up (fuel : nat) (a : list A) (lo pn pi : nat) : option nat :=
  match fuel with
  | O => None
  | S f =>
      let pi := S pi in
      if (pi <? pn)%nat then
        c ← cmp_at a pi lo;
        if c <? 0 then scan_up f a lo pn pi else Some pi
      else Some pi
  end.

(** [do pj -= es; while(pj > a && cmp(pj, a) > 0)] *)
Fixpoint scan_down (fuel : nat) (a : list A) (lo pj : nat) : option nat :=
  match fuel with
  | O => None
  | S f =>
      let pj := pred pj in
      if (lo <? pj)%nat then
        c ← cmp_at a pj lo;
        if 0 <? c then scan_down f a lo pj else Some pj
      else Some pj
  end.

(** The [for(;;)] loop: the array and the final [pj]. *)
Fixpoint partition (fuel : nat) (a : list A) (lo pn pi pj : nat)
  : option (list A * nat) :=
  match fuel with
  | O => None
  | S f =>
      pi ← scan_up (S pn) a lo pn pi;
      pj ← scan_down (S pn) a lo pj;
      if (pj <? pi)%nat then Some (a, pj)
      else partition f (swap pi pj a) lo pn pi pj
  end.

(** [qsorts]: the smaller part is sorted by a call, the larger by the loop. *)
Fixpoint qsorts (fuel : nat) (a : list A) (lo n : nat) : option (list A) :=
  match fuel with
  | O => None
  | S f =>
      if (n <=? 1)%nat then Some a
      else
        p ← (if (10 <? n)%nat then pivot a lo n else Some (lo + n / 2)%nat);
        let a := swap lo p a in
        let pn := (lo + n)%nat in
        '(a, pj) ← partition (S n) a lo pn lo pn;
        let a := swap lo pj a in
        let j := (pj - lo)%nat in
        let m := (n - j - 1)%nat in
        if (m <=? j)%nat then
          a ← qsorts f a lo j; qsorts f a (lo + (j + 1)) m
        else
          a ← qsorts f a (lo + (j + 1)) m; qsorts f a lo j
  end.

Definition qsort (a : list A) : option (list A) := qsorts (S (length a)) a 0 (length a).
End Qsort.
