(* ===== verification/QsortThm.v ===== *)
(** [qsort] sorts: it returns for every comparison, with a permutation of its input, and
    the result is sorted when the comparison is a total preorder. *)
From S2P Require Import Prelude Qsort.

(** What the comparison functions given to [qsort] promise: the sign of [cmp x y] is that of
    a total preorder. *)
Class CmpLaws {A} (cmp : A -> A -> Z) : Prop := {
  cmp_anti : forall x y, cmp x y < 0 <-> 0 < cmp y x;
  cmp_trans : forall x y z, cmp x y <= 0 -> cmp y z <= 0 -> cmp x z <= 0 }.

Section Laws.
Context {A : Type} (cmp : A -> A -> Z).

(** [b] is [a] with the elements of [lo, lo+n) in another order. *)
Definition reorders (lo n : nat) (a b : list A) : Prop :=
  a ≡ₚ b /\ forall k, (k < lo \/ lo + n <= k)%nat -> b !! k = a !! k.

(** Every element of [lo, hi) satisfies [P]. *)
Definition within (lo hi : nat) (P : A -> Prop) (a : list A) : Prop :=
  forall k x, (lo <= k < hi)%nat -> a !! k = Some x -> P x.

Definition sorted_at (lo hi : nat) (a : list A) : Prop :=
  forall i j x y, (lo <= i < j)%nat -> (j < hi)%nat ->
    a !! i = Some x -> a !! j = Some y -> cmp x y <= 0.

#[export] Instance reorders_refl lo n : Reflexive (reorders lo n).
Proof. by split. Qed.

#[export] Instance reorders_trans lo n : Transitive (reorders lo n).
Proof.
  intros a b c [H1 H2] [H3 H4]. split; [by etrans|]. intros k Hk.
  by rewrite H4, H2.
Qed.

Lemma reorders_grow lo n lo' n' a b :
  (lo' <= lo)%nat -> (lo + n <= lo' + n')%nat -> reorders lo n a b -> reorders lo' n' a b.
Proof. intros ? ? [H1 H2]. split; [done|]. intros k Hk. apply H2. lia. Qed.

Lemma reorders_length lo n a b : reorders lo n a b -> length b = length a.
Proof. intros [H _]. symmetry. by apply Permutation_length. Qed.

Lemma segment_split (a : list A) lo n :
  a = take lo a ++ take n (drop lo a) ++ drop (lo + n) a.
Proof. by rewrite <- drop_drop, !take_drop. Qed.

Lemma reorders_segment lo n a b :
  reorders lo n a b -> take n (drop lo a) ≡ₚ take n (drop lo b).
Proof.
  intros [Hp He].
  assert (take lo b = take lo a) as Ht.
  { apply list_eq. intros i. destruct (decide (i < lo)%nat).
    - rewrite !lookup_take_lt by done. apply He. lia.
    - by rewrite !lookup_take_ge by lia. }
  assert (drop (lo + n) b = drop (lo + n) a) as Hd.
  { apply list_eq. intros i. rewrite !lookup_drop. apply He. lia. }
  rewrite (segment_split a lo n), (segment_split b lo n), Ht, Hd in Hp.
  by apply Permutation_app_inv_l, Permutation_app_inv_r in Hp.
Qed.

(** What holds of every element of a segment holds after reordering it. *)
Lemma reorders_within lo n P a b :
  reorders lo n a b -> within lo (lo + n) P a -> within lo (lo + n) P b.
Proof.
  intros Hr Ha k x Hk Hx. pose proof (reorders_segment lo n a b Hr) as Hp.
  assert (take n (drop lo b) !! (k - lo)%nat = Some x) as Hb.
  { rewrite lookup_take_lt, lookup_drop by lia. by replace (lo + (k - lo))%nat with k by lia. }
  apply list_elem_of_lookup_2 in Hb. rewrite <- Hp in Hb.
  apply list_elem_of_lookup_1 in Hb as [i Hi].
  apply lookup_take_Some in Hi as [Hi Hn]. rewrite lookup_drop in Hi.
  apply (Ha (lo + i)%nat); [lia|done].
Qed.

(** A reordering elsewhere leaves a segment alone. *)
Lemma reorders_other lo n lo' hi' P a b :
  reorders lo n a b -> (hi' <= lo \/ lo + n <= lo')%nat ->
  within lo' hi' P a -> within lo' hi' P b.
Proof.
  intros [_ He] Hd Ha k x Hk Hx. apply (Ha k); [done|]. rewrite <- Hx. symmetry.
  apply He. lia.
Qed.

Lemma sorted_other lo n lo' hi' a b :
  reorders lo n a b -> (hi' <= lo \/ lo + n <= lo')%nat ->
  sorted_at lo' hi' a -> sorted_at lo' hi' b.
Proof.
  intros [_ He] Hd Ha i j x y Hi Hj Hx Hy.
  apply (Ha i j); [done|done| |]; [rewrite <- Hx|rewrite <- Hy]; symmetry; apply He; lia.
Qed.

(** ** Swaps and scans *)

Lemma swap_lookup i j (a : list A) x y k :
  a !! i = Some x -> a !! j = Some y ->
  swap i j a !! k = if decide (k = j) then Some x else if decide (k = i) then Some y else a !! k.
Proof.
  intros Hi Hj. unfold swap. rewrite Hi, Hj.
  pose proof (lookup_lt_Some _ _ _ Hi). pose proof (lookup_lt_Some _ _ _ Hj).
  repeat case_decide; subst.
  - apply list_lookup_insert_eq. by rewrite length_insert.
  - rewrite list_lookup_insert_ne by done. by apply list_lookup_insert_eq.
  - by rewrite !list_lookup_insert_ne by done.
Qed.

Lemma swap_reorders lo n i j (a : list A) :
  (lo <= i < lo + n)%nat -> (lo <= j < lo + n)%nat -> reorders lo n a (swap i j a).
Proof.
  intros Hi Hj. unfold swap.
  destruct (a !! i) as [x|] eqn:Ex; [|done]. destruct (a !! j) as [y|] eqn:Ey; [|done].
  split.
  - symmetry. by apply Permutation_insert_swap.
  - intros k Hk. by rewrite !list_lookup_insert_ne by lia.
Qed.

Lemma cmp_at_some (a : list A) i j x y :
  a !! i = Some x -> a !! j = Some y -> cmp_at cmp a i j = Some (cmp x y).
Proof. intros Hi Hj. unfold cmp_at. by rewrite Hi, Hj. Qed.

Lemma scan_up_spec (a : list A) lo pn v f pi :
  a !! lo = Some v -> (pn <= length a)%nat -> (pi < pn)%nat -> (pn < f + pi)%nat ->
  exists pi', scan_up cmp f a lo pn pi = Some pi' /\ (pi < pi' <= pn)%nat
    /\ within (S pi) pi' (fun x => cmp x v < 0) a
    /\ within pi' (Nat.min pn (S pi')) (fun x => 0 <= cmp x v) a.
Proof.
  intros Hv Hn. revert pi. induction f as [|f IH]; intros pi Hpi Hf; [lia|]. cbn [scan_up].
  destruct (Nat.ltb_spec (S pi) pn).
  - destruct (lookup_lt_is_Some_2 a (S pi)) as [x Hx]; [lia|].
    rewrite (cmp_at_some _ _ _ _ _ Hx Hv). cbn [mbind option_bind].
    destruct (Z.ltb_spec (cmp x v) 0).
    + destruct (IH (S pi)) as (p & -> & Hp & Hw & Hg); [lia|lia|].
      exists p. split_and!; [done|lia|lia| |done].
      intros k y Hk Hy. destruct (decide (k = S pi)); [by simplify_eq|]. by apply (Hw k); [lia|].
    + exists (S pi). split_and!; [done|lia|lia| |].
      * intros k y Hk. lia.
      * intros k y Hk Hy. replace k with (S pi) in Hy by lia. by simplify_eq.
  - exists (S pi). split_and!; [done|lia|lia| |]; intros k y Hk; lia.
Qed.

Lemma scan_down_spec (a : list A) lo v f pj :
  a !! lo = Some v -> (lo < pj <= length a)%nat -> (pj - lo < S f)%nat ->
  exists pj', scan_down cmp f a lo pj = Some pj' /\ (lo <= pj' < pj)%nat
    /\ within (S pj') pj (fun x => 0 < cmp x v) a
    /\ within (Nat.max (S lo) pj') (S pj') (fun x => cmp x v <= 0) a.
Proof.
  intros Hv. revert pj. induction f as [|f IH]; intros pj Hpj Hf; [lia|]. cbn [scan_down].
  destruct (Nat.ltb_spec lo (pred pj)).
  - destruct (lookup_lt_is_Some_2 a (pred pj)) as [x Hx]; [lia|].
    rewrite (cmp_at_some _ _ _ _ _ Hx Hv). cbn [mbind option_bind].
    destruct (Z.ltb_spec 0 (cmp x v)).
    + destruct (IH (pred pj)) as (p & -> & Hp & Hw & Hg); [lia|lia|].
      exists p. split_and!; [done|lia|lia| |done].
      intros k y Hk Hy. destruct (decide (k = pred pj)); [by simplify_eq|].
      by apply (Hw k); [lia|].
    + exists (pred pj). split_and!; [done|lia|lia| |].
      * intros k y Hk. lia.
      * intros k y Hk Hy. replace k with (pred pj) in Hy by lia. by simplify_eq.
  - exists (pred pj). split_and!; [done|lia|lia| |]; intros k y Hk; lia.
Qed.

(** ** The partition *)

Definition below (v x : A) : Prop := cmp x v <= 0.
Definition above (v x : A) : Prop := 0 <= cmp x v.

(** The positions swapped hold each other's element, the others are as before. *)
Lemma swap_within i j lo hi P (a : list A) :
  (i < lo \/ hi <= i)%nat -> (j < lo \/ hi <= j)%nat ->
  within lo hi P a -> within lo hi P (swap i j a).
Proof.
  intros Hi Hj Hw k z Hk Hz. apply (Hw k); [done|]. rewrite <- Hz. unfold swap.
  destruct (a !! i), (a !! j); [|done..]. by rewrite !list_lookup_insert_ne by lia.
Qed.

Lemma swap_at_l i j (P : A -> Prop) (a : list A) x y :
  a !! i = Some x -> a !! j = Some y -> P y -> within i (S i) P (swap i j a).
Proof.
  intros Hx Hy HP k z Hk. replace k with i by lia. rewrite (swap_lookup i j a x y) by done.
  repeat case_decide; intros; simplify_eq; done.
Qed.

Lemma swap_at_r i j (P : A -> Prop) (a : list A) x y :
  a !! i = Some x -> a !! j = Some y -> P x -> within j (S j) P (swap i j a).
Proof.
  intros Hx Hy HP k z Hk. replace k with j by lia. rewrite (swap_lookup i j a x y) by done.
  rewrite decide_True by done. intros; by simplify_eq.
Qed.

Lemma within_join lo mid hi P (a : list A) :
  within lo mid P a -> within mid hi P a -> within lo hi P a.
Proof.
  intros H1 H2 k x Hk Hx.
  destruct (decide (k < mid)%nat); [apply (H1 k)|apply (H2 k)]; first [lia|done].
Qed.

Lemma within_sub lo hi lo' hi' (P Q : A -> Prop) (a : list A) :
  (forall x, P x -> Q x) -> (lo <= lo')%nat -> (hi' <= hi)%nat ->
  within lo hi P a -> within lo' hi' Q a.
Proof. intros HP H1 H2 H k x Hk Hx. apply HP, (H k); [lia|done]. Qed.

Lemma within_at lo hi P (a : list A) k x :
  within lo hi P a -> (lo <= k < hi)%nat -> a !! k = Some x -> P x.
Proof. intros H Hk. by apply H. Qed.

Lemma partition_spec f (a : list A) lo pn pi pj v :
  a !! lo = Some v -> (lo <= pi <= pj)%nat -> (lo < pj <= pn)%nat -> (pi < pn)%nat ->
  (pn <= length a)%nat -> (pj - pi < f)%nat ->
  within (S lo) (S pi) (below v) a -> within pj pn (above v) a ->
  exists b pj', partition cmp f a lo pn pi pj = Some (b, pj')
    /\ reorders (S lo) (pn - S lo) a b /\ (lo <= pj' < pn)%nat
    /\ within (S lo) (S pj') (below v) b /\ within (S pj') pn (above v) b.
Proof.
  revert a pi pj. induction f as [|f IH];
    intros a pi pj Hv H1 H2 H3 Hn Hf Hlo Hhi; [lia|]. cbn [partition].
  destruct (scan_up_spec a lo pn v (S pn) pi) as (pi' & -> & Hi & Hil & Hig); [done|lia..|].
  destruct (scan_down_spec a lo v (S pn) pj) as (pj' & -> & Hj & Hjg & Hjl); [done|lia..|].
  cbn [mbind option_bind]. destruct (Nat.ltb_spec pj' pi').
  - exists a, pj'. split_and!; [done|done|lia|lia| |].
    + apply (within_sub (S lo) pi' (S lo) (S pj') (below v)); [done|lia|lia|].
      apply (within_join _ (S pi)); [done|].
      eapply within_sub; [|reflexivity|reflexivity|exact Hil]. unfold below. lia.
    + apply (within_join _ pj); [|done].
      eapply within_sub; [|reflexivity|reflexivity|exact Hjg]. unfold above. lia.
  - destruct (lookup_lt_is_Some_2 a pi') as [x Hx]; [lia|].
    destruct (lookup_lt_is_Some_2 a pj') as [y Hy]; [lia|].
    assert (above v x) as Hax by (eapply (within_at _ _ _ _ _ _ Hig); [|done]; lia).
    assert (below v y) as Hby by (eapply (within_at _ _ _ _ _ _ Hjl); [|done]; lia).
    pose proof (swap_reorders (S lo) (pn - S lo) pi' pj' a ltac:(lia) ltac:(lia)) as Hs.
    destruct (IH (swap pi' pj' a) pi' pj') as (b & p & Hp & Hr & Hb); try lia.
    + destruct Hs as [_ He]. rewrite He by lia. done.
    + by rewrite (reorders_length _ _ _ _ Hs).
    + apply (within_join _ pi'); [|by apply (swap_at_l _ _ _ _ x y)].
      apply swap_within; [lia|lia|]. apply (within_join _ (S pi)); [done|].
      eapply within_sub; [|reflexivity|reflexivity|exact Hil]. unfold below. lia.
    + apply (within_join _ (S pj')); [by apply (swap_at_r _ _ _ _ x y)|].
      apply swap_within; [lia|lia|]. apply (within_join _ pj); [|done].
      eapply within_sub; [|reflexivity|reflexivity|exact Hjg]. unfold above. lia.
    + exists b, p. rewrite Hp. split_and!; [done|by etrans|apply Hb..].
Qed.

(** ** The sort *)

Lemma pivot_spec (a : list A) lo n :
  (10 < n)%nat -> (lo + n <= length a)%nat ->
  exists p, pivot cmp a lo n = Some p /\ (lo <= p < lo + n)%nat.
Proof.
  intros Hn Hl. unfold pivot. cbv zeta.
  pose proof (Nat.Div0.div_mod n 6). pose proof (Nat.mod_upper_bound n 6 ltac:(lia)).
  set (j := (n / 6)%nat) in *.
  destruct (lookup_lt_is_Some_2 a (lo + j)) as [x Hx]; [lia|].
  destruct (lookup_lt_is_Some_2 a (lo + j + (j + j))) as [y Hy]; [lia|].
  destruct (lookup_lt_is_Some_2 a (lo + j + (j + j) + (j + j))) as [z Hz]; [lia|].
  rewrite (cmp_at_some _ _ _ _ _ Hx Hy), (cmp_at_some _ _ _ _ _ Hx Hz),
    (cmp_at_some _ _ _ _ _ Hy Hz).
  cbn [mbind option_bind]. repeat case_match; eexists; (split; [reflexivity|lia]).
Qed.

(** The pivot in place: smaller elements before it, greater ones after. *)
Definition split_at (lo n p : nat) (a : list A) : Prop :=
  (lo <= p < lo + n)%nat /\ exists v, a !! p = Some v
    /\ within lo p (below v) a /\ within (S p) (lo + n) (above v) a.

Lemma place_pivot (a : list A) lo n p v :
  a !! lo = Some v -> (lo <= p < lo + n)%nat -> (lo + n <= length a)%nat ->
  within (S lo) (S p) (below v) a -> within (S p) (lo + n) (above v) a ->
  reorders lo n a (swap lo p a) /\ split_at lo n p (swap lo p a).
Proof.
  intros Hv Hp Hn Hb Ha. split; [apply swap_reorders; lia|]. split; [done|].
  destruct (lookup_lt_is_Some_2 a p) as [y Hy]; [lia|]. exists v. split_and!.
  - rewrite (swap_lookup _ _ _ v y) by done. by rewrite decide_True.
  - destruct (decide (p = lo)) as [->|]; [intros k x Hk; lia|].
    apply (within_join _ (S lo)).
    + apply (swap_at_l _ _ _ _ v y); [done|done|]. apply (Hb p); [lia|done].
    + apply swap_within; [lia|lia|]. by eapply within_sub; [| | |exact Hb]; [|lia|lia].
  - apply swap_within; [lia|lia|done].
Qed.

(** What one round of the loop of [qsorts] does before it sorts the parts. *)
Lemma round_spec (a : list A) lo n p :
  (1 < n)%nat -> (lo <= p < lo + n)%nat -> (lo + n <= length a)%nat ->
  exists b pj, partition cmp (S n) (swap lo p a) lo (lo + n) lo (lo + n) = Some (b, pj)
    /\ reorders lo n a (swap lo pj b) /\ split_at lo n pj (swap lo pj b).
Proof.
  intros Hn Hp Hl.
  pose proof (swap_reorders lo n lo p a ltac:(lia) Hp) as Hs.
  pose proof (reorders_length _ _ _ _ Hs) as Hlen.
  destruct (lookup_lt_is_Some_2 (swap lo p a) lo) as [v Hv]; [lia|].
  destruct (partition_spec (S n) (swap lo p a) lo (lo + n) lo (lo + n) v)
    as (b & pj & -> & Hr & Hpj & Hb & Ha);
    [done|lia|lia|lia|lia|lia|intros k x Hk; lia|intros k x Hk; lia|].
  assert (b !! lo = Some v) as Hbv by (destruct Hr as [_ He]; rewrite He by lia; done).
  pose proof (reorders_length _ _ _ _ Hr) as Hlen'.
  destruct (place_pivot b lo n pj v) as [Hr' Hsp]; [done|lia|lia|done|done|].
  exists b, pj. split_and!; [done| |done].
  etrans; [exact Hs|]. etrans; [|exact Hr'].
  eapply reorders_grow; [| |exact Hr]; lia.
Qed.

Lemma cmp_refl `{!CmpLaws cmp} x : cmp x x <= 0.
Proof. pose proof (cmp_anti x x). lia. Qed.

Lemma above_le `{!CmpLaws cmp} v x : above v x -> cmp v x <= 0.
Proof. unfold above. pose proof (cmp_anti x v). lia. Qed.

Lemma split_sorted `{!CmpLaws cmp} lo n p (a : list A) :
  split_at lo n p a -> sorted_at lo p a -> sorted_at (S p) (lo + n) a ->
  sorted_at lo (lo + n) a.
Proof.
  intros (Hp & v & Hv & Hb & Ha) Hlo Hhi i j x y Hi Hj Hx Hy.
  destruct (decide (j < p)%nat); [by apply (Hlo i j); [lia|..]|].
  destruct (decide (p < i)%nat); [by apply (Hhi i j); [lia|..]|].
  apply (cmp_trans x v y).
  - destruct (decide (i = p)); [simplify_eq; apply cmp_refl|]. by apply (Hb i); [lia|].
  - destruct (decide (j = p)); [simplify_eq; apply cmp_refl|].
    apply above_le. by apply (Ha j); [lia|].
Qed.

Lemma split_reorders lo n p l k (a b : list A) :
  split_at lo n p a -> reorders l k a b ->
  (l = lo /\ (l + k = p)%nat \/ l = S p /\ (l + k = lo + n)%nat) -> split_at lo n p b.
Proof.
  intros (Hp & v & Hv & Hb & Ha) Hr Hd. split; [done|]. exists v.
  destruct Hd as [[-> <-]|[-> Hk]].
  - split_and!.
    + destruct Hr as [_ He]. rewrite He by lia. done.
    + by eapply reorders_within.
    + eapply reorders_other; [exact Hr|lia|done].
  - rewrite <- Hk in *. split_and!.
    + destruct Hr as [_ He]. rewrite He by lia. done.
    + eapply reorders_other; [exact Hr|lia|done].
    + by eapply reorders_within.
Qed.

(** What a call of [qsorts] promises. *)
Definition sorts (lo n : nat) (a b : list A) : Prop :=
  reorders lo n a b /\ (CmpLaws cmp -> sorted_at lo (lo + n) b).

Lemma sorts_parts lo n p l1 n1 l2 n2 (a a1 a2 : list A) :
  (l1 = lo /\ n1 = (p - lo)%nat /\ l2 = S p /\ n2 = (lo + n - S p)%nat
   \/ l2 = lo /\ n2 = (p - lo)%nat /\ l1 = S p /\ n1 = (lo + n - S p)%nat) ->
  split_at lo n p a -> sorts l1 n1 a a1 -> sorts l2 n2 a1 a2 -> sorts lo n a a2.
Proof.
  intros Hd Hs [Hr1 Ho1] [Hr2 Ho2]. pose proof (proj1 Hs).
  pose proof (split_reorders lo n p l1 n1 a a1 Hs Hr1 ltac:(lia)) as Hs1.
  pose proof (split_reorders lo n p l2 n2 a1 a2 Hs1 Hr2 ltac:(lia)) as Hs2. split.
  - trans a1; [eapply reorders_grow; [| |exact Hr1]|eapply reorders_grow; [| |exact Hr2]]; lia.
  - intros Hc. specialize (Ho1 Hc). specialize (Ho2 Hc).
    apply (sorted_other _ _ _ _ _ _ Hr2) in Ho1; [|lia].
    assert (sorted_at lo p a2 /\ sorted_at (S p) (lo + n) a2) as [Hl Hh];
      [|by apply (split_sorted lo n p)].
    destruct Hd as [(-> & -> & -> & ->)|(-> & -> & -> & ->)];
      replace (lo + (p - lo))%nat with p in * by lia;
      by replace (S p + (lo + n - S p))%nat with (lo + n)%nat in * by lia.
Qed.

Lemma qsorts_spec f (a : list A) lo n :
  (n < f)%nat -> (lo + n <= length a)%nat ->
  exists b, qsorts cmp f a lo n = Some b /\ sorts lo n a b.
Proof.
  revert a lo n. induction f as [|f IH]; intros a lo n Hf Hl; [lia|]. cbn [qsorts].
  destruct (Nat.leb_spec n 1).
  { exists a. split; [done|]. split; [done|]. intros _ i j x y. lia. }
  assert (exists p, (if (10 <? n)%nat then pivot cmp a lo n else Some (lo + n / 2)%nat)
            = Some p /\ (lo <= p < lo + n)%nat) as (p & -> & Hp).
  { destruct (Nat.ltb_spec 10 n); [by apply pivot_spec|].
    eexists. split; [done|]. pose proof (Nat.div_lt n 2). lia. }
  cbn [mbind option_bind].
  destruct (round_spec a lo n p) as (b & pj & -> & Hr & Hs); [lia|done|done|].
  cbn [mbind option_bind]. pose proof (proj1 Hs). pose proof (reorders_length _ _ _ _ Hr).
  replace (lo + (pj - lo + 1))%nat with (S pj) by lia.
  replace (n - (pj - lo) - 1)%nat with (lo + n - S pj)%nat by lia.
  destruct (Nat.leb_spec (lo + n - S pj) (pj - lo)).
  - destruct (IH (swap lo pj b) lo (pj - lo)%nat) as (a1 & -> & Hs1); [lia|lia|].
    cbn [mbind option_bind]. pose proof (reorders_length _ _ _ _ (proj1 Hs1)).
    destruct (IH a1 (S pj) (lo + n - S pj)%nat) as (a2 & -> & Hs2); [lia|lia|].
    exists a2. split; [done|].
    destruct (sorts_parts lo n pj lo (pj - lo) (S pj) (lo + n - S pj) (swap lo pj b) a1 a2)
      as [Hr' Ho]; [lia|done..|].
    split; [by etrans|done].
  - destruct (IH (swap lo pj b) (S pj) (lo + n - S pj)%nat) as (a1 & -> & Hs1); [lia|lia|].
    cbn [mbind option_bind]. pose proof (reorders_length _ _ _ _ (proj1 Hs1)).
    destruct (IH a1 lo (pj - lo)%nat) as (a2 & -> & Hs2); [lia|lia|].
    exists a2. split; [done|].
    destruct (sorts_parts lo n pj (S pj) (lo + n - S pj) lo (pj - lo) (swap lo pj b) a1 a2)
      as [Hr' Ho]; [lia|done..|].
    split; [by etrans|done].
Qed.
End Laws.

(** ** The theorems *)

(** C27: [qsort] returns for every comparison function, even one that is not an order: every
    comparison it makes is inside the array, its loops end, and the result is a permutation
    of the input. *)
Theorem qsort_total {A} (cmp : A -> A -> Z) (a : list A) :
  exists b, qsort cmp a = Some b /\ a ≡ₚ b.
Proof.
  destruct (qsorts_spec cmp (S (length a)) a 0 (length a)) as (b & Hb & Hs & _); [lia|lia|].
  exists b. split; [exact Hb|apply Hs].
Qed.

(** C26: for a comparison that is a total preorder [qsort] returns its input sorted: no element
    compares greater than a later one. *)
Theorem qsort_sorts {A} (cmp : A -> A -> Z) (a : list A) (Hc : CmpLaws cmp) :
  exists b, qsort cmp a = Some b /\ a ≡ₚ b
    /\ forall i j x y, (i < j)%nat -> b !! i = Some x -> b !! j = Some y -> cmp x y <= 0.
Proof.
  destruct (qsorts_spec cmp (S (length a)) a 0 (length a)) as (b & Hb & Hs & Ho); [lia|lia|].
  exists b. split_and!; [exact Hb|apply Hs|]. intros i j x y Hij Hx Hy.
  pose proof (reorders_length _ _ _ _ Hs). pose proof (lookup_lt_Some _ _ _ Hy).
  apply (Ho Hc i j); [lia|lia|done|done].
Qed.

#[export] Instance sub_laws : CmpLaws Z.sub.
Proof. split; lia. Qed.

Lemma qsort_sorts_witness :
  exists b, qsort Z.sub [3; 9; 1; 12; 7; 7; 0; 5; 11; 2; 10; 4] = Some b
    /\ [3; 9; 1; 12; 7; 7; 0; 5; 11; 2; 10; 4] ≡ₚ b
    /\ forall i j x y, (i < j)%nat -> b !! i = Some x -> b !! j = Some y -> x - y <= 0.
Proof. exact (qsort_sorts Z.sub _ sub_laws). Defined.
