(* ===== verification/VlObj.v ===== *)
(** The linker linkers/vl for MIPS: the object-code data of [v.out.h], the operands,
    instructions and symbols of [l.h], the state the passes share, and their effects. *)
From S2P Require Import Prelude CInt.

(** ** Registers and opcodes of v.out.h *)

Definition NREG : Z := 32.
Definition REGZERO : Z := 0.
Definition REGTMP : Z := 28.
Definition REGSP : Z := 29.
Definition REGSB : Z := 30.
Definition REGLINK : Z := 31.

(** [enum as] *)
Definition AXXX : Z := 0.
Definition AABSD : Z := 1.
Definition AABSF : Z := 2.
Definition AABSW : Z := 3.
Definition AADD : Z := 4.
Definition AADDD : Z := 5.
Definition AADDF : Z := 6.
Definition AADDU : Z := 7.
Definition AADDW : Z := 8.
Definition AAND : Z := 9.
Definition ABEQ : Z := 10.
Definition ABFPF : Z := 11.
Definition ABFPT : Z := 12.
Definition ABGEZ : Z := 13.
Definition ABGEZAL : Z := 14.
Definition ABGTZ : Z := 15.
Definition ABLEZ : Z := 16.
Definition ABLTZ : Z := 17.
Definition ABLTZAL : Z := 18.
Definition ABNE : Z := 19.
Definition ABREAK : Z := 20.
Definition ACMPEQD : Z := 21.
Definition ACMPEQF : Z := 22.
Definition ACMPGED : Z := 23.
Definition ACMPGEF : Z := 24.
Definition ACMPGTD : Z := 25.
Definition ACMPGTF : Z := 26.
Definition ADATA : Z := 27.
Definition ADIV : Z := 28.
Definition ADIVD : Z := 29.
Definition ADIVF : Z := 30.
Definition ADIVU : Z := 31.
Definition ADIVW : Z := 32.
Definition AGLOBL : Z := 33.
Definition AGOK : Z := 34.
Definition AHISTORY : Z := 35.
Definition AJAL : Z := 36.
Definition AJMP : Z := 37.
Definition AMOVB : Z := 38.
Definition AMOVBU : Z := 39.
Definition AMOVD : Z := 40.
Definition AMOVDF : Z := 41.
Definition AMOVDW : Z := 42.
Definition AMOVF : Z := 43.
Definition AMOVFD : Z := 44.
Definition AMOVFW : Z := 45.
Definition AMOVH : Z := 46.
Definition AMOVHU : Z := 47.
Definition AMOVW : Z := 48.
Definition AMOVWD : Z := 49.
Definition AMOVWF : Z := 50.
Definition AMOVWL : Z := 51.
Definition AMOVWR : Z := 52.
Definition AMUL : Z := 53.
Definition AMULD : Z := 54.
Definition AMULF : Z := 55.
Definition AMULU : Z := 56.
Definition AMULW : Z := 57.
Definition ANAME : Z := 58.
Definition ANEGD : Z := 59.
Definition ANEGF : Z := 60.
Definition ANEGW : Z := 61.
Definition ANOP : Z := 62.
Definition ANOR : Z := 63.
Definition AOR : Z := 64.
Definition AREM : Z := 65.
Definition AREMU : Z := 66.
Definition ARET : Z := 67.
Definition ARFE : Z := 68.
Definition ASGT : Z := 69.
Definition ASGTU : Z := 70.
Definition ASLL : Z := 71.
Definition ASRA : Z := 72.
Definition ASRL : Z := 73.
Definition ASUB : Z := 74.
Definition ASUBD : Z := 75.
Definition ASUBF : Z := 76.
Definition ASUBU : Z := 77.
Definition ASUBW : Z := 78.
Definition ASYSCALL : Z := 79.
Definition ATEXT : Z := 80.
Definition ATLBP : Z := 81.
Definition ATLBR : Z := 82.
Definition ATLBWI : Z := 83.
Definition ATLBWR : Z := 84.
Definition AWORD : Z := 85.
Definition AXOR : Z := 86.
Definition AEND : Z := 87.
Definition AMOVV : Z := 88.
Definition AMOVVL : Z := 89.
Definition AMOVVR : Z := 90.
Definition ASLLV : Z := 91.
Definition ASRAV : Z := 92.
Definition ASRLV : Z := 93.
Definition ADIVV : Z := 94.
Definition ADIVVU : Z := 95.
Definition AREMV : Z := 96.
Definition AREMVU : Z := 97.
Definition AMULV : Z := 98.
Definition AMULVU : Z := 99.
Definition AADDV : Z := 100.
Definition AADDVU : Z := 101.
Definition ASUBV : Z := 102.
Definition ASUBVU : Z := 103.
Definition ADYNT : Z := 104.
Definition AINIT : Z := 105.
Definition ABCASE : Z := 106.
Definition ACASE : Z := 107.
Definition ATRUNCFV : Z := 108.
Definition ATRUNCDV : Z := 109.
Definition ATRUNCFW : Z := 110.
Definition ATRUNCDW : Z := 111.
Definition AMOVWU : Z := 112.
Definition AMOVFV : Z := 113.
Definition AMOVDV : Z := 114.
Definition AMOVVF : Z := 115.
Definition AMOVVD : Z := 116.
Definition ASIGNAME : Z := 117.
Definition ALL : Z := 118.
Definition ASC : Z := 119.
Definition ASYNC : Z := 120.
Definition ALAST : Z := 121.

(** Types and names of operands. *)
Definition D_GOK : Z := 0.
Definition D_NONE : Z := 1.
Definition D_BRANCH : Z := 2.
Definition D_OREG : Z := 3.
Definition D_EXTERN : Z := 4.
Definition D_STATIC : Z := 5.
Definition D_AUTO : Z := 6.
Definition D_PARAM : Z := 7.
Definition D_CONST : Z := 8.
Definition D_FCONST : Z := 9.
Definition D_SCONST : Z := 10.
Definition D_HI : Z := 11.
Definition D_LO : Z := 12.
Definition D_REG : Z := 13.
Definition D_FREG : Z := 14.
Definition D_FCREG : Z := 15.
Definition D_MREG : Z := 16.
Definition D_FILE : Z := 17.
Definition D_OCONST : Z := 18.
Definition D_FILE1 : Z := 19.
Definition D_VCONST : Z := 20.

(** ** Operand classes and symbol types of l.h *)

Definition C_NONE : Z := 0.
Definition C_REG : Z := 1.
Definition C_FREG : Z := 2.
Definition C_FCREG : Z := 3.
Definition C_MREG : Z := 4.
Definition C_HI : Z := 5.
Definition C_LO : Z := 6.
Definition C_ZCON : Z := 7.
Definition C_SCON : Z := 8.
Definition C_ADD0CON : Z := 9.
Definition C_AND0CON : Z := 10.
Definition C_ADDCON : Z := 11.
Definition C_ANDCON : Z := 12.
Definition C_UCON : Z := 13.
Definition C_LCON : Z := 14.
Definition C_SACON : Z := 15.
Definition C_SECON : Z := 16.
Definition C_LACON : Z := 17.
Definition C_LECON : Z := 18.
Definition C_SBRA : Z := 19.
Definition C_LBRA : Z := 20.
Definition C_SAUTO : Z := 21.
Definition C_SEXT : Z := 22.
Definition C_LAUTO : Z := 23.
Definition C_LEXT : Z := 24.
Definition C_ZOREG : Z := 25.
Definition C_SOREG : Z := 26.
Definition C_LOREG : Z := 27.
Definition C_GOK : Z := 28.

Definition STEXT : Z := 1.
Definition SDATA : Z := 2.
Definition SBSS : Z := 3.
Definition SDATA1 : Z := 4.
Definition SXREF : Z := 5.
Definition SLEAF : Z := 6.
Definition SFILE : Z := 7.
Definition SCONST : Z := 8.
Definition SSTRING : Z := 9.

Definition BIG : Z := 0.
Definition MAXIO : Z := 8192.
Definition MINSIZ : Z := 64.

(** Mark flags. *)
Definition FOLL : Z := 1.
Definition LABEL : Z := 2.
Definition LEAF : Z := 4.
Definition SYNC : Z := 8.
Definition BRANCH : Z := 16.
Definition LOAD : Z := 32.
Definition FCMP : Z := 64.
Definition NOSCHED : Z := 128.

(** ** Operands, instructions, symbols *)

(** Pointers to [Prog] and [Sym] are addresses in a store; [None] is the null pointer. A
    name is its bytes, without the terminating zero; the chains of [hash] hold the [link]s
    of the symbols. The pointers [sval] and [ieee] share their memory with [offset]: they are
    [a_offset], an address in the store [heap] of bytes. *)
Record Adr := mkAdr {
  a_offset : Z; a_sym : option Z; a_type : Z; a_reg : Z; a_name : Z; a_class : Z }.

Record Prog := mkProg {
  from : Adr; to : Adr; cond : option Z; link : option Z; forwd : option Z; p_pc : Z; p_line : Z;
  p_mark : Z; p_optab : Z; p_as : Z; p_reg : Z }.

Record Sym := mkSym {
  s_name : list Z; s_type : Z; s_version : Z; s_become : Z; s_frame : Z; s_value : Z }.

(** A local variable, parameter or source file of a function. The pointer [autom] of the operand
    of a [TEXT] shares its memory with [sym]: it is [a_sym], an address in the store [autos]. *)
Record Auto := mkAuto { asym : Z; au_link : option Z; aoffset : Z; au_type : Z }.

Record Optab := mkOptab {
  o_as : Z; o_a1 : Z; o_a2 : Z; o_a3 : Z; o_type : Z; o_size : Z; o_param : Z }.

#[export] Instance Adr_eq_dec : EqDecision Adr.
Proof. solve_decision. Defined.
#[export] Instance Optab_eq_dec : EqDecision Optab.
Proof. solve_decision. Defined.

(** [zprg], as [main] of obj.c initialises it. *)
Definition zadr : Adr := mkAdr 0 None D_NONE NREG D_NONE 0.
Definition zprg : Prog := mkProg zadr zadr None None None 0 0 0 0 AGOK NREG.

(** ** The state of the linker *)

(** The tables [buildop] fills: [optab] sorted, [oprange] as indices into it ([None] for a
    null pointer), [repop], [opcross] and [xcmp] by their flat index. *)
Record Tables := mkTables {
  t_optab : list Optab; t_start : gmap Z Z; t_stop : gmap Z Z; t_repop : gmap Z Z;
  t_opcross : gmap Z Z; t_xcmp : gmap Z Z }.

Inductive ldiag := Ldiag (fmt : string) (args : list Z).

Record vl := mkvl {
  progs : gmap Z Prog; syms : gmap Z Sym; hash : gmap Z (list Z); nextp : Z;
  nexts : Z; firstp : option Z; lastp : option Z; textp : option Z;
  curtext : option Z; curp : option Z; datap : option Z; autosize : Z; instoffset : Z; pc : Z; tabs : Tables;
  INITTEXT : Z; INITDAT : Z; INITRND : Z; textsize : Z; datsize : Z; bsssize : Z; dtype : Z; lcsize : Z; optlevel : Z; nerrors : Z; diags : list ldiag;
  little : bool; debug_Y : bool;
  debug_t : bool; cbuf : list Z; cbc : Z; written : list Z;
  etextp : option Z; symsize : Z; version : Z; histgen : Z; histfrog : list Z; curauto : option Z;
  curhist : option Z; autos : gmap Z Auto; nexta : Z; heap : gmap Z (list Z); nextb : Z }.

(** A pass returns, or stops the linker ([errorexit], [abort]), or dereferences a null or
    dangling pointer, or runs out of the fuel that bounds a loop. *)
Inductive lout (A : Type) :=
  | LOk (a : A) (s : vl)
  | LExit (s : vl)
  | LFault
  | LDiverge.
Arguments LOk {A} a s.
Arguments LExit {A} s.
Arguments LFault {A}.
Arguments LDiverge {A}.

Definition L (A : Type) : Type := vl -> lout A.

#[export] Instance L_ret : MRet L := fun A a s => LOk a s.
#[export] Instance L_bind : MBind L := fun A B k m s =>
  match m s with
  | LOk a s' => k a s'
  | LExit s' => LExit s'
  | LFault => LFault
  | LDiverge => LDiverge
  end.

Definition lgets {A} (f : vl -> A) : L A := fun s => LOk (f s) s.
Definition lmodify (f : vl -> vl) : L unit := fun s => LOk tt (f s).
Definition lexit {A} : L A := fun s => LExit s.
Definition lfault {A} : L A := fun _ => LFault.
Definition ldiverge {A} : L A := fun _ => LDiverge.
Definition lskip : L unit := mret tt.

(** ** Field updates *)

Definition lset_progs (v : gmap Z Prog) (s : vl) : vl :=
  mkvl v (syms s) (hash s) (nextp s) (nexts s) (firstp s) (lastp s) (textp s) (curtext
  s) (curp s) (datap s) (autosize s) (instoffset s) (pc s) (tabs s) (INITTEXT s)
  (INITDAT s) (INITRND s) (textsize s) (datsize s) (bsssize s) (dtype s) (lcsize s)
  (optlevel s) (nerrors s) (diags s) (little s) (debug_Y s) (debug_t s) (cbuf s) (cbc s)
  (written s) (etextp s) (symsize s) (version s) (histgen s) (histfrog s) (curauto s)
  (curhist s) (autos s) (nexta s) (heap s) (nextb s).
Definition lset_syms (v : gmap Z Sym) (s : vl) : vl :=
  mkvl (progs s) v (hash s) (nextp s) (nexts s) (firstp s) (lastp s) (textp s) (curtext
  s) (curp s) (datap s) (autosize s) (instoffset s) (pc s) (tabs s) (INITTEXT s)
  (INITDAT s) (INITRND s) (textsize s) (datsize s) (bsssize s) (dtype s) (lcsize s)
  (optlevel s) (nerrors s) (diags s) (little s) (debug_Y s) (debug_t s) (cbuf s) (cbc s)
  (written s) (etextp s) (symsize s) (version s) (histgen s) (histfrog s) (curauto s)
  (curhist s) (autos s) (nexta s) (heap s) (nextb s).
Definition lset_hash (v : gmap Z (list Z)) (s : vl) : vl :=
  mkvl (progs s) (syms s) v (nextp s) (nexts s) (firstp s) (lastp s) (textp s) (curtext
  s) (curp s) (datap s) (autosize s) (instoffset s) (pc s) (tabs s) (INITTEXT s)
  (INITDAT s) (INITRND s) (textsize s) (datsize s) (bsssize s) (dtype s) (lcsize s)
  (optlevel s) (nerrors s) (diags s) (little s) (debug_Y s) (debug_t s) (cbuf s) (cbc s)
  (written s) (etextp s) (symsize s) (version s) (histgen s) (histfrog s) (curauto s)
  (curhist s) (autos s) (nexta s) (heap s) (nextb s).
Definition lset_nextp (v : Z) (s : vl) : vl :=
  mkvl (progs s) (syms s) (hash s) v (nexts s) (firstp s) (lastp s) (textp s) (curtext
  s) (curp s) (datap s) (autosize s) (instoffset s) (pc s) (tabs s) (INITTEXT s)
  (INITDAT s) (INITRND s) (textsize s) (datsize s) (bsssize s) (dtype s) (lcsize s)
  (optlevel s) (nerrors s) (diags s) (little s) (debug_Y s) (debug_t s) (cbuf s) (cbc s)
  (written s) (etextp s) (symsize s) (version s) (histgen s) (histfrog s) (curauto s)
  (curhist s) (autos s) (nexta s) (heap s) (nextb s).
Definition lset_nexts (v : Z) (s : vl) : vl :=
  mkvl (progs s) (syms s) (hash s) (nextp s) v (firstp s) (lastp s) (textp s) (curtext
  s) (curp s) (datap s) (autosize s) (instoffset s) (pc s) (tabs s) (INITTEXT s)
  (INITDAT s) (INITRND s) (textsize s) (datsize s) (bsssize s) (dtype s) (lcsize s)
  (optlevel s) (nerrors s) (diags s) (little s) (debug_Y s) (debug_t s) (cbuf s) (cbc s)
  (written s) (etextp s) (symsize s) (version s) (histgen s) (histfrog s) (curauto s)
  (curhist s) (autos s) (nexta s) (heap s) (nextb s).
Definition lset_firstp (v : option Z) (s : vl) : vl :=
  mkvl (progs s) (syms s) (hash s) (nextp s) (nexts s) v (lastp s) (textp s) (curtext s)
  (curp s) (datap s) (autosize s) (instoffset s) (pc s) (tabs s) (INITTEXT s) (INITDAT
  s) (INITRND s) (textsize s) (datsize s) (bsssize s) (dtype s) (lcsize s) (optlevel s)
  (nerrors s) (diags s) (little s) (debug_Y s) (debug_t s) (cbuf s) (cbc s) (written s)
  (etextp s) (symsize s) (version s) (histgen s) (histfrog s) (curauto s) (curhist s)
  (autos s) (nexta s) (heap s) (nextb s).
Definition lset_lastp (v : option Z) (s : vl) : vl :=
  mkvl (progs s) (syms s) (hash s) (nextp s) (nexts s) (firstp s) v (textp s) (curtext
  s) (curp s) (datap s) (autosize s) (instoffset s) (pc s) (tabs s) (INITTEXT s)
  (INITDAT s) (INITRND s) (textsize s) (datsize s) (bsssize s) (dtype s) (lcsize s)
  (optlevel s) (nerrors s) (diags s) (little s) (debug_Y s) (debug_t s) (cbuf s) (cbc s)
  (written s) (etextp s) (symsize s) (version s) (histgen s) (histfrog s) (curauto s)
  (curhist s) (autos s) (nexta s) (heap s) (nextb s).
Definition lset_textp (v : option Z) (s : vl) : vl :=
  mkvl (progs s) (syms s) (hash s) (nextp s) (nexts s) (firstp s) (lastp s) v (curtext
  s) (curp s) (datap s) (autosize s) (instoffset s) (pc s) (tabs s) (INITTEXT s)
  (INITDAT s) (INITRND s) (textsize s) (datsize s) (bsssize s) (dtype s) (lcsize s)
  (optlevel s) (nerrors s) (diags s) (little s) (debug_Y s) (debug_t s) (cbuf s) (cbc s)
  (written s) (etextp s) (symsize s) (version s) (histgen s) (histfrog s) (curauto s)
  (curhist s) (autos s) (nexta s) (heap s) (nextb s).
Definition lset_curtext (v : option Z) (s : vl) : vl :=
  mkvl (progs s) (syms s) (hash s) (nextp s) (nexts s) (firstp s) (lastp s) (textp s) v
  (curp s) (datap s) (autosize s) (instoffset s) (pc s) (tabs s) (INITTEXT s) (INITDAT
  s) (INITRND s) (textsize s) (datsize s) (bsssize s) (dtype s) (lcsize s) (optlevel s)
  (nerrors s) (diags s) (little s) (debug_Y s) (debug_t s) (cbuf s) (cbc s) (written s)
  (etextp s) (symsize s) (version s) (histgen s) (histfrog s) (curauto s) (curhist s)
  (autos s) (nexta s) (heap s) (nextb s).
Definition lset_curp (v : option Z) (s : vl) : vl :=
  mkvl (progs s) (syms s) (hash s) (nextp s) (nexts s) (firstp s) (lastp s) (textp s)
  (curtext s) v (datap s) (autosize s) (instoffset s) (pc s) (tabs s) (INITTEXT s)
  (INITDAT s) (INITRND s) (textsize s) (datsize s) (bsssize s) (dtype s) (lcsize s)
  (optlevel s) (nerrors s) (diags s) (little s) (debug_Y s) (debug_t s) (cbuf s) (cbc s)
  (written s) (etextp s) (symsize s) (version s) (histgen s) (histfrog s) (curauto s)
  (curhist s) (autos s) (nexta s) (heap s) (nextb s).
Definition lset_datap (v : option Z) (s : vl) : vl :=
  mkvl (progs s) (syms s) (hash s) (nextp s) (nexts s) (firstp s) (lastp s) (textp s)
  (curtext s) (curp s) v (autosize s) (instoffset s) (pc s) (tabs s) (INITTEXT s)
  (INITDAT s) (INITRND s) (textsize s) (datsize s) (bsssize s) (dtype s) (lcsize s)
  (optlevel s) (nerrors s) (diags s) (little s) (debug_Y s) (debug_t s) (cbuf s) (cbc s)
  (written s) (etextp s) (symsize s) (version s) (histgen s) (histfrog s) (curauto s)
  (curhist s) (autos s) (nexta s) (heap s) (nextb s).
Definition lset_autosize (v : Z) (s : vl) : vl :=
  mkvl (progs s) (syms s) (hash s) (nextp s) (nexts s) (firstp s) (lastp s) (textp s)
  (curtext s) (curp s) (datap s) v (instoffset s) (pc s) (tabs s) (INITTEXT s) (INITDAT
  s) (INITRND s) (textsize s) (datsize s) (bsssize s) (dtype s) (lcsize s) (optlevel s)
  (nerrors s) (diags s) (little s) (debug_Y s) (debug_t s) (cbuf s) (cbc s) (written s)
  (etextp s) (symsize s) (version s) (histgen s) (histfrog s) (curauto s) (curhist s)
  (autos s) (nexta s) (heap s) (nextb s).
Definition lset_instoffset (v : Z) (s : vl) : vl :=
  mkvl (progs s) (syms s) (hash s) (nextp s) (nexts s) (firstp s) (lastp s) (textp s)
  (curtext s) (curp s) (datap s) (autosize s) v (pc s) (tabs s) (INITTEXT s) (INITDAT s)
  (INITRND s) (textsize s) (datsize s) (bsssize s) (dtype s) (lcsize s) (optlevel s)
  (nerrors s) (diags s) (little s) (debug_Y s) (debug_t s) (cbuf s) (cbc s) (written s)
  (etextp s) (symsize s) (version s) (histgen s) (histfrog s) (curauto s) (curhist s)
  (autos s) (nexta s) (heap s) (nextb s).
Definition lset_pc (v : Z) (s : vl) : vl :=
  mkvl (progs s) (syms s) (hash s) (nextp s) (nexts s) (firstp s) (lastp s) (textp s)
  (curtext s) (curp s) (datap s) (autosize s) (instoffset s) v (tabs s) (INITTEXT s)
  (INITDAT s) (INITRND s) (textsize s) (datsize s) (bsssize s) (dtype s) (lcsize s)
  (optlevel s) (nerrors s) (diags s) (little s) (debug_Y s) (debug_t s) (cbuf s) (cbc s)
  (written s) (etextp s) (symsize s) (version s) (histgen s) (histfrog s) (curauto s)
  (curhist s) (autos s) (nexta s) (heap s) (nextb s).
Definition lset_datsize (v : Z) (s : vl) : vl :=
  mkvl (progs s) (syms s) (hash s) (nextp s) (nexts s) (firstp s) (lastp s) (textp s)
  (curtext s) (curp s) (datap s) (autosize s) (instoffset s) (pc s) (tabs s) (INITTEXT
  s) (INITDAT s) (INITRND s) (textsize s) v (bsssize s) (dtype s) (lcsize s) (optlevel
  s) (nerrors s) (diags s) (little s) (debug_Y s) (debug_t s) (cbuf s) (cbc s) (written
  s) (etextp s) (symsize s) (version s) (histgen s) (histfrog s) (curauto s) (curhist s)
  (autos s) (nexta s) (heap s) (nextb s).
Definition lset_bsssize (v : Z) (s : vl) : vl :=
  mkvl (progs s) (syms s) (hash s) (nextp s) (nexts s) (firstp s) (lastp s) (textp s)
  (curtext s) (curp s) (datap s) (autosize s) (instoffset s) (pc s) (tabs s) (INITTEXT
  s) (INITDAT s) (INITRND s) (textsize s) (datsize s) v (dtype s) (lcsize s) (optlevel
  s) (nerrors s) (diags s) (little s) (debug_Y s) (debug_t s) (cbuf s) (cbc s) (written
  s) (etextp s) (symsize s) (version s) (histgen s) (histfrog s) (curauto s) (curhist s)
  (autos s) (nexta s) (heap s) (nextb s).
Definition lset_dtype (v : Z) (s : vl) : vl :=
  mkvl (progs s) (syms s) (hash s) (nextp s) (nexts s) (firstp s) (lastp s) (textp s)
  (curtext s) (curp s) (datap s) (autosize s) (instoffset s) (pc s) (tabs s) (INITTEXT
  s) (INITDAT s) (INITRND s) (textsize s) (datsize s) (bsssize s) v (lcsize s) (optlevel
  s) (nerrors s) (diags s) (little s) (debug_Y s) (debug_t s) (cbuf s) (cbc s) (written
  s) (etextp s) (symsize s) (version s) (histgen s) (histfrog s) (curauto s) (curhist s)
  (autos s) (nexta s) (heap s) (nextb s).
Definition lset_lcsize (v : Z) (s : vl) : vl :=
  mkvl (progs s) (syms s) (hash s) (nextp s) (nexts s) (firstp s) (lastp s) (textp s)
  (curtext s) (curp s) (datap s) (autosize s) (instoffset s) (pc s) (tabs s) (INITTEXT
  s) (INITDAT s) (INITRND s) (textsize s) (datsize s) (bsssize s) (dtype s) v (optlevel
  s) (nerrors s) (diags s) (little s) (debug_Y s) (debug_t s) (cbuf s) (cbc s) (written
  s) (etextp s) (symsize s) (version s) (histgen s) (histfrog s) (curauto s) (curhist s)
  (autos s) (nexta s) (heap s) (nextb s).
Definition lset_INITDAT (v : Z) (s : vl) : vl :=
  mkvl (progs s) (syms s) (hash s) (nextp s) (nexts s) (firstp s) (lastp s) (textp s)
  (curtext s) (curp s) (datap s) (autosize s) (instoffset s) (pc s) (tabs s) (INITTEXT
  s) v (INITRND s) (textsize s) (datsize s) (bsssize s) (dtype s) (lcsize s) (optlevel
  s) (nerrors s) (diags s) (little s) (debug_Y s) (debug_t s) (cbuf s) (cbc s) (written
  s) (etextp s) (symsize s) (version s) (histgen s) (histfrog s) (curauto s) (curhist s)
  (autos s) (nexta s) (heap s) (nextb s).
Definition lset_textsize (v : Z) (s : vl) : vl :=
  mkvl (progs s) (syms s) (hash s) (nextp s) (nexts s) (firstp s) (lastp s) (textp s)
  (curtext s) (curp s) (datap s) (autosize s) (instoffset s) (pc s) (tabs s) (INITTEXT
  s) (INITDAT s) (INITRND s) v (datsize s) (bsssize s) (dtype s) (lcsize s) (optlevel s)
  (nerrors s) (diags s) (little s) (debug_Y s) (debug_t s) (cbuf s) (cbc s) (written s)
  (etextp s) (symsize s) (version s) (histgen s) (histfrog s) (curauto s) (curhist s)
  (autos s) (nexta s) (heap s) (nextb s).
Definition lset_nerrors (v : Z) (s : vl) : vl :=
  mkvl (progs s) (syms s) (hash s) (nextp s) (nexts s) (firstp s) (lastp s) (textp s)
  (curtext s) (curp s) (datap s) (autosize s) (instoffset s) (pc s) (tabs s) (INITTEXT
  s) (INITDAT s) (INITRND s) (textsize s) (datsize s) (bsssize s) (dtype s) (lcsize s)
  (optlevel s) v (diags s) (little s) (debug_Y s) (debug_t s) (cbuf s) (cbc s) (written
  s) (etextp s) (symsize s) (version s) (histgen s) (histfrog s) (curauto s) (curhist s)
  (autos s) (nexta s) (heap s) (nextb s).
Definition lset_diags (v : list ldiag) (s : vl) : vl :=
  mkvl (progs s) (syms s) (hash s) (nextp s) (nexts s) (firstp s) (lastp s) (textp s)
  (curtext s) (curp s) (datap s) (autosize s) (instoffset s) (pc s) (tabs s) (INITTEXT
  s) (INITDAT s) (INITRND s) (textsize s) (datsize s) (bsssize s) (dtype s) (lcsize s)
  (optlevel s) (nerrors s) v (little s) (debug_Y s) (debug_t s) (cbuf s) (cbc s)
  (written s) (etextp s) (symsize s) (version s) (histgen s) (histfrog s) (curauto s)
  (curhist s) (autos s) (nexta s) (heap s) (nextb s).
Definition lset_cbuf (v : list Z) (s : vl) : vl :=
  mkvl (progs s) (syms s) (hash s) (nextp s) (nexts s) (firstp s) (lastp s) (textp s)
  (curtext s) (curp s) (datap s) (autosize s) (instoffset s) (pc s) (tabs s) (INITTEXT
  s) (INITDAT s) (INITRND s) (textsize s) (datsize s) (bsssize s) (dtype s) (lcsize s)
  (optlevel s) (nerrors s) (diags s) (little s) (debug_Y s) (debug_t s) v (cbc s)
  (written s) (etextp s) (symsize s) (version s) (histgen s) (histfrog s) (curauto s)
  (curhist s) (autos s) (nexta s) (heap s) (nextb s).
Definition lset_cbc (v : Z) (s : vl) : vl :=
  mkvl (progs s) (syms s) (hash s) (nextp s) (nexts s) (firstp s) (lastp s) (textp s)
  (curtext s) (curp s) (datap s) (autosize s) (instoffset s) (pc s) (tabs s) (INITTEXT
  s) (INITDAT s) (INITRND s) (textsize s) (datsize s) (bsssize s) (dtype s) (lcsize s)
  (optlevel s) (nerrors s) (diags s) (little s) (debug_Y s) (debug_t s) (cbuf s) v
  (written s) (etextp s) (symsize s) (version s) (histgen s) (histfrog s) (curauto s)
  (curhist s) (autos s) (nexta s) (heap s) (nextb s).
Definition lset_written (v : list Z) (s : vl) : vl :=
  mkvl (progs s) (syms s) (hash s) (nextp s) (nexts s) (firstp s) (lastp s) (textp s)
  (curtext s) (curp s) (datap s) (autosize s) (instoffset s) (pc s) (tabs s) (INITTEXT
  s) (INITDAT s) (INITRND s) (textsize s) (datsize s) (bsssize s) (dtype s) (lcsize s)
  (optlevel s) (nerrors s) (diags s) (little s) (debug_Y s) (debug_t s) (cbuf s) (cbc s)
  v (etextp s) (symsize s) (version s) (histgen s) (histfrog s) (curauto s) (curhist s)
  (autos s) (nexta s) (heap s) (nextb s).
Definition lset_etextp (v : option Z) (s : vl) : vl :=
  mkvl (progs s) (syms s) (hash s) (nextp s) (nexts s) (firstp s) (lastp s) (textp s)
  (curtext s) (curp s) (datap s) (autosize s) (instoffset s) (pc s) (tabs s) (INITTEXT
  s) (INITDAT s) (INITRND s) (textsize s) (datsize s) (bsssize s) (dtype s) (lcsize s)
  (optlevel s) (nerrors s) (diags s) (little s) (debug_Y s) (debug_t s) (cbuf s) (cbc s)
  (written s) v (symsize s) (version s) (histgen s) (histfrog s) (curauto s) (curhist s)
  (autos s) (nexta s) (heap s) (nextb s).
Definition lset_symsize (v : Z) (s : vl) : vl :=
  mkvl (progs s) (syms s) (hash s) (nextp s) (nexts s) (firstp s) (lastp s) (textp s)
  (curtext s) (curp s) (datap s) (autosize s) (instoffset s) (pc s) (tabs s) (INITTEXT
  s) (INITDAT s) (INITRND s) (textsize s) (datsize s) (bsssize s) (dtype s) (lcsize s)
  (optlevel s) (nerrors s) (diags s) (little s) (debug_Y s) (debug_t s) (cbuf s) (cbc s)
  (written s) (etextp s) v (version s) (histgen s) (histfrog s) (curauto s) (curhist s)
  (autos s) (nexta s) (heap s) (nextb s).
Definition lset_version (v : Z) (s : vl) : vl :=
  mkvl (progs s) (syms s) (hash s) (nextp s) (nexts s) (firstp s) (lastp s) (textp s)
  (curtext s) (curp s) (datap s) (autosize s) (instoffset s) (pc s) (tabs s) (INITTEXT
  s) (INITDAT s) (INITRND s) (textsize s) (datsize s) (bsssize s) (dtype s) (lcsize s)
  (optlevel s) (nerrors s) (diags s) (little s) (debug_Y s) (debug_t s) (cbuf s) (cbc s)
  (written s) (etextp s) (symsize s) v (histgen s) (histfrog s) (curauto s) (curhist s)
  (autos s) (nexta s) (heap s) (nextb s).
Definition lset_histgen (v : Z) (s : vl) : vl :=
  mkvl (progs s) (syms s) (hash s) (nextp s) (nexts s) (firstp s) (lastp s) (textp s)
  (curtext s) (curp s) (datap s) (autosize s) (instoffset s) (pc s) (tabs s) (INITTEXT
  s) (INITDAT s) (INITRND s) (textsize s) (datsize s) (bsssize s) (dtype s) (lcsize s)
  (optlevel s) (nerrors s) (diags s) (little s) (debug_Y s) (debug_t s) (cbuf s) (cbc s)
  (written s) (etextp s) (symsize s) (version s) v (histfrog s) (curauto s) (curhist s)
  (autos s) (nexta s) (heap s) (nextb s).
Definition lset_histfrog (v : list Z) (s : vl) : vl :=
  mkvl (progs s) (syms s) (hash s) (nextp s) (nexts s) (firstp s) (lastp s) (textp s)
  (curtext s) (curp s) (datap s) (autosize s) (instoffset s) (pc s) (tabs s) (INITTEXT
  s) (INITDAT s) (INITRND s) (textsize s) (datsize s) (bsssize s) (dtype s) (lcsize s)
  (optlevel s) (nerrors s) (diags s) (little s) (debug_Y s) (debug_t s) (cbuf s) (cbc s)
  (written s) (etextp s) (symsize s) (version s) (histgen s) v (curauto s) (curhist s)
  (autos s) (nexta s) (heap s) (nextb s).
Definition lset_curauto (v : option Z) (s : vl) : vl :=
  mkvl (progs s) (syms s) (hash s) (nextp s) (nexts s) (firstp s) (lastp s) (textp s)
  (curtext s) (curp s) (datap s) (autosize s) (instoffset s) (pc s) (tabs s) (INITTEXT
  s) (INITDAT s) (INITRND s) (textsize s) (datsize s) (bsssize s) (dtype s) (lcsize s)
  (optlevel s) (nerrors s) (diags s) (little s) (debug_Y s) (debug_t s) (cbuf s) (cbc s)
  (written s) (etextp s) (symsize s) (version s) (histgen s) (histfrog s) v (curhist s)
  (autos s) (nexta s) (heap s) (nextb s).
Definition lset_curhist (v : option Z) (s : vl) : vl :=
  mkvl (progs s) (syms s) (hash s) (nextp s) (nexts s) (firstp s) (lastp s) (textp s)
  (curtext s) (curp s) (datap s) (autosize s) (instoffset s) (pc s) (tabs s) (INITTEXT
  s) (INITDAT s) (INITRND s) (textsize s) (datsize s) (bsssize s) (dtype s) (lcsize s)
  (optlevel s) (nerrors s) (diags s) (little s) (debug_Y s) (debug_t s) (cbuf s) (cbc s)
  (written s) (etextp s) (symsize s) (version s) (histgen s) (histfrog s) (curauto s) v
  (autos s) (nexta s) (heap s) (nextb s).
Definition lset_autos (v : gmap Z Auto) (s : vl) : vl :=
  mkvl (progs s) (syms s) (hash s) (nextp s) (nexts s) (firstp s) (lastp s) (textp s)
  (curtext s) (curp s) (datap s) (autosize s) (instoffset s) (pc s) (tabs s) (INITTEXT
  s) (INITDAT s) (INITRND s) (textsize s) (datsize s) (bsssize s) (dtype s) (lcsize s)
  (optlevel s) (nerrors s) (diags s) (little s) (debug_Y s) (debug_t s) (cbuf s) (cbc s)
  (written s) (etextp s) (symsize s) (version s) (histgen s) (histfrog s) (curauto s)
  (curhist s) v (nexta s) (heap s) (nextb s).
Definition lset_nexta (v : Z) (s : vl) : vl :=
  mkvl (progs s) (syms s) (hash s) (nextp s) (nexts s) (firstp s) (lastp s) (textp s)
  (curtext s) (curp s) (datap s) (autosize s) (instoffset s) (pc s) (tabs s) (INITTEXT
  s) (INITDAT s) (INITRND s) (textsize s) (datsize s) (bsssize s) (dtype s) (lcsize s)
  (optlevel s) (nerrors s) (diags s) (little s) (debug_Y s) (debug_t s) (cbuf s) (cbc s)
  (written s) (etextp s) (symsize s) (version s) (histgen s) (histfrog s) (curauto s)
  (curhist s) (autos s) v (heap s) (nextb s).
Definition lset_heap (v : gmap Z (list Z)) (s : vl) : vl :=
  mkvl (progs s) (syms s) (hash s) (nextp s) (nexts s) (firstp s) (lastp s) (textp s)
  (curtext s) (curp s) (datap s) (autosize s) (instoffset s) (pc s) (tabs s) (INITTEXT
  s) (INITDAT s) (INITRND s) (textsize s) (datsize s) (bsssize s) (dtype s) (lcsize s)
  (optlevel s) (nerrors s) (diags s) (little s) (debug_Y s) (debug_t s) (cbuf s) (cbc s)
  (written s) (etextp s) (symsize s) (version s) (histgen s) (histfrog s) (curauto s)
  (curhist s) (autos s) (nexta s) v (nextb s).
Definition lset_nextb (v : Z) (s : vl) : vl :=
  mkvl (progs s) (syms s) (hash s) (nextp s) (nexts s) (firstp s) (lastp s) (textp s)
  (curtext s) (curp s) (datap s) (autosize s) (instoffset s) (pc s) (tabs s) (INITTEXT
  s) (INITDAT s) (INITRND s) (textsize s) (datsize s) (bsssize s) (dtype s) (lcsize s)
  (optlevel s) (nerrors s) (diags s) (little s) (debug_Y s) (debug_t s) (cbuf s) (cbc s)
  (written s) (etextp s) (symsize s) (version s) (histgen s) (histfrog s) (curauto s)
  (curhist s) (autos s) (nexta s) (heap s) v.
Definition pset_from (v : Adr) (p : Prog) : Prog :=
  mkProg v (to p) (cond p) (link p) (forwd p) (p_pc p) (p_line p) (p_mark p) (p_optab p)
  (p_as p) (p_reg p).
Definition pset_to (v : Adr) (p : Prog) : Prog :=
  mkProg (from p) v (cond p) (link p) (forwd p) (p_pc p) (p_line p) (p_mark p) (p_optab
  p) (p_as p) (p_reg p).
Definition pset_cond (v : option Z) (p : Prog) : Prog :=
  mkProg (from p) (to p) v (link p) (forwd p) (p_pc p) (p_line p) (p_mark p) (p_optab p)
  (p_as p) (p_reg p).
Definition pset_link (v : option Z) (p : Prog) : Prog :=
  mkProg (from p) (to p) (cond p) v (forwd p) (p_pc p) (p_line p) (p_mark p) (p_optab p)
  (p_as p) (p_reg p).
Definition pset_forwd (v : option Z) (p : Prog) : Prog :=
  mkProg (from p) (to p) (cond p) (link p) v (p_pc p) (p_line p) (p_mark p) (p_optab p)
  (p_as p) (p_reg p).
Definition pset_pc (v : Z) (p : Prog) : Prog :=
  mkProg (from p) (to p) (cond p) (link p) (forwd p) v (p_line p) (p_mark p) (p_optab p)
  (p_as p) (p_reg p).
Definition pset_line (v : Z) (p : Prog) : Prog :=
  mkProg (from p) (to p) (cond p) (link p) (forwd p) (p_pc p) v (p_mark p) (p_optab p)
  (p_as p) (p_reg p).
Definition pset_mark (v : Z) (p : Prog) : Prog :=
  mkProg (from p) (to p) (cond p) (link p) (forwd p) (p_pc p) (p_line p) v (p_optab p)
  (p_as p) (p_reg p).
Definition pset_optab (v : Z) (p : Prog) : Prog :=
  mkProg (from p) (to p) (cond p) (link p) (forwd p) (p_pc p) (p_line p) (p_mark p) v
  (p_as p) (p_reg p).
Definition pset_as (v : Z) (p : Prog) : Prog :=
  mkProg (from p) (to p) (cond p) (link p) (forwd p) (p_pc p) (p_line p) (p_mark p)
  (p_optab p) v (p_reg p).
Definition pset_reg (v : Z) (p : Prog) : Prog :=
  mkProg (from p) (to p) (cond p) (link p) (forwd p) (p_pc p) (p_line p) (p_mark p)
  (p_optab p) (p_as p) v.
Definition aset_offset (v : Z) (a : Adr) : Adr :=
  mkAdr v (a_sym a) (a_type a) (a_reg a) (a_name a) (a_class a).
Definition aset_sym (v : option Z) (a : Adr) : Adr :=
  mkAdr (a_offset a) v (a_type a) (a_reg a) (a_name a) (a_class a).
Definition aset_type (v : Z) (a : Adr) : Adr :=
  mkAdr (a_offset a) (a_sym a) v (a_reg a) (a_name a) (a_class a).
Definition aset_reg (v : Z) (a : Adr) : Adr :=
  mkAdr (a_offset a) (a_sym a) (a_type a) v (a_name a) (a_class a).
Definition aset_name (v : Z) (a : Adr) : Adr :=
  mkAdr (a_offset a) (a_sym a) (a_type a) (a_reg a) v (a_class a).
Definition aset_class (v : Z) (a : Adr) : Adr :=
  mkAdr (a_offset a) (a_sym a) (a_type a) (a_reg a) (a_name a) v.
Definition sset_type (v : Z) (x : Sym) : Sym :=
  mkSym (s_name x) v (s_version x) (s_become x) (s_frame x) (s_value x).
Definition sset_become (v : Z) (x : Sym) : Sym :=
  mkSym (s_name x) (s_type x) (s_version x) v (s_frame x) (s_value x).
Definition sset_frame (v : Z) (x : Sym) : Sym :=
  mkSym (s_name x) (s_type x) (s_version x) (s_become x) v (s_value x).
Definition sset_value (v : Z) (x : Sym) : Sym :=
  mkSym (s_name x) (s_type x) (s_version x) (s_become x) (s_frame x) v.
Definition uset_au_link (v : option Z) (u : Auto) : Auto :=
  mkAuto (asym u) v (aoffset u) (au_type u).
Definition uset_aoffset (v : Z) (u : Auto) : Auto :=
  mkAuto (asym u) (au_link u) v (au_type u).

(** ** The stores *)

Definition getp (p : Z) : L Prog := fun s =>
  match progs s !! p with Some x => LOk x s | None => LFault end.
Definition updp (p : Z) (f : Prog -> Prog) : L unit := fun s =>
  match progs s !! p with
  | Some x => LOk tt (lset_progs (<[p := f x]> (progs s)) s)
  | None => LFault
  end.
Definition getsym (y : Z) : L Sym := fun s =>
  match syms s !! y with Some x => LOk x s | None => LFault end.
Definition updsym (y : Z) (f : Sym -> Sym) : L unit := fun s =>
  match syms s !! y with
  | Some x => LOk tt (lset_syms (<[y := f x]> (syms s)) s)
  | None => LFault
  end.

(** [prg()]: a fresh instruction, a copy of [zprg]. *)
Definition prg : L Z := fun s =>
  LOk (nextp s) (lset_nextp (nextp s + 1) (lset_progs (<[nextp s := zprg]> (progs s)) s)).

(** [diag]: the eleventh error ends the linker. *)
Definition diag (fmt : string) (args : list Z) : L unit :=
  lmodify (fun s => lset_nerrors (nerrors s + 1) (lset_diags (Ldiag fmt args :: diags s) s));;
  n ← lgets nerrors;
  if 10 <? n then lexit else lskip.

(** A [switch] whose cases return a value. *)
Fixpoint switch {A} (x : Z) (cases : list (Z * A)) : option A :=
  match cases with
  | [] => None
  | (k, v) :: r => if x =? k then Some v else switch x r
  end.
