(* ===== verification/VlOptab.v ===== *)
(** The instruction table [optab] of the MIPS linker, as [optab.c] has it. *)
From S2P Require Import Prelude VlObj.

(** The entries to [AMOVW C_ANDCON]: text, register operations, near and far moves. *)
Definition optab_moves : list Optab :=
  [ mkOptab ATEXT C_LEXT C_NONE C_LCON 0 0 0;
    mkOptab ATEXT C_LEXT C_REG C_LCON 0 0 0;
    mkOptab AMOVW C_REG C_NONE C_REG 1 4 0;
    mkOptab AMOVV C_REG C_NONE C_REG 1 4 0;
    mkOptab AMOVB C_REG C_NONE C_REG 12 8 0;
    mkOptab AMOVBU C_REG C_NONE C_REG 13 4 0;
    mkOptab ASUB C_REG C_REG C_REG 2 4 0;
    mkOptab AADD C_REG C_REG C_REG 2 4 0;
    mkOptab AAND C_REG C_REG C_REG 2 4 0;
    mkOptab ASUB C_REG C_NONE C_REG 2 4 0;
    mkOptab AADD C_REG C_NONE C_REG 2 4 0;
    mkOptab AAND C_REG C_NONE C_REG 2 4 0;
    mkOptab ASLL C_REG C_NONE C_REG 9 4 0;
    mkOptab ASLL C_REG C_REG C_REG 9 4 0;
    mkOptab AADDF C_FREG C_NONE C_FREG 32 4 0;
    mkOptab AADDF C_FREG C_REG C_FREG 32 4 0;
    mkOptab ACMPEQF C_FREG C_REG C_NONE 32 4 0;
    mkOptab AABSF C_FREG C_NONE C_FREG 33 4 0;
    mkOptab AMOVF C_FREG C_NONE C_FREG 33 4 0;
    mkOptab AMOVD C_FREG C_NONE C_FREG 33 4 0;
    mkOptab AMOVW C_REG C_NONE C_SEXT 7 4 REGSB;
    mkOptab AMOVV C_REG C_NONE C_SEXT 7 4 REGSB;
    mkOptab AMOVB C_REG C_NONE C_SEXT 7 4 REGSB;
    mkOptab AMOVBU C_REG C_NONE C_SEXT 7 4 REGSB;
    mkOptab AMOVWL C_REG C_NONE C_SEXT 7 4 REGSB;
    mkOptab AMOVW C_REG C_NONE C_SAUTO 7 4 REGSP;
    mkOptab AMOVV C_REG C_NONE C_SAUTO 7 4 REGSP;
    mkOptab AMOVB C_REG C_NONE C_SAUTO 7 4 REGSP;
    mkOptab AMOVBU C_REG C_NONE C_SAUTO 7 4 REGSP;
    mkOptab AMOVWL C_REG C_NONE C_SAUTO 7 4 REGSP;
    mkOptab AMOVW C_REG C_NONE C_SOREG 7 4 REGZERO;
    mkOptab AMOVV C_REG C_NONE C_SOREG 7 4 REGZERO;
    mkOptab AMOVB C_REG C_NONE C_SOREG 7 4 REGZERO;
    mkOptab AMOVBU C_REG C_NONE C_SOREG 7 4 REGZERO;
    mkOptab AMOVWL C_REG C_NONE C_SOREG 7 4 REGZERO;
    mkOptab AMOVW C_SEXT C_NONE C_REG 8 4 REGSB;
    mkOptab AMOVV C_SEXT C_NONE C_REG 8 4 REGSB;
    mkOptab AMOVB C_SEXT C_NONE C_REG 8 4 REGSB;
    mkOptab AMOVBU C_SEXT C_NONE C_REG 8 4 REGSB;
    mkOptab AMOVWL C_SEXT C_NONE C_REG 8 4 REGSB;
    mkOptab AMOVW C_SAUTO C_NONE C_REG 8 4 REGSP;
    mkOptab AMOVV C_SAUTO C_NONE C_REG 8 4 REGSP;
    mkOptab AMOVB C_SAUTO C_NONE C_REG 8 4 REGSP;
    mkOptab AMOVBU C_SAUTO C_NONE C_REG 8 4 REGSP;
    mkOptab AMOVWL C_SAUTO C_NONE C_REG 8 4 REGSP;
    mkOptab AMOVW C_SOREG C_NONE C_REG 8 4 REGZERO;
    mkOptab AMOVV C_SOREG C_NONE C_REG 8 4 REGZERO;
    mkOptab AMOVB C_SOREG C_NONE C_REG 8 4 REGZERO;
    mkOptab AMOVBU C_SOREG C_NONE C_REG 8 4 REGZERO;
    mkOptab AMOVWL C_SOREG C_NONE C_REG 8 4 REGZERO;
    mkOptab AMOVW C_REG C_NONE C_LEXT 35 16 REGSB;
    mkOptab AMOVV C_REG C_NONE C_LEXT 35 16 REGSB;
    mkOptab AMOVB C_REG C_NONE C_LEXT 35 16 REGSB;
    mkOptab AMOVBU C_REG C_NONE C_LEXT 35 16 REGSB;
    mkOptab AMOVW C_REG C_NONE C_LAUTO 35 16 REGSP;
    mkOptab AMOVV C_REG C_NONE C_LAUTO 35 16 REGSP;
    mkOptab AMOVB C_REG C_NONE C_LAUTO 35 16 REGSP;
    mkOptab AMOVBU C_REG C_NONE C_LAUTO 35 16 REGSP;
    mkOptab AMOVW C_REG C_NONE C_LOREG 35 16 REGZERO;
    mkOptab AMOVV C_REG C_NONE C_LOREG 35 16 REGZERO;
    mkOptab AMOVB C_REG C_NONE C_LOREG 35 16 REGZERO;
    mkOptab AMOVBU C_REG C_NONE C_LOREG 35 16 REGZERO;
    mkOptab AMOVW C_LEXT C_NONE C_REG 36 16 REGSB;
    mkOptab AMOVV C_LEXT C_NONE C_REG 36 16 REGSB;
    mkOptab AMOVB C_LEXT C_NONE C_REG 36 16 REGSB;
    mkOptab AMOVBU C_LEXT C_NONE C_REG 36 16 REGSB;
    mkOptab AMOVW C_LAUTO C_NONE C_REG 36 16 REGSP;
    mkOptab AMOVV C_LAUTO C_NONE C_REG 36 16 REGSP;
    mkOptab AMOVB C_LAUTO C_NONE C_REG 36 16 REGSP;
    mkOptab AMOVBU C_LAUTO C_NONE C_REG 36 16 REGSP;
    mkOptab AMOVW C_LOREG C_NONE C_REG 36 16 REGZERO;
    mkOptab AMOVV C_LOREG C_NONE C_REG 36 16 REGZERO;
    mkOptab AMOVB C_LOREG C_NONE C_REG 36 16 REGZERO;
    mkOptab AMOVBU C_LOREG C_NONE C_REG 36 16 REGZERO;
    mkOptab AMOVW C_SECON C_NONE C_REG 3 4 REGSB;
    mkOptab AMOVW C_SACON C_NONE C_REG 3 4 REGSP;
    mkOptab AMOVW C_LECON C_NONE C_REG 26 12 REGSB;
    mkOptab AMOVW C_LACON C_NONE C_REG 26 12 REGSP;
    mkOptab AMOVW C_ADDCON C_NONE C_REG 3 4 REGZERO;
    mkOptab AMOVW C_ANDCON C_NONE C_REG 3 4 REGZERO ].

(** The entries from [AMOVW C_UCON] on. *)
Definition optab_rest : list Optab :=
  [ mkOptab AMOVW C_UCON C_NONE C_REG 24 4 0;
    mkOptab AMOVW C_LCON C_NONE C_REG 19 8 0;
    mkOptab AMOVW C_HI C_NONE C_REG 20 4 0;
    mkOptab AMOVV C_HI C_NONE C_REG 20 4 0;
    mkOptab AMOVW C_LO C_NONE C_REG 20 4 0;
    mkOptab AMOVV C_LO C_NONE C_REG 20 4 0;
    mkOptab AMOVW C_REG C_NONE C_HI 21 4 0;
    mkOptab AMOVV C_REG C_NONE C_HI 21 4 0;
    mkOptab AMOVW C_REG C_NONE C_LO 21 4 0;
    mkOptab AMOVV C_REG C_NONE C_LO 21 4 0;
    mkOptab AMUL C_REG C_REG C_NONE 22 4 0;
    mkOptab AADD C_ADD0CON C_REG C_REG 4 4 0;
    mkOptab AADD C_ADD0CON C_NONE C_REG 4 4 0;
    mkOptab AADD C_ANDCON C_REG C_REG 10 8 0;
    mkOptab AADD C_ANDCON C_NONE C_REG 10 8 0;
    mkOptab AAND C_AND0CON C_REG C_REG 4 4 0;
    mkOptab AAND C_AND0CON C_NONE C_REG 4 4 0;
    mkOptab AAND C_ADDCON C_REG C_REG 10 8 0;
    mkOptab AAND C_ADDCON C_NONE C_REG 10 8 0;
    mkOptab AADD C_UCON C_REG C_REG 25 8 0;
    mkOptab AADD C_UCON C_NONE C_REG 25 8 0;
    mkOptab AAND C_UCON C_REG C_REG 25 8 0;
    mkOptab AAND C_UCON C_NONE C_REG 25 8 0;
    mkOptab AADD C_LCON C_NONE C_REG 23 12 0;
    mkOptab AAND C_LCON C_NONE C_REG 23 12 0;
    mkOptab AADD C_LCON C_REG C_REG 23 12 0;
    mkOptab AAND C_LCON C_REG C_REG 23 12 0;
    mkOptab ASLL C_SCON C_REG C_REG 16 4 0;
    mkOptab ASLL C_SCON C_NONE C_REG 16 4 0;
    mkOptab ASYSCALL C_NONE C_NONE C_NONE 5 4 0;
    mkOptab ABEQ C_REG C_REG C_SBRA 6 4 0;
    mkOptab ABEQ C_REG C_NONE C_SBRA 6 4 0;
    mkOptab ABLEZ C_REG C_NONE C_SBRA 6 4 0;
    mkOptab ABFPT C_NONE C_NONE C_SBRA 6 4 0;
    mkOptab AJMP C_NONE C_NONE C_LBRA 11 4 0;
    mkOptab AJAL C_NONE C_NONE C_LBRA 11 4 0;
    mkOptab AJMP C_NONE C_NONE C_ZOREG 18 4 REGZERO;
    mkOptab AJAL C_NONE C_NONE C_ZOREG 18 4 REGLINK;
    mkOptab AMOVW C_SEXT C_NONE C_FREG 27 4 REGSB;
    mkOptab AMOVF C_SEXT C_NONE C_FREG 27 4 REGSB;
    mkOptab AMOVD C_SEXT C_NONE C_FREG 27 8 REGSB;
    mkOptab AMOVW C_SAUTO C_NONE C_FREG 27 4 REGSP;
    mkOptab AMOVF C_SAUTO C_NONE C_FREG 27 4 REGSP;
    mkOptab AMOVD C_SAUTO C_NONE C_FREG 27 8 REGSP;
    mkOptab AMOVW C_SOREG C_NONE C_FREG 27 4 REGZERO;
    mkOptab AMOVF C_SOREG C_NONE C_FREG 27 4 REGZERO;
    mkOptab AMOVD C_SOREG C_NONE C_FREG 27 8 REGZERO;
    mkOptab AMOVW C_LEXT C_NONE C_FREG 27 16 REGSB;
    mkOptab AMOVF C_LEXT C_NONE C_FREG 27 16 REGSB;
    mkOptab AMOVD C_LEXT C_NONE C_FREG 27 20 REGSB;
    mkOptab AMOVW C_LAUTO C_NONE C_FREG 27 16 REGSP;
    mkOptab AMOVF C_LAUTO C_NONE C_FREG 27 16 REGSP;
    mkOptab AMOVD C_LAUTO C_NONE C_FREG 27 20 REGSP;
    mkOptab AMOVW C_LOREG C_NONE C_FREG 27 16 REGZERO;
    mkOptab AMOVF C_LOREG C_NONE C_FREG 27 16 REGZERO;
    mkOptab AMOVD C_LOREG C_NONE C_FREG 27 20 REGZERO;
    mkOptab AMOVW C_FREG C_NONE C_SEXT 28 4 REGSB;
    mkOptab AMOVF C_FREG C_NONE C_SEXT 28 4 REGSB;
    mkOptab AMOVD C_FREG C_NONE C_SEXT 28 8 REGSB;
    mkOptab AMOVW C_FREG C_NONE C_SAUTO 28 4 REGSP;
    mkOptab AMOVF C_FREG C_NONE C_SAUTO 28 4 REGSP;
    mkOptab AMOVD C_FREG C_NONE C_SAUTO 28 8 REGSP;
    mkOptab AMOVW C_FREG C_NONE C_SOREG 28 4 REGZERO;
    mkOptab AMOVF C_FREG C_NONE C_SOREG 28 4 REGZERO;
    mkOptab AMOVD C_FREG C_NONE C_SOREG 28 8 REGZERO;
    mkOptab AMOVW C_FREG C_NONE C_LEXT 28 16 REGSB;
    mkOptab AMOVF C_FREG C_NONE C_LEXT 28 16 REGSB;
    mkOptab AMOVD C_FREG C_NONE C_LEXT 28 20 REGSB;
    mkOptab AMOVW C_FREG C_NONE C_LAUTO 28 16 REGSP;
    mkOptab AMOVF C_FREG C_NONE C_LAUTO 28 16 REGSP;
    mkOptab AMOVD C_FREG C_NONE C_LAUTO 28 20 REGSP;
    mkOptab AMOVW C_FREG C_NONE C_LOREG 28 16 REGZERO;
    mkOptab AMOVF C_FREG C_NONE C_LOREG 28 16 REGZERO;
    mkOptab AMOVD C_FREG C_NONE C_LOREG 28 20 REGZERO;
    mkOptab AMOVW C_REG C_NONE C_FREG 30 4 0;
    mkOptab AMOVW C_FREG C_NONE C_REG 31 4 0;
    mkOptab AMOVW C_ADDCON C_NONE C_FREG 34 8 0;
    mkOptab AMOVW C_ANDCON C_NONE C_FREG 34 8 0;
    mkOptab AMOVW C_UCON C_NONE C_FREG 35 8 0;
    mkOptab AMOVW C_LCON C_NONE C_FREG 36 12 0;
    mkOptab AMOVW C_REG C_NONE C_MREG 37 4 0;
    mkOptab AMOVV C_REG C_NONE C_MREG 37 4 0;
    mkOptab AMOVW C_MREG C_NONE C_REG 38 4 0;
    mkOptab AMOVV C_MREG C_NONE C_REG 38 4 0;
    mkOptab ARFE C_NONE C_NONE C_ZOREG 39 8 0;
    mkOptab AWORD C_NONE C_NONE C_LCON 40 4 0;
    mkOptab AMOVW C_REG C_NONE C_FCREG 41 8 0;
    mkOptab AMOVV C_REG C_NONE C_FCREG 41 8 0;
    mkOptab AMOVW C_FCREG C_NONE C_REG 42 4 0;
    mkOptab AMOVV C_FCREG C_NONE C_REG 42 4 0;
    mkOptab ABREAK C_REG C_NONE C_SEXT 7 4 REGSB;
    mkOptab ABREAK C_REG C_NONE C_SAUTO 7 4 REGSP;
    mkOptab ABREAK C_REG C_NONE C_SOREG 7 4 REGZERO;
    mkOptab ABREAK C_NONE C_NONE C_NONE 5 4 0;
    mkOptab ACASE C_REG C_NONE C_NONE 45 28 0;
    mkOptab ABCASE C_LCON C_NONE C_LBRA 46 4 0;
    mkOptab ASC C_REG C_NONE C_SOREG 47 4 0;
    mkOptab ALL C_SOREG C_NONE C_REG 48 4 0 ].

(** The whole table; its last entry ends it. *)
Definition optab_end : Optab := mkOptab AXXX C_NONE C_NONE C_NONE 0 4 0.
Definition optab : list Optab := optab_moves ++ optab_rest.
