(* ===== verification/VlSym.v ===== *)
(** The symbol table of the linker: [lookup] of [obj.c], [xdefine] of [span.c]. *)
From S2P Require Import Prelude CInt VlObj.

Definition NHASH : Z := 10007.

(** [h = v; for(...) h = h+h+h + c; h &= 0xffffff; h %= NHASH] *)
Definition symhash (symb : list Z) (v : Z) : Z :=
  Z.land (foldl (fun h c => s32 (h + h + h + c)) v symb) 0xffffff mod NHASH.

Definition chain (h : Z) (s : vl) : list Z := default [] (hash s !! h).

(** The walk of a chain for the symbol of a name and version. *)
Fixpoint chain_find (symb : list Z) (v : Z) (l : list Z) : L (option Z) :=
  match l with
  | [] => mret None
  | y :: l' =>
      x ← getsym y;
      if bool_decide (s_version x = v /\ s_name x = symb) then mret (Some y)
      else chain_find symb v l'
  end.

(** The new symbol keeps what [gethunk] left in [become] and [frame]: zero. *)
Definition newsym (symb : list Z) (v : Z) : Sym := mkSym symb 0 (s16 v) 0 0 0.

Definition lookup (symb : list Z) (v : Z) : L Z :=
  let h := symhash symb v in
  l ← lgets (chain h);
  r ← chain_find symb v l;
  match r with
  | Some y => mret y
  | None => fun s =>
      let y := nexts s in
      LOk y (lset_nexts (y + 1)
              (lset_hash (<[h := y :: chain h s]> (hash s))
                (lset_syms (<[y := newsym symb v]> (syms s)) s)))
  end.

Definition xdefine (p : list Z) (t v : Z) : L unit :=
  y ← lookup p 0;
  x ← getsym y;
  if (s_type x =? 0) || (s_type x =? SXREF) then
    updsym y (fun x => sset_value v (sset_type t x))
  else lskip.
