(* ===== verification/VlWp.v ===== *)
(** Lists of instructions, and weakest preconditions for the passes of the linker: a pass that returns does so in a state
    of the postcondition, it may end in the linker's own exit where that is allowed, and it
    neither follows a bad pointer nor runs out of fuel. *)
From S2P Require Import Prelude CInt VlObj VlSym.

Definition lwp {A} (X : vl -> Prop) (m : L A) (Q : A -> vl -> Prop) (s : vl) : Prop :=
  match m s with
  | LOk a s' => Q a s'
  | LExit s' => X s'
  | _ => False
  end.

Lemma lwp_bind {A B} X (m : L B) (k : B -> L A) (Q : A -> vl -> Prop) s :
  lwp X m (fun b s' => lwp X (k b) Q s') s -> lwp X (x ← m; k x) Q s.
Proof. unfold lwp, mbind, L_bind. by destruct (m s). Qed.

(** A part whose result and state are known. *)
Lemma lwp_run {A B} X (m : L B) (k : B -> L A) (Q : A -> vl -> Prop) s b s' :
  m s = LOk b s' -> lwp X (k b) Q s' -> lwp X (x ← m; k x) Q s.
Proof. intros E H. apply lwp_bind. unfold lwp at 1. by rewrite E. Qed.

Section Rules.
Context {A : Type} (X : vl -> Prop).
Implicit Types (Q : A -> vl -> Prop) (s : vl).

Lemma lwp_mono (m : L A) Q Q' s :
  lwp X m Q s -> (forall a s', m s = LOk a s' -> Q a s' -> Q' a s') -> lwp X m Q' s.
Proof. unfold lwp. destruct (m s) eqn:E; eauto. Qed.

Lemma lwp_ret (a : A) Q s : Q a s -> lwp X (mret a) Q s.
Proof. done. Qed.

Lemma lwp_ok (m : L A) Q s a s' : m s = LOk a s' -> Q a s' -> lwp X m Q s.
Proof. unfold lwp. by intros ->. Qed.

Lemma lwp_get {C} (f : vl -> C) (k : C -> L A) Q s :
  lwp X (k (f s)) Q s -> lwp X (x ← lgets f; k x) Q s.
Proof. done. Qed.

Lemma lwp_getp pid p (k : Prog -> L A) Q s :
  progs s !! pid = Some p -> lwp X (k p) Q s -> lwp X (x ← getp pid; k x) Q s.
Proof. intros H. apply (lwp_run _ _ _ _ _ p s). unfold getp. by rewrite H. Qed.

Lemma lwp_updp pid p f (k : unit -> L A) Q s :
  progs s !! pid = Some p -> lwp X (k tt) Q (lset_progs (<[pid := f p]> (progs s)) s) ->
  lwp X (x ← updp pid f; k x) Q s.
Proof. intros H. eapply lwp_run. unfold updp. by rewrite H. Qed.

Lemma lwp_modify f (k : unit -> L A) Q s : lwp X (k tt) Q (f s) -> lwp X (x ← lmodify f; k x) Q s.
Proof. done. Qed.

Lemma lwp_prg (k : Z -> L A) Q s :
  lwp X (k (nextp s)) Q (lset_nextp (nextp s + 1) (lset_progs (<[nextp s := zprg]> (progs s)) s)) ->
  lwp X (x ← prg; k x) Q s.
Proof. done. Qed.

Lemma lwp_skip (k : unit -> L A) Q s : lwp X (k tt) Q s -> lwp X (x ← lskip; k x) Q s.
Proof. done. Qed.

Lemma lwp_getsym y x (k : Sym -> L A) Q s :
  syms s !! y = Some x -> lwp X (k x) Q s -> lwp X (x ← getsym y; k x) Q s.
Proof. intros H. apply (lwp_run _ _ _ _ _ x s). unfold getsym. by rewrite H. Qed.

(** A report ends the linker, or only adds to the errors. *)
Lemma lwp_diag fmt args (k : unit -> L A) Q s :
  (10 < nerrors s + 1 -> X (lset_nerrors (nerrors s + 1) (lset_diags (Ldiag fmt args :: diags s) s))) ->
  lwp X (k tt) Q (lset_nerrors (nerrors s + 1) (lset_diags (Ldiag fmt args :: diags s) s)) ->
  lwp X (x ← diag fmt args; k x) Q s.
Proof.
  intros HX H. apply lwp_bind. unfold diag, mbind, L_bind, lmodify, lgets, lwp at 1. cbn.
  destruct (Z.ltb_spec 10 (nerrors s + 1)) as [E|E]; [exact (HX E)|exact H].
Qed.
End Rules.

(** No exit of the linker. *)
Definition noexit : vl -> Prop := fun _ => False.

Lemma lwp_updp' X pid p f Q s :
  progs s !! pid = Some p -> Q tt (lset_progs (<[pid := f p]> (progs s)) s) -> lwp X (updp pid f) Q s.
Proof. intros H. apply lwp_ok. unfold updp. by rewrite H. Qed.

Lemma lwp_updsym' X y x f Q s :
  syms s !! y = Some x -> Q tt (lset_syms (<[y := f x]> (syms s)) s) -> lwp X (updsym y f) Q s.
Proof. intros H. apply lwp_ok. unfold updsym. by rewrite H. Qed.

(** ** Lists of instructions *)

(** The instructions from [p] on, following [link]. *)
Fixpoint linked (m : gmap Z Prog) (p : option Z) (l : list Z) : Prop :=
  match l with
  | [] => p = None
  | x :: l' => p = Some x /\ exists q, m !! x = Some q /\ linked m (link q) l'
  end.

(** [m'] is as [m] on [l]. *)
Definition same_on (l : list Z) (m m' : gmap Z Prog) : Prop :=
  forall x, x ∈ l -> m' !! x = m !! x.

Lemma linked_same m m' p l : same_on l m m' -> linked m p l -> linked m' p l.
Proof.
  revert p. induction l as [|x l IH]; intros p Hs; [done|]. intros (Hp & q & Hq & Hl).
  split; [done|]. exists q. split; [rewrite Hs; [done|by left]|].
  apply IH; [|done]. intros y Hy. apply Hs. by right.
Qed.

Lemma same_on_insert l m x p : x ∉ l -> same_on l m (<[x:=p]> m).
Proof. intros Hx y Hy. apply lookup_insert_ne. by intros ->. Qed.

(** A list of the program: linked, without repetition, of allocated instructions. *)
Definition chained (s : vl) (p : option Z) (l : list Z) : Prop :=
  linked (progs s) p l /\ NoDup l /\ Forall (fun x => x < nextp s) l.

Lemma chained_cons s pid l :
  chained s (Some pid) l ->
  exists p l', (l = pid :: l') /\ progs s !! pid = Some p /\ chained s (link p) l'
               /\ (pid ∉ l') /\ pid < nextp s.
Proof.
  intros (Hl & Hn & Hf). destruct l as [|x l']; [done|]. destruct Hl as ([= <-] & p & Hp & Hl).
  apply list.NoDup_cons in Hn as [Hx Hn]. apply list.Forall_cons in Hf as [Hlt Hf].
  exists p, l'. by split_and!.
Qed.

Lemma chained_push s pid p l :
  progs s !! pid = Some p -> pid ∉ l -> pid < nextp s -> chained s (link p) l ->
  chained s (Some pid) (pid :: l).
Proof.
  intros Hp Hx Hlt (Hl & Hn & Hf). split_and!.
  - split; [done|]. by exists p.
  - by apply list.NoDup_cons.
  - by apply list.Forall_cons.
Qed.

(** The program changes outside a list. *)
Lemma chained_same s s' p l :
  same_on l (progs s) (progs s') -> nextp s <= nextp s' -> chained s p l -> chained s' p l.
Proof.
  intros Hs Hn (Hl & Hd & Hf). split_and!; [by eapply linked_same|done|].
  eapply list.Forall_impl; [exact Hf|]. simpl. lia.
Qed.
