(* ===== verification/VlSymThm.v ===== *)
(** [lookup]: one symbol for each name and version. *)
From S2P Require Import Prelude CInt VlObj VlSym VlWp.

Definition named (s : vl) (symb : list Z) (v y : Z) : Prop :=
  exists x, syms s !! y = Some x /\ s_name x = symb /\ s_version x = v.

(** The chains of [hash] hold the allocated symbols, each in the chain of its name and
    version, and no two of the same. *)
Record hash_ok (s : vl) : Prop := {
  h_chain : forall h y, y ∈ chain h s ->
    exists x, syms s !! y = Some x /\ symhash (s_name x) (s_version x) = h;
  h_all : forall y x, syms s !! y = Some x -> y ∈ chain (symhash (s_name x) (s_version x)) s;
  h_one : forall y z symb v, named s symb v y -> named s symb v z -> y = z;
  h_next : forall y x, syms s !! y = Some x -> y < nexts s }.

Lemma chain_find_run symb v l s :
  (forall y, y ∈ l -> is_Some (syms s !! y)) ->
  exists r, chain_find symb v l s = LOk r s
    /\ match r with
       | Some y => y ∈ l /\ named s symb v y
       | None => forall y, y ∈ l -> ~ named s symb v y
       end.
Proof.
  induction l as [|y l IH]; intros H.
  - exists None. split; [done|]. intros y Hy. by apply elem_of_nil in Hy.
  - destruct (H y) as [x Hx]; [by left|]. cbn [chain_find].
    unfold mbind, L_bind, getsym. rewrite Hx. case_bool_decide as E.
    + destruct E. exists (Some y). split; [done|]. split; [by left|]. by exists x.
    + destruct IH as (r & -> & Hr); [intros z Hz; apply H; by right|]. exists r. split; [done|].
      destruct r as [z|].
      * destruct Hr. split; [by right|done].
      * intros z [->|Hz]%elem_of_cons; [|by apply Hr]. intros (x' & Hx' & ? & ?). simplify_eq. tauto.
Qed.

(** The symbol a name has in [s'], where [s] may have had none. *)
Definition new_in (s : vl) (symb : list Z) (v y : Z) (s' : vl) : Prop :=
  (forall z, ~ named s symb v z) /\ y = nexts s
  /\ syms s' = <[y := newsym symb v]> (syms s) /\ nexts s' = nexts s + 1
  /\ exists h, s' = lset_nexts (nexts s + 1) (lset_hash h (lset_syms (syms s') s)).

Lemma chain_new s h y symb v k :
  chain k (lset_nexts (y + 1) (lset_hash (<[h := y :: chain h s]> (hash s))
            (lset_syms (<[y := newsym symb v]> (syms s)) s)))
  = if decide (k = h) then y :: chain h s else chain k s.
Proof.
  unfold chain at 1. simpl. destruct (decide (k = h)) as [->|]; [by rewrite lookup_insert_eq|].
  by rewrite lookup_insert_ne.
Qed.

Lemma lookup_run symb v s :
  hash_ok s -> in_s 16 v ->
  exists y s', lookup symb v s = LOk y s' /\ hash_ok s' /\ named s' symb v y
    /\ (named s symb v y /\ s' = s \/ new_in s symb v y s').
Proof.
  intros [Hc Ha Ho Hn] Hv. unfold lookup. set (h := symhash symb v).
  unfold mbind at 1, L_bind at 1, lgets at 1. unfold mbind, L_bind.
  destruct (chain_find_run symb v (chain h s) s) as (r & -> & Hr).
  { intros y Hy. destruct (Hc h y Hy) as (x & Hx & _). by exists x. }
  destruct r as [y|].
  { destruct Hr as [_ Hr]. exists y, s. split_and!; [done|by split|done|by left]. }
  assert (forall z, ~ named s symb v z) as Hnone.
  { intros z Hz. apply (Hr z); [|done]. destruct Hz as (x & Hx & <- & <-). by apply Ha. }
  assert (syms s !! nexts s = None) as Hf.
  { destruct (syms s !! nexts s) as [x|] eqn:E; [|done]. apply Hn in E. lia. }
  assert (s16 v = v) as Ev by by apply wraps_id.
  eexists _, _. split; [reflexivity|].
  match goal with |- hash_ok ?t /\ _ => set (s' := t) end.
  assert (forall z x, syms s' !! z = Some x ->
    z = nexts s /\ x = newsym symb v \/ syms s !! z = Some x /\ z <> nexts s) as Hcase.
  { intros z x Hz. simpl in Hz. destruct (decide (z = nexts s)) as [->|].
    - rewrite lookup_insert_eq in Hz. injection Hz as <-. by left.
    - rewrite lookup_insert_ne in Hz by done. by right. }
  assert (named s' symb v (nexts s)) as Hnew.
  { exists (newsym symb v). simpl. by rewrite lookup_insert_eq. }
  split_and!; [split|done|right; split_and!; try done; by eexists].
  - intros k y. unfold s'. rewrite chain_new. intros Hy.
    assert (y = nexts s /\ k = h \/ y ∈ chain k s) as [[-> ->]|Hy'].
    { destruct (decide (k = h)) as [->|]; [|by right].
      apply elem_of_cons in Hy as [->|Hy]; [by left|by right]. }
    + exists (newsym symb v). simpl. rewrite lookup_insert_eq. by rewrite Ev.
    + destruct (Hc k y Hy') as (x & Hx & Ex). exists x. split; [|done]. simpl.
      rewrite lookup_insert_ne; [done|]. intros <-. by rewrite Hf in Hx.
  - intros z x Hz. unfold s'. rewrite chain_new. destruct (Hcase z x Hz) as [[-> ->]|[Hx Hne]].
    + simpl. rewrite Ev. rewrite decide_True by done. by left.
    + apply Ha in Hx. case_decide as E; [rewrite E in Hx; by right|done].
  - assert (forall z, named s' symb v z -> z = nexts s) as H1.
    { intros z (x & Hx & E1 & E2). destruct (Hcase z x Hx) as [[-> _]|[Hx' _]]; [done|].
      destruct (Hnone z). by exists x. }
    intros y z sy w (x & Hx & <- & <-) (x' & Hx' & E1 & E2).
    destruct (Hcase y x Hx) as [[-> ->]|[Hy Hy']], (Hcase z x' Hx') as [[-> ->]|[Hz Hz']]; try done.
    + symmetry. apply H1. exists x'. rewrite E1, E2. simpl. by rewrite Ev.
    + apply H1. exists x. rewrite <- E1, <- E2. simpl. by rewrite Ev.
    + apply (Ho y z (s_name x) (s_version x)); [by exists x|]. by exists x'.
  - intros z x Hz. simpl. destruct (Hcase z x Hz) as [[-> _]|[Hx _]]; [lia|]. apply Hn in Hx. lia.
Qed.

(** C22: [lookup] yields the one symbol of a name and version. It allocates a symbol exactly where
    there was none, leaves every other symbol alone, keeps the hash table well formed (each
    symbol in the chain of its name, no two of one name and version), and yields the same symbol
    whenever it is asked again. *)
Theorem lookup_unique symb v s :
  hash_ok s -> in_s 16 v ->
  exists y s', lookup symb v s = LOk y s' /\ hash_ok s' /\ named s' symb v y
    /\ (forall z, z <> y -> syms s' !! z = syms s !! z)
    /\ (is_Some (syms s !! y) <-> named s symb v y)
    /\ (forall t, syms t = syms s' -> hash t = hash s' -> nexts t = nexts s' ->
          lookup symb v t = LOk y t).
Proof.
  intros Hok Hv. destruct (lookup_run symb v s Hok Hv) as (y & s' & H & Hok' & Hn & Hc).
  exists y, s'. split_and!; try done.
  - intros z Hz. destruct Hc as [[_ ->]|(_ & -> & -> & _)]; [done|]. by apply lookup_insert_ne.
  - split; [|by intros (x & Hx & _); exists x]. intros [x Hx].
    destruct Hc as [[Hc _]|(_ & -> & _)]; [done|]. apply (h_next _ Hok) in Hx. lia.
  - intros t E1 E2 E3.
    assert (hash_ok t) as Ht.
    { destruct Hok' as [A1 A2 A3 A4]. unfold named, chain in *.
      split; unfold named, chain; rewrite ?E1, ?E2, ?E3; done. }
    destruct (lookup_run symb v t Ht Hv) as (z & t' & H' & _ & _ & [[Hz ->]|(Hno & _)]).
    + rewrite H'. f_equal. apply (h_one _ Ht z y symb v); [done|].
      unfold named in *. by rewrite E1.
    + destruct (Hno y). unfold named in *. by rewrite E1.
Qed.

(** A table of one symbol, [main]. *)
Definition one_symbol : vl :=
  lset_nexts 1 (lset_hash {[symhash [109] 0 := [0]]}
    (lset_syms {[0 := mkSym [109] STEXT 0 0 0 0]}
      (mkvl ∅ ∅ ∅ 0 0 None None None None None None 0 0 0 (mkTables [] ∅ ∅ ∅ ∅ ∅) 0 0 0 0 0 0 0 0 3 0 []
         false false false [] MAXIO [] None 0 0 0 [] None None ∅ 0 ∅ 0))).

Lemma one_symbol_ok : hash_ok one_symbol.
Proof.
  assert (forall y x, syms one_symbol !! y = Some x -> y = 0 /\ x = mkSym [109] STEXT 0 0 0 0) as H.
  { intros y x E. change (({[0 := mkSym [109] STEXT 0 0 0 0]} : gmap Z Sym) !! y = Some x) in E.
    by apply lookup_singleton_Some in E as [<- <-]. }
  split.
  - intros h y Hy. unfold chain in Hy. simpl in Hy.
    destruct (decide (h = symhash [109] 0)) as [->|Hn].
    + rewrite lookup_singleton_eq in Hy. apply list_elem_of_singleton in Hy as ->.
      eexists. split; [apply lookup_singleton_eq|done].
    + rewrite lookup_singleton_ne in Hy by done. by apply elem_of_nil in Hy.
  - intros y x [-> ->]%H. unfold chain. simpl. rewrite lookup_singleton_eq. by left.
  - intros y z symb v (x & [-> _]%H & _) (x' & [-> _]%H & _). done.
  - intros y x [-> _]%H. done.
Qed.

Lemma lookup_unique_witness :
  exists y s', lookup [109] 0 one_symbol = LOk y s' /\ hash_ok s' /\ named s' [109] 0 y
    /\ (forall z, z <> y -> syms s' !! z = syms one_symbol !! z)
    /\ (is_Some (syms one_symbol !! y) <-> named one_symbol [109] 0 y)
    /\ (forall t, syms t = syms s' -> hash t = hash s' -> nexts t = nexts s' ->
          lookup [109] 0 t = LOk y t).
Proof. apply (lookup_unique [109] 0 one_symbol one_symbol_ok). split; [discriminate|reflexivity]. Defined.
