(* ===== verification/VlSpan.v ===== *)
(** [span.c]: operand classes, the search of the instruction table, the tables [buildop]
    makes for it, and the assignment of addresses to instructions. *)
From S2P Require Import Prelude CInt Qsort VlObj VlOptab VlSym.

(** ** Operand classes *)

(** [if(instoffset >= -BIG && instoffset < BIG) return small; return large;] *)
Definition near (small large : Z) : L Z :=
  v ← lgets instoffset;
  mret (if (- BIG <=? v) && (v <? BIG) then small else large).

Definition set_instoffset (v : Z) : L unit := lmodify (lset_instoffset (s32 v)).

(** The label [consize]. *)
Definition consize_of (v : Z) : Z :=
  if 0 <? v then
    if v <=? 0x7fff then C_SCON
    else if v <=? 0xffff then C_ANDCON
    else if Z.land v 0xffff =? 0 then C_UCON
    else C_LCON
  else if v =? 0 then C_ZCON
  else if -0x8000 <=? v then C_ADDCON
  else if Z.land v 0xffff =? 0 then C_UCON
  else C_LCON.

Definition consize : L Z := v ← lgets instoffset; mret (consize_of v).

(** [diag("undefined external: ..."); s->type = SDATA;] *)
Definition undefined_external (y : Z) : L unit :=
  diag "undefined external: %s in %s" [y];;
  updsym y (sset_type SDATA).

Definition is_extern (n : Z) : bool := (n =? D_EXTERN) || (n =? D_STATIC).
Definition is_xref (t : Z) : bool := (t =? 0) || (t =? SXREF).

(** The [D_AUTO] and [D_PARAM] cases. *)
Definition auto_class (a : Adr) (d small large : Z) : L Z :=
  sz ← lgets autosize;
  set_instoffset (sz + a_offset a + d);;
  near small large.

Definition aclass_oreg (a : Adr) : L Z :=
  if is_extern (a_name a) then
    match a_sym a with
    | None => mret C_GOK
    | Some y =>
        x ← getsym y;
        (if is_xref (s_type x) then undefined_external y else lskip);;
        x ← getsym y;
        set_instoffset (s_value x + a_offset a - BIG);;
        near C_SEXT C_LEXT
    end
  else if a_name a =? D_AUTO then auto_class a 0 C_SAUTO C_LAUTO
  else if a_name a =? D_PARAM then auto_class a 4 C_SAUTO C_LAUTO
  else if a_name a =? D_NONE then
    set_instoffset (a_offset a);;
    v ← lgets instoffset;
    if v =? 0 then mret C_ZOREG else near C_SOREG C_LOREG
  else mret C_GOK.

Definition aclass_oconst (a : Adr) : L Z :=
  if is_extern (a_name a) then
    match a_sym a with
    | None => lfault
    | Some y =>
        x ← getsym y;
        (if is_xref (s_type x) then undefined_external y else lskip);;
        x ← getsym y;
        dat ← lgets INITDAT;
        (if (s_type x =? STEXT) || (s_type x =? SLEAF)
         then set_instoffset (s_value x + a_offset a)
         else set_instoffset (s_value x + a_offset a + dat));;
        mret C_LCON
    end
  else mret C_GOK.

Definition aclass_const (a : Adr) : L Z :=
  if a_name a =? D_NONE then set_instoffset (a_offset a);; consize
  else if is_extern (a_name a) then
    match a_sym a with
    | None => mret C_GOK
    | Some y =>
        x ← getsym y;
        let t := s_type x in
        if t =? SCONST then set_instoffset (s_value x + a_offset a);; consize
        else if (t =? STEXT) || (t =? SLEAF) || (t =? SSTRING) then
          set_instoffset (s_value x + a_offset a);; mret C_LCON
        else
          (if is_xref t then undefined_external y else lskip);;
          x ← getsym y;
          set_instoffset (s_value x + a_offset a - BIG);;
          v ← lgets instoffset;
          if (- BIG <=? v) && (v <? BIG) && negb (v =? 0) then mret C_SECON
          else
            dat ← lgets INITDAT;
            set_instoffset (s_value x + a_offset a + dat);;
            mret C_LCON
    end
  else if a_name a =? D_AUTO then auto_class a 0 C_SACON C_LACON
  else if a_name a =? D_PARAM then auto_class a 4 C_SACON C_LACON
  else mret C_GOK.

Definition aclass (a : Adr) : L Z :=
  let t := a_type a in
  if t =? D_NONE then mret C_NONE
  else if t =? D_REG then mret C_REG
  else if t =? D_FREG then mret C_FREG
  else if t =? D_FCREG then mret C_FCREG
  else if t =? D_MREG then mret C_MREG
  else if t =? D_OREG then aclass_oreg a
  else if t =? D_HI then mret C_LO
  else if t =? D_LO then mret C_HI
  else if t =? D_OCONST then aclass_oconst a
  else if t =? D_CONST then aclass_const a
  else if t =? D_BRANCH then mret C_SBRA
  else mret C_GOK.

Definition regoff (a : Adr) : L Z :=
  set_instoffset 0;;
  aclass a;;
  lgets instoffset.

(** ** The tables *)

Definition cmp (a b : Z) : bool :=
  if a =? b then true
  else if a =? C_LCON then
    (b =? C_ZCON) || (b =? C_SCON) || (b =? C_UCON) || (b =? C_ADDCON) || (b =? C_ANDCON)
  else if a =? C_ADD0CON then (b =? C_ADDCON) || (b =? C_ZCON) || (b =? C_SCON)
  else if a =? C_ADDCON then (b =? C_ZCON) || (b =? C_SCON)
  else if a =? C_AND0CON then (b =? C_ANDCON) || (b =? C_ZCON) || (b =? C_SCON)
  else if a =? C_ANDCON then (b =? C_ZCON) || (b =? C_SCON)
  else if a =? C_UCON then b =? C_ZCON
  else if a =? C_SCON then b =? C_ZCON
  else if a =? C_LACON then b =? C_SACON
  else if a =? C_LBRA then b =? C_SBRA
  else if a =? C_LEXT then b =? C_SEXT
  else if a =? C_LAUTO then b =? C_SAUTO
  else if a =? C_REG then b =? C_ZCON
  else if a =? C_LOREG then (b =? C_ZOREG) || (b =? C_SOREG)
  else if a =? C_SOREG then b =? C_ZOREG
  else false.

Definition ocmp (p1 p2 : Optab) : Z :=
  let n := o_as p1 - o_as p2 in
  if negb (n =? 0) then n else
  let n := o_a1 p1 - o_a1 p2 in
  if negb (n =? 0) then n else
  let n := o_a2 p1 - o_a2 p2 in
  if negb (n =? 0) then n else
  o_a3 p1 - o_a3 p2.

(** [xcmp[i][n]] at its flat index. *)
Definition xix (i n : Z) : Z := i * 32 + n.
Definition cix (x a1 a2 a3 : Z) : Z := ((x * 32 + a1) * 2 + a2) * 32 + a3.

Definition tlook (m : gmap Z Z) (k : Z) : Z := default 0 (m !! k).

Definition zseq (n : nat) : list Z := seqZ 0 (Z.of_nat n).

(** [for(i...) for(n...) xcmp[i][n] = cmp(n, i)] *)
Definition build_xcmp : gmap Z Z :=
  foldl (fun m i => foldl (fun m n => <[xix i n := Z.b2z (cmp n i)]> m) m (zseq 32)) ∅ (zseq 32).

(** The [for(a1...)] loop of [buildrep] for entry [n], which is [o]. *)
Definition buildrep_row (xc : gmap Z Z) (x a2 n : Z) (o : Optab) (m : gmap Z Z) : gmap Z Z :=
  foldl (fun m a1 =>
    if tlook xc (xix a1 (o_a1 o)) =? 0 then m
    else foldl (fun m a3 =>
      if tlook xc (xix a3 (o_a3 o)) =? 0 then m
      else <[cix x a1 a2 a3 := u8 n]> m) m (zseq 32)) m (zseq 32).

Definition buildrep_entry (xc : gmap Z Z) (x n : Z) (o : Optab) (m : gmap Z Z) : gmap Z Z :=
  foldl (fun m a2 =>
    if negb (a2 =? 0) then
      if o_a2 o =? C_NONE then m else buildrep_row xc x a2 n o m
    else
      if negb (o_a2 o =? C_NONE) then m else buildrep_row xc x a2 n o m) m (zseq 2).

(** [for(o=e-1; o>=s; o--)]: the entries are taken from the last to the first. *)
Fixpoint buildrep_loop (tab : list Optab) (xc : gmap Z Z) (x s : Z) (k : nat)
    (m : gmap Z Z) : gmap Z Z :=
  match k with
  | O => m
  | S k' =>
      let n := s + Z.of_nat k' in
      buildrep_loop tab xc x s k'
        (match tab !! Z.to_nat n with Some o => buildrep_entry xc x n o m | None => m end)
  end.

Definition buildrep (x as_ : Z) (T : Tables) : Tables :=
  match t_start T !! as_, t_stop T !! as_ with
  | Some s, Some e =>
      mkTables (t_optab T) (delete as_ (t_start T)) (t_stop T) (<[as_ := x]> (t_repop T))
        (buildrep_loop (t_optab T) (t_xcmp T) x s (Z.to_nat (e - s)) (t_opcross T)) (t_xcmp T)
  | _, _ => T
  end.

(** [oprange[a] = oprange[r]; repop[a] = x;] *)
Definition copy_range (r x : Z) (T : Tables) (a : Z) : Tables :=
  mkTables (t_optab T) (partial_alter (fun _ => t_start T !! r) a (t_start T))
    (partial_alter (fun _ => t_stop T !! r) a (t_stop T))
    (if x =? 0 then t_repop T else <[a := x]> (t_repop T)) (t_opcross T) (t_xcmp T).

(** The cases of the [switch(r)]: the row of [opcross], 0 where there is none, and the
    opcodes that share the entries of [r]. *)
Definition op_group (r : Z) : option (Z * list Z) :=
  switch r
    [ (AABSF, (0, [AMOVFD; AMOVDF; AMOVWF; AMOVFW; AMOVWD; AMOVDW; ANEGF; ANEGD; AABSD]));
      (AADD, (1, [ASGT; ASGTU; AADDU; AADDVU]));
      (AADDF, (0, [ADIVF; ADIVD; AMULF; AMULD; ASUBF; ASUBD; AADDD]));
      (AAND, (2, [AXOR; AOR]));
      (ABEQ, (0, [ABNE]));
      (ABLEZ, (0, [ABGEZ; ABGEZAL; ABLTZ; ABLTZAL; ABGTZ]));
      (AMOVB, (3, [AMOVH]));
      (AMOVBU, (4, [AMOVHU]));
      (AMUL, (0, [AREM; AREMU; ADIVU; AMULU; ADIV; ADIVVU; ADIVV]));
      (ASLL, (0, [ASRL; ASRA; ASLLV; ASRAV; ASRLV]));
      (ASUB, (0, [ASUBU; ANOR]));
      (ASYSCALL, (0, [ATLBP; ATLBR; ATLBWI; ATLBWR; ASYNC]));
      (ACMPEQF, (0, [ACMPGTF; ACMPGTD; ACMPGEF; ACMPGED; ACMPEQD]));
      (ABFPT, (0, [ABFPF]));
      (AMOVWL, (0, [AMOVWR; AMOVVR; AMOVVL]));
      (AMOVW, (5, [])); (AMOVD, (6, [])); (AMOVF, (7, [])); (AMOVV, (8, []));
      (ALL, (0, [])); (ASC, (0, [])); (ABREAK, (0, [])); (AWORD, (0, [])); (ARFE, (0, []));
      (AJAL, (0, [])); (AJMP, (0, [])); (ATEXT, (0, [])); (ACASE, (0, []));
      (ABCASE, (0, [])) ].

(** How many entries of [l] from its head on have opcode [r]. *)
Fixpoint same_as (r : Z) (l : list Optab) : nat :=
  match l with
  | o :: l' => if o_as o =? r then S (same_as r l') else O
  | [] => O
  end.

(** The second loop of [buildop], from entry [i] on; [None] for an unknown opcode. *)
Fixpoint buildop_loop (fuel : nat) (i : nat) (T : Tables) : option Tables :=
  match fuel with
  | O => None
  | S f =>
      match drop i (t_optab T) with
      | [] => Some T
      | o :: _ =>
          let r := o_as o in
          let k := same_as r (drop i (t_optab T)) in
          let T := mkTables (t_optab T) (<[r := Z.of_nat i]> (t_start T))
                     (<[r := Z.of_nat (i + k)]> (t_stop T)) (t_repop T) (t_opcross T)
                     (t_xcmp T) in
          match op_group r with
          | None => None
          | Some (x, l) =>
              let T := if x =? 0 then T else buildrep x r T in
              buildop_loop f (i + k)%nat (foldl (copy_range r x) T l)
          end
      end
  end.

Definition buildop : option Tables :=
  tab ← qsort ocmp optab;
  buildop_loop (S (length tab)) 0 (mkTables tab ∅ ∅ ∅ ∅ build_xcmp).

(** ** The search of the table *)

(** [optab+k] *)
Definition opt_at (k : Z) : L Optab := fun s =>
  match t_optab (tabs s) !! Z.to_nat k with Some o => LOk o s | None => LFault end.

Definition set_optab (p k : Z) : L unit := updp p (pset_optab (u8 (k + 1))).

(** The first of the [n] entries from [k] on that takes operands of these classes. *)
Fixpoint oscan (T : Tables) (a1 a2 a3 : Z) (n : nat) (k : Z) : option Z :=
  match n with
  | O => None
  | S n' =>
      match t_optab T !! Z.to_nat k with
      | Some o =>
          if (o_a2 o =? a2) && negb (tlook (t_xcmp T) (xix a1 (o_a1 o)) =? 0)
             && negb (tlook (t_xcmp T) (xix a3 (o_a3 o)) =? 0)
          then Some k else oscan T a1 a2 a3 n' (k + 1)
      | None => None
      end
  end.

(** What the tables give for an opcode and three classes. *)
Definition ofind (T : Tables) (r a1 a2 a3 : Z) : option Z :=
  match t_start T !! r with
  | None =>
      let k := tlook (t_opcross T) (cix (tlook (t_repop T) r) a1 a2 a3) in
      if k =? 0 then None else Some k
  | Some s => oscan T a1 a2 a3 (Z.to_nat (tlook (t_stop T) r - s)) s
  end.

(** [a1 = p->from.class; if(a1 == 0) { a1 = aclass(&p->from) + 1; p->from.class = a1; }] *)
Definition class_from (pid : Z) : L Z :=
  p ← getp pid;
  if a_class (from p) =? 0 then
    c ← aclass (from p);
    updp pid (fun p => pset_from (aset_class (s8 (c + 1)) (from p)) p);;
    mret c
  else mret (a_class (from p) - 1).

Definition class_to (pid : Z) : L Z :=
  p ← getp pid;
  if a_class (to p) =? 0 then
    c ← aclass (to p);
    updp pid (fun p => pset_to (aset_class (s8 (c + 1)) (to p)) p);;
    mret c
  else mret (a_class (to p) - 1).

Definition oplook (pid : Z) : L Optab :=
  p ← getp pid;
  if negb (p_optab p =? 0) then opt_at (p_optab p - 1)
  else
    a1 ← class_from pid;
    a3 ← class_to pid;
    let a2 := if p_reg p =? NREG then C_NONE else C_REG in
    T ← lgets tabs;
    match ofind T (p_as p) a1 a2 a3 with
    | Some k => set_optab pid k;; opt_at k
    | None =>
        let a1 := match t_start T !! p_as p with None => 0 | Some _ => a1 end in
        diag "illegal combination %A %d %d %d" [p_as p; a1; a2; a3];;
        set_optab pid 0;; opt_at 0
    end.

(** ** Addresses *)

(** [rnd] of [pass.c]. *)
Definition rnd (v r : Z) : Z :=
  if r <=? 0 then v
  else
    let v := s32 (v + r - 1) in
    let c := Z.rem v r in
    let c := if c <? 0 then c + r else c in
    s32 (v - c).

Definition is_branch (a : Z) : bool :=
  bool_decide (a ∈ [ABGEZAL; ABLTZAL; AJAL; ABEQ; ABGEZ; ABGTZ; ABLEZ; ABLTZ; ABNE; ABFPT;
                    ABFPF; AJMP]).

(** The operand [R0]. *)
Definition areg0 : Adr := mkAdr 0 None D_REG REGZERO D_NONE 0.

Definition pagebug (pid : Z) : L unit :=
  p ← getp pid;
  if is_branch (p_as p) then
    q ← prg;
    updp q (fun _ => p);;
    updp pid (fun p => pset_to areg0 (pset_from areg0
                         (pset_optab 0 (pset_as ANOR (pset_link (Some q) p)))))
  else lskip.

(** [addnop] of [noop.c]. *)
Definition addnop (pid : Z) : L unit :=
  q ← prg;
  p ← getp pid;
  updp q (fun z => pset_link (link p) (pset_to areg0 (pset_from areg0
                     (pset_line (p_line p) (pset_as ANOR z)))));;
  updp pid (pset_link (Some q)).

(** What both passes do with a [TEXT]. *)
Definition span_text (pid c : Z) : L unit :=
  p ← getp pid;
  lmodify (lset_curtext (Some pid));;
  lmodify (lset_autosize (s32 (a_offset (to p) + 4)));;
  match a_sym (from p) with Some y => updsym y (sset_value c) | None => lskip end.

(** [if((c&(0x1000-1)) == 0xffc) pagebug(p); p->pc = c; o = oplook(p);] *)
Definition span_visit (pid c : Z) : L Optab :=
  (if Z.land c 0xfff =? 0xffc then pagebug pid else lskip);;
  updp pid (pset_pc c);;
  oplook pid.

Fixpoint span_pass1 (fuel : nat) (p : option Z) (c otxt : Z) (bflag : bool) : L (Z * bool) :=
  match fuel with
  | O => ldiverge
  | S f =>
      match p with
      | None => mret (c, bflag)
      | Some pid =>
          o ← span_visit pid c;
          p ← getp pid;
          if o_size o =? 0 then
            if p_as p =? ATEXT then
              span_text pid c;;
              span_pass1 f (link p) c c (bflag || (2 ^ 17 <=? s32 (c - otxt)))
            else
              diag "zero-width instruction\n%P" [pid];;
              span_pass1 f (link p) c otxt bflag
          else span_pass1 f (link p) (s32 (c + o_size o)) otxt bflag
      end
  end.

(** The replacement of a branch that does not reach: [bcc L; D] becomes
    [bcc 1; nop; jmp 2; nop; 1: jmp L; 2: D]. *)
Definition span_expand (pid : Z) : L unit :=
  q ← prg;
  p ← getp pid;
  updp q (fun z => pset_cond (cond p) (pset_to (mkAdr 0 None D_BRANCH NREG D_NONE 0)
                     (pset_as AJMP (pset_link (link p) z))));;
  updp pid (fun p => pset_cond (Some q) (pset_link (Some q) p));;
  q2 ← prg;
  p ← getp pid;
  q1 ← getp q;
  updp q2 (fun z => pset_cond (link q1) (pset_to (mkAdr 0 None D_BRANCH NREG D_NONE 0)
                      (pset_as AJMP (pset_link (link p) z))));;
  updp pid (pset_link (Some q2));;
  addnop q2;;
  addnop pid.

(** [o->type == 6 && p->cond] and the distance test. *)
Definition span_far (o : Optab) (pid c : Z) : L bool :=
  p ← getp pid;
  match (if o_type o =? 6 then cond p else None) with
  | None => mret false
  | Some t =>
      q ← getp t;
      let d := s32 (p_pc q - c) in
      let d := if d <? 0 then s32 (- d) else d in
      mret (2 ^ 17 - 10 <=? d)
  end.

Fixpoint span_pass2 (fuel : nat) (p : option Z) (c : Z) (bflag : bool) : L (Z * bool) :=
  match fuel with
  | O => ldiverge
  | S f =>
      match p with
      | None => mret (c, bflag)
      | Some pid =>
          o ← span_visit pid c;
          far ← span_far o pid c;
          (if (far : bool) then span_expand pid else lskip);;
          let bflag := bflag || far in
          p ← getp pid;
          if o_size o =? 0 then
            (if p_as p =? ATEXT then span_text pid c
             else diag "zero-width instruction\n%P" [pid]);;
            span_pass2 f (link p) c bflag
          else span_pass2 f (link p) (s32 (c + o_size o)) bflag
      end
  end.

(** [while(bflag)]: the passes that put branches around jumps. *)
Fixpoint span_passes (rounds fuel : nat) (c : Z) (bflag : bool) : L Z :=
  if bflag then
    match rounds with
    | O => ldiverge
    | S r =>
        first ← lgets firstp;
        c ← lgets INITTEXT;
        '(c, b) ← span_pass2 fuel first c false;
        span_passes r fuel c b
    end
  else mret c.

(** [if(debug['t'])]: the strings of one chain of [hash], then of all of them. *)
Fixpoint span_strings (l : list Z) (c : Z) : L Z :=
  match l with
  | [] => mret c
  | y :: l' =>
      x ← getsym y;
      if s_type x =? SSTRING then
        let v := s32 (Z.land (s_value x + 3) (Z.lnot 3)) in
        updsym y (sset_value c);;
        span_strings l' (s32 (c + v))
      else span_strings l' c
  end.

Definition etext_name : list Z := [101; 116; 101; 120; 116].

Definition span (rounds fuel : nat) : L unit :=
  first ← lgets firstp;
  c ← lgets INITTEXT;
  '(c, bflag) ← span_pass1 fuel first c c false;
  c ← span_passes rounds fuel c bflag;
  dt ← lgets debug_t;
  c ← (if (dt : bool) then
         ch ← lgets (fun s => concat (map (fun h => chain h s) (seqZ 0 NHASH)));
         span_strings ch (rnd c 8)
       else mret c);
  let c := rnd c 8 in
  y ← lookup etext_name 0;
  updsym y (sset_value c);;
  lmodify (fun s => lset_textsize (s32 (c - INITTEXT s)) s);;
  rn ← lgets INITRND;
  if rn =? 0 then lskip else lmodify (fun s => lset_INITDAT (rnd c (INITRND s)) s).
