(* ===== verification/VlAsm.v ===== *)
(** [asm.c]: the encodings of the MIPS linker ([oprrr], [opirr] and the [OP_] macros),
    [asmout], which makes the words of an instruction, the output buffer, and the text
    loop of [asmb]. *)
From S2P Require Import Prelude CInt VlObj VlOptab VlSpan.

(** ** Fields of an instruction word *)

Definition OP_RRR (op r1 r2 r3 : Z) : Z :=
  Z.lor (Z.lor (Z.lor op (Z.shiftl (Z.land r1 31) 16)) (Z.shiftl (Z.land r2 31) 21))
        (Z.shiftl (Z.land r3 31) 11).
Definition OP_IRR (op i r2 r3 : Z) : Z :=
  Z.lor (Z.lor (Z.lor op (Z.land i 0xffff)) (Z.shiftl (Z.land r2 31) 21))
        (Z.shiftl (Z.land r3 31) 16).
Definition OP_SRR (op s r2 r3 : Z) : Z :=
  Z.lor (Z.lor (Z.lor op (Z.shiftl (Z.land s 31) 6)) (Z.shiftl (Z.land r2 31) 16))
        (Z.shiftl (Z.land r3 31) 11).
Definition OP_FRRR (op r1 r2 r3 : Z) : Z :=
  Z.lor (Z.lor (Z.lor op (Z.shiftl (Z.land r1 31) 16)) (Z.shiftl (Z.land r2 31) 11))
        (Z.shiftl (Z.land r3 31) 6).
Definition OP_JMP (op i : Z) : Z := Z.lor op (Z.land i 0x3ffffff).

Definition OP (x y : Z) : Z := Z.lor (Z.shiftl x 3) (Z.shiftl y 0).
Definition SP (x y : Z) : Z := s32 (Z.lor (Z.shiftl x 29) (Z.shiftl y 26)).
Definition BCOND (x y : Z) : Z := Z.lor (Z.shiftl x 19) (Z.shiftl y 16).
Definition FPX (k x y : Z) : Z :=
  Z.lor (Z.lor (Z.lor (SP 2 1) (Z.shiftl k 21)) (Z.shiftl x 3)) (Z.shiftl y 0).
Definition MMU (x y : Z) : Z :=
  Z.lor (Z.lor (Z.lor (SP 2 0) (Z.shiftl 16 21)) (Z.shiftl x 3)) (Z.shiftl y 0).
Definition FPF : Z -> Z -> Z := FPX 16.
Definition FPD : Z -> Z -> Z := FPX 17.
Definition FPW : Z -> Z -> Z := FPX 20.

(** ** Opcodes *)

Definition oprrr_tab : list (Z * Z) :=
  [ (AADD, OP 4 0); (AADDU, OP 4 1); (ASGT, OP 5 2); (ASGTU, OP 5 3); (AAND, OP 4 4);
    (AOR, OP 4 5); (AXOR, OP 4 6); (ASUB, OP 4 2); (ASUBU, OP 4 3); (ANOR, OP 4 7);
    (ASLL, OP 0 4); (ASRL, OP 0 6); (ASRA, OP 0 7);
    (AREM, OP 3 2); (ADIV, OP 3 2); (AREMU, OP 3 3); (ADIVU, OP 3 3); (AMUL, OP 3 0);
    (AMULU, OP 3 1);
    (AJMP, OP 1 0); (AJAL, OP 1 1);
    (ABREAK, OP 1 5); (ASYSCALL, OP 1 4); (ASYNC, OP 1 7);
    (ATLBP, MMU 1 0); (ATLBR, MMU 0 1); (ATLBWI, MMU 0 2); (ATLBWR, MMU 0 6);
    (ARFE, MMU 2 0);
    (ADIVF, FPF 0 3); (ADIVD, FPD 0 3); (AMULF, FPF 0 2); (AMULD, FPD 0 2);
    (ASUBF, FPF 0 1); (ASUBD, FPD 0 1); (AADDF, FPF 0 0); (AADDD, FPD 0 0);
    (AMOVFW, FPF 4 4); (AMOVDW, FPD 4 4); (AMOVWF, FPW 4 0); (AMOVDF, FPD 4 0);
    (AMOVWD, FPW 4 1); (AMOVFD, FPF 4 1); (AABSF, FPF 0 5); (AABSD, FPD 0 5);
    (AMOVF, FPF 0 6); (AMOVD, FPD 0 6); (ANEGF, FPF 0 7); (ANEGD, FPD 0 7);
    (ACMPEQF, FPF 6 2); (ACMPEQD, FPD 6 2); (ACMPGTF, FPF 7 4); (ACMPGTD, FPD 7 4);
    (ACMPGEF, FPF 7 6); (ACMPGED, FPD 7 6);
    (ADIVV, OP 3 6); (ADIVVU, OP 3 7); (AADDV, OP 5 4); (AADDVU, OP 5 5) ].

Definition oprrr (a : Z) : L Z :=
  match switch a oprrr_tab with
  | Some v => mret v
  | None => diag "bad rrr %d" [a];; mret 0
  end.

Definition opirr_tab : list (Z * Z) :=
  [ (AADD, SP 1 0); (AADDU, SP 1 1); (ASGT, SP 1 2); (ASGTU, SP 1 3); (AAND, SP 1 4);
    (AOR, SP 1 5); (AXOR, SP 1 6); (ALAST, SP 1 7); (ASLL, OP 0 0); (ASRL, OP 0 2);
    (ASRA, OP 0 3);
    (AJMP, SP 0 2); (AJAL, SP 0 3); (ABEQ, SP 0 4); (ABNE, SP 0 5);
    (ABGEZ, Z.lor (SP 0 1) (BCOND 0 1)); (ABGEZAL, Z.lor (SP 0 1) (BCOND 2 1));
    (ABGTZ, SP 0 7); (ABLEZ, SP 0 6);
    (ABLTZ, Z.lor (SP 0 1) (BCOND 0 0)); (ABLTZAL, Z.lor (SP 0 1) (BCOND 2 0));
    (ABFPT, Z.lor (SP 2 1) (Z.shiftl 257 16)); (ABFPF, Z.lor (SP 2 1) (Z.shiftl 256 16));
    (AMOVB, SP 5 0); (AMOVBU, SP 5 0); (AMOVH, SP 5 1); (AMOVHU, SP 5 1); (AMOVW, SP 5 3);
    (AMOVV, SP 7 7); (AMOVF, SP 7 1); (AMOVWL, SP 5 2); (AMOVWR, SP 5 6); (AMOVVL, SP 5 4);
    (AMOVVR, SP 5 5);
    (ABREAK, SP 5 7);
    (AMOVWL + ALAST, SP 4 2); (AMOVWR + ALAST, SP 4 6); (AMOVVL + ALAST, SP 3 2);
    (AMOVVR + ALAST, SP 3 3); (AMOVB + ALAST, SP 4 0); (AMOVBU + ALAST, SP 4 4);
    (AMOVH + ALAST, SP 4 1); (AMOVHU + ALAST, SP 4 5); (AMOVW + ALAST, SP 4 3);
    (AMOVV + ALAST, SP 6 7); (AMOVF + ALAST, SP 6 1);
    (ASLLV, OP 7 0); (ASRLV, OP 7 2); (ASRAV, OP 7 3);
    (ASLLV + ALAST, OP 7 4); (ASRLV + ALAST, OP 7 6); (ASRAV + ALAST, OP 7 7);
    (AADDV, SP 3 0); (AADDVU, SP 3 1);
    (ALL, SP 6 0); (ASC, SP 7 0) ].

(** An unknown opcode ends in [abort()]. *)
Definition opirr (a : Z) : L Z :=
  match switch a opirr_tab with
  | Some v => mret v
  | None => diag "bad irr %d" [a];; lexit
  end.

Definition vshift (a : Z) : bool := (a =? ASLLV) || (a =? ASRLV) || (a =? ASRAV).

Definition isnop (p : Prog) : bool :=
  if negb (p_as p =? ANOR) then false
  else if negb (p_reg p =? REGZERO) && negb (p_reg p =? NREG) then false
  else if negb (a_type (from p) =? D_REG) || negb (a_reg (from p) =? REGZERO) then false
  else if negb (a_type (to p) =? D_REG) || negb (a_reg (to p) =? REGZERO) then false
  else true.

(** ** The output buffer *)

Definition cflush : L unit :=
  lmodify (fun s =>
    lset_cbc MAXIO (lset_cbuf [] (lset_written (written s ++ cbuf s) s))).

(** [cbp[0] = ...; cbp += n; cbc -= n; if(cbc <= 0) cflush();] *)
Definition putbytes (bs : list Z) : L unit :=
  lmodify (fun s => lset_cbc (cbc s - Z.of_nat (length bs)) (lset_cbuf (cbuf s ++ bs) s));;
  n ← lgets cbc;
  if n <=? 0 then cflush else lskip.

Definition be_bytes (c : Z) : list Z :=
  [u8 (Z.shiftr c 24); u8 (Z.shiftr c 16); u8 (Z.shiftr c 8); u8 c].
Definition le_bytes (c : Z) : list Z :=
  [u8 c; u8 (Z.shiftr c 8); u8 (Z.shiftr c 16); u8 (Z.shiftr c 24)].

Definition LBEPUT (c : Z) : L unit := putbytes (be_bytes c).
Definition LLEPUT (c : Z) : L unit := putbytes (le_bytes c).
Definition LPUT (c : Z) : L unit :=
  le ← lgets little; if (le : bool) then LLEPUT c else LBEPUT c.
Definition HPUT (c : Z) : L unit :=
  le ← lgets little;
  putbytes (if (le : bool) then [u8 c; u8 (Z.shiftr c 8)] else [u8 (Z.shiftr c 8); u8 c]).
Definition CPUT (c : Z) : L unit := putbytes [u8 c].

Fixpoint LPUTs (ws : list Z) : L unit :=
  match ws with [] => lskip | w :: ws' => LPUT w;; LPUTs ws' end.

(** ** The words of an instruction *)

Definition or_param (r : Z) (o : Optab) : Z := if r =? NREG then o_param o else r.
Definition or_to (p : Prog) : Z := if p_reg p =? NREG then a_reg (to p) else p_reg p.

(** [if(r == REGTMP) diag("cant synthesize large constant\n%P", p);] *)
Definition no_regtmp (b : bool) (pid : Z) : L unit :=
  if b then diag "cant synthesize large constant\n%P" [pid] else lskip.

(** [o1 = OP_IRR(opirr(ALAST), v>>16, REGZERO, t); o2 = OP_IRR(opirr(AOR), v, t, t);] *)
Definition lui_ori (v t : Z) : L (list Z) :=
  lu ← opirr ALAST;
  or ← opirr AOR;
  mret [s32 (OP_IRR lu (Z.shiftr v 16) REGZERO t); s32 (OP_IRR or v t t)].

(** The same into [REGTMP], then [o3 = OP_RRR(oprrr(AADDU), r, REGTMP, REGTMP)]. *)
Definition far_address (v r : Z) : L (list Z) :=
  ws ← lui_ori v REGTMP;
  ad ← oprrr AADDU;
  mret (ws ++ [s32 (OP_RRR ad r REGTMP REGTMP)]).

(** Cases 1, 2, 9, 12, 13, 16, 20, 21, 22: registers. *)
Definition asm_reg (p : Prog) (o : Optab) : L (list Z) :=
  match o_type o with
  | 1 => op ← oprrr AOR; mret [s32 (OP_RRR op (a_reg (from p)) REGZERO (a_reg (to p)))]
  | 2 => op ← oprrr (p_as p);
         mret [s32 (OP_RRR op (a_reg (from p)) (or_to p) (a_reg (to p)))]
  | 9 => op ← oprrr (p_as p);
         mret [s32 (OP_RRR op (or_to p) (a_reg (from p)) (a_reg (to p)))]
  | 12 =>
      let v := if p_as p =? AMOVB then 24 else 16 in
      sl ← opirr ASLL; sr ← opirr ASRA;
      mret [s32 (OP_SRR sl v (a_reg (from p)) (a_reg (to p)));
            s32 (OP_SRR sr v (a_reg (to p)) (a_reg (to p)))]
  | 13 =>
      an ← opirr AAND;
      mret [s32 (OP_IRR an (if p_as p =? AMOVBU then 0xff else 0xffff)
                   (a_reg (from p)) (a_reg (to p)))]
  | 16 =>
      v ← regoff (from p);
      if (32 <=? v) && vshift (p_as p) then
        op ← opirr (p_as p + ALAST); mret [s32 (OP_SRR op (v - 32) (or_to p) (a_reg (to p)))]
      else
        op ← opirr (p_as p); mret [s32 (OP_SRR op v (or_to p) (a_reg (to p)))]
  | 20 => let r := if a_type (from p) =? D_LO then OP 2 2 else OP 2 0 in
          mret [s32 (OP_RRR r REGZERO REGZERO (a_reg (to p)))]
  | 21 => let r := if a_type (to p) =? D_LO then OP 2 3 else OP 2 1 in
          mret [s32 (OP_RRR r REGZERO (a_reg (from p)) REGZERO)]
  | _ => op ← oprrr (p_as p);
         mret [s32 (OP_RRR op (a_reg (from p)) (p_reg p) REGZERO)]
  end.

(** Cases 3, 4, 10, 19, 23, 24, 25, 26: constants. *)
Definition asm_con (pid : Z) (p : Prog) (o : Optab) : L (list Z) :=
  v ← regoff (from p);
  match o_type o with
  | 3 => op ← opirr (if o_a1 o =? C_ANDCON then AOR else AADDU);
         mret [s32 (OP_IRR op v (or_param (a_reg (from p)) o) (a_reg (to p)))]
  | 4 => op ← opirr (p_as p); mret [s32 (OP_IRR op v (or_to p) (a_reg (to p)))]
  | 10 =>
      op ← opirr (if v <? 0 then AADDU else AOR);
      op2 ← oprrr (p_as p);
      mret [s32 (OP_IRR op v 0 REGTMP); s32 (OP_RRR op2 REGTMP (or_to p) (a_reg (to p)))]
  | 19 => lui_ori v (a_reg (to p))
  | 23 =>
      no_regtmp ((a_reg (to p) =? REGTMP) || (p_reg p =? REGTMP)) pid;;
      ws ← lui_ori v REGTMP;
      op ← oprrr (p_as p);
      mret (ws ++ [s32 (OP_RRR op REGTMP (or_to p) (a_reg (to p)))])
  | 24 => lu ← opirr ALAST;
          mret [s32 (OP_IRR lu (Z.shiftr v 16) REGZERO (a_reg (to p)))]
  | 25 =>
      lu ← opirr ALAST;
      op ← oprrr (p_as p);
      mret [s32 (OP_IRR lu (Z.shiftr v 16) REGZERO REGTMP);
            s32 (OP_RRR op REGTMP (or_to p) (a_reg (to p)))]
  | _ =>
      no_regtmp (a_reg (to p) =? REGTMP) pid;;
      ws ← lui_ori v REGTMP;
      op ← oprrr AADDU;
      mret (ws ++ [s32 (OP_RRR op REGTMP (or_param (a_reg (from p)) o) (a_reg (to p)))])
  end.

(** Cases 7, 8, 35, 36, 47, 48: loads and stores. *)
Definition asm_mem (pid : Z) (p : Prog) (o : Optab) : L (list Z) :=
  match o_type o with
  | 7 | 47 =>
      v ← regoff (to p);
      op ← opirr (p_as p);
      mret [s32 (OP_IRR op v (or_param (a_reg (to p)) o) (a_reg (from p)))]
  | 8 =>
      v ← regoff (from p);
      op ← opirr (p_as p + ALAST);
      mret [s32 (OP_IRR op v (or_param (a_reg (from p)) o) (a_reg (to p)))]
  | 35 =>
      v ← regoff (to p);
      let r := or_param (a_reg (to p)) o in
      no_regtmp (r =? REGTMP) pid;;
      ws ← far_address v r;
      op ← opirr (p_as p);
      mret (ws ++ [s32 (OP_IRR op 0 REGTMP (a_reg (from p)))])
  | 36 =>
      v ← regoff (from p);
      let r := or_param (a_reg (from p)) o in
      no_regtmp (r =? REGTMP) pid;;
      ws ← far_address v r;
      op ← opirr (p_as p + ALAST);
      mret (ws ++ [s32 (OP_IRR op 0 REGTMP (a_reg (to p)))])
  | _ =>
      v ← regoff (from p);
      op ← opirr (p_as p);
      mret [s32 (OP_IRR op v (or_param (a_reg (from p)) o) (a_reg (to p)))]
  end.

(** Cases 27 and 28: a float load ([op] is [lwc1]) or store ([swc1]) of register [fr]; a
    double is two transfers, the high word first. *)
Definition asm_fmem (op v r fr : Z) (size : Z) : L (list Z) :=
  match size with
  | 20 =>
      ws ← far_address v r;
      mret (ws ++ [s32 (OP_IRR op 0 REGTMP (fr + 1)); s32 (OP_IRR op 4 REGTMP fr)])
  | 16 =>
      ws ← far_address v r;
      mret (ws ++ [s32 (OP_IRR op 0 REGTMP fr)])
  | 8 => mret [s32 (OP_IRR op v r (fr + 1)); s32 (OP_IRR op (v + 4) r fr)]
  | 4 => mret [s32 (OP_IRR op v r fr)]
  | _ => mret []
  end.

(** Cases 27, 28 and 30 to 34: floating point. *)
Definition asm_float (pid : Z) (p : Prog) (o : Optab) : L (list Z) :=
  match o_type o with
  | 27 =>
      v ← regoff (from p);
      op ← opirr (AMOVF + ALAST);
      asm_fmem op v (or_param (a_reg (from p)) o) (a_reg (to p)) (o_size o)
  | 28 =>
      let r := or_param (a_reg (to p)) o in
      v ← regoff (to p);
      no_regtmp ((r =? REGTMP) && ((o_size o =? 20) || (o_size o =? 16))) pid;;
      op ← opirr AMOVF;
      asm_fmem op v r (a_reg (from p)) (o_size o)
  | 30 => mret [s32 (OP_RRR (Z.lor (SP 2 1) (Z.shiftl 4 21)) (a_reg (from p)) 0
                       (a_reg (to p)))]
  | 31 => mret [s32 (OP_RRR (Z.lor (SP 2 1) (Z.shiftl 0 21)) (a_reg (to p)) 0
                       (a_reg (from p)))]
  | 32 => op ← oprrr (p_as p);
          mret [s32 (OP_FRRR op (a_reg (from p)) (or_to p) (a_reg (to p)))]
  | 33 => op ← oprrr (p_as p);
          mret [s32 (OP_FRRR op 0 (a_reg (from p)) (a_reg (to p)))]
  | _ =>
      v ← regoff (from p);
      op ← opirr (if o_a1 o =? C_ANDCON then AOR else AADDU);
      mret [s32 (OP_IRR op v 0 REGTMP);
            s32 (OP_RRR (Z.lor (SP 2 1) (Z.shiftl 4 21)) REGTMP 0 (a_reg (to p)))]
  end.

(** Cases 37, 38, 41, 42, 45, 46: coprocessor registers and switches. *)
Definition asm_cop (pid : Z) (p : Prog) (o : Optab) : L (list Z) :=
  match o_type o with
  | 37 => let r := Z.lor (SP 2 0) (Z.shiftl (if p_as p =? AMOVV then 5 else 4) 21) in
          mret [s32 (OP_RRR r (a_reg (from p)) 0 (a_reg (to p)))]
  | 38 => let r := Z.lor (SP 2 0) (Z.shiftl (if p_as p =? AMOVV then 1 else 0) 21) in
          mret [s32 (OP_RRR r (a_reg (to p)) 0 (a_reg (from p)))]
  | 41 => mret [s32 (OP_RRR (Z.lor (SP 2 1) (Z.shiftl 2 21)) REGZERO 0 (a_reg (to p)));
                s32 (OP_RRR (Z.lor (SP 2 1) (Z.shiftl 6 21)) (a_reg (from p)) 0
                       (a_reg (to p)))]
  | 42 => mret [s32 (OP_RRR (Z.lor (SP 2 1) (Z.shiftl 2 21)) (a_reg (to p)) 0
                       (a_reg (from p)))]
  | 45 =>
      v ← (match link p with
           | None => mret (s32 (p_pc p + 28))
           | Some l => q ← getp l; mret (p_pc q)
           end);
      lu ← opirr ALAST;
      let h := if negb (Z.land v (Z.shiftl 1 15) =? 0) then Z.shiftr v 16 + 1
               else Z.shiftr v 16 in
      sl ← opirr ASLL;
      ad ← oprrr AADD;
      lw ← opirr (AMOVW + ALAST);
      nr ← oprrr ANOR;
      jm ← oprrr AJMP;
      mret [s32 (OP_IRR lu h REGZERO REGTMP);
            s32 (OP_SRR sl 2 (a_reg (from p)) (a_reg (from p)));
            s32 (OP_RRR ad (a_reg (from p)) REGTMP REGTMP);
            s32 (OP_IRR lw v REGTMP REGTMP);
            s32 (OP_RRR nr REGZERO REGZERO REGZERO);
            s32 (OP_RRR jm 0 REGTMP REGZERO);
            s32 (OP_RRR nr REGZERO REGZERO REGZERO)]
  | _ =>
      match cond p with
      | None => mret [p_pc p]
      | Some t => q ← getp t; mret [p_pc q]
      end
  end.

(** Cases 5, 6, 18, 39 and 40, which yield nothing for a delay slot ([aflag]). *)
Definition asm_noslot (pid : Z) (p : Prog) (o : Optab) : L (list Z) :=
  match o_type o with
  | 5 => op ← oprrr (p_as p); mret [op]
  | 6 =>
      v ← (match cond p with
           | None => mret (Z.shiftr (-4) 2)
           | Some t => q ← getp t; c ← lgets pc;
                       mret (Z.shiftr (s32 (s32 (p_pc q - c) - 4)) 2)
           end);
      (if Z.shiftr (s32 (Z.shiftl v 16)) 16 =? v then lskip
       else diag "short branch too far: %ld\n%P" [v; pid]);;
      op ← opirr (p_as p);
      mret [s32 (OP_IRR op v (a_reg (from p)) (p_reg p))]
  | 18 =>
      op ← oprrr (p_as p);
      mret [s32 (OP_RRR op 0 (a_reg (to p)) (or_param (p_reg p) o))]
  | 39 =>
      jm ← oprrr AJMP;
      rf ← oprrr (p_as p);
      mret [s32 (OP_RRR jm 0 (a_reg (to p)) REGZERO); rf]
  | _ => v ← regoff (to p); mret [v]
  end.

(** The first part of case 11: the jump itself. *)
Definition asm_jmp (p : Prog) : L Z :=
  v ← (match cond p with
       | None => mret (Z.shiftr (p_pc p) 2)
       | Some t => q ← getp t; mret (Z.shiftr (p_pc q) 2)
       end);
  op ← opirr (p_as p);
  mret (s32 (OP_JMP op v)).

Definition in_types (t : Z) (l : list Z) : bool := existsb (Z.eqb t) l.
Definition noslot_types : list Z := [5; 6; 18; 39; 40].

(** The [switch(o->type)] of [asmout] for the types that only compute words. *)
Definition asm_words (pid : Z) (p : Prog) (o : Optab) : L (list Z) :=
  let t := o_type o in
  if in_types t [1; 2; 9; 12; 13; 16; 20; 21; 22] then asm_reg p o
  else if in_types t [3; 4; 10; 19; 23; 24; 25; 26] then asm_con pid p o
  else if in_types t [7; 8; 35; 36; 47; 48] then asm_mem pid p o
  else if in_types t [27; 28; 30; 31; 32; 33; 34] then asm_float pid p o
  else if in_types t [37; 38; 41; 42; 45; 46] then asm_cop pid p o
  else if in_types t noslot_types then asm_noslot pid p o
  else diag "unknown type %d" [t];; mret [].

(** The [switch(o->size)]: [size/4] of the words [o1] to [o7] are written. *)
Definition words_of (size : Z) (ws : list Z) : list Z :=
  map (fun i => default 0 (ws !! i))
    (seq 0 (if in_types size [4; 8; 12; 16; 20; 28] then Z.to_nat (size / 4) else 0%nat)).

Definition first_word (ws : list Z) : Z := default 0 (ws !! 0%nat).

(** [asmout]: the words of [pid] are written, or with [aflag] its first word returned, zero
    where it cannot go to a delay slot. The result is 1 when the jump took the first
    instruction at its target into its own delay slot and so stands for the nop too. *)
Fixpoint asmout (fuel : nat) (pid : Z) (o : Optab) (aflag : bool) : L Z :=
  match fuel with
  | O => ldiverge
  | S f =>
      p ← getp pid;
      if o_type o =? 0 then
        if aflag then
          match link p with
          | None => mret 0
          | Some l =>
              if p_as p =? ATEXT then
                ct ← lgets curtext;
                sz ← lgets autosize;
                lmodify (lset_curtext (Some pid));;
                lmodify (lset_autosize (s32 (a_offset (to p) + 4)));;
                ol ← oplook l;
                o1 ← asmout f l ol aflag;
                lmodify (lset_curtext ct);;
                lmodify (lset_autosize sz);;
                mret o1
              else ol ← oplook l; asmout f l ol aflag
          end
        else LPUTs (words_of (o_size o) []);; mret 0
      else if o_type o =? 11 then
        if aflag then mret 0
        else
          o1 ← asm_jmp p;
          y ← lgets debug_Y;
          nop ← (match link p with
                 | Some l => q ← getp l; mret (negb y && bool_decide (is_Some (cond p)) && isnop q)
                 | None => mret false
                 end);
          match (if (nop : bool) then cond p else None) with
          | None => LPUTs (words_of (o_size o) [o1]);; mret 0
          | Some t =>
              oc ← oplook t;
              o2 ← asmout f t oc true;
              if negb (o2 =? 0) then LPUT (s32 (o1 + 1));; LPUT o2;; mret 1
              else LPUTs (words_of (o_size o) [o1; o2]);; mret 0
          end
      else if in_types (o_type o) noslot_types && aflag then mret 0
      else
        ws ← asm_words pid p o;
        if aflag then mret (first_word ws)
        else LPUTs (words_of (o_size o) ws);; mret 0
  end.

(** ** The text loop of asmb *)

(** [if(p->pc != pc)]: the addresses of [span] and those of the emission must agree. *)
Definition asmb_phase (p : Prog) : L unit :=
  c ← lgets pc;
  if p_pc p =? c then lskip
  else diag "phase error %lux sb %lux" [p_pc p; c];; lmodify (lset_pc (p_pc p)).

(** The body of the loop for [pid]; the instruction it ends at, whose [link] is next. *)
Definition asmb_body (phase : Prog -> L unit) (fuel : nat) (pid : Z) : L Z :=
  p ← getp pid;
  (if p_as p =? ATEXT then
     lmodify (lset_curtext (Some pid));;
     lmodify (lset_autosize (s32 (a_offset (to p) + 4)))
   else lskip);;
  phase p;;
  lmodify (lset_curp (Some pid));;
  o ← oplook pid;
  r ← asmout fuel pid o false;
  next ← (if r =? 0 then mret pid
          else
            lmodify (fun s => lset_pc (s32 (pc s + 4)) s);;
            p ← getp pid;
            match link p with Some l => mret l | None => lfault end);
  lmodify (fun s => lset_pc (s32 (pc s + o_size o)) s);;
  mret next.

Fixpoint asmb_loop (phase : Prog -> L unit) (fuel : nat) (p : option Z) : L unit :=
  match fuel with
  | O => ldiverge
  | S f =>
      match p with
      | None => lskip
      | Some pid =>
          next ← asmb_body phase f pid;
          q ← getp next;
          asmb_loop phase f (link q)
      end
  end.

Definition asmb_text : nat -> option Z -> L unit := asmb_loop asmb_phase.
