(* ===== verification/Mips.v ===== *)
(** The register instructions of the MIPS I architecture, as its manual defines them on
    32-bit words: the specification the emulator's handlers are compared with. *)
From S2P Require Import Prelude CInt ViMachine.

(** ** Values of the architecture: [0 <= x < 2^32] *)

Definition bool32 (b : bool) : Z := if b then 1 else 0.

(** Opcode 0, by its function field; [rs], [rt] the operands, [sa] the shift amount. Integer
    overflow traps are not part of it: the emulator has none. *)
Definition r_alu (fn rs rt sa : Z) : option Z :=
  match fn with
  | 0x00 => Some (u32 (rt * 2 ^ sa))
  | 0x02 => Some (rt / 2 ^ sa)
  | 0x03 => Some (u32 (s32 rt / 2 ^ sa))
  | 0x04 => Some (u32 (rt * 2 ^ (rs mod 32)))
  | 0x06 => Some (rt / 2 ^ (rs mod 32))
  | 0x07 => Some (u32 (s32 rt / 2 ^ (rs mod 32)))
  | 0x20 | 0x21 => Some (u32 (rs + rt))
  | 0x23 => Some (u32 (rs - rt))
  | 0x24 => Some (Z.land rs rt)
  | 0x25 => Some (Z.lor rs rt)
  | 0x26 => Some (Z.lxor rs rt)
  | 0x27 => Some (2 ^ 32 - 1 - Z.lor rs rt)
  | 0x2a => Some (bool32 (s32 rs <? s32 rt))
  | 0x2b => Some (bool32 (rs <? rt))
  | _ => None
  end.

(** The other opcodes, with the 16-bit immediate [imm]. *)
Definition i_alu (op rs imm : Z) : option Z :=
  match op with
  | 0x08 | 0x09 => Some (u32 (rs + s16 imm))
  | 0x0a => Some (bool32 (s32 rs <? s16 imm))
  | 0x0b => Some (bool32 (rs <? u32 (s16 imm)))
  | 0x0c => Some (Z.land rs imm)
  | 0x0d => Some (Z.lor rs imm)
  | 0x0e => Some (Z.lxor rs imm)
  | 0x0f => Some (imm * 2 ^ 16)
  | _ => None
  end.

(** The destination and value of instruction [w] in a machine with registers [g]. *)
Definition alu (w : Z) (g : Z -> Z) : option (Z * Z) :=
  if Z.shiftr w 26 =? 0 then
    v ← r_alu (Z.land w 0x3f) (g (Getrs w)) (g (Getrt w)) (Getshamt w); Some (Getrd w, v)
  else
    v ← i_alu (Z.shiftr w 26) (g (Getrs w)) (uimm w); Some (Getrt w, v).

(** ** The multiplier: (low word, high word) *)

Definition mult_spec (rs rt : Z) : Z * Z :=
  let p := s32 rs * s32 rt in (u32 p, u32 (p / 2 ^ 32)).
Definition multu_spec (rs rt : Z) : Z * Z := (u32 (rs * rt), rs * rt / 2 ^ 32).
Definition div_spec (rs rt : Z) : Z * Z :=
  (u32 (Z.quot (s32 rs) (s32 rt)), u32 (Z.rem (s32 rs) (s32 rt))).
Definition divu_spec (rs rt : Z) : Z * Z := (rs / rt, rs mod rt).

(** [mult], [multu], [div] and [divu]: what HI and LO hold afterwards. *)
Definition hilo_spec (fn rs rt : Z) : option (Z * Z) :=
  match fn with
  | 0x18 => Some (mult_spec rs rt)
  | 0x19 => Some (multu_spec rs rt)
  | 0x1a => if (rt =? 0) || (Z.quot (s32 rs) (s32 rt) =? 2 ^ 31) then None
            else Some (div_spec rs rt)
  | 0x1b => if rt =? 0 then None else Some (divu_spec rs rt)
  | _ => None
  end.

(** ** Shifts and branches *)

(** The logical shifts to the right. *)
Definition is_srl (w : Z) : bool :=
  (Z.shiftr w 26 =? 0) && ((Z.land w 0x3f =? 2) || (Z.land w 0x3f =? 6)).

(** Whether the conditional branch [w] is taken, as the architecture defines it. *)
Definition branch (w : Z) (g : Z -> Z) : option bool :=
  match Z.shiftr w 26 with
  | 1 => match Getrt w with
         | 0 => Some (s32 (g (Getrs w)) <? 0)
         | 1 => Some (0 <=? s32 (g (Getrs w)))
         | _ => None
         end
  | 4 => Some (g (Getrs w) =? g (Getrt w))
  | 5 => Some (negb (g (Getrs w) =? g (Getrt w)))
  | 6 => Some (s32 (g (Getrs w)) <=? 0)
  | 7 => Some (0 <? s32 (g (Getrs w)))
  | _ => None
  end.
