(* ===== verification/MipsIsa.v ===== *)
(** The MIPS I machine of the specification: registers, a byte-addressed memory and two
    program counters, so that the instruction after a branch is executed before its target. *)
From S2P Require Import Prelude CInt ViMachine ViMem Mips.

Record mips := mkmips {
  m_pc : Z; m_npc : Z; m_r : Z -> Z; m_hi : Z; m_lo : Z; m_mem : Z -> option Z }.

Definition upd (g : Z -> Z) (d v : Z) : Z -> Z := fun i => if i =? d then v else g i.

(** Register 0 reads as zero. *)
Definition m_regs (a : mips) : Z -> Z := upd (m_r a) 0 0.

Definition with_reg (d v : Z) (a : mips) : mips :=
  mkmips (m_pc a) (m_npc a) (upd (m_r a) d v) (m_hi a) (m_lo a) (m_mem a).
Definition with_hilo (lo hi : Z) (a : mips) : mips :=
  mkmips (m_pc a) (m_npc a) (m_r a) hi lo (m_mem a).
Definition with_mem (m : Z -> option Z) (a : mips) : mips :=
  mkmips (m_pc a) (m_npc a) (m_r a) (m_hi a) (m_lo a) m.
Definition with_pcs (pc npc : Z) (a : mips) : mips :=
  mkmips pc npc (m_r a) (m_hi a) (m_lo a) (m_mem a).

(** ** Memory *)

Definition word_at (m : Z -> option Z) (x : Z) : option Z :=
  b0 ← m x; b1 ← m (x + 1); b2 ← m (x + 2); b3 ← m (x + 3); Some (be32 b0 b1 b2 b3).
Definition half_at (m : Z -> option Z) (x : Z) : option Z :=
  b0 ← m x; b1 ← m (x + 1); Some (u16 (Z.lor (Z.shiftl b0 8) b1)).

(** [m] with the bytes [bs] from [x] on. *)
Definition put (m : Z -> option Z) (x : Z) (bs : list Z) : Z -> option Z := fun y =>
  if decide (x <= y < x + Z.of_nat (length bs)) then u8 <$> bs !! Z.to_nat (y - x) else m y.

Definition eaddr (w : Z) (g : Z -> Z) : Z := u32 (g (Getrs w) + simm w).

Definition aligned (x n : Z) : option unit := if x mod n =? 0 then Some tt else None.

(** The register and the value a load changes. *)
Definition load (w : Z) (g : Z -> Z) (m : Z -> option Z) : option (Z * Z) :=
  let x := eaddr w g in
  v ← match Z.shiftr w 26 with
      | 0x20 => (fun b => u32 (s8 b)) <$> m x
      | 0x21 => aligned x 2;; (fun h => u32 (s16 h)) <$> half_at m x
      | 0x23 => aligned x 4;; word_at m x
      | 0x24 => u8 <$> m x
      | 0x25 => aligned x 2;; half_at m x
      | _ => None
      end;
  Some (Getrt w, v).

(** The bytes a store writes. *)
Definition store (w : Z) (g : Z -> Z) (m : Z -> option Z) : option (Z -> option Z) :=
  let x := eaddr w g in let v := g (Getrt w) in
  match Z.shiftr w 26 with
  | 0x28 => m x;; Some (put m x [v])
  | 0x29 => aligned x 2;; half_at m x;; Some (put m x [Z.shiftr v 8; v])
  | 0x2b => aligned x 4;; word_at m x;;
            Some (put m x [Z.shiftr v 24; Z.shiftr v 16; Z.shiftr v 8; v])
  | _ => None
  end.

(** ** Instructions *)

(** The instructions that depend on a 32-bit host, in the emulator: the logical shifts to the
    right, and the multiplier. *)
Definition needs32 (w : Z) : bool :=
  is_srl w || ((Z.shiftr w 26 =? 0) && (0x18 <=? Z.land w 0x3f) && (Z.land w 0x3f <=? 0x1b)).

(** [mfhi] and [mflo], with the field of the second operand zero. *)
Definition from_hilo (w : Z) (a : mips) : option (Z * Z) :=
  if (Z.shiftr w 26 =? 0) && (Getrt w =? 0) then
    match Z.land w 0x3f with
    | 0x10 => Some (Getrd w, u32 (m_hi a))
    | 0x12 => Some (Getrd w, u32 (m_lo a))
    | _ => None
    end
  else None.

(** An instruction that does not change the flow of control. *)
Definition simple (w : Z) (a : mips) : option mips :=
  let g := m_regs a in
  match alu w g, load w g (m_mem a), from_hilo w a, store w g (m_mem a) with
  | Some (d, v), _, _, _ | _, Some (d, v), _, _ | _, _, Some (d, v), _ =>
      Some (with_reg d (u32 v) a)
  | _, _, _, Some m => Some (with_mem m a)
  | _, _, _, _ =>
      if Z.shiftr w 26 =? 0 then
        '(lo, hi) ← hilo_spec (Z.land w 0x3f) (g (Getrs w)) (g (Getrt w));
        Some (with_hilo lo hi a)
      else None
  end.

(** The target of a jump, and the register that gets the return address. *)
Inductive control := NoJump | Jump (target : Z) (link : option Z) | NotTaken.

Definition jump_target (pc w : Z) : Z :=
  Z.lor (Z.land (pc + 4) 0xf0000000) (Z.shiftl (Z.land w 0x3ffffff) 2).

Definition control_of (w : Z) (a : mips) : control :=
  let g := m_regs a in
  match branch w g with
  | Some true => Jump (m_pc a + 4 + 4 * simm w) None
  | Some false => NotTaken
  | None =>
      match Z.shiftr w 26 with
      | 2 => Jump (jump_target (m_pc a) w) None
      | 3 => Jump (jump_target (m_pc a) w) (Some 31)
      | 0 => match Z.land w 0x3f with
             | 8 => Jump (g (Getrs w)) None
             | 9 => Jump (g (Getrs w)) (Some (Getrd w))
             | _ => NoJump
             end
      | _ => NoJump
      end
  end.

Definition linked (r : option Z) (a : mips) : mips :=
  match r with Some d => with_reg d (u32 (m_pc a + 8)) a | None => a end.

Definition fetch (a : mips) : option Z := aligned (m_pc a) 4;; word_at (m_mem a) (m_pc a).

(** One instruction: [pc] advances to [npc]; a jump makes its target the next [npc]. *)
Definition step (a : mips) : option mips :=
  w ← fetch a;
  let next := u32 (m_npc a + 4) in
  match control_of w a with
  | Jump t r => Some (with_pcs (m_npc a) t (linked r a))
  | NotTaken => Some (with_pcs (m_npc a) next a)
  | NoJump => a1 ← simple w a; Some (with_pcs (m_npc a) next a1)
  end.

Fixpoint steps (n : nat) (a : mips) : option mips :=
  match n with O => Some a | S k => a1 ← step a; steps k a1 end.

Lemma steps_add n k a : steps (n + k) a = (a1 ← steps n a; steps k a1).
Proof.
  revert a. induction n as [|n IH]; intros a; [done|]. cbn [steps Nat.add].
  destruct (step a) as [a1|]; [apply IH|done].
Qed.
