(* ===== verification/ViSim.v ===== *)
(** What one instruction of the emulator computes: states up to statistics, the dispatch of
    [Iexec], and the common shapes of the handlers. *)
From S2P Require Import Prelude CInt ViMachine ViMem ViMemSpec ViArith ViSpecial ViFloat ViRun ViInv Mips.

(** ** States up to the bookkeeping of the emulator *)

(** The state without the row of the current instruction, the statistics, the instruction
    register and the profile. *)
Definition forget (s : vi) : vi :=
  set_ip 0 (set_ir 0 (set_istat ∅ (set_nopcount 0 (set_iprof ∅ s)))).

Definition sim (s t : vi) : Prop := forget s = forget t.

#[export] Instance sim_equiv : Equivalence sim.
Proof. unfold sim. split; [by intros ?|by intros ???|by intros ? y ? ->]. Qed.

Lemma sim_set_ip k s : sim (set_ip k s) s.
Proof. done. Qed.
Lemma sim_set_ir k s : sim (set_ir k s) s.
Proof. done. Qed.
Lemma sim_set_istat i s : sim (set_istat i s) s.
Proof. done. Qed.
Lemma sim_set_nopcount n s : sim (set_nopcount n s) s.
Proof. done. Qed.

Ltac sim_proper :=
  intros s t H; unfold sim, forget in *; destruct s as [[]], t as [[]]; cbn in *;
  injection H as; subst; reflexivity.

#[export] Instance set_r_sim v : Proper (sim ==> sim) (set_r v).
Proof. sim_proper. Qed.
#[export] Instance set_pc_sim v : Proper (sim ==> sim) (set_pc v).
Proof. sim_proper. Qed.
#[export] Instance set_mhi_sim v : Proper (sim ==> sim) (set_mhi v).
Proof. sim_proper. Qed.
#[export] Instance set_mlo_sim v : Proper (sim ==> sim) (set_mlo v).
Proof. sim_proper. Qed.
#[export] Instance reg_r_sim : Proper (sim ==> eq) (fun s => reg_r (reg s)).
Proof. sim_proper. Qed.
#[export] Instance reg_pc_sim : Proper (sim ==> eq) (fun s => reg_pc (reg s)).
Proof. sim_proper. Qed.
#[export] Instance trace_sim : Proper (sim ==> eq) trace.
Proof. sim_proper. Qed.
#[export] Instance memory_sim : Proper (sim ==> eq) memory.
Proof. sim_proper. Qed.

(** Register [i] as a word of the architecture. *)
Definition gpr (s : vi) (i : Z) : Z := u32 (default 0 (reg_r (reg s) !! Z.to_nat i)).

(** [s] with register [d] changed to the word [v]. *)
Definition set_gpr (d v : Z) (s : vi) : vi :=
  set_r (<[Z.to_nat d := s32 v]> (reg_r (reg s))) s.

#[export] Instance set_gpr_sim d v : Proper (sim ==> sim) (set_gpr d v).
Proof. sim_proper. Qed.
#[export] Instance gpr_sim : Proper (sim ==> eq ==> eq) gpr.
Proof. intros s t H i ? <-. unfold gpr. by rewrite (reg_r_sim s t H). Qed.

(** ** Decoded fields *)

Lemma field_range w k : 0 <= Z.land (Z.shiftr w k) 0x1f < 32.
Proof. change 0x1f with (Z.ones 5). rewrite Z.land_ones by lia. by apply Z.mod_pos_bound. Qed.

Lemma Getrs_range w : 0 <= Getrs w < 32.
Proof. apply field_range. Qed.
Lemma Getrt_range w : 0 <= Getrt w < 32.
Proof. apply field_range. Qed.
Lemma Getrd_range w : 0 <= Getrd w < 32.
Proof. apply field_range. Qed.
Lemma Getshamt_range w : 0 <= Getshamt w < 32.
Proof. apply field_range. Qed.
Lemma Getfd_range w : 0 <= Getfd w < 32.
Proof. apply field_range. Qed.
Create HintDb vi.
#[export] Hint Resolve Getrs_range Getrt_range Getrd_range Getshamt_range Getfd_range : vi.

Section Sim.
Context {E : ViEnv}.

(** ** Register access *)

Definition regfile (s : vi) : Prop :=
  length (reg_r (reg s)) = 32%nat /\ Forall (in_s 32) (reg_r (reg s)).

Lemma wf_regfile s : wf s -> regfile s.
Proof. intros [_ []]. done. Qed.

Lemma regfile_sim s t : sim s t -> regfile t -> regfile s.
Proof. intros H. unfold regfile. by rewrite (reg_r_sim s t H). Qed.

Lemma regfile_set_gpr d v s : regfile s -> regfile (set_gpr d v s).
Proof.
  intros [Hl Hv]. split; cbn; [by rewrite length_insert|].
  apply Forall_insert; [done|]. by apply wraps_range.
Qed.

(** Register [i] holds the signed reading of its word. *)
Lemma rget_run i s :
  regfile s -> 0 <= i < 32 -> rget i s = Ok (s32 (gpr s i)) s.
Proof.
  intros [Hl Hv] Hi. unfold rget, gpr.
  destruct (lookup_lt_is_Some_2 (reg_r (reg s)) (Z.to_nat i)) as [v Hr]; [lia|].
  rewrite Hr. simpl. f_equal. symmetry. unfold s32, u32. rewrite wraps_wrapu by lia.
  apply wraps_id; [lia|]. by eapply Forall_lookup_1.
Qed.

Lemma rset_run i v s : regfile s -> 0 <= i < 32 -> rset i v s = Ok tt (set_gpr i v s).
Proof.
  intros [Hl Hv] Hi. unfold rset. rewrite (proj2 (Z.ltb_lt _ _)) by lia. done.
Qed.

Lemma gpr_range s i : 0 <= gpr s i < 2 ^ 32.
Proof. by apply wrapu_range. Qed.

Lemma tracing_off m s : trace s = false -> tracing m s = Ok tt s.
Proof. intros H. unfold tracing. by rewrite H. Qed.

(** The shape of the handlers with two source registers. *)
Lemma binop_run m a b d (f : Z -> Z -> Z) s :
  regfile s -> trace s = false -> 0 <= a < 32 -> 0 <= b < 32 -> 0 <= d < 32 ->
  (tracing m;; v ← rget a; t ← rget b; rset d (f v t)) s =
    Ok tt (set_gpr d (f (s32 (gpr s a)) (s32 (gpr s b))) s).
Proof.
  intros Hr Ht Ha Hb Hd. unfold mbind, M_bind. rewrite tracing_off by done.
  rewrite !rget_run by done. by apply rset_run.
Qed.

(** And of those with one. *)
Lemma unop_run m a d (f : Z -> Z) s :
  regfile s -> trace s = false -> 0 <= a < 32 -> 0 <= d < 32 ->
  (tracing m;; v ← rget a; rset d (f v)) s = Ok tt (set_gpr d (f (s32 (gpr s a))) s).
Proof.
  intros Hr Ht Ha Hd. unfold mbind, M_bind. rewrite tracing_off by done.
  rewrite rget_run by done. by apply rset_run.
Qed.

(** ** Dispatch *)

(** The state a row of a table is entered with: its [count] is incremented. *)
Definition enter (k : Z) (s : vi) : vi :=
  let s := set_ip k s in
  set_istat (<[k := let i := default InstStat0 (istat s !! k) in
                    mkInstStat (s32 (i_count i + 1)) (i_taken i) (i_useddelay i)]> (istat s)) s.

Lemma enter_sim k s : sim (enter k s) s.
Proof. done. Qed.

Lemma Iexec_row n w s (f : Z -> M unit) :
  itab (Iexec n) !! Z.to_nat (Z.shiftr w 26) = Some f ->
  Iexec (S n) w s = f w (enter (row_itab (Z.shiftr w 26)) s).
Proof.
  intros H. cbn [Iexec]. unfold mbind, M_bind, modify at 1, stat_count, bump, modify.
  by rewrite H.
Qed.

Lemma Ispecial_row ex w s (f : Z -> M unit) :
  ispec ex !! Z.to_nat (Z.land w 0x3f) = Some f ->
  Ispecial ex w s = f w (enter (row_ispec (Z.land w 0x3f)) s).
Proof. intros H. unfold Ispecial, mbind, M_bind, modify at 1, stat_count, bump, modify.
  by rewrite H.
Qed.
End Sim.
