(* ===== verification/ViAlu.v ===== *)
(** The register instructions of the emulator compute what the architecture defines. *)
From S2P Require Import Prelude CInt ViMachine ViMem ViMemSpec ViArith ViSpecial ViFloat ViRun ViInv ViDemo Mips ViSim.

(** ** Values *)

Lemma s32_u32 x : s32 (u32 x) = s32 x.
Proof. by apply wraps_wrapu. Qed.
Lemma u32_s32 x : u32 (s32 x) = u32 x.
Proof. by apply wrapu_wraps. Qed.

Lemma s32_cases x : 0 <= x < 2 ^ 32 -> s32 x = if x <? 2 ^ 31 then x else x - 2 ^ 32.
Proof.
  intros Hx. unfold s32. destruct (Z.ltb_spec x (2 ^ 31)).
  - apply wraps_id; [lia|]. unfold in_s. lia.
  - apply wraps_eq_signed; [lia|unfold in_s; lia|].
    rewrite <- (Z.mod_add x (-1) (2 ^ 32)) by lia. f_equal; lia.
Qed.

Lemma s32_add a b : s32 (s32 a + s32 b) = s32 (u32 (a + b)).
Proof.
  rewrite s32_u32. apply wraps_congr. unfold s32.
  by rewrite <- Zplus_mod_idemp_l, <- Zplus_mod_idemp_r, !wraps_mod, Zplus_mod_idemp_r,
    Zplus_mod_idemp_l by lia.
Qed.

Lemma s32_sub a b : s32 (s32 a - s32 b) = s32 (u32 (a - b)).
Proof.
  rewrite s32_u32. apply wraps_congr. unfold s32.
  by rewrite Zminus_mod, !wraps_mod, <- Zminus_mod by lia.
Qed.

Lemma s32_add_imm a b : s32 (s32 a + b) = s32 (u32 (a + b)).
Proof. rewrite s32_u32. by apply wrapu_add_wraps. Qed.

Lemma s32_shiftl a k : 0 <= k -> s32 (Z.shiftl (s32 a) k) = s32 (u32 (a * 2 ^ k)).
Proof.
  intros Hk. rewrite s32_u32, Z.shiftl_mul_pow2 by done. apply wraps_congr. unfold s32.
  by rewrite <- Zmult_mod_idemp_l, wraps_mod, Zmult_mod_idemp_l by lia.
Qed.

Lemma s32_land a b : s32 (Z.land (s32 a) (s32 b)) = s32 (Z.land a b).
Proof. cbits. Qed.
Lemma s32_lor a b : s32 (Z.lor (s32 a) (s32 b)) = s32 (Z.lor a b).
Proof. cbits. Qed.
Lemma s32_lxor a b : s32 (Z.lxor (s32 a) (s32 b)) = s32 (Z.lxor a b).
Proof. cbits. Qed.
Lemma s32_land_imm a b : s32 (Z.land (s32 a) b) = s32 (Z.land a b).
Proof. cbits. Qed.
Lemma s32_lor_imm a b : s32 (Z.lor (s32 a) b) = s32 (Z.lor a b).
Proof. cbits. Qed.
Lemma s32_lxor_imm a b : s32 (Z.lxor (s32 a) b) = s32 (Z.lxor a b).
Proof. cbits. Qed.

Lemma s32_nor a b : s32 (Z.lnot (Z.lor (s32 b) (s32 a))) = s32 (2 ^ 32 - 1 - Z.lor a b).
Proof.
  transitivity (s32 (Z.lnot (Z.lor a b))).
  - rewrite (Z.lor_comm a). cbits.
  - apply wraps_congr. unfold Z.lnot.
    rewrite <- (Z.mod_add (Z.pred (- Z.lor a b)) 1 (2 ^ 32)) by lia. f_equal; lia.
Qed.

(** The expression of [Ssra] is the arithmetic shift. *)
Lemma sra_spec t k : in_s 32 t -> 0 <= k < 32 -> sra t k = t / 2 ^ k.
Proof.
  intros Ht Hk. unfold sra. rewrite <- Z.shiftr_div_pow2 by lia.
  destruct (Z.eqb_spec k 0); cbn [negb andb]; [done|].
  destruct (Z.eqb_spec (Z.land t SIGNBIT) 0) as [|Hs]; cbn [negb]; [done|].
  assert (t < 0) as Hneg.
  { destruct (Z.ltb_spec t 0); [done|]. exfalso. apply Hs. unfold SIGNBIT.
    change 0x80000000 with (Z.shiftl 1 31). apply Z.bits_inj'. intros i Hi.
    rewrite Z.land_spec, Z.bits_0, Z.shiftl_spec by lia.
    destruct (Z.eq_dec i 31) as [->|Hne].
    - by rewrite (testbit_small t 31 31) by (unfold in_s in Ht; lia).
    - destruct (Z.ltb_spec i 31); [rewrite (Z.testbit_neg_r 1) by lia|
        rewrite (testbit_small 1 1) by lia]; by rewrite andb_false_r. }
  assert (s32 (s32 (Z.shiftl 1 (32 - k)) - 1) = Z.ones (32 - k)) as ->.
  { rewrite Z.shiftl_1_l. unfold s32, Z.sub. rewrite wrapu_add_wraps by lia. rewrite Z.ones_equiv.
    fold (32 - k). rewrite wraps_id; [lia|lia|]. unfold in_s.
    pose proof (Z.pow_le_mono_r 2 (32 - k) 31). pose proof (Z.pow_pos_nonneg 2 (32 - k)). lia. }
  apply Z.bits_inj'. intros i Hi.
  rewrite Z.lor_spec, Z.lnot_spec, !Z.shiftr_spec by lia.
  destruct (Z.ltb_spec i (32 - k)).
  - rewrite Z.ones_spec_low by lia. by rewrite orb_false_r.
  - rewrite Z.ones_spec_high by lia. rewrite (in_s_sign_bits 32 t (i + k)) by (done || lia).
    destruct (Z.ltb_spec t 0); [done|lia].
Qed.

Lemma land_31_mod a : Z.land (s32 a) 0x1f = a mod 32.
Proof.
  change 0x1f with (Z.ones 5). rewrite Z.land_ones by lia. change 32 with (2 ^ 5).
  apply (wrapu_wraps 32 5 a); lia.
Qed.

Create HintDb alu.
#[export] Hint Resolve s32_add s32_sub s32_add_imm s32_land s32_lor s32_lxor s32_land_imm
  s32_lor_imm s32_lxor_imm s32_nor gpr_range Getshamt_range : alu.

Section Alu.
Context {E : ViEnv} {EOk : ViEnvOk E}.

(** [ulong] keeps the unsigned order of 32-bit values, whatever its width. *)
Lemma ulong_s32 x :
  0 <= x < 2 ^ 32 -> ulong (s32 x) = if x <? 2 ^ 31 then x else x + (2 ^ ulong_bits - 2 ^ 32).
Proof.
  intros Hx. rewrite s32_cases by done. pose proof ulong_bits_ge.
  pose proof (Z.pow_le_mono_r 2 32 ulong_bits).
  unfold ulong, wrapu. destruct (Z.ltb_spec x (2 ^ 31)).
  - by rewrite Z.mod_small by lia.
  - rewrite <- (Z.mod_add _ 1) by lia. rewrite Z.mod_small; lia.
Qed.

Lemma ulong_ltb a b :
  0 <= a < 2 ^ 32 -> 0 <= b < 2 ^ 32 -> (ulong (s32 a) <? ulong (s32 b)) = (a <? b).
Proof.
  intros Ha Hb. rewrite !ulong_s32 by done. pose proof ulong_bits_ge.
  pose proof (Z.pow_le_mono_r 2 32 ulong_bits).
  destruct (Z.ltb_spec a (2 ^ 31)), (Z.ltb_spec b (2 ^ 31)), (Z.ltb_spec a b);
    first [done|apply Z.ltb_lt; lia|apply Z.ltb_ge; lia].
Qed.

Lemma ulong_s32_id x : ulong_bits = 32 -> 0 <= x < 2 ^ 32 -> ulong (s32 x) = x.
Proof.
  intros HW Hx. unfold ulong. rewrite HW. change (wrapu 32) with u32. rewrite u32_s32.
  by apply wrapu_id.
Qed.

Lemma lui_value w : s32 (s32 (ulong (Z.shiftl w 16))) = s32 (uimm w * 2 ^ 16).
Proof.
  unfold s32, ulong. rewrite wraps_wraps by lia.
  rewrite wraps_wrapu by (pose proof ulong_bits_ge; lia).
  apply wraps_congr. rewrite Z.shiftl_mul_pow2 by lia. unfold uimm.
  change 0xffff with (Z.ones 16). rewrite Z.land_ones by lia.
  change (2 ^ 32) with (2 ^ 16 * 2 ^ 16). rewrite !Z.mul_mod_distr_r by lia.
  by rewrite Z.mod_mod by lia.
Qed.

Lemma set_gpr_eq d x y s : s32 x = s32 y -> set_gpr d x s = set_gpr d y s.
Proof. unfold set_gpr. by intros ->. Qed.

Lemma s32_ltb a b :
  0 <= a < 2 ^ 32 -> 0 <= b < 2 ^ 32 ->
  s32 (if u32 (s32 a) <? u32 (s32 b) then 1 else 0) = s32 (bool32 (a <? b)).
Proof. intros. rewrite !u32_s32. unfold u32. by rewrite !wrapu_id. Qed.

Lemma s32_sllv a b : s32 (Z.shiftl (s32 a) (b mod 32)) = s32 (u32 (a * 2 ^ (b mod 32))).
Proof. apply s32_shiftl. by apply Z.mod_pos_bound. Qed.

Lemma s32_srl a k : ulong_bits = 32 -> 0 <= a < 2 ^ 32 -> 0 <= k ->
  s32 (Z.shiftr (ulong (s32 a)) k) = s32 (a / 2 ^ k).
Proof. intros HW Ha Hk. by rewrite ulong_s32_id, Z.shiftr_div_pow2. Qed.

Lemma s32_srlv a b : ulong_bits = 32 -> 0 <= a < 2 ^ 32 ->
  s32 (Z.shiftr (ulong (s32 a)) (b mod 32)) = s32 (a / 2 ^ (b mod 32)).
Proof. intros HW Ha. apply s32_srl; [done..|]. by apply Z.mod_pos_bound. Qed.

Lemma s32_sra a k : 0 <= k < 32 -> s32 (sra (s32 a) k) = s32 (u32 (s32 a / 2 ^ k)).
Proof. intros Hk. rewrite s32_u32, sra_spec; [done| |done]. by apply wraps_range. Qed.

Lemma s32_srav a b : s32 (sra (s32 a) (b mod 32)) = s32 (u32 (s32 a / 2 ^ (b mod 32))).
Proof. apply s32_sra. by apply Z.mod_pos_bound. Qed.

Lemma s32_shiftl' a k : 0 <= k < 32 -> s32 (Z.shiftl (s32 a) k) = s32 (u32 (a * 2 ^ k)).
Proof. intros. apply s32_shiftl. lia. Qed.

Lemma s32_srl' a k : ulong_bits = 32 -> 0 <= a < 2 ^ 32 -> 0 <= k < 32 ->
  s32 (Z.shiftr (ulong (s32 a)) k) = s32 (a / 2 ^ k).
Proof. intros. apply s32_srl; (done || lia). Qed.

Lemma simm_ltu a w : 0 <= a < 2 ^ 32 ->
  s32 (if ulong (s32 a) <? ulong (simm w) then 1 else 0) =
    s32 (bool32 (a <? u32 (s16 (uimm w)))).
Proof.
  intros Ha. unfold simm. fold (uimm w).
  assert (in_s 32 (s16 (uimm w))) as Hs by by apply (in_s_mono 16), wraps_range.
  rewrite <- (wraps_id 32 (s16 (uimm w))) at 1 by done. change (wraps 32) with s32.
  rewrite <- (s32_u32 (s16 (uimm w))), ulong_ltb; [done|done|]. by apply wrapu_range.
Qed.

Hint Resolve s32_ltb s32_sllv s32_srlv s32_srav s32_sra s32_shiftl' s32_srl' simm_ltu : alu.

Definition computes (m : vi -> outcome unit) (s : vi) (d v : Z) : Prop :=
  exists s', m s = Ok tt s' /\ sim s' (set_gpr d v s).

(** A handler run from the entered state. *)
Lemma computes_enter (f : M unit) k d v s :
  (forall t, regfile t -> trace t = false -> (forall i, gpr t i = gpr s i) ->
     exists x, f t = Ok tt (set_gpr d x t) /\ s32 x = s32 v) ->
  regfile s -> trace s = false -> computes (fun s => f (enter k s)) s d v.
Proof.
  intros Hf Hr Ht. destruct (Hf (enter k s)) as (x & Hx & Hxv); [done..|].
  exists (set_gpr d x (enter k s)). split; [done|].
  rewrite (set_gpr_eq d x v) by done. by rewrite enter_sim.
Qed.

(** Runs a handler of one of the two shapes, then compares its value with the one of the
    architecture by the lemmas of the hint database. *)
Ltac reg_handler :=
  let t := fresh "t" in let Hg := fresh "Hg" in intros t ? ? Hg; eexists; split;
  [unfold Snor, Ssll, Ssllv, Ssrlv, Ssrav, Ssrl, Ssra, Sslt, Ssltu, Sand, Saddu, Sadd, Ssubu,
     Sor, Sxor, Iaddi, Iandi, Iori, Ixori, Iaddiu, Islti, Isltiu;
   rewrite ?(proj2 (Z.eqb_neq _ INOP)) by done;
   (apply binop_run || apply unop_run); auto with vi
  |cbv beta; rewrite !Hg, ?land_31_mod; auto with alu].

Lemma special_correct ex w s v :
  regfile s -> trace s = false -> w <> INOP -> is_srl w = false \/ ulong_bits = 32 ->
  Z.shiftr w 26 = 0 ->
  r_alu (Z.land w 0x3f) (gpr s (Getrs w)) (gpr s (Getrt w)) (Getshamt w) = Some v ->
  computes (Ispecial ex w) s (Getrd w) v.
Proof.
  intros Hr Ht Hnop Hsrl H0 Hv. unfold is_srl in Hsrl. rewrite H0 in Hsrl. cbn [Z.eqb andb] in Hsrl.
  pose proof (gpr_range s (Getrs w)) as Hrs. pose proof (gpr_range s (Getrt w)) as Hrt.
  pose proof (Getshamt_range w) as Hsh.
  assert (forall f : Z -> M unit, ispec ex !! Z.to_nat (Z.land w 0x3f) = Some f ->
    computes (fun s => f w (enter (row_ispec (Z.land w 0x3f)) s)) s (Getrd w) v ->
    computes (Ispecial ex w) s (Getrd w) v) as Hrow.
  { intros f Hf (s' & Hs' & Hsim). exists s'. split; [|done].
    by rewrite (Ispecial_row ex w s f). }
  destruct (Z.land w 0x3f) as [|p|p] eqn:Hfn; [|repeat (destruct p as [p|p|]; try done)|done];
    simpl in Hv; injection Hv as <-; (eapply Hrow; [reflexivity|]); clear Hrow;
    apply computes_enter; try done.
  all: reg_handler.
  all: destruct Hsrl as [|HW]; [done|auto with alu].
Qed.

Lemma immediate_correct n w s v :
  regfile s -> trace s = false -> Z.shiftr w 26 <> 0 ->
  i_alu (Z.shiftr w 26) (gpr s (Getrs w)) (uimm w) = Some v ->
  computes (Iexec (S n) w) s (Getrt w) v.
Proof.
  intros Hr Ht H0 Hv. pose proof (gpr_range s (Getrs w)) as Hrs.
  assert (forall f : Z -> M unit, itab (Iexec n) !! Z.to_nat (Z.shiftr w 26) = Some f ->
    computes (fun s => f w (enter (row_itab (Z.shiftr w 26)) s)) s (Getrt w) v ->
    computes (Iexec (S n) w) s (Getrt w) v) as Hrow.
  { intros f Hf (s' & Hs' & Hsim). exists s'. split; [|done]. by rewrite (Iexec_row n w s f). }
  destruct (Z.shiftr w 26) as [|p|p] eqn:Hop; [done|repeat (destruct p as [p|p|]; try done)|done];
    simpl in Hv; injection Hv as <-; (eapply Hrow; [reflexivity|]); clear Hrow;
    apply computes_enter; try done.
  all: try reg_handler.
  intros t Ht' Ht0 Hg. eexists. split; [|apply lui_value].
  unfold Ilui, mbind, M_bind. rewrite tracing_off by done. apply rset_run; auto with vi.
Qed.

(** ** The multiplier *)

(** One 32-bit addition with its carry, as [mulu] detects it. *)
Lemma add_carry x y : 0 <= x < 2 ^ 32 -> 0 <= y < 2 ^ 32 ->
  u32 (x + y) = x + y - 2 ^ 32 * Z.b2z (u32 (x + y) <? x).
Proof.
  intros Hx Hy. unfold u32, wrapu.
  destruct (Z.ltb_spec (x + y) (2 ^ 32)).
  - rewrite Z.mod_small by lia. rewrite (proj2 (Z.ltb_ge _ _)) by lia. simpl Z.b2z. lia.
  - rewrite <- (Z.mod_add _ (-1)) by lia. rewrite Z.mod_small by lia.
    rewrite (proj2 (Z.ltb_lt _ _)) by lia. simpl Z.b2z. lia.
Qed.

Lemma carry_add (b : bool) h : (if b then u32 (h + 1) else u32 h) = u32 (h + Z.b2z b).
Proof. destruct b; simpl; [done|by rewrite Z.add_0_r]. Qed.

(** A sum of a low word and carried words, read as a quotient and a remainder. *)
Lemma words_of_product p lo hi :
  0 <= lo < 2 ^ 32 -> p = lo + 2 ^ 32 * hi -> (lo, hi) = (p mod 2 ^ 32, p / 2 ^ 32).
Proof.
  intros Hlo ->. rewrite Z.mul_comm, Z.mod_add, Z.div_add, Z.mod_small, Z.div_small by lia.
  by rewrite Z.add_0_l.
Qed.

Lemma shl16 t : u32 (Z.shiftl t 16) = 2 ^ 16 * (t mod 2 ^ 16).
Proof.
  unfold u32, wrapu. rewrite Z.shiftl_mul_pow2 by lia.
  change (2 ^ 32) with (2 ^ 16 * 2 ^ 16). rewrite Z.mul_mod_distr_r by lia. lia.
Qed.

Lemma u32_id x : 0 <= x < 2 ^ 32 -> u32 x = x.
Proof. by apply wrapu_id. Qed.

Lemma mulu_correct a b :
  ulong_bits = 32 -> in_u 32 a -> in_u 32 b ->
  mulu a b = (a * b mod 2 ^ 32, a * b / 2 ^ 32).
Proof.
  unfold in_u. intros HW Ha Hb. unfold mulu, ulong. rewrite HW. change (wrapu 32) with u32.
  change 0xffff with (Z.ones 16). rewrite !Z.land_ones, !Z.shiftr_div_pow2 by lia.
  pose proof (Z.div_mod a (2 ^ 16)) as Ea. pose proof (Z.mod_pos_bound a (2 ^ 16)).
  pose proof (Z.div_mod b (2 ^ 16)) as Eb. pose proof (Z.mod_pos_bound b (2 ^ 16)).
  set (al := a mod 2 ^ 16) in *. set (ah := a / 2 ^ 16) in *.
  set (bl := b mod 2 ^ 16) in *. set (bh := b / 2 ^ 16) in *.
  assert (0 <= ah < 2 ^ 16 /\ 0 <= bh < 2 ^ 16) as [Hah Hbh] by lia.
  rewrite (u32_id (al * bl)), (u32_id (al * bh)), (u32_id (bl * ah)), (u32_id (ah * bh)),
    !shl16 by nia.
  pose proof (Z.div_mod (al * bh) (2 ^ 16)) as E1.
  pose proof (Z.mod_pos_bound (al * bh) (2 ^ 16)).
  pose proof (Z.div_mod (bl * ah) (2 ^ 16)) as E2.
  pose proof (Z.mod_pos_bound (bl * ah) (2 ^ 16)).
  set (r1 := al * bh mod 2 ^ 16) in *. set (q1 := al * bh / 2 ^ 16) in *.
  set (r2 := bl * ah mod 2 ^ 16) in *. set (q2 := bl * ah / 2 ^ 16) in *.
  assert (0 <= al * bl < 2 ^ 32) as Hx by nia.
  pose proof (add_carry (al * bl) (2 ^ 16 * r1) Hx ltac:(lia)) as C1.
  assert (0 <= u32 (al * bl + 2 ^ 16 * r1) < 2 ^ 32) as Hl1 by by apply wrapu_range.
  set (l1 := u32 (al * bl + 2 ^ 16 * r1)) in *. set (c1 := l1 <? al * bl) in *.
  pose proof (add_carry l1 (2 ^ 16 * r2) Hl1 ltac:(lia)) as C2.
  assert (0 <= u32 (l1 + 2 ^ 16 * r2) < 2 ^ 32) as Hl2 by by apply wrapu_range.
  set (l2 := u32 (l1 + 2 ^ 16 * r2)) in *. set (c2 := l2 <? l1) in *.
  apply words_of_product; [done|].
  assert (a * b = l2 + 2 ^ 32 * (ah * bh + Z.b2z c1 + Z.b2z c2 + (q1 + q2))) as Hab by nia.
  rewrite Hab. do 2 f_equal.
  assert (a * b < 2 ^ 32 * 2 ^ 32) by nia.
  assert (0 <= Z.b2z c1 <= 1 /\ 0 <= Z.b2z c2 <= 1) as [Hc1 Hc2]
    by (destruct c1, c2; simpl; lia).
  assert (0 <= q1 /\ 0 <= q2) as [Hq1 Hq2] by (split; apply Z.div_pos; nia).
  assert (0 <= ah * bh) by nia.
  rewrite (u32_id (q1 + q2)) by lia.
  destruct c1, c2; simpl Z.b2z in *; rewrite ?(u32_id (ah * bh + 1)) by lia;
    rewrite ?(u32_id (ah * bh + 1 + 1)) by lia; rewrite u32_id; lia.
Qed.

(** The 64-bit negation of [mul]: complement both words, add one, carry. *)
Lemma negate_words p : 0 <= p < 2 ^ 64 ->
  let lo := u32 (Z.lnot (u32 p)) in
  let hi := u32 (Z.lnot (u32 (p / 2 ^ 32))) in
  (u32 (lo + 1), if u32 (lo + 1) <? lo then u32 (hi + 1) else hi) =
    (u32 (- p), u32 (- p / 2 ^ 32)).
Proof.
  intros Hp. pose proof (Z.div_mod p (2 ^ 32)) as Ep.
  pose proof (Z.mod_pos_bound p (2 ^ 32)).
  assert (0 <= p / 2 ^ 32 < 2 ^ 32) as Hh.
  { split; [apply Z.div_pos; lia|]. apply Z.div_lt_upper_bound; lia. }
  rewrite (u32_id (p / 2 ^ 32)) by done. change (u32 p) with (p mod 2 ^ 32).
  set (l := p mod 2 ^ 32) in *. set (h := p / 2 ^ 32) in *.
  assert (forall x, 0 <= x < 2 ^ 32 -> u32 (Z.lnot x) = 2 ^ 32 - 1 - x) as Hlnot.
  { intros x Hx. unfold u32, wrapu, Z.lnot. rewrite <- (Z.mod_add _ 1) by lia.
    rewrite Z.mod_small; lia. }
  cbv zeta. rewrite !Hlnot by lia.
  destruct (Z.eq_dec l 0) as [Hl|Hl].
  - rewrite Hl. change (u32 (2 ^ 32 - 1 - 0 + 1)) with 0.
    change (0 <? 2 ^ 32 - 1 - 0) with true. cbv iota. unfold u32, wrapu. f_equal.
    + replace (- p) with (- h * 2 ^ 32) by lia. by rewrite Z.mod_mul by lia.
    + replace (- p) with (- h * 2 ^ 32) by lia. rewrite Z.div_mul by lia.
      rewrite <- (Z.mod_add (- h) 1) by lia. f_equal; lia.
  - replace (2 ^ 32 - 1 - l + 1) with (2 ^ 32 - l) by lia.
    rewrite (u32_id (2 ^ 32 - l)) by lia.
    rewrite (proj2 (Z.ltb_ge _ _)) by lia. unfold u32, wrapu. f_equal.
    + rewrite <- (Z.mod_add (- p) (h + 1)) by lia. rewrite Z.mod_small; lia.
    + replace (- p) with (2 ^ 32 - l + (- h - 1) * 2 ^ 32) by lia.
      rewrite Z.div_add, (Z.div_small (2 ^ 32 - l)) by lia.
      rewrite <- (Z.mod_add _ 1) by lia. rewrite Z.mod_small; lia.
Qed.

Lemma slong_ulong x : ulong_bits = 32 -> ulong (slong x) = ulong x.
Proof. intros HW. unfold ulong, slong. rewrite HW. by apply wrapu_wraps. Qed.

Lemma slong_abs x : ulong_bits = 32 -> in_s 32 x -> x < 0 -> ulong (slong (- x)) = - x.
Proof.
  intros HW Hx Hn. rewrite slong_ulong by done. unfold ulong. rewrite HW.
  apply wrapu_id. unfold in_u, in_s in *. lia.
Qed.

Lemma mul_correct a b :
  ulong_bits = 32 -> in_s 32 a -> in_s 32 b ->
  (ulong (fst (mul a b)), ulong (snd (mul a b))) = (u32 (a * b), u32 (a * b / 2 ^ 32)).
Proof.
  intros HW Ha Hb. unfold mul.
  assert (forall x, in_s 32 x -> 0 <= x -> ulong x = x) as Hpos.
  { intros x Hx Hx0. unfold ulong. rewrite HW. apply wrapu_id. unfold in_u, in_s in *. lia. }
  assert (forall x y, in_u 32 x -> in_u 32 y -> mulu x y = (u32 (x * y), u32 (x * y / 2 ^ 32))) as Hm.
  { intros x y Hx Hy. rewrite mulu_correct by done. unfold u32 at 2, wrapu.
    rewrite (Z.mod_small (x * y / 2 ^ 32)); [done|].
    unfold in_u in *. split; [apply Z.div_pos; nia|]. apply Z.div_lt_upper_bound; nia. }
  assert (forall x, ulong x = u32 x) as Hu by (intros; unfold ulong; by rewrite HW).
  assert (forall p, 0 <= p < 2 ^ 64 ->
    (u32 (u32 (u32 (Z.lnot (u32 p)) + 1)),
     u32 (if u32 (u32 (Z.lnot (u32 p)) + 1) <? u32 (Z.lnot (u32 p))
          then u32 (u32 (Z.lnot (u32 (p / 2 ^ 32))) + 1)
          else u32 (Z.lnot (u32 (p / 2 ^ 32))))) = (u32 (- p), u32 (- p / 2 ^ 32))) as Hneg.
  { intros p Hp. rewrite <- (negate_words p Hp). cbv zeta. f_equal; [by apply wrapu_wrapu|].
    destruct (_ <? _); by apply wrapu_wrapu. }
  unfold in_s in Ha, Hb.
  destruct (Z.ltb_spec a 0), (Z.ltb_spec b 0); cbn [negb];
    rewrite ?(slong_abs a), ?(slong_abs b), ?(Hpos a), ?(Hpos b) by (done || unfold in_s; lia);
    rewrite Hm by (unfold in_u; lia);
    cbn [fst snd]; rewrite ?slong_ulong by done.
  all: rewrite !Hu; try (rewrite Hneg by nia); unfold u32; rewrite ?wrapu_wrapu by lia;
    by rewrite ?Z.mul_opp_opp, ?Z.mul_opp_l, ?Z.mul_opp_r, ?Z.opp_involutive.
Qed.

Lemma two_operands {A} m a b (k : Z -> Z -> M A) s :
  regfile s -> trace s = false -> 0 <= a < 32 -> 0 <= b < 32 ->
  (tracing m;; v ← rget a; t ← rget b; k v t) s = k (s32 (gpr s a)) (s32 (gpr s b)) s.
Proof.
  intros Hr Ht Ha Hb. unfold mbind, M_bind. rewrite tracing_off by done.
  by rewrite !rget_run by done.
Qed.

Definition set_hilo (lo hi : Z) (s : vi) : vi := set_mhi hi (set_mlo lo s).

Lemma set_hilo_run lo hi s :
  (modify (set_mlo lo);; modify (set_mhi hi)) s = Ok tt (set_hilo lo hi s).
Proof. done. Qed.

Lemma ulong_u32 x : ulong_bits = 32 -> ulong x = u32 x.
Proof. intros HW. unfold ulong. by rewrite HW. Qed.

Lemma Smult_run w s :
  ulong_bits = 32 -> regfile s -> trace s = false ->
  let '(lo, hi) := mult_spec (gpr s (Getrs w)) (gpr s (Getrt w)) in
  Smult w s = Ok tt (set_hilo lo hi s).
Proof.
  intros HW Hr Ht. unfold Smult, mult_spec. rewrite two_operands by auto with vi.
  pose proof (mul_correct (s32 (gpr s (Getrs w))) (s32 (gpr s (Getrt w))) HW
    ltac:(by apply wraps_range) ltac:(by apply wraps_range)) as Hm.
  destruct (mul _ _) as [lo hi]. cbn [fst snd] in Hm. injection Hm as Hlo Hhi.
  by rewrite set_hilo_run, Hlo, Hhi.
Qed.

Lemma Smultu_run w s :
  ulong_bits = 32 -> regfile s -> trace s = false ->
  let '(lo, hi) := multu_spec (gpr s (Getrs w)) (gpr s (Getrt w)) in
  Smultu w s = Ok tt (set_hilo lo hi s).
Proof.
  intros HW Hr Ht. unfold Smultu, multu_spec. rewrite two_operands by auto with vi.
  rewrite !(ulong_s32_id _ HW), mulu_correct by (done || apply gpr_range). done.
Qed.

Lemma s32_zero x : 0 <= x < 2 ^ 32 -> (s32 x =? 0) = (x =? 0).
Proof.
  intros Hx. rewrite s32_cases by done.
  destruct (Z.ltb_spec x (2 ^ 31)), (Z.eqb_spec x 0); first [done|apply Z.eqb_neq; lia|
    apply Z.eqb_eq; lia].
Qed.

Lemma hilo_correct w s lo hi :
  ulong_bits = 32 -> regfile s -> trace s = false -> Z.shiftr w 26 = 0 ->
  hilo_spec (Z.land w 0x3f) (gpr s (Getrs w)) (gpr s (Getrt w)) = Some (lo, hi) ->
  forall ex, exists s', Ispecial ex w s = Ok tt s' /\ sim s' (set_hilo lo hi s).
Proof.
  intros HW Hr Ht H0 Hv ex.
  assert (forall f : Z -> M unit, ispec ex !! Z.to_nat (Z.land w 0x3f) = Some f ->
    (forall t, regfile t -> trace t = false -> (forall i, gpr t i = gpr s i) ->
       f w t = Ok tt (set_hilo lo hi t)) ->
    exists s', Ispecial ex w s = Ok tt s' /\ sim s' (set_hilo lo hi s)) as Hrow.
  { intros f Hf Hrun. exists (set_hilo lo hi (enter (row_ispec (Z.land w 0x3f)) s)). split.
    - rewrite (Ispecial_row ex w s f) by done. by apply Hrun.
    - unfold set_hilo. by rewrite enter_sim. }
  destruct (Z.land w 0x3f) as [|p|p] eqn:Hfn; [done|repeat (destruct p as [p|p|]; try done)|done];
    cbn [hilo_spec] in Hv; (eapply Hrow; [reflexivity|]); intros t Hr' Ht' Hg;
    rewrite <- !Hg in Hv.
  - unfold Sdivu. rewrite two_operands by auto with vi.
    rewrite !(ulong_s32_id _ HW) by apply gpr_range.
    destruct (_ =? 0); [done|]. by injection Hv as <- <-.
  - pose proof (Smultu_run w t HW Hr' Ht') as Hm.
    destruct (multu_spec _ _). by injection Hv as <- <-.
  - unfold Sdiv. rewrite two_operands by auto with vi.
    rewrite s32_zero by apply gpr_range. destruct (_ || _); [done|].
    injection Hv as <- <-. by rewrite !(ulong_u32 _ HW).
  - pose proof (Smult_run w t HW Hr' Ht') as Hm.
    destruct (mult_spec _ _). by injection Hv as <- <-.
Qed.
(** The instructions of [alu], from any state with its register file. *)
Lemma alu_run n w s d v :
  regfile s -> trace s = false -> w <> INOP -> is_srl w = false \/ ulong_bits = 32 ->
  alu w (gpr s) = Some (d, v) -> computes (Iexec (S n) w) s d v.
Proof.
  intros Hr Ht Hnop Hsrl Hv. unfold alu in Hv.
  destruct (Z.eqb_spec (Z.shiftr w 26) 0) as [H0|H0].
  - destruct (r_alu _ _ _ _) as [x|] eqn:Hx; simpl in Hv; [|done]. injection Hv as <- <-.
    destruct (special_correct (Iexec n) w (enter (row_itab 0) s) x) as (s' & Hs' & Hsim); try done.
    exists s'. split; [|by rewrite Hsim, enter_sim].
    by rewrite (Iexec_row n w s (Ispecial (Iexec n))); rewrite H0.
  - destruct (i_alu _ _ _) as [x|] eqn:Hx; simpl in Hv; [|done]. injection Hv as <- <-.
    by apply immediate_correct.
Qed.

Lemma muldiv_run n w s lo hi :
  ulong_bits = 32 -> regfile s -> trace s = false -> Z.shiftr w 26 = 0 ->
  hilo_spec (Z.land w 0x3f) (gpr s (Getrs w)) (gpr s (Getrt w)) = Some (lo, hi) ->
  exists s', Iexec (S n) w s = Ok tt s' /\ sim s' (set_hilo lo hi s).
Proof.
  intros HW Hr Ht H0 Hv.
  destruct (hilo_correct w (enter (row_itab 0) s) lo hi HW) with (ex := Iexec n)
    as (s' & Hs' & Hsim); try done.
  exists s'. split; [|rewrite Hsim; unfold set_hilo; by rewrite enter_sim].
  by rewrite (Iexec_row n w s (Ispecial (Iexec n))); rewrite H0.
Qed.
End Alu.

(** ** The architecture's register instructions *)

(** C8: for every instruction word the architecture defines as a computation on registers
    (shifts, additions, logic, comparisons, with a register or an immediate), [Iexec] sets
    the destination register to the value the architecture defines and changes nothing else
    but statistics. The logical right shifts need a host whose [ulong] has 32 bits. *)
Theorem alu_correct (E : ViEnv) (EOk : ViEnvOk E) n w s d v :
  wf s -> trace s = false -> w <> INOP -> is_srl w = false \/ ulong_bits = 32 ->
  alu w (gpr s) = Some (d, v) ->
  exists s', Iexec (S n) w s = Ok tt s' /\ sim s' (set_gpr d v s).
Proof.
  intros Hwf Ht Hnop Hsrl Hv. apply wf_regfile in Hwf. by apply alu_run.
Qed.

Lemma alu_correct_witness :
  alu 0x24010005 (gpr (boot 64)) = Some (1, 5) /\
  exists s', @Iexec host64 1 0x24010005 (boot 64) = Ok tt s' /\ sim s' (set_gpr 1 5 (boot 64)).
Proof.
  split; [vm_compute; reflexivity|].
  apply (alu_correct host64 host64_ok 0 0x24010005 (boot 64) 1 5).
  - apply (wf_boot 64). by right.
  - apply (boot_quiet 64). by right.
  - done.
  - left. vm_compute. reflexivity.
  - vm_compute. reflexivity.
Defined.

(** C30: on a host whose [ulong] has 32 bits, [mult], [multu], [div] and [divu] leave in HI
    and LO the high and low product words, or remainder and quotient, that the architecture
    defines, for every operand with a defined result. *)
Theorem muldiv_correct (E : ViEnv) (EOk : ViEnvOk E) n w s lo hi :
  ulong_bits = 32 -> wf s -> trace s = false -> Z.shiftr w 26 = 0 ->
  hilo_spec (Z.land w 0x3f) (gpr s (Getrs w)) (gpr s (Getrt w)) = Some (lo, hi) ->
  exists s', Iexec (S n) w s = Ok tt s' /\ sim s' (set_hilo lo hi s).
Proof.
  intros HW Hwf Ht H0 Hv. apply wf_regfile in Hwf. by apply muldiv_run.
Qed.

(** [r1 := -3], [r2 := 7] in the machine just booted. *)
Definition muldiv_state : vi := set_gpr 2 7 (set_gpr 1 (2 ^ 32 - 3) (boot 32)).

Lemma wf_muldiv_state : wf (E := host32) muldiv_state.
Proof.
  pose proof (wf_boot 32 (or_introl eq_refl)) as [Hm Hr]. split; [exact Hm|].
  destruct Hr. split; try done; cbn; rewrite ?length_insert; try done.
  repeat apply Forall_insert; try done; by apply wraps_range.
Qed.

Lemma muldiv_correct_witness :
  exists s', @Iexec host32 1 0x00220018 muldiv_state = Ok tt s'
    /\ sim s' (set_hilo (2 ^ 32 - 21) (2 ^ 32 - 1) muldiv_state).
Proof.
  apply (muldiv_correct host32 host32_ok 0 0x00220018 muldiv_state).
  - reflexivity.
  - exact wf_muldiv_state.
  - reflexivity.
  - reflexivity.
  - vm_compute. reflexivity.
Defined.

(** C36: on a host whose [ulong] has 64 bits, [srl] and [srlv] are arithmetic shifts: the
    operand is sign-extended before it is shifted, so the result is the one of [sra]. *)
Theorem srl_is_sra_on_lp64 (E : ViEnv) (EOk : ViEnvOk E) w s :
  ulong_bits = 64 -> wf s -> trace s = false ->
  Ssrl w s = Ssra w s /\ Ssrlv w s = Ssrav w s.
Proof.
  intros HW Hwf%wf_regfile Ht.
  assert (forall a k, 0 <= k < 32 ->
    s32 (Z.shiftr (ulong (s32 a)) k) = s32 (sra (s32 a) k)) as Hv.
  { intros a k Hk. rewrite sra_spec by (done || by apply wraps_range).
    rewrite <- Z.shiftr_div_pow2 by lia. unfold ulong. rewrite HW.
    apply Z.bits_inj'. intros i Hi. unfold s32. rewrite !tb_wraps by lia.
    set (j := if i <? 32 then i else 32 - 1).
    assert (0 <= j < 32) as Hj by (unfold j; destruct (Z.ltb_spec i 32); lia).
    rewrite !Z.shiftr_spec, tb_wrapu by lia. by rewrite (proj2 (Z.ltb_lt _ _)) by lia. }
  split.
  - unfold Ssrl, Ssra. rewrite !unop_run by auto with vi.
    f_equal. apply set_gpr_eq, Hv, Getshamt_range.
  - unfold Ssrlv, Ssrav. rewrite !binop_run by auto with vi.
    f_equal. rewrite land_31_mod. apply set_gpr_eq, Hv. by apply Z.mod_pos_bound.
Qed.

Lemma srl_is_sra_on_lp64_witness :
  @Ssrl host64 0x00000842 (boot 64) = Ssra 0x00000842 (boot 64)
  /\ @Ssrlv host64 0x00000842 (boot 64) = Ssrav 0x00000842 (boot 64).
Proof.
  apply (srl_is_sra_on_lp64 host64 host64_ok).
  - reflexivity.
  - apply (wf_boot 64). by right.
  - apply (boot_quiet 64). by right.
Defined.

