(* ===== verification/ViExec.v ===== *)
(** [Iexec] and [run]: the type invariant of a whole run, how deep the recursion through
    delay slots goes, when it does not end, and what branches do. *)
From S2P Require Import Prelude CInt ViMachine ViMem ViMemSpec ViArith ViSpecial ViFloat ViRun ViInv ViDemo ViMemThm Mips ViSim ViAlu.

(** ** Which instructions execute a delay slot *)

Definition row_of (w : Z) : nat := Z.to_nat (Z.shiftr w 26).
Definition fn_of (w : Z) : nat := Z.to_nat (Z.land w 0x3f).
Definition mem_nat (k : nat) (l : list nat) : bool := existsb (Nat.eqb k) l.

Definition is_jump (w : Z) : bool :=
  mem_nat (row_of w) [1; 2; 3; 4; 5; 6; 7; 20; 21; 22; 23]%nat
  || ((row_of w =? 0)%nat && mem_nat (fn_of w) [8; 9]%nat)
  || ((row_of w =? 17)%nat &&
      ((Z.land (Z.shiftr w 23) 7 =? 2) || (Z.land (Z.shiftr w 23) 7 =? 3))).

Section Exec.
Context {E : ViEnv} {EOk : ViEnvOk E}.

(** The other instructions do not use the recursive call. *)
Lemma ispec_nonjump ex ex' k :
  mem_nat k [8; 9]%nat = false -> ispec ex !! k = ispec ex' !! k.
Proof.
  intros H. unfold ispec. do 8 (destruct k as [|k]; [reflexivity|]).
  do 2 (destruct k as [|k]; [done|]). reflexivity.
Qed.

Lemma Icop1_nonjump ex ex' w :
  (Z.land (Z.shiftr w 23) 7 =? 2) || (Z.land (Z.shiftr w 23) 7 =? 3) = false ->
  Icop1 ex w = Icop1 ex' w.
Proof.
  unfold Icop1. by destruct (Z.land (Z.shiftr w 23) 7) as [|[[]|[]|]|].
Qed.

Lemma exec1_nonjump ex ex' w : is_jump w = false -> exec1 ex w = exec1 ex' w.
Proof.
  unfold is_jump. intros [[Hrow Hsp]%orb_false_iff Hcop]%orb_false_iff.
  unfold exec1. fold (row_of w). generalize dependent (row_of w). intros k Hrow Hsp Hcop.
  assert (match itab ex !! k with Some f => f w | None => fault end =
          match itab ex' !! k with Some f => f w | None => fault end) as ->; [|done].
  destruct k as [|k].
  { cbn [Nat.eqb andb] in Hsp. simpl. unfold Ispecial. fold (fn_of w).
    by rewrite (ispec_nonjump ex ex'). }
  unfold itab. do 7 (destruct k as [|k]; [done|]).
  do 9 (destruct k as [|k]; [reflexivity|]).
  destruct k as [|k]; [simpl; by apply Icop1_nonjump|].
  do 2 (destruct k as [|k]; [reflexivity|]).
  do 4 (destruct k as [|k]; [done|]). reflexivity.
Qed.

(** ** Computations that agree from the states of a set *)

Definition stays {A} (R : vi -> Prop) (m : M A) : Prop :=
  forall s, R s -> match m s with Ok _ s' => R s' | _ => True end.
Definition same {A} (R : vi -> Prop) (m m' : M A) : Prop := forall s, R s -> m s = m' s.

Lemma same_refl {A} R (m : M A) : same R m m.
Proof. by intros s _. Qed.

Lemma same_bind {A B} R (m : M A) (k k' : A -> M B) :
  stays R m -> (forall a, same R (k a) (k' a)) -> same R (m ≫= k) (m ≫= k').
Proof.
  intros Hm Hk s Hs. specialize (Hm s Hs). unfold mbind, M_bind.
  destruct (m s); try done. by apply Hk.
Qed.

Lemma same_bind_l {A B} R (m m' : M A) (k : A -> M B) :
  same R m m' -> same R (m ≫= k) (m' ≫= k).
Proof. intros Hm s Hs. unfold mbind, M_bind. by rewrite Hm. Qed.

(** ** States about to execute a delay slot that holds [w2] *)

Definition at_slot (p w2 : Z) (s : vi) : Prop :=
  reg_pc (reg s) = p /\ mem_ok s /\ fetchable s (ulong (p + 4))
  /\ view_w s (ulong (p + 4)) = Some w2.

Lemma at_slot_eq p w2 s s' :
  reg_pc (reg s') = reg_pc (reg s) -> memory s' = memory s -> tlb s' = tlb s ->
  textbase s' = textbase s -> iprof_len s' = iprof_len s ->
  at_slot p w2 s -> at_slot p w2 s'.
Proof.
  intros Hpc Hm Ht Hb Hl (H1 & H2 & H3 & H4). unfold at_slot, fetchable, mem_ok, view_w, view,
    pageof, content in *. by rewrite Hpc, Hm, Ht, Hb, Hl.
Qed.

Section Slot.
Context (p w2 : Z).
Abbreviation R := (at_slot p w2).

Lemma stays_gets {A} (f : vi -> A) : stays R (gets f).
Proof. by intros s Hs. Qed.
Lemma stays_modify f :
  (forall s, reg_pc (reg (f s)) = reg_pc (reg s) /\ memory (f s) = memory s
     /\ tlb (f s) = tlb s /\ textbase (f s) = textbase s /\ iprof_len (f s) = iprof_len s) ->
  stays R (modify f).
Proof. intros Hf s Hs. destruct (Hf s) as (? & ? & ? & ? & ?). by eapply at_slot_eq. Qed.
Lemma stays_itrace f l : stays R (itrace f l).
Proof. by apply stays_modify. Qed.
Lemma stays_bump f k : stays R (bump f k).
Proof. by apply stays_modify. Qed.
Lemma stays_tracing m : stays R m -> stays R (tracing m).
Proof. intros Hm s Hs. unfold tracing. destruct (trace s); [by apply Hm|done]. Qed.
Lemma stays_rget i : stays R (rget i).
Proof. intros s Hs. unfold rget. by destruct (reg_r (reg s) !! Z.to_nat i). Qed.
Lemma stays_rset i v : stays R (rset i v).
Proof. intros s Hs. unfold rset. destruct (_ <? _); [|done]. by eapply at_slot_eq. Qed.
Lemma stays_ret {A} (a : A) : stays R (mret a).
Proof. by intros s Hs. Qed.
Lemma stays_bind {A B} (m : M A) (k : A -> M B) :
  stays R m -> (forall a, stays R (k a)) -> stays R (m ≫= k).
Proof.
  intros Hm Hk s Hs. specialize (Hm s Hs). unfold mbind, M_bind.
  destruct (m s); try done. by apply Hk.
Qed.

Context (ex ex' : Z -> M unit) (Hex : forall t, ex w2 t = ex' w2 t).

Lemma same_delay_slot b : same R (delay_slot ex b) (delay_slot ex' b).
Proof.
  intros s (Hpc & Hok & Hf & Hv). unfold delay_slot, mbind, M_bind, gets. rewrite Hpc.
  pose proof (quiet_ifetch s (ulong (p + 4)) Hok Hf) as Hq. unfold quiet, runs in Hq.
  destruct (ifetch (ulong (p + 4)) s) as [w s1| | | |]; try done.
  destruct Hq as (_ & _ & Hw). rewrite Hv in Hw. injection Hw as <-.
  destruct b; simpl; [|apply Hex]. unfold Statbra, mbind, M_bind, gets. cbn.
  destruct (w2 =? INOP); apply Hex.
Qed.

Ltac stays_auto :=
  repeat lazymatch goal with
  | |- stays _ (mbind _ _) => apply stays_bind; [|intros ?]
  | |- stays _ (tracing _) => apply stays_tracing
  | |- stays _ (itrace _ _) => apply stays_itrace
  | |- stays _ (gets _) => apply stays_gets
  | |- stays _ (rget _) => apply stays_rget
  | |- stays _ (rset _ _) => apply stays_rset
  | |- stays _ (mret _) => apply stays_ret
  | |- stays _ skip => apply stays_ret
  | |- stays _ (if ?b then _ else _) => destruct b
  end.

Ltac same_auto :=
  repeat lazymatch goal with
  | |- same _ (mbind _ (delay_slot _ _)) _ => apply same_bind_l, same_delay_slot
  | |- same _ (mbind _ _) _ => apply same_bind; [stays_auto|intros ?]
  | |- same _ (if ?b then _ else _) _ => destruct b
  | |- same _ _ _ => apply same_refl
  end.

Lemma same_jumps i :
  Forall2 (fun f g : Z -> M unit => same R (f i) (g i))
    [Sjr ex; Sjalr ex; Ijal ex; Ij ex; Ibeq ex; Ibne ex; Iblez ex; Ibgtz ex;
     Ibeql ex; Ibnel ex; Iblezl ex; Ibgtzl ex; Ibcfbct ex]
    [Sjr ex'; Sjalr ex'; Ijal ex'; Ij ex'; Ibeq ex'; Ibne ex'; Iblez ex'; Ibgtz ex';
     Ibeql ex'; Ibnel ex'; Iblezl ex'; Ibgtzl ex'; Ibcfbct ex'].
Proof.
  repeat apply Forall2_cons; [..|constructor];
    unfold Sjr, Sjalr, Ijal, Ij, Ibeq, Ibne, Iblez, Ibgtz, Ibeql, Ibnel, Iblezl, Ibgtzl,
      Ibcfbct; repeat split; same_auto.
Qed.

Lemma same_jump i k f g :
  [Sjr ex; Sjalr ex; Ijal ex; Ij ex; Ibeq ex; Ibne ex; Iblez ex; Ibgtz ex;
   Ibeql ex; Ibnel ex; Iblezl ex; Ibgtzl ex; Ibcfbct ex] !! k = Some f ->
  [Sjr ex'; Sjalr ex'; Ijal ex'; Ij ex'; Ibeq ex'; Ibne ex'; Iblez ex'; Ibgtz ex';
   Ibeql ex'; Ibnel ex'; Iblezl ex'; Ibgtzl ex'; Ibcfbct ex'] !! k = Some g ->
  same R (f i) (g i).
Proof. intros Hf Hg. exact (Forall2_lookup_lr _ _ _ _ _ _ (same_jumps i) Hf Hg). Qed.

Lemma same_Ibcond i : same R (Ibcond ex i) (Ibcond ex' i).
Proof.
  unfold Ibcond. apply same_bind; [apply stays_gets|intros pc].
  destruct (bcond_of _) as [[[link neg] likely]|]; [|apply same_refl]. same_auto.
Qed.

Lemma same_Icop1 i : same R (Icop1 ex i) (Icop1 ex' i).
Proof.
  unfold Icop1. destruct (Z.land (Z.shiftr i 23) 7) as [|[[]|[]|]|];
    first [apply same_refl|by apply (same_jump i 12)].
Qed.

Lemma same_Ispecial i : same R (Ispecial ex i) (Ispecial ex' i).
Proof.
  unfold Ispecial. apply same_bind; [by apply stays_modify|intros _].
  apply same_bind; [apply stays_bump|intros _]. fold (fn_of i).
  generalize (fn_of i) as k. intros k. unfold ispec.
  do 8 (destruct k as [|k]; [apply same_refl|]).
  destruct k as [|k]; [by apply (same_jump i 0)|].
  destruct k as [|k]; [by apply (same_jump i 1)|]. apply same_refl.
Qed.

Lemma same_exec1 w : same R (exec1 ex w) (exec1 ex' w).
Proof.
  unfold exec1. apply same_bind; [by apply stays_modify|intros _].
  apply same_bind; [apply stays_bump|intros _]. fold (row_of w).
  generalize (row_of w) as k. intros k. unfold itab.
  destruct k as [|k]; [apply same_Ispecial|].
  destruct k as [|k]; [apply same_Ibcond|].
  destruct k as [|k]; [by apply (same_jump w 3)|].
  destruct k as [|k]; [by apply (same_jump w 2)|].
  destruct k as [|k]; [by apply (same_jump w 4)|].
  destruct k as [|k]; [by apply (same_jump w 5)|].
  destruct k as [|k]; [by apply (same_jump w 6)|].
  destruct k as [|k]; [by apply (same_jump w 7)|].
  do 9 (destruct k as [|k]; [apply same_refl|]).
  destruct k as [|k]; [apply same_Icop1|].
  do 2 (destruct k as [|k]; [apply same_refl|]).
  destruct k as [|k]; [by apply (same_jump w 8)|].
  destruct k as [|k]; [by apply (same_jump w 9)|].
  destruct k as [|k]; [by apply (same_jump w 10)|].
  destruct k as [|k]; [by apply (same_jump w 11)|]. apply same_refl.
Qed.
End Slot.

(** ** Termination *)

Lemma wf_at_slot s w2 :
  wf s -> fetchable s (ulong (reg_pc (reg s) + 4)) ->
  view_w s (ulong (reg_pc (reg s) + 4)) = Some w2 -> at_slot (reg_pc (reg s)) w2 s.
Proof. intros [Hm _] Hf Hv. by split_and!. Qed.

(** The recursive call as it acts on a slot that is not a jump. *)
Definition flat_exec (w : Z) : M unit :=
  if is_jump w then skip else exec1 (fun _ => skip) w.

Lemma Iexec_flat n w : is_jump w = false -> forall t, Iexec (S n) w t = flat_exec w t.
Proof.
  intros Hj t. rewrite Iexec_S. unfold flat_exec. rewrite Hj.
  by rewrite (exec1_nonjump (Iexec n) (fun _ => skip)).
Qed.

Lemma keeps_flat_exec {EK : EnvKeeps False} w : keeps False (fun _ => True) (flat_exec w).
Proof.
  unfold flat_exec. destruct (is_jump w); [by apply keeps_skip|].
  apply (keeps_exec1 False). intros. by apply keeps_skip.
Qed.

Lemma Iexec_slot n w w2 s :
  is_jump w2 = false -> at_slot (reg_pc (reg s)) w2 s ->
  Iexec (S (S n)) w s = exec1 flat_exec w s.
Proof.
  intros Hj Hs. rewrite Iexec_S.
  apply (same_exec1 (reg_pc (reg s)) w2); [|done]. by apply Iexec_flat.
Qed.

(** ** A jump in its own delay slot *)

Definition is_j (w : Z) : Prop := Z.shiftr w 26 = 2.

Lemma j_in_slot_diverges n p w2 s :
  is_j w2 -> at_slot p w2 s -> Iexec n w2 s = Diverge.
Proof.
  intros Hj. revert s. induction n as [|n IH]; intros s Hs; [done|].
  rewrite (Iexec_row n w2 s (Ij (Iexec n))) by by rewrite Hj.
  assert (at_slot p w2 (enter (row_itab (Z.shiftr w2 26)) s)) as Hs1 by by eapply at_slot_eq.
  set (s1 := enter _ s) in *. clearbody s1. clear Hs.
  assert (same (at_slot p w2) (Ij (Iexec n) w2) diverge) as H; [|by apply H].
  unfold Ij. intros t Ht. unfold mbind, M_bind, gets.
  set (npc := jtarget _ _).
  pose proof (stays_tracing p w2 _ (stays_itrace p w2 "j\t0x%lux" [npc]) t Ht) as Htr.
  unfold tracing in *.
  assert (forall u, at_slot p w2 u -> delay_slot (Iexec n) true u = Diverge) as Hd.
  { intros u (Hpc & Hok & Hf & Hv). unfold delay_slot, mbind, M_bind, gets. rewrite Hpc.
    pose proof (quiet_ifetch u (ulong (p + 4)) Hok Hf) as Hq. unfold quiet, runs in Hq.
    destruct (ifetch (ulong (p + 4)) u) as [w u1| | | |]; try done.
    destruct Hq as (Heq & Hok1 & Hw). rewrite Hv in Hw. injection Hw as <-.
    assert (at_slot p w2 u1) as Hu1.
    { split_and!; [by rewrite (re_reg u1 u) by apply Heq|done| |].
      - destruct Hf as (Ha & Hi & Hp). split_and!; [done| |].
        + rewrite (re_textbase u1 u), (re_iprof_len u1 u) by apply Heq. done.
        + by rewrite (arch_eq_pageof u1 u).
      - by rewrite (arch_eq_view_w u1 u). }
    unfold Statbra, mbind, M_bind, gets. cbn. destruct (w2 =? INOP); apply IH; by eapply at_slot_eq. }
  destruct (trace t); [|by rewrite (Hd t)]. cbn in *. by rewrite Hd.
Qed.

(** ** Branches *)

(** Equal up to paging and bookkeeping. *)
Definition meq (s t : vi) : Prop := mem_eq s t /\ regs_eq (forget s) (forget t).

#[global] Instance meq_equiv : Equivalence meq.
Proof.
  split.
  - by intros s.
  - intros s t []. split; by symmetry.
  - intros s t u [] []. split; etrans; eassumption.
Qed.

Lemma sim_memory s t : sim s t -> memory s = memory t.
Proof. intros H. exact (memory_sim s t H). Qed.

Lemma sim_meq s t : sim s t -> meq s t.
Proof.
  intros H. split; [|by rewrite H]. pose proof (sim_memory s t H) as Hm.
  split; intros; unfold pageof, content; by rewrite Hm.
Qed.

Lemma arch_eq_meq s t : arch_eq s t -> meq s t.
Proof. intros [Hm Hr]. split; [done|]. destruct Hr. split; cbn; congruence. Qed.

Lemma delay_slot_run ex b p w2 s :
  at_slot p w2 s ->
  exists s1, delay_slot ex b s = ex w2 s1 /\ meq s1 s /\ reg_ir (reg s1) = w2 /\ mem_ok s1.
Proof.
  intros (Hpc & Hok & Hf & Hv). unfold delay_slot, mbind, M_bind, gets. rewrite Hpc.
  pose proof (quiet_ifetch s (ulong (p + 4)) Hok Hf) as Hq. unfold quiet, runs in Hq.
  destruct (ifetch (ulong (p + 4)) s) as [w u| | | |]; try done.
  destruct Hq as (Heq & Hok1 & Hw). rewrite Hv in Hw. injection Hw as <-.
  assert (forall i, meq (set_istat i (set_ir w2 u)) s) as Hi.
  { intros i. transitivity u; [by apply sim_meq|by apply arch_eq_meq]. }
  destruct b; simpl.
  - unfold Statbra, mbind, M_bind, gets. cbn.
    destruct (w2 =? INOP); (eexists; split; [reflexivity|]); split_and!; try done; try apply Hi.
  - eexists. split; [reflexivity|]. split_and!; [|done|done].
    transitivity u; [by apply sim_meq|by apply arch_eq_meq].
Qed.

Definition branch_target (pc w : Z) : Z := ulong (pc + 4 + 4 * simm w).

(** What a branch handler does with its condition. *)
Definition does_branch (n : nat) (m : M unit) (s : vi) (w w2 : Z) (taken : bool) : Prop :=
  if taken then
    exists s1, meq s1 s /\ reg_ir (reg s1) = w2 /\ mem_ok s1
      /\ m s = (Iexec n w2;; goto (branch_target (reg_pc (reg s)) w)) s1
  else m s = Ok tt s.

Lemma btarget_spec pc w : btarget pc (simm w) = branch_target pc w.
Proof.
  unfold btarget, branch_target. f_equal. rewrite Z.shiftl_mul_pow2 by lia.
  unfold s32. rewrite wraps_id; [lia|lia|]. unfold in_s, simm, s16.
  pose proof (wraps_range 16 (Z.land w 0xffff) ltac:(lia)) as H. unfold in_s in H. lia.
Qed.

Lemma branch_run n b (c : bool) p w w2 s :
  at_slot p w2 s -> reg_pc (reg s) = p ->
  does_branch n (if c then delay_slot (Iexec n) b;; goto (btarget p (simm w)) else skip)
    s w w2 c.
Proof.
  intros Hs Hp. destruct c; [|done].
  destruct (delay_slot_run (Iexec n) b p w2 s Hs) as (s1 & Hd & Hm & Hir & Hok).
  exists s1. split_and!; [done..|]. unfold mbind, M_bind. by rewrite Hd, btarget_spec, Hp.
Qed.

Lemma s32_inj a b : 0 <= a < 2 ^ 32 -> 0 <= b < 2 ^ 32 -> (s32 a =? s32 b) = (a =? b).
Proof.
  intros Ha Hb. rewrite !s32_cases by done.
  destruct (Z.ltb_spec a (2 ^ 31)), (Z.ltb_spec b (2 ^ 31)), (Z.eqb_spec a b);
    first [done|apply Z.eqb_eq; lia|apply Z.eqb_neq; lia].
Qed.

(** The sign test of the handlers. *)
Lemma sign_test x : (Z.land (s32 x) SIGNBIT =? 0) = (0 <=? s32 x).
Proof.
  assert (in_s 32 (s32 x)) as Hx by by apply wraps_range. generalize dependent (s32 x).
  intros y Hy. unfold SIGNBIT. change 0x80000000 with (Z.shiftl 1 31).
  assert (Z.land y (Z.shiftl 1 31) = if y <? 0 then 2 ^ 31 else 0) as ->.
  { apply Z.bits_inj'. intros i Hi. rewrite Z.land_spec, Z.shiftl_1_l.
    rewrite Z.pow2_bits_eqb by lia. destruct (Z.eqb_spec 31 i) as [<-|Hne].
    - rewrite (in_s_sign_bits 32) by (done || lia).
      destruct (y <? 0); [by rewrite Z.pow2_bits_true|by rewrite Z.bits_0].
    - rewrite andb_false_r. destruct (y <? 0); [|by rewrite Z.bits_0].
      rewrite Z.pow2_bits_false by lia. done. }
  destruct (Z.ltb_spec y 0), (Z.leb_spec 0 y); try done; lia.
Qed.

Lemma sign_test_ulong x :
  0 <= x < 2 ^ 32 -> (Z.land (ulong (s32 x)) SIGNBIT =? 0) = (0 <=? s32 x).
Proof.
  intros Hx. rewrite <- sign_test. f_equal. unfold SIGNBIT, ulong.
  change 0x80000000 with (Z.shiftl 1 31). pose proof ulong_bits_ge.
  apply Z.bits_inj'. intros i Hi. rewrite !Z.land_spec, tb_wrapu by lia.
  rewrite Z.shiftl_1_l, Z.pow2_bits_eqb by lia.
  destruct (Z.eqb_spec 31 i); [|by rewrite !andb_false_r].
  by rewrite (proj2 (Z.ltb_lt _ _)) by lia.
Qed.

Lemma ulong_zero x : 0 <= x < 2 ^ 32 -> (ulong (s32 x) =? 0) = (s32 x =? 0).
Proof.
  intros Hx. rewrite ulong_s32, s32_cases by done. pose proof ulong_bits_ge.
  pose proof (Z.pow_le_mono_r 2 32 ulong_bits).
  destruct (Z.ltb_spec x (2 ^ 31)); [done|].
  rewrite (proj2 (Z.eqb_neq _ _)) by lia. symmetry. apply Z.eqb_neq. lia.
Qed.

Lemma two_regs {A} (m : Z -> M unit) a b (k : Z -> Z -> Z -> M A) s :
  regfile s -> trace s = false -> 0 <= a < 32 -> 0 <= b < 32 ->
  (pc ← gets (fun s => reg_pc (reg s)); tracing (m pc);; v ← rget a; t ← rget b; k pc v t) s
  = k (reg_pc (reg s)) (s32 (gpr s a)) (s32 (gpr s b)) s.
Proof.
  intros Hr Ht Ha Hb. unfold mbind, M_bind, gets. rewrite tracing_off by done.
  by rewrite !rget_run by done.
Qed.

Lemma one_reg {A} (m : Z -> M unit) a (k : Z -> Z -> M A) s :
  regfile s -> trace s = false -> 0 <= a < 32 ->
  (pc ← gets (fun s => reg_pc (reg s)); tracing (m pc);; v ← rget a; k pc v) s
  = k (reg_pc (reg s)) (s32 (gpr s a)) s.
Proof.
  intros Hr Ht Ha. unfold mbind, M_bind, gets. rewrite tracing_off by done.
  by rewrite rget_run by done.
Qed.

(** The handlers of the conditional branches, from a state with its slot in reach. *)
Lemma branch_handlers n w w2 s :
  regfile s -> trace s = false -> at_slot (reg_pc (reg s)) w2 s ->
  let a := gpr s (Getrs w) in let b := gpr s (Getrt w) in
  does_branch n (Ibeq (Iexec n) w) s w w2 (a =? b)
  /\ does_branch n (Ibne (Iexec n) w) s w w2 (negb (a =? b))
  /\ does_branch n (Iblez (Iexec n) w) s w w2 (s32 a <=? 0)
  /\ does_branch n (Ibgtz (Iexec n) w) s w w2 (0 <? s32 a)
  /\ (Getrt w = 0 -> does_branch n (Ibcond (Iexec n) w) s w w2 (s32 a <? 0))
  /\ (Getrt w = 1 -> does_branch n (Ibcond (Iexec n) w) s w w2 (0 <=? s32 a)).
Proof.
  intros Hr Ht Hs a b. pose proof (gpr_range s (Getrs w)) as Ha.
  assert (forall (m : M unit) f c c', c = c' ->
    m s = (if (c : bool) then delay_slot (Iexec n) f;; goto (btarget (reg_pc (reg s)) (simm w))
           else skip) s -> does_branch n m s w w2 c') as Hd.
  { intros m f c c' <- Hm. pose proof (branch_run n f c (reg_pc (reg s)) w w2 s Hs eq_refl) as H.
    unfold does_branch in *. destruct c; [|by rewrite Hm].
    destruct H as (s1 & ? & ? & ? & H). exists s1. by rewrite Hm. }
  split_and!.
  - eapply (Hd _ true); [|unfold Ibeq; by rewrite two_regs by auto with vi].
    apply s32_inj; apply gpr_range.
  - eapply (Hd _ true); [|unfold Ibne; by rewrite two_regs by auto with vi].
    f_equal. apply s32_inj; apply gpr_range.
  - eapply (Hd _ true); [|unfold Iblez; by rewrite one_reg by auto with vi].
    rewrite sign_test_ulong, ulong_zero by done.
    destruct (Z.leb_spec 0 (s32 (gpr s (Getrs w)))), (Z.eqb_spec (s32 (gpr s (Getrs w))) 0),
      (Z.leb_spec (s32 a) 0); first [done|unfold a in *; lia].
  - eapply (Hd _ false); [|unfold Ibgtz; by rewrite one_reg by auto with vi].
    rewrite sign_test_ulong, ulong_zero by done.
    destruct (Z.leb_spec 0 (s32 (gpr s (Getrs w)))), (Z.eqb_spec (s32 (gpr s (Getrs w))) 0),
      (Z.ltb_spec 0 (s32 a)); first [done|unfold a in *; lia].
  - intros Hrt. eapply (Hd _ true).
    2: { unfold Ibcond. rewrite Hrt. cbn [bcond_of]. unfold mbind, M_bind, gets.
         simpl. rewrite rget_run by auto with vi. rewrite tracing_off by done. reflexivity. }
    fold a. rewrite sign_test. destruct (Z.leb_spec 0 (s32 a)), (Z.ltb_spec (s32 a) 0);
      first [done|lia].
  - intros Hrt. eapply (Hd _ true).
    2: { unfold Ibcond. rewrite Hrt. cbn [bcond_of]. unfold mbind, M_bind, gets.
         simpl. rewrite rget_run by auto with vi. rewrite tracing_off by done. reflexivity. }
    fold a. rewrite sign_test. by destruct (0 <=? s32 a).
Qed.

(** A conditional branch, run by [Iexec]. *)
Lemma branch_Iexec n w w2 s taken :
  regfile s -> trace s = false -> at_slot (reg_pc (reg s)) w2 s -> branch w (gpr s) = Some taken ->
  if taken then
    exists s1, meq s1 s /\ reg_ir (reg s1) = w2 /\ mem_ok s1
      /\ Iexec (S n) w s = (Iexec n w2;; goto (branch_target (reg_pc (reg s)) w)) s1
  else exists s1, sim s1 s /\ Iexec (S n) w s = Ok tt s1.
Proof.
  intros Hr Ht Hs Hb.
  set (s0 := enter (row_itab (Z.shiftr w 26)) s).
  assert (at_slot (reg_pc (reg s0)) w2 s0) as Hs0 by by eapply at_slot_eq.
  pose proof (branch_handlers n w w2 s0 Hr Ht Hs0) as (Beq & Bne & Blez & Bgtz & Bltz & Bgez).
  change (gpr s0) with (gpr s) in *.
  assert (forall f : Z -> M unit, itab (Iexec n) !! Z.to_nat (Z.shiftr w 26) = Some f ->
    does_branch n (f w) s0 w w2 taken ->
    if taken then
      exists s1, meq s1 s /\ reg_ir (reg s1) = w2 /\ mem_ok s1
        /\ Iexec (S n) w s = (Iexec n w2;; goto (branch_target (reg_pc (reg s)) w)) s1
    else exists s1, sim s1 s /\ Iexec (S n) w s = Ok tt s1) as Hrow.
  { intros f Hf' Hd. rewrite (Iexec_row n w s f Hf'). fold s0. unfold does_branch in Hd.
    destruct taken.
    - destruct Hd as (s1 & Hm & Hir & Hok & Hd). exists s1. split_and!; [|done..].
      etrans; [exact Hm|]. by apply sim_meq.
    - exists s0. by split. }
  unfold branch in Hb.
  destruct (Z.shiftr w 26) as [|q|q] eqn:Hop; [done|repeat (destruct q as [q|q|]; try done)|done];
    (eapply Hrow; [reflexivity|]).
  - by injection Hb as <-.
  - by injection Hb as <-.
  - by injection Hb as <-.
  - by injection Hb as <-.
  - destruct (Getrt w) as [|q|q] eqn:Hrt; [|destruct q; try done|done]; injection Hb as <-; auto.
Qed.
End Exec.

(** ** The theorems *)

(** C19: the type invariant of the machine (every register in the range of its C type, 32
    general registers, segments whose tables and pages have their sizes) is kept by a whole
    [run], whatever the program and however the run ends, if the system calls and the call
    tree keep it. *)
Theorem run_keeps_wf (E : ViEnv) (EOk : ViEnvOk E) steps fuel s :
  EnvKeeps True -> wf s ->
  match run steps fuel s with
  | Ok _ s' | Longjmp s' | Exits s' => wf s'
  | Fault | Diverge => True
  end.
Proof.
  intros EK Hs. pose proof (keeps_run True I steps fuel s Hs) as H.
  destruct (run steps fuel s); try done. by destruct H.
Qed.

Lemma run_keeps_wf_witness :
  match @run host64 6 2 (set_count 6 (boot 64)) with
  | Ok _ s' | Longjmp s' | Exits s' => wf (E := host64) s'
  | Fault | Diverge => True
  end.
Proof.
  apply (run_keeps_wf host64 host64_ok 6 2 (set_count 6 (boot 64))).
  - apply host_keeps.
  - destruct (wf_boot 64 (or_intror eq_refl)) as [[Hm Ht] []]. split; [by split|by split].
Defined.

(** C29: [Iexec] always returns when the delay slot of the instruction does not itself hold a
    jump or branch: recursion depth 2 is enough, more changes nothing, and the result is not
    divergence. *)
Theorem Iexec_terminates (E : ViEnv) (EOk : ViEnvOk E) n w w2 s :
  EnvKeeps False -> wf s -> fetchable s (ulong (reg_pc (reg s) + 4)) ->
  view_w s (ulong (reg_pc (reg s) + 4)) = Some w2 -> is_jump w2 = false ->
  Iexec (S (S n)) w s = Iexec 2 w s /\ Iexec (S (S n)) w s <> Diverge.
Proof.
  intros EK Hwf Hf Hv Hj. pose proof (wf_at_slot s w2 Hwf Hf Hv) as Hs.
  rewrite !(Iexec_slot _ w w2) by done. split; [done|].
  pose proof (keeps_exec1 False flat_exec w keeps_flat_exec s Hwf) as Hk.
  by destruct (exec1 flat_exec w s).
Qed.

Definition boot_fetchable (bits a : Z) : Prop := @fetchable (host bits) (boot bits) a.

Lemma boot_fetch bits a :
  bits = 32 \/ bits = 64 -> 0x4020 <= a < 0x4040 -> a mod 4 = 0 -> boot_fetchable bits a.
Proof.
  intros Hb Ha Hal. split; [done|].
  assert (exists k, a = 0x4020 + 4 * k /\ 0 <= k < 8) as (k & -> & Hk).
  { exists ((a - 0x4020) / 4). Z.div_mod_to_equations. lia. }
  assert (k = 0 \/ k = 1 \/ k = 2 \/ k = 3 \/ k = 4 \/ k = 5 \/ k = 6 \/ k = 7)
    as [-> | [-> | [-> | [-> | [-> | [-> | [-> | ->]]]]]]] by lia;
    destruct Hb as [-> | ->]; (split; [by vm_compute|vm_compute; by eexists]).
Qed.

Definition boot_at (bits pc : Z) : vi := set_pc pc (boot bits).

Lemma wf_boot_at bits pc :
  bits = 32 \/ bits = 64 -> 0 <= pc < 2 ^ 32 -> wf (E := host bits) (boot_at bits pc).
Proof.
  intros Hb Hpc. destruct (wf_boot bits Hb) as [[Hm Ht] []]. split; [by split|].
  split; try done. cbn. unfold in_u. pose proof (Z.pow_le_mono_r 2 32 bits). lia.
Qed.

Lemma Iexec_terminates_witness :
  @Iexec host32 5 0x08001010 (boot_at 32 0x4030) = @Iexec host32 2 0x08001010 (boot_at 32 0x4030)
  /\ @Iexec host32 5 0x08001010 (boot_at 32 0x4030) <> Diverge.
Proof.
  apply (Iexec_terminates host32 host32_ok 3 0x08001010 0xac018000 (boot_at 32 0x4030)).
  - apply host_keeps.
  - apply (wf_boot_at 32); [by left|done].
  - apply (boot_fetch 32 0x4034); [by left|done|done].
  - by vm_compute.
  - by vm_compute.
Defined.

(** C39: a [j] in its own delay slot never returns: [Iexec] fetches the slot relative to the
    unchanged pc, finds the jump again, and recurses without bound (the C stack overflows),
    whatever recursion depth is allowed. *)
Theorem jump_in_delay_slot_diverges (E : ViEnv) (EOk : ViEnvOk E) fuel w s :
  wf s -> is_j w -> fetchable s (ulong (reg_pc (reg s) + 4)) ->
  view_w s (ulong (reg_pc (reg s) + 4)) = Some w ->
  Iexec fuel w s = Diverge.
Proof. intros Hwf Hj Hf Hv. by eapply j_in_slot_diverges, wf_at_slot. Qed.

Lemma jump_in_delay_slot_diverges_witness :
  @Iexec host64 100 0x08001010 (boot_at 64 0x402c) = Diverge.
Proof.
  apply (jump_in_delay_slot_diverges host64 host64_ok 100 0x08001010 (boot_at 64 0x402c)).
  - apply (wf_boot_at 64); [by right|done].
  - by vm_compute.
  - apply (boot_fetch 64 0x4030); [by right|done|done].
  - by vm_compute.
Defined.

(** C28: [beq], [bne], [blez], [bgtz], [bltz] and [bgez] decide as the architecture does. A
    branch not taken changes nothing; a branch taken executes the word after it first, with
    the pc still at the branch, and only then moves the pc to 4 before the target, which the
    loop of [run] completes. *)
Theorem branch_correct (E : ViEnv) (EOk : ViEnvOk E) n w w2 s taken :
  wf s -> trace s = false -> fetchable s (ulong (reg_pc (reg s) + 4)) ->
  view_w s (ulong (reg_pc (reg s) + 4)) = Some w2 -> branch w (gpr s) = Some taken ->
  if taken then
    exists s1, meq s1 s /\ reg_ir (reg s1) = w2
      /\ Iexec (S n) w s = (Iexec n w2;; goto (branch_target (reg_pc (reg s)) w)) s1
  else exists s1, sim s1 s /\ Iexec (S n) w s = Ok tt s1.
Proof.
  intros Hwf Ht Hf Hv Hb. pose proof (wf_at_slot s w2 Hwf Hf Hv) as Hs.
  apply wf_regfile in Hwf. pose proof (branch_Iexec n w w2 s taken Hwf Ht Hs Hb) as H.
  destruct taken; [|done]. destruct H as (s1 & ? & ? & _ & ?). by exists s1.
Qed.

Lemma branch_correct_witness :
  exists s1, meq (E := host64) s1 (boot_at 64 0x4024) /\ reg_ir (reg s1) = 0x24210007
    /\ @Iexec host64 2 0x10200002 (boot_at 64 0x4024)
       = (@Iexec host64 1 0x24210007;; goto (E := host64) 0x4030) s1.
Proof.
  apply (branch_correct host64 host64_ok 1 0x10200002 0x24210007 (boot_at 64 0x4024) true).
  - apply (wf_boot_at 64); [by right|done].
  - reflexivity.
  - apply (boot_fetch 64 0x4028); [by right|done|done].
  - by vm_compute.
  - by vm_compute.
Defined.
