(* ===== verification/ViUnaligned.v ===== *)
(** The unaligned loads [lwl] and [lwr] against the big-endian architecture. *)
From S2P Require Import Prelude CInt ViMachine ViMem ViMemSpec ViSpecial ViFloat ViRun ViInv ViDemo ViMemThm Mips ViSim ViAlu ViExec.

(** [k] is the address modulo 4, [m] the aligned word around it, [t] the register. *)
Definition lwl_spec (k m t : Z) : Z := Z.lor (u32 (Z.shiftl m (8 * k))) (Z.land t (Z.ones (8 * k))).
Definition lwr_spec (k m t : Z) : Z :=
  Z.lor (Z.shiftr m (8 * (3 - k))) (Z.land t (Z.lnot (Z.ones (8 * (k + 1))))).

Section Unaligned.
Context {E : ViEnv} {EOk : ViEnvOk E}.

(** The effective address of [w] in [s], and the aligned one. *)
Definition va_of (w : Z) (s : vi) : Z := ulong (ea (s32 (gpr s (Getrs w))) (simm w)).
Definition wa_of (w : Z) (s : vi) : Z := Z.land (va_of w s) (Z.lnot 3).

Lemma wa_aligned w s : wa_of w s mod 4 = 0.
Proof.
  unfold wa_of. rewrite <- land3_mod, <- Z.land_assoc.
  change (Z.land (Z.lnot 3) 3) with 0. apply Z.land_0_r.
Qed.

Lemma tracing_load_off fmt rt off rb va n get s :
  trace s = false -> trace_load fmt rt off rb va n get s = Ok tt s.
Proof. intros Ht. unfold trace_load. by apply tracing_off. Qed.

(** The common part of the handlers: the aligned word and the old register. *)
Lemma load_prefix {A} fmt n get w s m (k : Z -> Z -> Z -> M A) :
  wf s -> trace s = false -> membpt s = 0 -> view_w s (wa_of w s) = Some m ->
  exists s1, meq s1 s /\ regfile s1 /\ trace s1 = false /\
    (b ← rget (Getrs w);
     trace_load fmt (Getrt w) (simm w) (Getrs w) (ulong (ea b (simm w))) n (get b);;
     v ← getmem_w (Z.land (ulong (ea b (simm w))) (Z.lnot 3));
     t ← rget (Getrt w); k b v t) s
    = k (s32 (gpr s (Getrs w))) m (s32 (gpr s (Getrt w))) s1.
Proof.
  intros Hwf Ht Hm Hv. pose proof (wf_regfile s Hwf) as Hr.
  destruct (runs_getmem_w s (wa_of w s) m (wf_mem s Hwf) Hm (wa_aligned w s) Hv)
    as (s1 & Hg & Heq & _).
  assert (regfile s1) as Hr1 by (unfold regfile; by rewrite (re_reg s1 s) by apply Heq).
  exists s1. split_and!; [by apply arch_eq_meq|done|by rewrite (re_trace s1 s) by apply Heq|].
  unfold mbind, M_bind. rewrite rget_run by auto with vi.
  rewrite tracing_load_off by done. fold (va_of w s). fold (wa_of w s). rewrite Hg.
  rewrite rget_run by auto with vi. unfold gpr. by rewrite (re_reg s1 s) by apply Heq.
Qed.

Lemma va_mod4 w s : Z.land (va_of w s) 3 = va_of w s mod 4.
Proof. apply land3_mod. Qed.

Lemma mod4_cases x : x mod 4 = 0 \/ x mod 4 = 1 \/ x mod 4 = 2 \/ x mod 4 = 3.
Proof. pose proof (Z.mod_pos_bound x 4). lia. Qed.

#[global] Instance set_gpr_meq d v : Proper (meq ==> meq) (set_gpr d v).
Proof.
  intros s t [Hm Hr]. split.
  - split; intros; apply Hm; done.
  - destruct Hr as [Hreg]. split; try done. unfold forget in *. cbn in *.
    injection Hreg as -> -> -> -> -> -> ->. done.
Qed.

Lemma s32_lwl k v t :
  0 <= k < 4 -> in_u 32 v ->
  s32 (Z.lor (ulong (Z.shiftl v (8 * k))) (ulong (Z.land (s32 t) (Z.ones (8 * k))))) =
    s32 (lwl_spec k v t).
Proof.
  intros Hk Hv. pose proof ulong_bits_ge. unfold lwl_spec, ulong, u32, s32.
  apply Z.bits_inj'. intros i Hi. rewrite !tb_wraps by lia.
  set (j := if i <? 32 then i else 32 - 1).
  assert (0 <= j < 32) as Hj by (unfold j; destruct (Z.ltb_spec i 32); lia).
  rewrite !Z.lor_spec, !tb_wrapu, !Z.land_spec, tb_wraps by lia.
  rewrite !(proj2 (Z.ltb_lt j _)) by lia. done.
Qed.

Lemma getmem_range s a m : mem_ok s -> view_w s a = Some m -> in_u 32 m.
Proof.
  unfold view_w. intros Hok Hv.
  destruct (view s a), (view s (a + 1)), (view s (a + 2)), (view s (a + 3)); try done.
  injection Hv as <-. by apply wrapu_range.
Qed.

Lemma lwl_run w s m :
  wf s -> trace s = false -> membpt s = 0 -> view_w s (wa_of w s) = Some m ->
  exists s', Ilwl w s = Ok tt s' /\
    meq s' (set_gpr (Getrt w) (lwl_spec (va_of w s mod 4) m (gpr s (Getrt w))) s).
Proof.
  intros Hwf Ht Hm Hv. pose proof (getmem_range s _ m (wf_mem s Hwf) Hv) as Hmr.
  unfold Ilwl.
  edestruct (load_prefix (A := unit)) as (s1 & Heq & Hr1 & Ht1 & Hrun);
    [done..|exact Hv|]. rewrite Hrun. clear Hrun.
  cbv beta zeta. fold (va_of w s). rewrite va_mod4.
  assert (forall x, s32 x = s32 (lwl_spec (va_of w s mod 4) m (gpr s (Getrt w))) ->
    exists s', rset (Getrt w) x s1 = Ok tt s' /\
      meq s' (set_gpr (Getrt w) (lwl_spec (va_of w s mod 4) m (gpr s (Getrt w))) s)) as Hx.
  { intros x Hx. rewrite rset_run by auto with vi. eexists. split; [reflexivity|].
    rewrite (set_gpr_eq _ _ _ s1 Hx). by rewrite Heq. }
  pose proof (s32_lwl (va_of w s mod 4) m (gpr s (Getrt w))) as Hl.
  destruct (mod4_cases (va_of w s)) as [Hk | [Hk | [Hk | Hk]]]; rewrite Hk in *; apply Hx;
    rewrite <- Hl by (done || lia); try reflexivity.
  simpl. rewrite Z.land_0_r, Z.lor_0_r, Z.shiftl_0_r.
  unfold ulong, s32. by rewrite wraps_wrapu by (pose proof ulong_bits_ge; lia).
Qed.

Lemma s32_lwr k v t :
  0 <= k < 3 -> in_u 32 v ->
  s32 (Z.lor (Z.shiftr v (8 * (3 - k)))
         (Z.land (u32 (s32 t)) (2 ^ 32 - 2 ^ (8 * (k + 1))))) = s32 (lwr_spec k v t).
Proof.
  intros Hk Hv. unfold lwr_spec, u32, s32.
  assert (forall j, 0 <= j < 32 -> Z.testbit (2 ^ 32 - 2 ^ (8 * (k + 1))) j =
    Z.testbit (Z.lnot (Z.ones (8 * (k + 1)))) j) as Hmask.
  { intros j Hj. rewrite <- (Z.mod_pow2_bits_low (Z.lnot _) 32) by lia. f_equal.
    unfold Z.lnot. rewrite Z.ones_equiv. rewrite <- (Z.mod_add _ 1) by lia.
    rewrite Z.mod_small; [lia|].
    pose proof (Z.pow_le_mono_r 2 (8 * (k + 1)) 32). pose proof (Z.pow_pos_nonneg 2 (8 * (k + 1))). lia. }
  apply Z.bits_inj'. intros i Hi. rewrite !tb_wraps by lia.
  set (j := if i <? 32 then i else 32 - 1).
  assert (0 <= j < 32) as Hj by (unfold j; destruct (Z.ltb_spec i 32); lia).
  rewrite !Z.lor_spec, !Z.land_spec, Hmask, tb_wrapu, tb_wraps by lia.
  by rewrite !(proj2 (Z.ltb_lt j _)) by lia.
Qed.

Lemma lwr_run w s m :
  wf s -> trace s = false -> membpt s = 0 -> view_w s (wa_of w s) = Some m ->
  exists s', Ilwr w s = Ok tt s' /\
    meq s' (if va_of w s mod 4 =? 0 then s
            else set_gpr (Getrt w) (lwr_spec (va_of w s mod 4 - 1) m (gpr s (Getrt w))) s).
Proof.
  intros Hwf Ht Hm Hv. pose proof (getmem_range s _ m (wf_mem s Hwf) Hv) as Hmr.
  unfold Ilwr.
  edestruct (load_prefix (A := unit)) as (s1 & Heq & Hr1 & Ht1 & Hrun);
    [done..|exact Hv|]. rewrite Hrun. clear Hrun.
  cbv beta zeta. fold (va_of w s). rewrite va_mod4.
  assert (forall k x, s32 x = s32 (lwr_spec k m (gpr s (Getrt w))) ->
    exists s', rset (Getrt w) x s1 = Ok tt s' /\
      meq s' (set_gpr (Getrt w) (lwr_spec k m (gpr s (Getrt w))) s)) as Hx.
  { intros k x Hx. rewrite rset_run by auto with vi. eexists. split; [reflexivity|].
    rewrite (set_gpr_eq _ _ _ s1 Hx). by rewrite Heq. }
  destruct (mod4_cases (va_of w s)) as [Hk | [Hk | [Hk | Hk]]]; rewrite Hk.
  - exists s1. by split.
  - apply (Hx 0). by apply (s32_lwr 0).
  - apply (Hx 1). by apply (s32_lwr 1).
  - apply (Hx 2). by apply (s32_lwr 2).
Qed.
End Unaligned.

(** C34: [lwl] from any mapped address replaces the high bytes of the register by the bytes
    from the address to the end of its word, as the big-endian architecture defines. *)
Theorem lwl_correct (E : ViEnv) (EOk : ViEnvOk E) w s m :
  wf s -> trace s = false -> membpt s = 0 -> view_w s (wa_of w s) = Some m ->
  exists s', Ilwl w s = Ok tt s' /\
    meq s' (set_gpr (Getrt w) (lwl_spec (va_of w s mod 4) m (gpr s (Getrt w))) s).
Proof. apply lwl_run. Qed.

Lemma lwl_correct_witness :
  exists s', @Ilwl host64 0x88018001 (set_gpr 0 0x10004 (boot 64)) = Ok tt s' /\
    meq (E := host64) s' (set_gpr 1 (lwl_spec 1 0xf5060708 0) (set_gpr 0 0x10004 (boot 64))).
Proof.
  apply (lwl_correct host64 host64_ok 0x88018001 (set_gpr 0 0x10004 (boot 64)) 0xf5060708).
  - destruct (wf_boot 64 (or_intror eq_refl)) as [[Hm Ht] []]. split; [by split|]. split; try done.
    cbn. apply Forall_insert; [done|]. by apply wraps_range.
  - reflexivity.
  - reflexivity.
  - by vm_compute.
Defined.

(** C38: [lwr] is one byte off: from an address that is [k] modulo 4 it does what the
    architecture defines for [k - 1], and nothing at all when [k] is 0, where the
    architecture replaces the low byte. *)
Theorem lwr_off_by_one (E : ViEnv) (EOk : ViEnvOk E) w s m :
  wf s -> trace s = false -> membpt s = 0 -> view_w s (wa_of w s) = Some m ->
  exists s', Ilwr w s = Ok tt s' /\
    meq s' (if va_of w s mod 4 =? 0 then s
            else set_gpr (Getrt w) (lwr_spec (va_of w s mod 4 - 1) m (gpr s (Getrt w))) s).
Proof. apply lwr_run. Qed.

Lemma lwr_off_by_one_witness :
  exists s', @Ilwr host64 0x98018001 (set_gpr 0 0x10004 (boot 64)) = Ok tt s' /\
    meq (E := host64) s' (set_gpr 1 (lwr_spec 0 0xf5060708 0) (set_gpr 0 0x10004 (boot 64))).
Proof.
  apply (lwr_off_by_one host64 host64_ok 0x98018001 (set_gpr 0 0x10004 (boot 64)) 0xf5060708).
  - destruct (wf_boot 64 (or_intror eq_refl)) as [[Hm Ht] []]. split; [by split|]. split; try done.
    cbn. apply Forall_insert; [done|]. by apply wraps_range.
  - reflexivity.
  - reflexivity.
  - by vm_compute.
Defined.
