(* ===== verification/ViIsa.v ===== *)
(** The emulator runs programs as the architecture does: a simulation of the machine of
    [MipsIsa], an iteration of the loop of [run] being one instruction, or a jump with the
    instruction in its delay slot. *)
From S2P Require Import Prelude CInt ViMachine ViMem ViMemSpec ViArith ViSpecial ViFloat ViRun ViInv ViDemo ViMemThm Mips MipsIsa ViSim ViAlu ViExec ViUnaligned.

Section Isa.
Context {E : ViEnv} {EOk : ViEnvOk E} (text : Z -> bool) (cnt : Z).

(** ** The relation *)

(** Nothing interrupts the run: no breakpoint, trace or call tree; the instruction counters
    cover the addresses of [text], and [cnt] iterations are left. *)
Record ready (s : vi) : Prop := {
  rd_mem : mem_ok s;
  rd_regs : regfile s;
  rd_trace : trace s = false;
  rd_rtrace : rtrace s = 0;
  rd_bplist : bplist s = [];
  rd_membpt : membpt s = 0;
  rd_calltree : calltree s = false;
  rd_count : count s = cnt;
  rd_text : forall x, text x = true ->
    0 <= x < 2 ^ 31 - 8 /\ ulong (x - textbase s) / PROFGRAN < iprof_len s }.

(** The emulator's address of the architecture's [x]. *)
Definition host_addr (x : Z) : Z := ulong (s32 x).

Record sees (a : mips) (s : vi) : Prop := {
  sees_pc : reg_pc (reg s) = host_addr (m_pc a);
  sees_r : forall i, 0 < i < 32 -> gpr s i = m_r a i;
  sees_hi : reg_mhi (reg s) = m_hi a;
  sees_lo : reg_mlo (reg s) = m_lo a;
  sees_mem : forall x, 0 <= x < 2 ^ 32 -> m_mem a x = view s (host_addr x);
  sees_ready : ready s }.

(** And register 0 holds zero. *)
Definition sees0 (a : mips) (s : vi) : Prop := sees a s /\ gpr s 0 = 0.

Lemma sees0_regs a s i : sees0 a s -> 0 <= i < 32 -> gpr s i = m_regs a i.
Proof.
  intros [Hs H0] Hi. unfold m_regs, upd. destruct (Z.eqb_spec i 0) as [->|]; [done|].
  apply (sees_r _ _ Hs). lia.
Qed.

(** ** Changes the relation does not see *)

Lemma meq_regs s' s :
  meq s' s -> reg_pc (reg s') = reg_pc (reg s) /\ reg_r (reg s') = reg_r (reg s)
    /\ reg_mhi (reg s') = reg_mhi (reg s) /\ reg_mlo (reg s') = reg_mlo (reg s)
    /\ bplist s' = bplist s /\ count s' = count s.
Proof.
  intros [_ [Hr _ _ _ _ _ _ _ Hb Hc _]]. unfold forget in Hr. cbn in Hr, Hb, Hc. by injection Hr.
Qed.

Lemma ready_regs_eq s' s :
  regs_eq (forget s') (forget s) -> mem_ok s' -> ready s -> ready s'.
Proof.
  intros [Hr Hb Hi _ Ht Hc Hrt Hm Hbp Hcn _] Hok []. unfold forget in *. cbn in *.
  split; try congruence.
  - unfold regfile in *. by replace (reg_r (reg s')) with (reg_r (reg s)) by congruence.
  - by rewrite Hb, Hi.
Qed.

Lemma sees_meq a s' s : meq s' s -> mem_ok s' -> sees a s -> sees a s'.
Proof.
  intros Hq Hok []. destruct (meq_regs s' s Hq) as (Hpc & Hr & Hh & Hl & _).
  destruct Hq as [Hm Hre]. split; try congruence.
  - intros i Hi. unfold gpr in *. rewrite Hr. auto.
  - intros x Hx. rewrite (mem_eq_view s' s) by done. auto.
  - by eapply ready_regs_eq.
Qed.

Lemma sim_mem_ok s' s : sim s' s -> mem_ok s -> mem_ok s'.
Proof.
  intros H. unfold mem_ok. rewrite (sim_memory s' s H).
  by rewrite (f_equal tlb H : tlb s' = tlb s).
Qed.

Lemma sees_sim a s' s : sim s' s -> sees a s -> sees a s'.
Proof.
  intros H Ha. eapply sees_meq; [by apply sim_meq| |done].
  eapply sim_mem_ok; [exact H|]. apply Ha.
Qed.

Lemma sees0_sim a s' s : sim s' s -> sees0 a s -> sees0 a s'.
Proof. intros H [Ha H0]. split; [by eapply sees_sim|]. by rewrite H. Qed.

(** ** Changes of one component *)

Lemma gpr_set_gpr s d v i :
  regfile s -> 0 <= d < 32 -> 0 <= i ->
  gpr (set_gpr d v s) i = if i =? d then u32 v else gpr s i.
Proof.
  intros [Hl _] Hd Hi. unfold gpr, set_gpr. simpl.
  destruct (Z.eqb_spec i d) as [->|].
  - rewrite list_lookup_insert_eq by lia. simpl. by rewrite u32_s32.
  - by rewrite list_lookup_insert_ne by lia.
Qed.

Lemma ready_set_gpr s d v : ready s -> ready (set_gpr d v s).
Proof. intros []. split; try done. by apply regfile_set_gpr. Qed.

Lemma sees_with_reg a s d v :
  sees a s -> 0 <= d < 32 -> sees (with_reg d (u32 v) a) (set_gpr d v s).
Proof.
  intros [] Hd. split; try done.
  - intros i Hi. simpl. unfold upd. rewrite gpr_set_gpr by (done || lia || by apply sees_ready0).
    case_match; [done|auto].
  - by apply ready_set_gpr.
Qed.

Lemma sees_with_hilo a s lo hi : sees a s -> sees (with_hilo lo hi a) (set_hilo lo hi s).
Proof. intros []. split; try done. by destruct sees_ready0; split. Qed.

Lemma sees_with_pc a s pc npc :
  sees a s -> sees (with_pcs pc npc a) (set_pc (host_addr pc) s).
Proof. intros []. split; try done. by destruct sees_ready0; split. Qed.

(** The next program counter is not looked at. *)
Lemma sees_with_npc a s npc : sees a s -> sees (with_pcs (m_pc a) npc a) s.
Proof. intros []. by split. Qed.

(** ** Addresses *)

Lemma host_addr_eaddr w s : ulong (ea (s32 (gpr s (Getrs w))) (simm w)) = host_addr (eaddr w (gpr s)).
Proof. unfold host_addr, eaddr, ea. f_equal. apply s32_add_imm. Qed.

(** Within a word or halfword the emulator's addresses are consecutive too. *)
Lemma host_addr_add x n k :
  0 <= x < 2 ^ 32 -> n = 2 \/ n = 4 -> x mod n = 0 -> 0 <= k < n ->
  host_addr (x + k) = host_addr x + k /\ 0 <= x + k < 2 ^ 32.
Proof.
  intros Hx Hn Hm Hk.
  assert (0 <= x + k < 2 ^ 32 /\ (x + k <? 2 ^ 31) = (x <? 2 ^ 31)) as [Hr Hb].
  { destruct Hn as [-> | ->]; Z.div_mod_to_equations; split; [lia| |lia|];
      destruct (Z.ltb_spec (x + k) (2 ^ 31)), (Z.ltb_spec x (2 ^ 31)); (done || lia). }
  split; [|done]. unfold host_addr. rewrite !ulong_s32, Hb by done. case_match; lia.
Qed.

Lemma host_addr_mod x n :
  0 <= x < 2 ^ 32 -> n = 2 \/ n = 4 -> x mod n = 0 -> host_addr x mod n = 0.
Proof.
  intros Hx Hn Hm. unfold host_addr. rewrite ulong_s32 by done. case_match; [done|].
  destruct ulong_bits_cases as [-> | ->]; destruct Hn as [-> | ->];
    Z.div_mod_to_equations; lia.
Qed.

Lemma host_addr_inj x y :
  0 <= x < 2 ^ 32 -> 0 <= y < 2 ^ 32 -> host_addr x = host_addr y -> x = y.
Proof.
  intros Hx Hy. unfold host_addr. rewrite !ulong_s32 by done. pose proof ulong_bits_ge.
  pose proof (Z.pow_le_mono_r 2 32 ulong_bits).
  destruct (Z.ltb_spec x (2 ^ 31)), (Z.ltb_spec y (2 ^ 31)); lia.
Qed.

Section Memory.
Context (a : mips) (s : vi) (Hs : sees a s).

Lemma sees_word x :
  0 <= x < 2 ^ 32 -> x mod 4 = 0 -> word_at (m_mem a) x = view_w s (host_addr x).
Proof.
  intros Hx Hm. unfold word_at, view_w.
  destruct (host_addr_add x 4 1) as [E1 R1]; [auto with lia..|].
  destruct (host_addr_add x 4 2) as [E2 R2]; [auto with lia..|].
  destruct (host_addr_add x 4 3) as [E3 R3]; [auto with lia..|].
  by rewrite !(sees_mem _ _ Hs), E1, E2, E3 by done.
Qed.

Lemma sees_half x :
  0 <= x < 2 ^ 32 -> x mod 2 = 0 -> half_at (m_mem a) x = view_h s (host_addr x).
Proof.
  intros Hx Hm. unfold half_at, view_h.
  destruct (host_addr_add x 2 1) as [E1 R1]; [auto with lia..|].
  by rewrite !(sees_mem _ _ Hs), E1 by done.
Qed.
End Memory.

Lemma view_mapped s x v : view s x = Some v -> is_Some (pageof s x).
Proof. unfold view. destruct (pageof s x); [by eexists|done]. Qed.

Lemma view_w_mapped s x v : view_w s x = Some v -> is_Some (pageof s x).
Proof.
  unfold view_w. destruct (view s x) as [b|] eqn:H; [|done]. intros _. by eapply view_mapped.
Qed.

Lemma view_h_mapped s x v : view_h s x = Some v -> is_Some (pageof s x).
Proof.
  unfold view_h. destruct (view s x) as [b|] eqn:H; [|done]. intros _. by eapply view_mapped.
Qed.

(** ** Loads *)

(** A load that finds its value leaves the machine as it is. *)
Lemma load_ok_run m s x al v w :
  load_ok m s x al v -> x mod al = 0 -> is_Some (pageof s x) -> v = Some w ->
  exists s1, m s = Ok w s1 /\ meq s1 s /\ mem_ok s1.
Proof.
  unfold load_ok. intros H Hx Hp ->. rewrite decide_True in H by done. unfold quiet, runs in H.
  destruct (m s) as [w' s1| | | |]; try done. destruct H as (Heq & Hok & [= ->]).
  exists s1. split_and!; [done|by apply arch_eq_meq|done].
Qed.

Definition load_of (f : Z -> Z) (get : Z -> M Z) (m : Z -> M unit) : Prop :=
  forall w, exists fmt n g, m w =
    (b ← rget (Getrs w);
     trace_load fmt (Getrt w) (simm w) (Getrs w) (ulong (ea b (simm w))) n (g b);;
     v ← get (ulong (ea b (simm w))); rset (Getrt w) (f v)).

Lemma load_handlers :
  load_of s8 getmem_b Ilb /\ load_of s16 getmem_h Ilh /\ load_of id getmem_w Ilw
  /\ load_of (fun v => Z.land v 0xff) getmem_b Ilbu
  /\ load_of (fun v => Z.land v 0xffff) getmem_h Ilhu.
Proof.
  split_and!; intros w; eexists _, _, (fun b => _); reflexivity.
Qed.

Lemma load_run f get m w a s v s1 :
  load_of f get m -> sees0 a s -> get (host_addr (eaddr w (gpr s))) s = Ok v s1 ->
  meq s1 s -> mem_ok s1 ->
  exists s', m w s = Ok tt s' /\ sees (with_reg (Getrt w) (u32 (f v)) a) s'.
Proof.
  intros Hm Hs Hg Hq Hok. destruct (Hm w) as (fmt & n & g & Hw). pose proof (sees_ready _ _ (proj1 Hs)) as Hr.
  assert (sees a s1) as Hs1 by by apply (sees_meq a s1 s), Hs.
  exists (set_gpr (Getrt w) (f v) s1). split; [|apply sees_with_reg; auto with vi].
  rewrite Hw. unfold mbind, M_bind. rewrite rget_run by (auto with vi || apply Hr).
  unfold trace_load. rewrite tracing_off by apply Hr. rewrite host_addr_eaddr, Hg.
  apply rset_run; auto with vi. apply (rd_regs _ (sees_ready _ _ Hs1)).
Qed.

(** ** Stores *)

Lemma upd_view_bytes v x bs bs' y :
  u8 <$> bs = u8 <$> bs' -> upd_view v x bs y = upd_view v x bs' y.
Proof.
  intros H. pose proof (f_equal length H) as Hl. rewrite !length_fmap in Hl.
  unfold upd_view. rewrite Hl. case_decide; [|done].
  by rewrite <- !list_lookup_fmap, H.
Qed.

(** The stored bytes are where the architecture has them. *)
Lemma sees_put a s x n bs y :
  sees a s -> 0 <= x < 2 ^ 32 -> 0 <= y < 2 ^ 32 ->
  (n = 2 \/ n = 4) /\ x mod n = 0 /\ Z.of_nat (length bs) = n \/ length bs = 1%nat ->
  put (m_mem a) x bs y = upd_view (view s) (host_addr x) bs (host_addr y).
Proof.
  intros Hs Hx Hy Hn.
  assert (forall k, 0 <= k < Z.of_nat (length bs) ->
            host_addr (x + k) = host_addr x + k /\ 0 <= x + k < 2 ^ 32) as Hadd.
  { destruct Hn as [(Hn & Hm & Hl)|Hl].
    - rewrite Hl. intros. by apply (host_addr_add x n).
    - intros k Hk. assert (k = 0) as -> by lia. by rewrite !Z.add_0_r. }
  unfold put, upd_view. destruct (decide (x <= y < x + Z.of_nat (length bs))) as [Hin|Hout].
  - destruct (Hadd (y - x)) as [E0 _]; [lia|]. replace (x + (y - x)) with y in E0 by lia.
    rewrite decide_True by lia. by replace (host_addr y - host_addr x) with (y - x) by lia.
  - rewrite decide_False; [by apply Hs|]. intros Hin. apply Hout.
    destruct (Hadd (host_addr y - host_addr x)) as [E0 Hr]; [lia|].
    assert (y = x + (host_addr y - host_addr x)) as -> by (apply host_addr_inj; lia). lia.
Qed.

Lemma sees_store a s s' x n bs :
  sees a s -> 0 <= x < 2 ^ 32 ->
  (n = 2 \/ n = 4) /\ x mod n = 0 /\ Z.of_nat (length bs) = n \/ length bs = 1%nat ->
  store_eq s s' (host_addr x) bs -> sees (with_mem (put (m_mem a) x bs) a) s'.
Proof.
  intros Hs Hx Hn [Hok Hre Hp Hv]. pose proof (re_reg _ _ Hre) as Hr.
  assert (regs_eq (forget s') (forget s)) as Hf.
  { destruct Hre. split; cbn; congruence. }
  split; simpl; try (rewrite Hr; apply Hs).
  - intros i Hi. unfold gpr. rewrite Hr. by apply Hs.
  - intros y Hy. rewrite Hv. by apply (sees_put a s x n).
  - eapply ready_regs_eq; [exact Hf|done|apply Hs].
Qed.

Lemma store_ok_run m s x al bs :
  store_ok m s x al bs -> x mod al = 0 -> is_Some (pageof s x) ->
  exists s', m s = Ok tt s' /\ store_eq s s' x bs.
Proof.
  unfold store_ok. intros H Hx Hp. rewrite decide_True in H by done. unfold runs in H.
  destruct (m s) as [[] s'| | | |]; try done. by exists s'.
Qed.

Definition store_of (f : Z -> Z) (put : Z -> Z -> M unit) (m : Z -> M unit) : Prop :=
  forall w, exists g, m w =
    (v ← rget (Getrt w); b ← rget (Getrs w); tracing (g v b);;
     put (ulong (ea b (simm w))) (f v)).

Lemma store_handlers :
  store_of u8 putmem_b Isb /\ store_of (fun v => s16 (u16 v)) putmem_h Ish
  /\ store_of ulong putmem_w Isw.
Proof. split_and!; intros w; eexists (fun v b => _); reflexivity. Qed.

Lemma store_run f put m w a s s' :
  store_of f put m -> sees0 a s ->
  put (host_addr (eaddr w (gpr s))) (f (s32 (gpr s (Getrt w)))) s = Ok tt s' -> m w s = Ok tt s'.
Proof.
  intros Hm Hs Hp. pose proof (sees_ready _ _ (proj1 Hs)) as Hr.
  destruct (Hm w) as (g & ->). unfold mbind, M_bind.
  rewrite !rget_run by (auto with vi || apply Hr). rewrite tracing_off by apply Hr.
  by rewrite host_addr_eaddr, Hp.
Qed.

(** The bytes the handlers store are those of the register. *)
Lemma stored_bytes x :
  u8 <$> w_bytes (ulong (s32 x)) = u8 <$> w_bytes x
  /\ u8 <$> h_bytes (s16 (u16 (s32 x))) = u8 <$> h_bytes x
  /\ u8 <$> [u8 (s32 x)] = u8 <$> [x].
Proof.
  assert (s16 (u16 (s32 x)) = s16 x) as -> by (unfold s16, u16, s32;
    rewrite wraps_wrapu, wraps_wraps by lia; done).
  unfold w_bytes, h_bytes, ulong. pose proof ulong_bits_ge as Hb. revert Hb.
  destruct ulong_bits_cases as [-> | ->]; intros _; simpl; split_and!;
    repeat (apply (f_equal2 cons); [cbits|]); reflexivity.
Qed.
End Isa.
