(* ===== verification/ViRefine.v ===== *)
(** The refinement: instructions, jumps with their delay slots, and runs of the emulator
    against the machine of [MipsIsa]. *)
From S2P Require Import Prelude CInt ViMachine ViMem ViMemSpec ViArith ViSpecial ViFloat ViRun ViInv ViDemo ViMemThm Mips MipsIsa ViSim ViAlu ViExec ViUnaligned ViIsa.

(** ** The operands an instruction depends on *)

Section Ext.
Context (g g' : Z -> Z) (Hg : forall i, 0 <= i < 32 -> g i = g' i).

Lemma alu_ext w : alu w g = alu w g'.
Proof. unfold alu. by rewrite !Hg by auto with vi. Qed.

Lemma eaddr_ext w : eaddr w g = eaddr w g'.
Proof. unfold eaddr. by rewrite Hg by auto with vi. Qed.

Lemma branch_ext w : branch w g = branch w g'.
Proof. unfold branch. by rewrite !Hg by auto with vi. Qed.
End Ext.

Lemma needs32_srl w : needs32 w = false -> is_srl w = false.
Proof. unfold needs32. by intros [? _]%orb_false_iff. Qed.

Section Refine.
Context {E : ViEnv} {EOk : ViEnvOk E} (text : Z -> bool) (cnt : Z).
Abbreviation sees := (sees text cnt).
Abbreviation sees0 := (sees0 text cnt).

(** An instruction the emulator has right on this host. *)
Definition fits (w : Z) : Prop := needs32 w = true -> ulong_bits = 32.

(** [Iexec] of a simple instruction. *)
Definition executes (w : Z) (s : vi) (a' : mips) : Prop :=
  forall n, exists s', Iexec (S n) w s = Ok tt s' /\ sees a' s'.

Lemma INOP_run a s n :
  sees a s -> exists s', Iexec (S n) INOP s = Ok tt s' /\ sees a s'.
Proof.
  intros Hs. rewrite (Iexec_row n INOP s (Ispecial (Iexec n))) by done.
  rewrite (Ispecial_row _ INOP _ Snor) by done. unfold Snor, mbind, M_bind.
  rewrite tracing_off by apply Hs. eexists. split; [reflexivity|].
  eapply sees_sim; [|exact Hs]. done.
Qed.

Lemma alu_executes w a s d v :
  sees0 a s -> fits w -> alu w (m_regs a) = Some (d, v) ->
  executes w s (with_reg d (u32 v) a).
Proof.
  intros Hs Hf Hv n. destruct (Z.eq_dec w INOP) as [->|Hn].
  - destruct (INOP_run a s n (proj1 Hs)) as (s' & H & Hs'). exists s'. split; [done|].
    assert (d = 0) as -> by by (vm_compute in Hv; injection Hv).
    destruct Hs'. split; try done. intros i Hi. simpl. unfold upd.
    destruct (Z.eqb_spec i 0); [lia|auto].
  - assert (is_srl w = false \/ ulong_bits = 32) as Hsrl.
    { destruct (needs32 w) eqn:H; [right; by apply Hf|left; by apply needs32_srl]. }
    assert (0 <= d < 32) as Hd.
    { unfold alu in Hv. destruct (_ =? 0).
      - destruct (r_alu _ _ _ _); [|done]. injection Hv as <- _. auto with vi.
      - destruct (i_alu _ _ _); [|done]. injection Hv as <- _. auto with vi. }
    rewrite <- (alu_ext (gpr s)) in Hv by (intros; by apply (sees0_regs text cnt)).
    destruct Hs as [Hs H0]. pose proof (sees_ready _ _ _ _ Hs) as Hr.
    destruct (alu_run n w s d v) as (s' & H & Hsim); [apply Hr|apply Hr|done..|].
    exists s'. split; [done|]. eapply sees_sim; [exact Hsim|]. by apply sees_with_reg.
Qed.

(** The row of [itab], for the instructions with an opcode of their own. *)
Lemma row_executes w a s (f : Z -> M unit) a' :
  (forall n, itab (Iexec n) !! Z.to_nat (Z.shiftr w 26) = Some f) -> sees0 a s ->
  (forall t, sees0 a t -> gpr t = gpr s -> exists s', f w t = Ok tt s' /\ sees a' s') ->
  executes w s a'.
Proof.
  intros Hrow Hs Hf n. rewrite (Iexec_row n w s f) by done. apply Hf; [|done].
  by eapply sees0_sim; [apply enter_sim|].
Qed.

(** The row of [ispec]. *)
Lemma special_executes w a s (f : Z -> M unit) a' :
  Z.shiftr w 26 = 0 -> (forall ex, ispec ex !! Z.to_nat (Z.land w 0x3f) = Some f) -> sees0 a s ->
  (forall t, sees0 a t -> exists s', f w t = Ok tt s' /\ sees a' s') -> executes w s a'.
Proof.
  intros H0 Hrow Hs Hf n. rewrite (Iexec_row n w s (Ispecial (Iexec n))) by by rewrite H0.
  rewrite (Ispecial_row _ w _ f) by done. apply Hf.
  by do 2 (eapply sees0_sim; [apply enter_sim|]).
Qed.

(** ** Loads and stores *)

Lemma aligned_some x n : aligned x n = Some tt -> x mod n = 0.
Proof. unfold aligned. by destruct (Z.eqb_spec (x mod n) 0). Qed.

Section Access.
Context (a : mips) (t : vi) (Ht : sees a t) (x : Z) (Hx : 0 <= x < 2 ^ 32).

Lemma word_read v :
  x mod 4 = 0 -> word_at (m_mem a) x = Some v ->
  exists t1, getmem_w (host_addr x) t = Ok v t1 /\ meq t1 t /\ mem_ok t1.
Proof.
  intros Ha Hv. rewrite (sees_word text cnt a t Ht x Hx Ha) in Hv. pose proof (sees_ready _ _ _ _ Ht) as [].
  eapply load_ok_run; [by apply load_w| | |exact Hv].
  - by apply host_addr_mod; auto.
  - by eapply view_w_mapped.
Qed.

Lemma half_read v :
  x mod 2 = 0 -> half_at (m_mem a) x = Some v ->
  exists t1, getmem_h (host_addr x) t = Ok v t1 /\ meq t1 t /\ mem_ok t1.
Proof.
  intros Ha Hv. rewrite (sees_half text cnt a t Ht x Hx Ha) in Hv. pose proof (sees_ready _ _ _ _ Ht) as [].
  eapply load_ok_run; [by apply load_h| | |exact Hv].
  - by apply host_addr_mod; auto.
  - by eapply view_h_mapped.
Qed.

Lemma byte_read v :
  m_mem a x = Some v ->
  exists t1, getmem_b (host_addr x) t = Ok v t1 /\ meq t1 t /\ mem_ok t1.
Proof.
  intros Hv. rewrite (sees_mem _ _ _ _ Ht x Hx) in Hv. pose proof (sees_ready _ _ _ _ Ht) as [].
  eapply load_ok_run; [by apply load_b|apply Z.mod_1_r| |exact Hv]. by eapply view_mapped.
Qed.
End Access.

Lemma eaddr_range w g : 0 <= eaddr w g < 2 ^ 32.
Proof. by apply wrapu_range. Qed.

Lemma load_executes_by f get m w a s v :
  (forall n, itab (Iexec n) !! Z.to_nat (Z.shiftr w 26) = Some m) -> load_of f get m -> sees0 a s ->
  (forall t, sees a t ->
     exists t1, get (host_addr (eaddr w (m_regs a))) t = Ok v t1 /\ meq t1 t /\ mem_ok t1) ->
  executes w s (with_reg (Getrt w) (u32 (f v)) a).
Proof.
  intros Hrow Hm Hs Hget. eapply row_executes; [done..|]. intros t Ht _.
  destruct (Hget t (proj1 Ht)) as (t1 & Hg & Hq & Hok).
  eapply (load_run text cnt f get m w a t v t1); try done.
  by rewrite (eaddr_ext _ (m_regs a)) by (intros; by apply (sees0_regs text cnt)).
Qed.

Lemma u32_u32 x : u32 (u32 x) = u32 x.
Proof. by apply wrapu_wrapu. Qed.

Lemma half_range m x h : half_at m x = Some h -> Z.land h 0xffff = h.
Proof.
  unfold half_at. destruct (m x), (m (x + 1)); try done. intros [= <-].
  change 0xffff with (Z.ones 16). rewrite Z.land_ones by lia. by apply wrapu_wrapu.
Qed.

(** The cases of a load. *)
Lemma load_inv w g m d v :
  load w g m = Some (d, v) ->
  d = Getrt w /\ let x := eaddr w g in
  (Z.shiftr w 26 = 0x20 /\ exists b, m x = Some b /\ v = u32 (s8 b))
  \/ (Z.shiftr w 26 = 0x21 /\ x mod 2 = 0 /\ exists h, half_at m x = Some h /\ v = u32 (s16 h))
  \/ (Z.shiftr w 26 = 0x23 /\ x mod 4 = 0 /\ word_at m x = Some v)
  \/ (Z.shiftr w 26 = 0x24 /\ exists b, m x = Some b /\ v = u8 b)
  \/ (Z.shiftr w 26 = 0x25 /\ x mod 2 = 0 /\ half_at m x = Some v).
Proof.
  unfold load. generalize (eaddr w g) (Z.shiftr w 26). intros x op.
  assert (forall n (o : option Z), (aligned x n;; o) = if x mod n =? 0 then o else None) as Hal.
  { intros n o. unfold aligned. by destruct (_ =? 0). }
  destruct op as [|p|p]; [done|repeat (destruct p as [p|p|]; try done)|done];
    rewrite ?Hal; try (destruct (Z.eqb_spec (x mod 2) 0); [|done]);
    try (destruct (Z.eqb_spec (x mod 4) 0); [|done]).
  - destruct (word_at m x); simpl; [|done]. intros [= <- <-]. split; [done|]. tauto.
  - destruct (half_at m x); simpl; [|done]. intros [= <- <-]. split; [done|]. tauto.
  - destruct (half_at m x); simpl; [|done]. intros [= <- <-]. split; [done|]. eauto 10.
  - destruct (m x); simpl; [|done]. intros [= <- <-]. split; [done|]. eauto 10.
  - destruct (m x); simpl; [|done]. intros [= <- <-]. split; [done|]. eauto 10.
Qed.

Lemma load_executes w a s d v :
  sees0 a s -> load w (m_regs a) (m_mem a) = Some (d, v) -> executes w s (with_reg d (u32 v) a).
Proof.
  intros Hs H. apply load_inv in H as [-> H]. pose proof (eaddr_range w (m_regs a)) as Hx.
  pose proof load_handlers as (Hlb & Hlh & Hlw & Hlbu & Hlhu).
  destruct H as [(Hop & b & Hb & ->)|[(Hop & Ha & h & Hh & ->)|[(Hop & Ha & Hh)|
    [(Hop & b & Hb & ->)|(Hop & Ha & Hh)]]]].
  - rewrite u32_u32. eapply load_executes_by; [by rewrite Hop|exact Hlb|done|].
    intros t Ht. by eapply byte_read.
  - rewrite u32_u32. eapply load_executes_by; [by rewrite Hop|exact Hlh|done|].
    intros t Ht. by eapply half_read.
  - eapply (load_executes_by id); [by rewrite Hop|exact Hlw|done|].
    intros t Ht. by eapply word_read.
  - assert (u8 b = Z.land b 0xff) as ->.
    { change 0xff with (Z.ones 8). by rewrite Z.land_ones by lia. }
    eapply (load_executes_by (fun v => Z.land v 0xff)); [by rewrite Hop|exact Hlbu|done|].
    intros t Ht. by eapply byte_read.
  - rewrite <- (half_range _ _ _ Hh).
    eapply (load_executes_by (fun v => Z.land v 0xffff)); [by rewrite Hop|exact Hlhu|done|].
    intros t Ht. by eapply half_read.
Qed.

(** The cases of a store. *)
Lemma store_inv w g m m' :
  store w g m = Some m' ->
  let x := eaddr w g in let v := g (Getrt w) in
  (Z.shiftr w 26 = 0x28 /\ is_Some (m x) /\ m' = put m x [v])
  \/ (Z.shiftr w 26 = 0x29 /\ x mod 2 = 0 /\ is_Some (half_at m x) /\ m' = put m x (h_bytes v))
  \/ (Z.shiftr w 26 = 0x2b /\ x mod 4 = 0 /\ is_Some (word_at m x) /\ m' = put m x (w_bytes v)).
Proof.
  unfold store. cbv zeta. generalize (eaddr w g) (g (Getrt w)) (Z.shiftr w 26). intros x v op.
  assert (forall n (o : option (Z -> option Z)), (aligned x n;; o) = if x mod n =? 0 then o else None)
    as Hal.
  { intros n o. unfold aligned. by destruct (_ =? 0). }
  assert (forall (o : option Z) (r : option (Z -> option Z)),
    (o;; r) = Some m' -> is_Some o /\ r = Some m') as Ho by by intros [] r.
  destruct op as [|p|p]; [done|repeat (destruct p as [p|p|]; try done)|done]; rewrite ?Hal.
  - destruct (Z.eqb_spec (x mod 4) 0); [|done]. intros [? [= <-]]%Ho. auto 10.
  - destruct (Z.eqb_spec (x mod 2) 0); [|done]. intros [? [= <-]]%Ho. auto 10.
  - intros [? [= <-]]%Ho. auto 10.
Qed.

Lemma store_executes_by f sto m w a s al bs bs' :
  (forall n, itab (Iexec n) !! Z.to_nat (Z.shiftr w 26) = Some m) -> store_of f sto m -> sees0 a s ->
  let x := eaddr w (m_regs a) in
  (forall t, sees a t -> is_Some (pageof t (host_addr x))) ->
  (forall t, ready text cnt t ->
     store_ok (sto (host_addr x) (f (s32 (m_regs a (Getrt w))))) t (host_addr x) al bs') ->
  host_addr x mod al = 0 -> u8 <$> bs' = u8 <$> bs ->
  (al = 2 \/ al = 4) /\ x mod al = 0 /\ Z.of_nat (length bs) = al \/ length bs = 1%nat ->
  executes w s (with_mem (put (m_mem a) x bs) a).
Proof.
  intros Hrow Hm Hs x Hp Hok Ha Hb Hal. eapply row_executes; [done..|]. intros t Ht _.
  pose proof (sees_ready _ _ _ _ (proj1 Ht)) as Hr.
  assert (forall i, 0 <= i < 32 -> gpr t i = m_regs a i) as Hg by (intros; by apply (sees0_regs text cnt)).
  destruct (store_ok_run _ t _ _ _ (Hok t Hr) Ha (Hp t (proj1 Ht))) as (t1 & H1 & Hse).
  exists t1. split.
  - eapply (store_run text cnt f sto m w a t t1); [done..|].
    by rewrite (eaddr_ext _ (m_regs a)), Hg by auto with vi.
  - eapply (sees_store text cnt a t t1 x al); [apply Ht|apply eaddr_range|done|].
    destruct Hse. split; [exact se_ok|exact se_regs|exact se_pageof|]. intros y. rewrite se_view.
    by apply upd_view_bytes.
Qed.

Lemma store_executes w a s m :
  sees0 a s -> store w (m_regs a) (m_mem a) = Some m -> executes w s (with_mem m a).
Proof.
  intros Hs H. apply store_inv in H. cbv zeta in H. pose proof (eaddr_range w (m_regs a)) as Hx.
  pose proof store_handlers as (Hsb & Hsh & Hsw).
  pose proof (stored_bytes (m_regs a (Getrt w))) as (Ew & Eh & Eb).
  destruct H as [(Hop & [b Hb] & ->)|[(Hop & Ha & [h Hh] & ->)|(Hop & Ha & [v Hv] & ->)]].
  - eapply store_executes_by with (al := 1); [by rewrite Hop|exact Hsb|done| | | |exact Eb|by right].
    + intros t Ht. rewrite (sees_mem _ _ _ _ Ht) in Hb by done. by eapply view_mapped.
    + intros t []. by apply store_b.
    + apply Z.mod_1_r.
  - eapply store_executes_by with (al := 2); [by rewrite Hop|exact Hsh|done| | | |exact Eh|by auto].
    + intros t Ht. rewrite (sees_half text cnt a t Ht) in Hh by done. by eapply view_h_mapped.
    + intros t []. by apply store_h.
    + apply host_addr_mod; auto.
  - eapply store_executes_by with (al := 4); [by rewrite Hop|exact Hsw|done| | | |exact Ew|by auto].
    + intros t Ht. rewrite (sees_word text cnt a t Ht) in Hv by done. by eapply view_w_mapped.
    + intros t []. by apply store_w.
    + apply host_addr_mod; auto.
Qed.

(** ** HI and LO *)

Lemma hilo_executes w a s lo hi :
  sees0 a s -> fits w -> Z.shiftr w 26 = 0 ->
  hilo_spec (Z.land w 0x3f) (m_regs a (Getrs w)) (m_regs a (Getrt w)) = Some (lo, hi) ->
  executes w s (with_hilo lo hi a).
Proof.
  intros Hs Hf H0 Hv n. pose proof (sees_ready _ _ _ _ (proj1 Hs)) as Hr.
  assert (ulong_bits = 32) as HW.
  { apply Hf. unfold needs32. rewrite H0. unfold hilo_spec in Hv.
    destruct (Z.land w 0x3f) as [|p|p]; [done|repeat (destruct p as [p|p|]; try done)|done];
      by rewrite orb_true_r. }
  rewrite <- !(sees0_regs text cnt a s) in Hv by auto with vi.
  destruct (muldiv_run n w s lo hi HW) as (s' & H & Hsim); [apply Hr|apply Hr|done..|].
  exists s'. split; [done|]. eapply sees_sim; [exact Hsim|]. apply sees_with_hilo, Hs.
Qed.

(** [mfhi] and [mflo] take nine bits for the destination, of which the program's leave four zero. *)
Lemma wide_rd w : Getrt w = 0 -> Z.land (Z.shiftr w 11) 0x1ff = Getrd w.
Proof.
  unfold Getrt, Getrd. intros H.
  assert (forall i, 0 <= i < 5 -> Z.testbit w (i + 16) = false) as Hb.
  { intros i Hi. pose proof (f_equal (fun x => Z.testbit x i) H) as Hc. cbv beta in Hc.
    change 0x1f with (Z.ones 5) in Hc. rewrite Z.land_spec, Z.shiftr_spec, Z.testbit_0_l in Hc by lia.
    rewrite Z.ones_spec_low in Hc by lia. by rewrite andb_true_r in Hc. }
  apply Z.bits_inj'. intros i Hi. change 0x1ff with (Z.ones 9). change 0x1f with (Z.ones 5).
  rewrite !Z.land_spec, !Z.shiftr_spec by lia.
  destruct (Z.ltb_spec i 5); [by rewrite !Z.ones_spec_low by lia|].
  rewrite (Z.ones_spec_high 5) by lia. destruct (Z.ltb_spec i 9).
  - replace (i + 11) with (i - 5 + 16) by lia. by rewrite Hb by lia.
  - by rewrite Z.ones_spec_high by lia.
Qed.

Lemma from_hilo_executes w a s d v :
  sees0 a s -> from_hilo w a = Some (d, v) -> executes w s (with_reg d (u32 v) a).
Proof.
  intros Hs H. unfold from_hilo in H.
  destruct (Z.eqb_spec (Z.shiftr w 26) 0) as [H0|]; [|done].
  destruct (Z.eqb_spec (Getrt w) 0) as [Hrt|]; [|done]. simpl in H.
  assert (Z.land w 0x3f = 0x10 /\ Some (Getrd w, u32 (m_hi a)) = Some (d, v)
          \/ Z.land w 0x3f = 0x12 /\ Some (Getrd w, u32 (m_lo a)) = Some (d, v)) as Hc.
  { revert H. generalize (Z.land w 0x3f). intros [|p|p]; [done| |done].
    repeat (destruct p as [p|p|]; try done); auto. }
  destruct Hc as [[Hfn [= <- <-]]|[Hfn [= <- <-]]]; rewrite u32_u32;
    (eapply special_executes; [done|by rewrite Hfn|done|]); intros t Ht;
    pose proof (sees_ready _ _ _ _ (proj1 Ht)) as Hr.
  - unfold Smfhi. rewrite (wide_rd _ Hrt). unfold mbind, M_bind. rewrite tracing_off by apply Hr.
    unfold gets. rewrite rset_run by (auto with vi || apply Hr). rewrite (sees_hi _ _ _ _ (proj1 Ht)).
    eexists. split; [done|]. apply sees_with_reg; auto with vi. apply Ht.
  - unfold Smflo. rewrite (wide_rd _ Hrt). unfold mbind, M_bind. rewrite tracing_off by apply Hr.
    unfold gets. rewrite rset_run by (auto with vi || apply Hr). rewrite (sees_lo _ _ _ _ (proj1 Ht)).
    eexists. split; [done|]. apply sees_with_reg; auto with vi. apply Ht.
Qed.

(** An instruction without a jump does in the emulator what the architecture defines. *)
Lemma simple_executes w a s a' :
  sees0 a s -> fits w -> simple w a = Some a' -> executes w s a'.
Proof.
  intros Hs Hf H. unfold simple in H.
  destruct (alu w (m_regs a)) as [[d v]|] eqn:Ha; [injection H as <-; by apply alu_executes|].
  destruct (load w (m_regs a) (m_mem a)) as [[d v]|] eqn:Hl;
    [injection H as <-; by apply load_executes|].
  destruct (from_hilo w a) as [[d v]|] eqn:Hh; [injection H as <-; by apply from_hilo_executes|].
  destruct (store w (m_regs a) (m_mem a)) as [m|] eqn:Hst;
    [injection H as <-; by apply store_executes|].
  destruct (Z.eqb_spec (Z.shiftr w 26) 0) as [H0|]; [|done].
  destruct (hilo_spec _ _ _) as [[lo hi]|] eqn:Hv; [|done]. injection H as <-.
  by apply hilo_executes.
Qed.

(** ** Delay slots *)

(** Addresses of the text are the same on the host. *)
Lemma text_addr a s x :
  sees a s -> text x = true ->
  0 <= x < 2 ^ 31 - 8 /\ host_addr x = x /\ ulong x = x /\ ulong (x + 4) = x + 4
  /\ ulong (ulong (x - 4) + 4) = x.
Proof.
  intros Hs Hx. destruct (rd_text _ _ _ (sees_ready _ _ _ _ Hs) x Hx) as [Hr _]. pose proof ulong_bits_ge.
  pose proof (Z.pow_le_mono_r 2 32 ulong_bits).
  assert (forall y, 0 <= y < 2 ^ 32 -> ulong y = y) as Hid.
  { intros y Hy. apply wrapu_id. unfold in_u. lia. }
  split_and!; [lia|lia| |by apply Hid; lia..|].
  - unfold host_addr. rewrite ulong_s32 by lia. by rewrite (proj2 (Z.ltb_lt _ _)) by lia.
  - unfold ulong at 1 2, wrapu. rewrite Zplus_mod_idemp_l.
    replace (x - 4 + 4) with x by lia. by apply Hid; lia.
Qed.

(** The word after the instruction, where it is in reach. *)
Lemma sees_at_slot a s w2 :
  sees a s -> text (m_pc a) = true -> text (m_pc a + 4) = true ->
  (m_pc a + 4) mod 4 = 0 -> word_at (m_mem a) (m_pc a + 4) = Some w2 ->
  at_slot (reg_pc (reg s)) w2 s.
Proof.
  intros Hs Hp Hp4 Hm Hw. destruct (text_addr a s _ Hs Hp) as (Hr & Hh & _ & H4 & _).
  destruct (text_addr a s _ Hs Hp4) as (Hr4 & Hh4 & _). pose proof (sees_ready _ _ _ _ Hs) as Hrd.
  rewrite (sees_word text cnt a s Hs), Hh4 in Hw by (done || lia).
  rewrite (sees_pc _ _ _ _ Hs), Hh. unfold at_slot. rewrite (sees_pc _ _ _ _ Hs), Hh, H4.
  split_and!; [done|apply Hrd|split_and!; [done|by apply Hrd|by eapply view_w_mapped]|done].
Qed.

Lemma sees0_meq a s' s : meq s' s -> mem_ok s' -> sees0 a s -> sees0 a s'.
Proof.
  intros Hq Hok [Hs H0]. split; [by eapply sees_meq|].
  destruct (meq_regs s' s Hq) as (_ & Hr & _). unfold gpr in *. by rewrite Hr.
Qed.

Section Slot.
Context (w2 : Z) (a a2 : mips) (s : vi).
Context (Hs : sees0 a s) (Hslot : at_slot (reg_pc (reg s)) w2 s).
Context (Hf : fits w2) (H2 : simple w2 a = Some a2).

Lemma slot_executes b n :
  exists s2, delay_slot (Iexec (S n)) b s = Ok tt s2 /\ sees a2 s2.
Proof.
  destruct (delay_slot_run (Iexec (S n)) b _ w2 s Hslot) as (s1 & -> & Hq & _ & Hok).
  by apply (simple_executes w2 a s1 a2); [eapply sees0_meq|..].
Qed.

(** A taken branch. *)
Lemma branch_executes w n :
  branch w (m_regs a) = Some true ->
  exists s2, Iexec (S (S n)) w s = Ok tt (set_pc (ulong (branch_target (reg_pc (reg s)) w - 4)) s2)
    /\ sees a2 s2.
Proof.
  intros Hb. pose proof (sees_ready _ _ _ _ (proj1 Hs)) as Hr.
  rewrite <- (branch_ext (gpr s)) in Hb by (intros; by apply (sees0_regs text cnt)).
  destruct (branch_Iexec (S n) w w2 s true) as (s1 & Hq & _ & Hok & Hi); [apply Hr|apply Hr|done..|].
  destruct (simple_executes w2 a s1 a2) with (n := n) as (s2 & Hi2 & Hs2);
    [by eapply sees0_meq|done..|].
  exists s2. split; [|done]. rewrite Hi. unfold mbind, M_bind. by rewrite Hi2.
Qed.

(** The end of the jumps: the slot, the call tree, the new program counter. *)
Lemma jump_tail b n (c : bool -> bool) call npc :
  c false = false ->
  exists s2, (delay_slot (Iexec (S n)) b;; ct ← gets calltree;
              (if c ct then call else skip);; modify (set_pc (ulong (npc - 4)))) s
             = Ok tt (set_pc (ulong (npc - 4)) s2) /\ sees a2 s2.
Proof.
  intros Hc. destruct (slot_executes b n) as (s2 & Hd & Hs2). exists s2. split; [|done].
  unfold mbind, M_bind. rewrite Hd. unfold gets.
  by rewrite (rd_calltree _ _ _ (sees_ready _ _ _ _ Hs2)), Hc.
Qed.
End Slot.

(** ** Jumps *)

Lemma control_inv w a t r :
  control_of w a = Jump t r ->
  let g := m_regs a in
  (branch w g = Some true /\ t = m_pc a + 4 + 4 * simm w /\ r = None)
  \/ (Z.shiftr w 26 = 2 /\ t = jump_target (m_pc a) w /\ r = None)
  \/ (Z.shiftr w 26 = 3 /\ t = jump_target (m_pc a) w /\ r = Some 31)
  \/ (Z.shiftr w 26 = 0 /\ Z.land w 0x3f = 8 /\ t = g (Getrs w) /\ r = None)
  \/ (Z.shiftr w 26 = 0 /\ Z.land w 0x3f = 9 /\ t = g (Getrs w) /\ r = Some (Getrd w)).
Proof.
  unfold control_of. cbv zeta. destruct (branch w (m_regs a)) as [[]|]; [|done|].
  - intros [= <- <-]. auto.
  - generalize (Z.shiftr w 26) (Z.land w 0x3f) (m_regs a (Getrs w)) (jump_target (m_pc a) w)
      (Getrd w). intros op fn x y d.
    destruct op as [|p|p]; [|repeat (destruct p as [p|p|]; try done)|done].
    + destruct fn as [|p|p]; [done|repeat (destruct p as [p|p|]; try done)|done];
        intros [= <- <-]; auto 10.
    + intros [= <- <-]; auto 10.
    + intros [= <- <-]; auto 10.
Qed.

Lemma jtarget_spec pc w :
  Z.land (pc + 4) 0xf0000000 = Z.land pc 0xf0000000 -> jtarget pc w = jump_target pc w.
Proof.
  intros Hr. unfold jtarget, jump_target. rewrite Hr. f_equal. apply wrapu_id. unfold in_u.
  change 0x3ffffff with (Z.ones 26). rewrite Z.land_ones, Z.shiftl_mul_pow2 by lia.
  pose proof (Z.mod_pos_bound w (2 ^ 26)). pose proof ulong_bits_ge.
  pose proof (Z.pow_le_mono_r 2 32 ulong_bits). lia.
Qed.

(** The return address. *)
Lemma linked_run a s d :
  sees0 a s -> text (m_pc a) = true -> 0 < d < 32 ->
  rset d (ulong (reg_pc (reg s) + 8)) s = Ok tt (set_gpr d (ulong (reg_pc (reg s) + 8)) s)
  /\ sees0 (linked (Some d) a) (set_gpr d (ulong (reg_pc (reg s) + 8)) s).
Proof.
  intros [Hs H0] Hp Hd. destruct (text_addr a s _ Hs Hp) as (_ & Hh & _).
  pose proof (sees_ready _ _ _ _ Hs) as Hr. split; [apply rset_run; [apply Hr|lia]|]. split.
  - simpl. replace (u32 (m_pc a + 8)) with (u32 (ulong (reg_pc (reg s) + 8))).
    + apply sees_with_reg; [done|lia].
    + rewrite (sees_pc _ _ _ _ Hs), Hh. unfold u32, ulong. pose proof ulong_bits_ge.
      by rewrite wrapu_wrapu by lia.
  - rewrite gpr_set_gpr by (lia || apply Hr). by rewrite (proj2 (Z.eqb_neq _ _)) by lia.
Qed.

Section Jump.
Context (a a2 : mips) (s : vi) (w w2 t : Z) (r : option Z) (n : nat).
Context (Hs : sees0 a s) (Hc : control_of w a = Jump t r) (Hr0 : r <> Some 0).
Context (Hreg : Z.land (m_pc a + 4) 0xf0000000 = Z.land (m_pc a) 0xf0000000).
Context (Hp : text (m_pc a) = true) (Hp4 : text (m_pc a + 4) = true) (Ht : text t = true).
Context (Hm : (m_pc a + 4) mod 4 = 0) (Hw : word_at (m_mem a) (m_pc a + 4) = Some w2).
Context (Hf : fits w2) (H2 : simple w2 (linked r a) = Some a2).

Lemma slot_at b k : sees0 b k -> m_pc b = m_pc a -> m_mem b = m_mem a -> at_slot (reg_pc (reg k)) w2 k.
Proof. intros [Hb _] Ep Em. apply (sees_at_slot b); [done|by rewrite ?Ep, ?Em..]. Qed.

Lemma pc_here k b : sees b k -> m_pc b = m_pc a -> reg_pc (reg k) = m_pc a.
Proof.
  intros Hb Ep. rewrite (sees_pc _ _ _ _ Hb), Ep. by apply (text_addr a s _ (proj1 Hs)).
Qed.

(** A handler of a jump, from the state its row is entered with. *)
Definition jumps (m : M unit) (k : vi) : Prop :=
  exists s2, m k = Ok tt (set_pc (ulong (t - 4)) s2) /\ sees a2 s2.

Lemma row_jumps (f : (Z -> M unit) -> Z -> M unit) :
  (forall ex, itab ex !! Z.to_nat (Z.shiftr w 26) = Some (f ex)) ->
  (forall k, sees0 a k -> reg_pc (reg k) = m_pc a -> jumps (f (Iexec (S n)) w) k) ->
  jumps (Iexec (S (S n)) w) s.
Proof.
  intros Hrow Hj. unfold jumps. rewrite (Iexec_row (S n) w s _ (Hrow _)).
  pose proof (sees0_sim _ _ _ _ _ (enter_sim (row_itab (Z.shiftr w 26)) s) Hs) as Hk.
  apply Hj; [done|]. apply (pc_here _ a); [apply Hk|done].
Qed.

Lemma special_jumps (f : (Z -> M unit) -> Z -> M unit) :
  Z.shiftr w 26 = 0 -> (forall ex, ispec ex !! Z.to_nat (Z.land w 0x3f) = Some (f ex)) ->
  (forall k, sees0 a k -> reg_pc (reg k) = m_pc a -> jumps (f (Iexec (S n)) w) k) ->
  jumps (Iexec (S (S n)) w) s.
Proof.
  intros H0 Hrow Hj. apply (row_jumps Ispecial); [intros; by rewrite H0|]. intros k Hk Hpc.
  unfold jumps. rewrite (Ispecial_row _ w k _ (Hrow _)).
  pose proof (sees0_sim _ _ _ _ _ (enter_sim (row_ispec (Z.land w 0x3f)) k) Hk) as Hk'.
  by apply Hj.
Qed.

Lemma Ij_jumps k :
  r = None -> t = jump_target (m_pc a) w -> sees0 a k -> reg_pc (reg k) = m_pc a ->
  jumps (Ij (Iexec (S n)) w) k.
Proof.
  intros Er Et Hk Hpc. pose proof H2 as H2'. rewrite Er in H2'. pose proof (sees_ready _ _ _ _ (proj1 Hk)) as Hrd.
  destruct (slot_executes w2 a a2 k Hk (slot_at a k Hk eq_refl eq_refl) Hf H2' true n)
    as (s2 & Hd & Hs2).
  exists s2. split; [|done]. unfold Ij, mbind, M_bind, gets. rewrite tracing_off by apply Hrd.
  by rewrite Hd, Hpc, jtarget_spec, <- Et by done.
Qed.

Lemma Ijal_jumps k :
  r = Some 31 -> t = jump_target (m_pc a) w -> sees0 a k -> reg_pc (reg k) = m_pc a ->
  jumps (Ijal (Iexec (S n)) w) k.
Proof.
  intros Er Et Hk Hpc. pose proof H2 as H2'. rewrite Er in H2'. pose proof (sees_ready _ _ _ _ (proj1 Hk)) as Hrd.
  destruct (linked_run a k 31 Hk Hp) as [Hl Hk1]; [lia|].
  destruct (jump_tail w2 _ a2 _ Hk1 (slot_at _ _ Hk1 eq_refl eq_refl) Hf H2' true n (fun c => c)
              (printcall w t) t eq_refl)
    as (s2 & Hd & Hs2).
  exists s2. split; [|done]. rewrite <- Hd. unfold Ijal, mbind at 1 2 3, M_bind at 1 2 3, gets at 1.
  rewrite tracing_off by apply Hrd. by rewrite Hpc, jtarget_spec, <- Et, <- Hpc, Hl by done.
Qed.

Lemma Sjr_jumps k :
  r = None -> t = m_regs a (Getrs w) -> sees0 a k -> jumps (Sjr (Iexec (S n)) w) k.
Proof.
  intros Er Et Hk. pose proof H2 as H2'. rewrite Er in H2'. pose proof (sees_ready _ _ _ _ (proj1 Hk)) as Hrd.
  destruct (jump_tail w2 a a2 k Hk (slot_at a k Hk eq_refl eq_refl) Hf H2' true n
              (fun c => c && ((Getrs w =? 31) || (Getrs w =? 2)))
              (printcall w t) t eq_refl) as (s2 & Hd & Hs2).
  exists s2. split; [|done]. rewrite <- Hd. unfold Sjr, mbind at 1 2, M_bind at 1 2.
  rewrite rget_run by (auto with vi || apply Hrd). rewrite tracing_off by apply Hrd.
  rewrite (sees0_regs text cnt a k _ Hk), <- Et by auto with vi.
  destruct (text_addr a s _ (proj1 Hs) Ht) as (_ & Hh & _). unfold host_addr in Hh. by rewrite Hh.
Qed.

Lemma Sjalr_jumps k :
  r = Some (Getrd w) -> t = m_regs a (Getrs w) -> sees0 a k -> reg_pc (reg k) = m_pc a ->
  jumps (Sjalr (Iexec (S n)) w) k.
Proof.
  intros Er Et Hk Hpc. pose proof H2 as H2'. rewrite Er in H2'. pose proof (sees_ready _ _ _ _ (proj1 Hk)) as Hrd.
  pose proof (Getrd_range w) as Hd0. assert (Getrd w <> 0) by congruence.
  destruct (linked_run a k (Getrd w) Hk Hp) as [Hl Hk1]; [lia|].
  destruct (jump_tail w2 _ a2 _ Hk1 (slot_at _ _ Hk1 eq_refl eq_refl) Hf H2' true n (fun c => c)
              (printcall w t) t eq_refl) as (s2 & Hd & Hs2).
  exists s2. split; [|done]. rewrite <- Hd. unfold Sjalr, mbind at 1 2 3 4, M_bind at 1 2 3 4.
  rewrite rget_run by (auto with vi || apply Hrd). rewrite tracing_off by apply Hrd.
  unfold gets at 1. rewrite Hl, (sees0_regs text cnt a k _ Hk), <- Et by auto with vi.
  destruct (text_addr a s _ (proj1 Hs) Ht) as (_ & Hh & _). unfold host_addr in Hh. by rewrite Hh.
Qed.

Lemma jump_executes : jumps (Iexec (S (S n)) w) s.
Proof.
  destruct (control_inv w a t r Hc) as [(Hb & Et & Er)|[(Hop & Et & Er)|[(Hop & Et & Er)|
    [(Hop & Hfn & Et & Er)|(Hop & Hfn & Et & Er)]]]].
  - assert (linked r a = a) as El by by rewrite Er. rewrite El in H2.
    destruct (branch_executes w2 a a2 s Hs (slot_at a s Hs eq_refl eq_refl) Hf H2 w n Hb)
      as (s2 & Hi & Hs2).
    exists s2. split; [|done]. rewrite Hi. unfold branch_target.
    rewrite (pc_here s a (proj1 Hs) eq_refl), <- Et.
    destruct (text_addr a s _ (proj1 Hs) Ht) as (_ & _ & Eu & _). by rewrite Eu.
  - apply (row_jumps Ij); [intros; by rewrite Hop|]. intros. by apply Ij_jumps.
  - apply (row_jumps Ijal); [intros; by rewrite Hop|]. intros. by apply Ijal_jumps.
  - apply (special_jumps Sjr); [done|intros; by rewrite Hfn|]. intros. by apply Sjr_jumps.
  - apply (special_jumps Sjalr); [done|intros; by rewrite Hfn|]. intros. by apply Sjalr_jumps.
Qed.
End Jump.
End Refine.
