(* ===== verification/ViSteps.v ===== *)
(** Runs: the loop of [run], iteration by iteration, is a run of the architecture. *)
From stdpp Require Import relations.
From S2P Require Import Prelude CInt ViMachine ViMem ViMemSpec ViArith ViSpecial ViFloat ViRun ViInv ViDemo ViMemThm Mips MipsIsa ViSim ViAlu ViExec ViUnaligned ViIsa ViRefine.

(** The next instruction is the one after [pc]: no jump is pending. *)
Definition seq (a : mips) : Prop := m_npc a = u32 (m_pc a + 4).

Section Steps.
Context {E : ViEnv} {EOk : ViEnvOk E} (text : Z -> bool).

(** The jumps inside the 256 MB region of the instruction, which [j] and [jal] of the
    emulator take from its address and not, as the architecture, from its successor's. *)
Definition same_region (a : mips) : Prop :=
  Z.land (m_pc a + 4) 0xf0000000 = Z.land (m_pc a) 0xf0000000.

(** An iteration of the loop, on the architecture's side: an instruction; a branch that is not
    taken; or a jump and the instruction in its delay slot, which is not a jump itself. *)
Inductive vstep (a a' : mips) : Prop :=
  | vstep_simple w :
      text (m_pc a) = true -> fetch a = Some w -> fits w -> control_of w a = NoJump ->
      step a = Some a' -> vstep a a'
  | vstep_nottaken w w2 :
      text (m_pc a) = true -> fetch a = Some w -> control_of w a = NotTaken ->
      text (m_pc a + 4) = true -> word_at (m_mem a) (m_pc a + 4) = Some w2 ->
      step a = Some a' -> vstep a a'
  | vstep_jump w t r a1 w2 :
      text (m_pc a) = true -> fetch a = Some w -> control_of w a = Jump t r ->
      r <> Some 0 -> same_region a -> text (m_pc a + 4) = true -> text t = true ->
      step a = Some a1 -> fetch a1 = Some w2 -> fits w2 -> control_of w2 a1 = NoJump ->
      step a1 = Some a' -> vstep a a'.

Lemma vstep_steps a a' : vstep a a' -> exists k, steps k a = Some a'.
Proof.
  intros [w _ _ _ _ H|w w2 _ _ _ _ _ H|w t r a1 w2 _ _ _ _ _ _ _ H1 _ _ _ H].
  - exists 1%nat. cbn [steps]. by rewrite H.
  - exists 1%nat. cbn [steps]. by rewrite H.
  - exists 2%nat. cbn [steps]. rewrite H1. simpl. by rewrite H.
Qed.

(** ** The program counters do not matter to a simple instruction *)

Lemma simple_pcs w p q a : simple w (with_pcs p q a) = with_pcs p q <$> simple w a.
Proof.
  unfold simple. change (m_regs (with_pcs p q a)) with (m_regs a).
  change (from_hilo w (with_pcs p q a)) with (from_hilo w a).
  change (m_mem (with_pcs p q a)) with (m_mem a).
  destruct (alu w (m_regs a)) as [[]|]; [reflexivity|]. destruct (load w (m_regs a) (m_mem a)) as [[]|]; [reflexivity|].
  destruct (from_hilo w a) as [[]|]; [reflexivity|]. destruct (store w (m_regs a) (m_mem a)); [reflexivity|].
  destruct (Z.shiftr w 26 =? 0); [|reflexivity].
  destruct (hilo_spec _ _ _) as [[]|]; reflexivity.
Qed.

Lemma simple_pc w a a' : simple w a = Some a' -> m_pc a' = m_pc a /\ m_npc a' = m_npc a.
Proof.
  intros H. pose proof (simple_pcs w (m_pc a) (m_npc a) a) as Hp.
  assert (with_pcs (m_pc a) (m_npc a) a = a) as Ea by by destruct a.
  rewrite Ea, H in Hp. injection Hp as ->. done.
Qed.

Lemma fetch_some a w : fetch a = Some w -> m_pc a mod 4 = 0 /\ word_at (m_mem a) (m_pc a) = Some w.
Proof. unfold fetch, aligned. by destruct (Z.eqb_spec (m_pc a mod 4) 0). Qed.

(** [step], by the kind of instruction. *)
Lemma step_simple a w a' :
  fetch a = Some w -> control_of w a = NoJump -> step a = Some a' ->
  exists b, simple w a = Some b /\ a' = with_pcs (m_npc a) (u32 (m_npc a + 4)) b.
Proof.
  unfold step. intros -> H. cbn [mbind option_bind]. rewrite H. destruct (simple w a) as [b|]; [|done].
  cbn [mbind option_bind]. intros [= <-]. by exists b.
Qed.

Lemma step_nottaken a w a' :
  fetch a = Some w -> control_of w a = NotTaken -> step a = Some a' ->
  a' = with_pcs (m_npc a) (u32 (m_npc a + 4)) a.
Proof. unfold step. intros -> H. cbn [mbind option_bind]. rewrite H. by intros [= <-]. Qed.

Lemma step_jump a w t r a' :
  fetch a = Some w -> control_of w a = Jump t r -> step a = Some a' ->
  a' = with_pcs (m_npc a) t (linked r a).
Proof. unfold step. intros -> H. cbn [mbind option_bind]. rewrite H. by intros [= <-]. Qed.

Lemma nottaken_branch w a : control_of w a = NotTaken -> branch w (m_regs a) = Some false.
Proof.
  unfold control_of. destruct (branch w (m_regs a)) as [[]|]; [done|done|].
  generalize (Z.shiftr w 26) (Z.land w 0x3f). intros op fn.
  destruct op as [|p|p]; [|repeat (destruct p as [p|p|]; try done)|done].
  destruct fn as [|p|p]; [done|repeat (destruct p as [p|p|]; try done)|done].
Qed.

Section Run.
Context (cnt : Z).
Abbreviation sees := (sees text cnt).
Abbreviation sees0 := (sees0 text cnt).

Lemma m_npc_here a s : sees a s -> seq a -> text (m_pc a) = true -> m_npc a = m_pc a + 4.
Proof.
  intros Hs Hq Hp. destruct (text_addr text cnt a s _ Hs Hp) as (Hr & _).
  rewrite Hq. apply u32_id. lia.
Qed.

(** What [Iexec] makes of the three kinds of instructions: the state before the loop advances
    the program counter to [p]. *)
Definition arrives (w : Z) (s : vi) (a' : mips) : Prop :=
  exists s2, Iexec 2 w s = Ok tt s2 /\ ulong (reg_pc (reg s2) + 4) = host_addr (m_pc a')
    /\ sees a' (set_pc (host_addr (m_pc a')) s2).

Lemma arrive w s s3 s2 b a' :
  Iexec 2 w s = Ok tt s3 -> ulong (reg_pc (reg s3) + 4) = host_addr (m_pc a') ->
  (forall p, set_pc p s3 = set_pc p s2) -> sees b s2 ->
  a' = with_pcs (m_pc a') (m_npc a') b -> arrives w s a'.
Proof.
  intros Hi Hpc E3 Hs Ea. exists s3. split_and!; [exact Hi|exact Hpc|]. rewrite E3, Ea.
  exact (sees_with_pc text cnt b s2 (m_pc a') (m_npc a') Hs).
Qed.

(** The address after an instruction of the text. *)
Lemma next_addr a s s2 :
  sees a s -> seq a -> text (m_pc a) = true -> reg_pc (reg s2) = reg_pc (reg s) ->
  ulong (reg_pc (reg s2) + 4) = host_addr (m_npc a).
Proof.
  intros Hs Hq Hp Hpc. destruct (text_addr text cnt a s _ Hs Hp) as (Hr & Hh & _ & H4 & _).
  rewrite Hpc, (sees_pc _ _ _ _ Hs), Hh, H4, (m_npc_here a s) by done.
  unfold host_addr. rewrite ulong_s32 by lia. by rewrite (proj2 (Z.ltb_lt _ _)) by lia.
Qed.

Lemma vstep_Iexec a a' s :
  sees0 a s -> seq a -> vstep a a' ->
  exists w, fetch a = Some w /\ arrives w s a' /\ seq a'.
Proof.
  intros Hs Hq Hv. destruct Hv as [w Hp Hf Hfit Hc H|w w2 Hp Hf Hc Hp4 Hw2 H
                                  |w t r a1 w2 Hp Hf Hc Hr Hreg Hp4 Ht H1 Hf2 Hfit Hc2 H];
    exists w; (split; [done|]).
  - destruct (step_simple a w a' Hf Hc H) as (b & Hb & ->). destruct (simple_pc _ _ _ Hb) as [Epc _].
    destruct (simple_executes text cnt w a s b Hs Hfit Hb 1%nat) as (s2 & Hi & Hs2).
    split; [|done]. apply (arrive w s s2 s2 b _ Hi); [|done|exact Hs2|reflexivity].
    eapply next_addr; [apply Hs|done..|].
    by rewrite (sees_pc _ _ _ _ Hs2), (sees_pc _ _ _ _ (proj1 Hs)), Epc.
  - rewrite (step_nottaken a w a' Hf Hc H). split; [|done].
    pose proof (sees_ready _ _ _ _ (proj1 Hs)) as Hrd.
    destruct (branch_Iexec 1%nat w w2 s false) as (s2 & Hsim & Hi); [apply Hrd|apply Hrd| | |].
    + apply (sees_at_slot text cnt a); [apply Hs|done..| |done].
      apply fetch_some in Hf as [Hm _]. Z.div_mod_to_equations. lia.
    + rewrite (branch_ext _ (m_regs a)) by (intros; by apply (sees0_regs text cnt)).
      by apply nottaken_branch.
    + apply (arrive w s s2 s2 a _ Hi); [|done|by eapply sees_sim; [|apply Hs]|reflexivity].
      eapply next_addr; [apply Hs|done..|]. by apply (reg_pc_sim s2 s).
  - pose proof (step_jump a w t r a1 Hf Hc H1) as ->.
    destruct (step_simple _ w2 a' Hf2 Hc2 H) as (b2 & Hb & Ea).
    rewrite simple_pcs in Hb. destruct (simple w2 (linked r a)) as [b|] eqn:Hb2; [|done].
    injection Hb as <-. rewrite Ea. split; [|done]. apply fetch_some in Hf2 as [Hm Hw2].
    cbn [m_pc m_mem with_pcs] in Hm, Hw2. rewrite (m_npc_here a s) in Hm, Hw2 by (done || apply Hs).
    assert (m_mem (linked r a) = m_mem a) as Em by by destruct r. rewrite Em in Hw2.
    destruct (jump_executes text cnt a b s w w2 t r 0%nat) as (s2 & Hi & Hs2); [done..|].
    apply (arrive w s _ s2 b _ Hi); [|done|exact Hs2|reflexivity].
    destruct (text_addr text cnt a s _ (proj1 Hs) Ht) as (_ & Hh & _ & _ & H4).
    cbn [m_pc m_npc with_pcs]. rewrite Hh. exact H4.
Qed.

(** One iteration of the loop of [run]. *)
Lemma run1_vstep a a' s :
  sees a s -> seq a -> vstep a a' ->
  exists s', run1 2 s = Ok tt s' /\ sees a' s' /\ seq a'.
Proof.
  intros Hs Hq Hv. pose proof (sees_ready _ _ _ _ Hs) as Hrd.
  assert (text (m_pc a) = true) as Hp by by destruct Hv.
  set (s0 := set_gpr 0 0 s).
  assert (sees0 a s0) as Hs0.
  { split; [|unfold s0; rewrite gpr_set_gpr by (done || apply Hrd); done].
    pose proof (sees_with_reg text cnt a s 0 0 Hs ltac:(lia)) as H. destruct H. split; try done.
    intros i Hi. rewrite sees_r by done. cbn [m_r with_reg]. unfold upd.
    by rewrite (proj2 (Z.eqb_neq _ _)) by lia. }
  destruct (text_addr text cnt a s _ Hs Hp) as (Hr & Hh & _).
  assert (reg_pc (reg s0) = m_pc a) as Hpc by by rewrite (sees_pc _ _ _ _ (proj1 Hs0)), Hh.
  assert (exists w, fetch a = Some w) as [w Hf] by (destruct Hv; by eexists).
  pose proof (fetch_some _ _ Hf) as [Hal Hw].
  rewrite (sees_word text cnt a s0 (proj1 Hs0)), Hh in Hw by (done || lia).
  pose proof (sees_ready _ _ _ _ (proj1 Hs0)) as Hrd0.
  assert (fetchable s0 (m_pc a)) as Hfe.
  { split_and!; [done|by apply Hrd0|by eapply view_w_mapped]. }
  pose proof (quiet_ifetch s0 (m_pc a) (rd_mem _ _ _ Hrd0) Hfe) as Hqf. unfold quiet, runs in Hqf.
  destruct (ifetch (m_pc a) s0) as [w' s1| | | |] eqn:Hi; try done.
  destruct Hqf as (Heq & Hok & Hw'). rewrite Hw in Hw'. injection Hw' as <-.
  assert (sees0 a (set_ir w s1)) as Hs1.
  { eapply sees0_sim; [apply sim_set_ir|]. by eapply sees0_meq; [apply arch_eq_meq|..]. }
  destruct (vstep_Iexec a a' _ Hs1 Hq Hv) as (w' & Hf' & (s2 & Hx & Hpc2 & Hs2) & Hq').
  rewrite Hf in Hf'. injection Hf' as <-.
  exists (set_pc (host_addr (m_pc a')) s2). split_and!; [|done|done].
  unfold run1, mbind, M_bind. rewrite rset_run by (done || apply Hrd). fold s0.
  unfold gets at 1. rewrite Hpc, Hi. unfold modify at 1. rewrite Hx.
  unfold modify, gets. rewrite Hpc2. pose proof (sees_ready _ _ _ _ Hs2) as Hrd2.
  rewrite (rd_bplist _ _ _ Hrd2). unfold skip at 1, mret, M_ret. cbv beta.
  by rewrite (rd_rtrace _ _ _ Hrd2).
Qed.
End Run.

Lemma sees_set_count c c' a s : sees text c a s -> sees text c' a (set_count c' s).
Proof. intros [? ? ? ? ? []]. by split. Qed.

Lemma run_vsteps n k a a' s :
  (n <= k)%nat -> Z.of_nat n < 2 ^ 31 -> sees text (Z.of_nat n) a s -> seq a ->
  nsteps vstep n a a' -> (0 < n)%nat ->
  exists s', run k 2 s = Ok tt s' /\ sees text 0 a' s' /\ seq a'.
Proof.
  revert k a s. induction n as [|n IH]; intros k a s Hk Hn Hs Hq Hst Hn0; [lia|].
  destruct k as [|k]; [lia|]. inversion Hst as [|? ? a1 ? H1 H2]; subst.
  destruct (run1_vstep (Z.of_nat (S n)) a a1 s Hs Hq H1) as (s1 & Hr1 & Hs1 & Hq1).
  pose proof (sees_ready _ _ _ _ Hs1) as Hrd.
  assert (s32 (count s1 - 1) = Z.of_nat n) as Hc.
  { rewrite (rd_count _ _ _ Hrd). replace (Z.of_nat (S n) - 1) with (Z.of_nat n) by lia.
    apply wraps_id; [lia|]. unfold in_s. lia. }
  cbn [run]. unfold mbind, M_bind, gets, modify. rewrite Hr1, Hc.
  pose proof (sees_set_count _ (Z.of_nat n) _ _ Hs1) as Hs2.
  destruct n as [|n].
  - inversion H2; subst. simpl. eexists. split; [done|]. by split.
  - rewrite (proj2 (Z.eqb_neq _ _)) by lia. apply (IH k a1 _); (done || lia).
Qed.

Lemma vsteps_steps n a a' : nsteps vstep n a a' -> exists k, steps k a = Some a'.
Proof.
  induction 1 as [a|n a b c H1 _ [k Hk]]; [by exists 0%nat|].
  destruct (vstep_steps _ _ H1) as [j Hj]. exists (j + k)%nat. by rewrite steps_add, Hj.
Qed.
End Steps.


(** The program of [ViDemo], two iterations: [addiu], and [bne] with its delay slot. *)
Definition demo_text_at (x : Z) : bool := (0x4020 <=? x) && (x <? 0x4040).

Definition demo_vi : vi := set_count 2 (boot 64).

Definition demo_mips (pc npc r1 : Z) : mips :=
  mkmips pc npc (upd (gpr demo_vi) 1 r1) 0 0
    (fun x => view (E := host64) demo_vi (host_addr (E := host64) x)).

Lemma demo_step1 :
  step (demo_mips 0x4020 0x4024 0) = Some (with_pcs 0x4024 0x4028 (with_reg 1 5 (demo_mips 0x4020 0x4024 0))).
Proof.
  assert (fetch (demo_mips 0x4020 0x4024 0) = Some 0x24010005) as Hf by (vm_compute; reflexivity).
  unfold step. rewrite Hf. cbn [mbind option_bind].
  assert (control_of 0x24010005 (demo_mips 0x4020 0x4024 0) = NoJump) as -> by (vm_compute; reflexivity).
  assert (simple 0x24010005 (demo_mips 0x4020 0x4024 0)
          = Some (with_reg 1 5 (demo_mips 0x4020 0x4024 0))) as ->; [|reflexivity].
  unfold simple.
  assert (alu 0x24010005 (m_regs (demo_mips 0x4020 0x4024 0)) = Some (1, 5)) as ->
    by (vm_compute; reflexivity).
  reflexivity.
Qed.

Definition demo_after1 : mips := with_pcs 0x4024 0x4028 (with_reg 1 5 (demo_mips 0x4020 0x4024 0)).
Definition demo_jump : mips := with_pcs 0x4028 0x4030 demo_after1.
Definition demo_after2 : mips := with_pcs 0x4030 0x4034 (with_reg 1 12 demo_jump).

Lemma demo_step2 : step demo_after1 = Some demo_jump /\ step demo_jump = Some demo_after2.
Proof.
  assert (fetch demo_after1 = Some 0x14200002) as Hf by (vm_compute; reflexivity).
  assert (fetch demo_jump = Some 0x24210007) as Hf2 by (vm_compute; reflexivity).
  unfold step. rewrite Hf, Hf2. cbn [mbind option_bind].
  assert (control_of 0x14200002 demo_after1 = Jump 0x4030 None) as -> by (vm_compute; reflexivity).
  assert (control_of 0x24210007 demo_jump = NoJump) as -> by (vm_compute; reflexivity).
  split; [reflexivity|].
  assert (simple 0x24210007 demo_jump = Some (with_reg 1 12 demo_jump)) as ->; [|reflexivity].
  unfold simple.
  assert (alu 0x24210007 (m_regs demo_jump) = Some (1, 12)) as -> by (vm_compute; reflexivity).
  reflexivity.
Qed.

Lemma demo_vsteps : nsteps (vstep (E := host64) demo_text_at) 2 (demo_mips 0x4020 0x4024 0) demo_after2.
Proof.
  econstructor; [|econstructor; [|constructor]].
  - eapply vstep_simple; [reflexivity|vm_compute; reflexivity| | |exact demo_step1]; [done|].
    vm_compute. reflexivity.
  - eapply (vstep_jump _ _ _ 0x14200002 0x4030 None demo_jump 0x24210007);
      [reflexivity|vm_compute; reflexivity|vm_compute; reflexivity|done|reflexivity|reflexivity
      |reflexivity|exact (proj1 demo_step2)|vm_compute; reflexivity|done|vm_compute; reflexivity
      |exact (proj2 demo_step2)].
Qed.

Lemma demo_sees : sees (E := host64) demo_text_at 2 (demo_mips 0x4020 0x4024 0) demo_vi.
Proof.
  destruct (wf_boot 64 (or_intror eq_refl)) as [Hm [Hl Hr]].
  split.
  - vm_compute. reflexivity.
  - intros i Hi. cbn [m_r demo_mips]. unfold upd. destruct (Z.eqb_spec i 1) as [->|]; [|reflexivity].
    vm_compute. reflexivity.
  - vm_compute. reflexivity.
  - vm_compute. reflexivity.
  - intros x Hx. reflexivity.
  - split; [exact Hm|by split|vm_compute; reflexivity..|].
    intros x Hx. unfold demo_text_at in Hx. apply andb_true_iff in Hx as [H1 H2].
    apply Z.leb_le in H1. apply Z.ltb_lt in H2. split; [lia|].
    assert (exists k, x = 0x4020 + k /\ 0 <= k < 32) as (k & -> & Hk) by (exists (x - 0x4020); lia).
    assert (textbase demo_vi = 0x4000 /\ iprof_len demo_vi = 0x1000) as [-> ->] by (vm_compute; done).
    unfold ulong. simpl ulong_bits. rewrite wrapu_id by (unfold in_u; lia).
    unfold PROFGRAN. Z.div_mod_to_equations. lia.
Qed.

