(* ===== verification/VlEnc.v ===== *)
(** The instruction words the linker encodes, decoded by the emulator: every field a macro
    of [asm.c] packs is the field the emulator's decoders extract. *)
From S2P Require Import Prelude CInt ViMachine ViMem VlObj VlOptab VlSpan VlAsm.

(** An [int32] word as the emulator reads it from memory. *)
Definition word (o : Z) : Z := u32 (s32 o).

Lemma word_u32 o : word o = u32 o.
Proof. by apply wrapu_wraps. Qed.

Lemma word_range o : in_u 32 (word o).
Proof. by apply wrapu_range. Qed.

(** Bits that a small value does not have. *)
Lemma land_small x k : 0 <= k -> 0 <= x < 2 ^ k -> Z.land x (Z.ones k) = x.
Proof. intros. rewrite Z.land_ones by done. by apply Z.mod_small. Qed.

Lemma shiftl_high c k : 0 <= k -> Z.land (Z.shiftl c k) (Z.ones k) = 0.
Proof. intros. rewrite Z.land_ones, Z.shiftl_mul_pow2 by done. by apply Z.mod_mul, Z.pow_nonzero. Qed.

Section Fields.
Context (c : Z) (Hc : 0 <= c < 64).

(** [c] without bits from 6 on, in a form the bit tactics understand. *)
Lemma c_bits : c = Z.land c (Z.ones 6).
Proof. symmetry. by apply land_small. Qed.

(** The register format: [c] is the function field. *)
Lemma decode_RRR r1 r2 r3 :
  let w := word (OP_RRR c r1 r2 r3) in
  Z.shiftr w 26 = 0 /\ Z.land w 0x3f = c /\ Getrs w = Z.land r2 31
  /\ Getrt w = Z.land r1 31 /\ Getrd w = Z.land r3 31 /\ Getshamt w = 0.
Proof.
  cbv zeta. rewrite word_u32. unfold OP_RRR, Getrs, Getrt, Getrd, Getshamt. rewrite c_bits.
  split_and!; cbits.
Qed.

Lemma decode_SRR sa r2 r3 :
  let w := word (OP_SRR c sa r2 r3) in
  Z.shiftr w 26 = 0 /\ Z.land w 0x3f = c /\ Getrs w = 0
  /\ Getrt w = Z.land r2 31 /\ Getrd w = Z.land r3 31 /\ Getshamt w = Z.land sa 31.
Proof.
  cbv zeta. rewrite word_u32. unfold OP_SRR, Getrs, Getrt, Getrd, Getshamt. rewrite c_bits.
  split_and!; cbits.
Qed.

(** The immediate and jump formats: [c] is the major opcode of [op]. *)
Context (op : Z) (Hop : u32 op = Z.shiftl c 26).

Lemma op_bits i : 0 <= i < 32 -> Z.testbit op i = (26 <=? i) && Z.testbit c (i - 26).
Proof.
  intros Hi. pose proof (f_equal (fun x => Z.testbit x i) Hop) as H. cbv beta in H.
  unfold u32 in H. rewrite tb_wrapu, Z.shiftl_spec, (proj2 (Z.ltb_lt _ _)) in H by lia.
  rewrite andb_true_l in H. rewrite H. destruct (Z.leb_spec 26 i); [done|].
  by rewrite Z.testbit_neg_r by lia.
Qed.

Lemma u32_lor a b : u32 (Z.lor a b) = Z.lor (u32 a) (u32 b).
Proof. cbits. Qed.

Lemma decode_IRR i r2 r3 :
  let w := word (OP_IRR op i r2 r3) in
  Z.shiftr w 26 = c /\ Getrs w = Z.land r2 31 /\ Getrt w = Z.land r3 31
  /\ uimm w = Z.land i 0xffff /\ simm w = s16 i.
Proof.
  cbv zeta. rewrite word_u32. unfold OP_IRR. rewrite !u32_lor, Hop.
  unfold Getrs, Getrt, simm, uimm. rewrite c_bits. split_and!; cbits.
Qed.

Lemma decode_JMP i :
  let w := word (OP_JMP op i) in
  Z.shiftr w 26 = c /\ Z.land w 0x3ffffff = Z.land i 0x3ffffff.
Proof.
  cbv zeta. rewrite word_u32. unfold OP_JMP. rewrite !u32_lor, Hop. rewrite c_bits.
  split_and!; cbits.
Qed.
End Fields.

(** The floating-point format: [c] is the opcode with the operand format, [f] the function. *)
Lemma decode_FRRR c f op r1 r2 r3 :
  0 <= c < 2048 -> 0 <= f < 64 -> u32 op = Z.lor (Z.shiftl c 21) f ->
  let w := word (OP_FRRR op r1 r2 r3) in
  Z.shiftr w 21 = c /\ Z.land w 0x3f = f
  /\ Getrt w = Z.land r1 31 /\ Getrd w = Z.land r2 31 /\ Getfd w = Z.land r3 31.
Proof.
  intros Hc Hf Hop. cbv zeta. rewrite word_u32. unfold OP_FRRR. rewrite !u32_lor, Hop.
  rewrite <- (land_small c 11), <- (land_small f 6) by lia.
  unfold Getrt, Getrd, Getfd. split_and!; cbits.
Qed.

(** ** Reading back emitted bytes *)

Lemma be_bytes_word o b0 b1 b2 b3 :
  be_bytes o = [b0; b1; b2; b3] -> be32 b0 b1 b2 b3 = word o.
Proof.
  intros H. injection H as <- <- <- <-. rewrite word_u32. unfold be32. cbits.
Qed.
