(* ===== verification/VlTables.v ===== *)
(** The tables [buildop] makes for the search of [optab], against a direct search. *)
From S2P Require Import Prelude CInt Qsort VlObj VlOptab VlSym VlSpan.

(** ** The tables, computed *)

Definition tables : Tables := Eval vm_compute in
  match buildop with Some T => T | None => mkTables [] ∅ ∅ ∅ ∅ ∅ end.

Lemma buildop_tables : buildop = Some tables.
Proof. vm_cast_no_check (eq_refl (Some tables)). Qed.

#[global] Opaque tables.

(** The opcode whose entries serve [r]: [r] itself, or the one [buildop] copies from. *)
Definition leader (r : Z) : Z :=
  default r (o_as <$> find (fun o => match op_group (o_as o) with
                                     | Some (_, l) => existsb (Z.eqb r) l
                                     | None => false
                                     end) optab).

(** The entries for [r], in the order of [ocmp]. *)
Definition entries (r : Z) : list Optab :=
  let l := leader r in List.filter (fun o => o_as o =? l) (t_optab tables).

(** An operand of class [b] is accepted where an entry says [a]. *)
Definition accepts (a1 a2 a3 : Z) (o : Optab) : bool :=
  (o_a2 o =? a2) && cmp (o_a1 o) a1 && cmp (o_a3 o) a3.

Definition opcodes : list Z := zseq 121.
Definition classes : list Z := zseq 29.

Lemma elem_zseq n x : 0 <= x < Z.of_nat n -> In x (zseq n).
Proof. intros H. apply list_elem_of_In, elem_of_seqZ. lia. Qed.

Lemma forallb_zseq n f x : forallb f (zseq n) = true -> 0 <= x < Z.of_nat n -> f x = true.
Proof. intros H Hx. rewrite forallb_forall in H. by apply H, elem_zseq. Qed.

(** The entry the tables give. *)
Definition lookup_entry (r a1 a2 a3 : Z) : option Optab :=
  k ← ofind tables r a1 a2 a3; t_optab tables !! Z.to_nat k.

(** Every choice of three operand classes. *)
Definition triples : list (Z * Z * Z) :=
  a1 ← classes; a2 ← zseq 2; a3 ← classes; [(a1, a2, a3)].

Lemma elem_triples a1 a2 a3 :
  0 <= a1 < 29 -> 0 <= a2 < 2 -> 0 <= a3 < 29 -> In (a1, a2, a3) triples.
Proof.
  intros H1 H2 H3. apply list_elem_of_In. unfold triples, classes, zseq.
  apply list_elem_of_bind. exists a1. split; [|apply elem_of_seqZ; lia].
  apply list_elem_of_bind. exists a2. split; [|apply elem_of_seqZ; lia].
  apply list_elem_of_bind. exists a3. split; [|apply elem_of_seqZ; lia].
  by apply list_elem_of_singleton.
Qed.

(** ** A row of [opcross] against the entries it stands for *)

(** The entries of row [x] of [opcross], those of the opcodes sent to it; none for row 0. *)
Definition row_entries (x : Z) : list Optab :=
  match find (fun r => tlook (t_repop tables) r =? x) opcodes with
  | Some r => if x =? 0 then [] else entries r
  | None => []
  end.

Definition cross_entry (x a1 a2 a3 : Z) : option Optab :=
  let k := tlook (t_opcross tables) (cix x a1 a2 a3) in
  if k =? 0 then None else t_optab tables !! Z.to_nat k.

Definition check_cross (x : Z) (es : list Optab) (a : Z * Z * Z) : bool :=
  let '(a1, a2, a3) := a in
  bool_decide (cross_entry x a1 a2 a3 = find (accepts a1 a2 a3) es).

Definition check_row (x : Z) : bool :=
  let es := row_entries x in forallb (check_cross x es) triples.

Lemma check_rows : forallb check_row (zseq 9) = true.
Proof. vm_cast_no_check (eq_refl true). Qed.

Lemma row_correct x a1 a2 a3 :
  0 <= x < 9 -> 0 <= a1 < 29 -> 0 <= a2 < 2 -> 0 <= a3 < 29 ->
  cross_entry x a1 a2 a3 = find (accepts a1 a2 a3) (row_entries x).
Proof.
  intros Hx H1 H2 H3. pose proof (forallb_zseq 9 check_row x check_rows Hx) as H.
  unfold check_row in H. revert H. generalize (row_entries x). intros es H.
  pose proof (proj1 (forallb_forall (check_cross x es) triples) H _
                (elem_triples a1 a2 a3 H1 H2 H3)) as Hc.
  unfold check_cross in Hc. by apply bool_decide_eq_true in Hc.
Qed.

(** ** The linear search *)

Definition check_xcmp (i : Z) : bool :=
  forallb (fun n => Bool.eqb (negb (tlook (t_xcmp tables) (xix i n) =? 0)) (cmp n i)) (zseq 32).

Lemma check_xcmps : forallb check_xcmp (zseq 32) = true.
Proof. vm_cast_no_check (eq_refl true). Qed.

Lemma xcmp_cmp i n :
  0 <= i < 32 -> 0 <= n < 32 -> negb (tlook (t_xcmp tables) (xix i n) =? 0) = cmp n i.
Proof.
  intros Hi Hn. pose proof (forallb_zseq 32 check_xcmp i check_xcmps Hi) as H.
  unfold check_xcmp in H. by apply (forallb_zseq 32 _ n) in H as ->%Bool.eqb_prop.
Qed.

(** The operand classes of the table fit [xcmp]. *)
Definition classes_fit (o : Optab) : bool :=
  (0 <=? o_a1 o) && (o_a1 o <? 32) && (0 <=? o_a3 o) && (o_a3 o <? 32).

Lemma classes_fit_all : forallb classes_fit (t_optab tables) = true.
Proof. vm_cast_no_check (eq_refl true). Qed.

Lemma accepts_xcmp a1 a2 a3 k o :
  0 <= a1 < 32 -> 0 <= a3 < 32 -> t_optab tables !! k = Some o ->
  (o_a2 o =? a2) && negb (tlook (t_xcmp tables) (xix a1 (o_a1 o)) =? 0)
    && negb (tlook (t_xcmp tables) (xix a3 (o_a3 o)) =? 0) = accepts a1 a2 a3 o.
Proof.
  intros H1 H3 Ho. apply list_elem_of_lookup_2, list_elem_of_In in Ho.
  pose proof (proj1 (forallb_forall _ _) classes_fit_all o Ho) as Hf.
  unfold classes_fit in Hf. rewrite !andb_true_iff, !Z.leb_le, !Z.ltb_lt in Hf.
  unfold accepts. by rewrite !xcmp_cmp by lia.
Qed.

Lemma drop_lookup {A} (l : list A) k o : l !! k = Some o -> drop k l = o :: drop (S k) l.
Proof. intros. by rewrite (drop_S _ o). Qed.

Lemma oscan_find a1 a2 a3 n k :
  0 <= a1 < 32 -> 0 <= a3 < 32 ->
  (k + n <= length (t_optab tables))%nat ->
  (j ← oscan tables a1 a2 a3 n (Z.of_nat k); t_optab tables !! Z.to_nat j)
  = find (accepts a1 a2 a3) (take n (drop k (t_optab tables))).
Proof.
  intros H1 H3. revert k. induction n as [|n IH]; intros k Hk; [done|]. cbn [oscan].
  rewrite Nat2Z.id.
  destruct (lookup_lt_is_Some_2 (t_optab tables) k) as [o Ho]; [lia|].
  rewrite Ho, (accepts_xcmp _ _ _ _ _ H1 H3 Ho), (drop_lookup _ _ _ Ho). cbn [take find].
  destruct (accepts a1 a2 a3 o); [simpl; by rewrite Nat2Z.id|].
  replace (Z.of_nat k + 1) with (Z.of_nat (S k)) by lia. apply IH. lia.
Qed.

(** Every opcode has its range of the table, or a row of [opcross] with its entries. *)
Definition check_opcode (r : Z) : bool :=
  match t_start tables !! r with
  | Some s =>
      let n := tlook (t_stop tables) r - s in
      (0 <=? s) && (0 <=? n) && (s + n <=? 178)
      && bool_decide (take (Z.to_nat n) (drop (Z.to_nat s) (t_optab tables)) = entries r)
  | None =>
      let x := tlook (t_repop tables) r in
      (0 <=? x) && (x <? 9) && bool_decide (row_entries x = entries r)
  end.

Lemma check_opcodes : forallb check_opcode opcodes = true.
Proof. vm_cast_no_check (eq_refl true). Qed.

Lemma tables_length : length (t_optab tables) = 178%nat.
Proof. vm_cast_no_check (eq_refl 178%nat). Qed.

Lemma lookup_entry_find r a1 a2 a3 :
  0 <= r < 121 -> 0 <= a1 < 29 -> 0 <= a2 < 2 -> 0 <= a3 < 29 ->
  lookup_entry r a1 a2 a3 = find (accepts a1 a2 a3) (entries r).
Proof.
  intros Hr H1 H2 H3. pose proof (forallb_zseq 121 check_opcode r check_opcodes Hr) as H.
  unfold check_opcode in H. unfold lookup_entry, ofind.
  destruct (t_start tables !! r) as [s|].
  - cbv zeta in H. rewrite !andb_true_iff, !Z.leb_le, bool_decide_eq_true in H.
    destruct H as [[[Hs Hn] Hl] <-].
    rewrite <- (Z2Nat.id s) at 2 by done. apply oscan_find; [lia|lia|].
    rewrite tables_length. lia.
  - cbv zeta in H. rewrite !andb_true_iff, Z.leb_le, Z.ltb_lt, bool_decide_eq_true in H.
    destruct H as [[Hx0 Hx] <-]. rewrite <- (row_correct _ a1 a2 a3) by lia.
    unfold cross_entry. cbv zeta. by case_match.
Qed.

(** An index plus one fits the [uchar] that caches it. *)
Lemma ofind_fits r a1 a2 a3 k :
  ofind tables r a1 a2 a3 = Some k -> lookup_entry r a1 a2 a3 <> None ->
  0 <= k -> u8 (k + 1) = k + 1 /\ u8 (k + 1) <> 0.
Proof.
  intros Hk Hl H0. unfold lookup_entry in Hl. rewrite Hk in Hl. simpl in Hl.
  assert (Z.to_nat k < 178)%nat as Hlt.
  { change 178%nat with (length (t_optab tables)). apply lookup_lt_is_Some.
    exact (proj1 (not_eq_None_Some _) Hl). }
  unfold u8. rewrite wrapu_id by (unfold in_u; lia). lia.
Qed.
