(* ===== verification/VlDemo.v ===== *)
(** A small program in the linker, for the examples: its instructions as the assembler
    delivers them, and the state of the linker that holds them. *)
From S2P Require Import Prelude CInt VlObj VlOptab VlSym VlSpan VlAsm VlTables.

(** Operands: none, a register, a constant, a memory cell, a branch. *)
Definition none : Adr := zadr.
Definition areg (r : Z) : Adr := mkAdr 0 None D_REG r D_NONE 0.
Definition afreg (r : Z) : Adr := mkAdr 0 None D_FREG r D_NONE 0.
Definition acon (v : Z) : Adr := mkAdr v None D_CONST NREG D_NONE 0.
Definition amem (v r : Z) : Adr := mkAdr v None D_OREG r D_NONE 0.
Definition abranch : Adr := mkAdr 0 None D_BRANCH NREG D_NONE 0.

(** An instruction: opcode, operands, middle register, target of a branch, successor. *)
Definition ins (a : Z) (f t : Adr) (r : Z) (c l : option Z) : Prog :=
  mkProg f t c l None 0 0 0 0 a r.

(** [TEXT main; MOVW $0x12345678, R2; ADD $5, R2, R3; BEQ R2, R3, L; NOR; JMP main; NOR;
    L: MOVW R3, 8(R29)] *)
Definition demo_prog : gmap Z Prog :=
  list_to_map
    [(0, ins ATEXT (mkAdr 0 (Some 0) D_OREG NREG D_EXTERN 0) (acon 12) NREG None (Some 1));
     (1, ins AMOVW (acon 0x12345678) (areg 2) NREG None (Some 2));
     (2, ins AADD (acon 5) (areg 3) 2 None (Some 3));
     (3, ins ABEQ (areg 2) abranch 3 (Some 7) (Some 4));
     (4, ins ANOR (areg 0) (areg 0) NREG None (Some 5));
     (5, ins AJMP none abranch NREG (Some 1) (Some 6));
     (6, ins ANOR (areg 0) (areg 0) NREG None (Some 7));
     (7, ins AMOVW (areg 3) (amem 8 29) NREG None None)].

Definition demo_main : Sym := mkSym [109; 97; 105; 110] STEXT 0 0 0 0.

(** The linker with a program of [n] instructions, text at 0x1020. *)
Definition linker (p : gmap Z Prog) (n : Z) : vl :=
  mkvl p {[0 := demo_main]} {[symhash [109; 97; 105; 110] 0 := [0]]} n 1 (Some 0) None (Some 0) None None None
    0 0 0x1020 tables 0x1020 0 0x1000 0 0 0 0 0 3 0 [] false false false [] MAXIO []
    None 0 0 0 [] None None ∅ 0 ∅ 0.

Definition demo : vl := linker demo_prog 8.

Definition is_ok {A} (r : lout A) : bool := match r with LOk _ _ => true | _ => false end.
