(* ===== verification/VlLib.v ===== *)
(** Reasoning about the linker's passes: what an effect leaves alone, by rules for the
    monad, and what it appends to the output. *)
From S2P Require Import Prelude CInt VlObj VlOptab VlSym VlSpan VlAsm.

Create HintDb vl.

(** ** What the passes leave alone *)

(** The bytes of the output so far, flushed or not. *)
Definition output (s : vl) : list Z := written s ++ cbuf s.

(** An instruction without the caches of [oplook]. *)
Definition code (p : Prog) : Prog :=
  pset_optab 0 (pset_from (aset_class 0 (from p)) (pset_to (aset_class 0 (to p)) p)).

(** [s'] has the program, the tables, the options and the layout of [s], and its errors. *)
Record steady (s s' : vl) : Prop := {
  steady_progs : code <$> progs s' = code <$> progs s;
  steady_tabs : tabs s' = tabs s;
  steady_little : little s' = little s;
  steady_Y : debug_Y s' = debug_Y s;
  steady_pc : pc s' = pc s;
  steady_first : firstp s' = firstp s;
  steady_dat : INITDAT s' = INITDAT s;
  steady_errors : suffix (diags s) (diags s');
  steady_cache : forall pid p, progs s !! pid = Some p -> p_optab p <> 0 ->
    exists p', progs s' !! pid = Some p' /\ p_optab p' = p_optab p }.

(** The variables few functions assign. *)
Definition vars (s : vl) :=
  (tabs s, little s, debug_Y s, pc s, firstp s, INITDAT s, written s, cbuf s, cbc s, nextp s,
   INITTEXT s, INITRND s, debug_t s, textsize s, datsize s, bsssize s, symsize s, lcsize s).

(** [s'] has even the caches of [s]: only [instoffset], [autosize], the symbols and the
    errors may differ. *)
Record quiet (s s' : vl) : Prop := {
  quiet_progs : progs s' = progs s;
  quiet_vars : vars s' = vars s;
  quiet_errors : suffix (diags s) (diags s') }.

(** Besides, [bs] was written. *)
Definition emits (bs : list Z) (s s' : vl) : Prop :=
  steady s s' /\ output s' = output s ++ bs.
Abbreviation calm := (emits []).

#[export] Instance quiet_refl : Reflexive quiet.
Proof. by split. Qed.

#[export] Instance quiet_trans : Transitive quiet.
Proof. intros a b c [] []. split; [congruence..|]. by etrans. Qed.

#[export] Instance steady_refl : Reflexive steady.
Proof. split; eauto. Qed.

#[export] Instance steady_trans : Transitive steady.
Proof.
  intros a b c [] []. split; try congruence; [by etrans|].
  intros pid p Hp Hk. destruct (steady_cache0 pid p Hp Hk) as (q & Hq & E).
  destruct (steady_cache1 pid q Hq) as (r & Hr & E'); [congruence|].
  exists r. split; [done|congruence].
Qed.

Lemma emits_trans xs ys zs s1 s2 s3 :
  emits xs s1 s2 -> emits ys s2 s3 -> zs = xs ++ ys -> emits zs s1 s3.
Proof.
  intros [H1 E1] [H2 E2] ->. split; [by etrans|]. by rewrite E2, E1, app_assoc.
Qed.

#[export] Instance calm_refl : Reflexive (emits []).
Proof. split; [done|]. by rewrite app_nil_r. Qed.

#[export] Instance calm_trans : Transitive (emits []).
Proof. intros a b c H1 H2. by eapply emits_trans. Qed.

Lemma quiet_calm s s' : quiet s s' -> emits [] s s'.
Proof.
  intros [Hp Hv Hd]. unfold vars in Hv. simplify_eq. split.
  - split; rewrite ?Hp; eauto.
  - unfold output. rewrite app_nil_r. congruence.
Qed.

(** The instructions of [s] and [s'] agree up to the caches. *)
Lemma steady_getp s s' pid p' :
  steady s s' -> progs s' !! pid = Some p' ->
  exists p, progs s !! pid = Some p /\ code p = code p'.
Proof.
  intros [Hp _] H. pose proof (lookup_fmap code (progs s') pid) as E.
  rewrite H, Hp, lookup_fmap in E. destruct (progs s !! pid) as [p|]; [|done].
  exists p. split; [done|]. by apply (inj Some).
Qed.

Lemma code_link p q : code p = code q -> link p = link q.
Proof. intros H. exact (f_equal link H). Qed.
Lemma code_as p q : code p = code q -> p_as p = p_as q.
Proof. intros H. exact (f_equal p_as H). Qed.
Lemma code_pc p q : code p = code q -> p_pc p = p_pc q.
Proof. intros H. exact (f_equal p_pc H). Qed.

(** ** Rules *)

Lemma lbind_assoc {A B C} (m : L A) (k : A -> L B) (j : B -> L C) s :
  (y ← (x ← m; k x); j y) s = (x ← m; y ← k x; j y) s.
Proof. unfold mbind, L_bind. by destruct (m s). Qed.

Lemma bind_same {A B} (m m' : L A) (k : A -> L B) s : m s = m' s -> (x ← m; k x) s = (x ← m'; k x) s.
Proof. unfold mbind, L_bind. by intros ->. Qed.

Lemma bind_move {A B} (m m' : L A) (k : A -> L B) s s' : m s = m' s' -> (x ← m; k x) s = (x ← m'; k x) s'.
Proof. unfold mbind, L_bind. by intros ->. Qed.

Lemma bind_to {A B} (m : L A) (k : A -> L B) s a s' : m s = LOk a s' -> (x ← m; k x) s = k a s'.
Proof. unfold mbind, L_bind. by intros ->. Qed.

Lemma bind_ok {A B} (m : L A) (k : A -> L B) s b s' :
  (x ← m; k x) s = LOk b s' -> exists a s1, m s = LOk a s1 /\ k a s1 = LOk b s'.
Proof. unfold mbind, L_bind. destruct (m s) as [a s1| | |] eqn:E; [|done..]. eauto. Qed.

(** If [m] returns, [R] relates the states around it. *)
Definition lrel {A} (R : vl -> vl -> Prop) (m : L A) : Prop :=
  forall s a s', m s = LOk a s' -> R s s'.

Lemma lrel_weaken {A} (R R' : vl -> vl -> Prop) (m : L A) :
  (forall s s', R s s' -> R' s s') -> lrel R m -> lrel R' m.
Proof. intros H Hm s a s' E. by eapply H, Hm. Qed.

Section Rules.
Context (R : vl -> vl -> Prop) `{!Reflexive R, !Transitive R}.

Lemma lrel_ret {A} (a : A) : lrel R (mret a).
Proof. intros s b s' [= <- <-]. done. Qed.

Lemma lrel_bind {A B} (m : L A) (k : A -> L B) :
  lrel R m -> (forall a, lrel R (k a)) -> lrel R (x ← m; k x).
Proof.
  intros Hm Hk s b s' H. unfold mbind, L_bind in H.
  destruct (m s) as [a s1| | |] eqn:E; [|done..]. etrans; [by eapply Hm|by eapply Hk].
Qed.

Lemma lrel_gets {A} (f : vl -> A) : lrel R (lgets f).
Proof. intros s b s' [= <- <-]. done. Qed.

Lemma lrel_exit {A} : lrel R (@lexit A).
Proof. by intros s b s'. Qed.

Lemma lrel_fault {A} : lrel R (@lfault A).
Proof. by intros s b s'. Qed.

Lemma lrel_diverge {A} : lrel R (@ldiverge A).
Proof. by intros s b s'. Qed.

Lemma lrel_getp p : lrel R (getp p).
Proof. intros s b s'. unfold getp. case_match; [|done]. intros [= <- <-]. done. Qed.

Lemma lrel_getsym y : lrel R (getsym y).
Proof. intros s b s'. unfold getsym. case_match; [|done]. intros [= <- <-]. done. Qed.

Lemma lrel_opt_at k : lrel R (opt_at k).
Proof. intros s b s'. unfold opt_at. case_match; [|done]. intros [= <- <-]. done. Qed.

Lemma lrel_modify f : (forall s, R s (f s)) -> lrel R (lmodify f).
Proof. intros H s a s' [= <- <-]. apply H. Qed.
End Rules.

#[export] Hint Resolve lrel_ret lrel_gets lrel_exit lrel_fault lrel_diverge lrel_getp
  lrel_getsym lrel_opt_at : vl.

(** One step through the monad: binds, conditionals, matches, then the database. *)
Ltac lstep :=
  cbv zeta;
  lazymatch goal with
  | |- forall _, _ => intros
  | |- lrel _ (mbind _ _) => apply lrel_bind; [apply _|..]
  | |- lrel _ lskip => apply lrel_ret; apply _
  | |- lrel _ (match ?x with _ => _ end) => destruct x
  | |- lrel _ (let '(_, _) := ?x in _) => destruct x
  | |- lrel _ _ => solve [eauto 2 with vl typeclass_instances]
  end.
Ltac lgo := repeat lstep.

(** ** What is quiet *)

Lemma set_instoffset_quiet v : lrel quiet (set_instoffset v).
Proof. by apply lrel_modify. Qed.

Lemma curtext_quiet v : lrel quiet (lmodify (lset_curtext v)).
Proof. by apply lrel_modify. Qed.

Lemma autosize_quiet v : lrel quiet (lmodify (lset_autosize v)).
Proof. by apply lrel_modify. Qed.

Lemma curp_quiet v : lrel quiet (lmodify (lset_curp v)).
Proof. by apply lrel_modify. Qed.

Lemma diag_quiet fmt args : lrel quiet (diag fmt args).
Proof.
  unfold diag. apply lrel_bind; [apply _| |lgo]. apply lrel_modify. intros s.
  split; [done..|]. by exists [Ldiag fmt args].
Qed.

Lemma updsym_quiet y f : lrel quiet (updsym y f).
Proof. intros s a s'. unfold updsym. case_match; [|done]. by intros [= <- <-]. Qed.

#[export] Hint Resolve set_instoffset_quiet curtext_quiet autosize_quiet curp_quiet diag_quiet
  updsym_quiet : vl.

Lemma near_quiet a b : lrel quiet (near a b).
Proof. unfold near. lgo. Qed.
Lemma consize_quiet : lrel quiet consize.
Proof. unfold consize. lgo. Qed.
Lemma undefined_external_quiet y : lrel quiet (undefined_external y).
Proof. unfold undefined_external. lgo. Qed.
#[export] Hint Resolve near_quiet consize_quiet undefined_external_quiet : vl.

Lemma auto_class_quiet a d b c : lrel quiet (auto_class a d b c).
Proof. unfold auto_class. lgo. Qed.
#[export] Hint Resolve auto_class_quiet : vl.

Lemma aclass_quiet a : lrel quiet (aclass a).
Proof. unfold aclass, aclass_oreg, aclass_oconst, aclass_const. lgo. Qed.
#[export] Hint Resolve aclass_quiet : vl.

Lemma regoff_quiet a : lrel quiet (regoff a).
Proof. unfold regoff. lgo. Qed.
Lemma oprrr_quiet a : lrel quiet (oprrr a).
Proof. unfold oprrr. lgo. Qed.
Lemma opirr_quiet a : lrel quiet (opirr a).
Proof. unfold opirr. lgo. Qed.
#[export] Hint Resolve regoff_quiet oprrr_quiet opirr_quiet : vl.

Lemma lui_ori_quiet v t : lrel quiet (lui_ori v t).
Proof. unfold lui_ori. lgo. Qed.
#[export] Hint Resolve lui_ori_quiet : vl.
Lemma far_address_quiet v r : lrel quiet (far_address v r).
Proof. unfold far_address. lgo. Qed.
Lemma no_regtmp_quiet b p : lrel quiet (no_regtmp b p).
Proof. unfold no_regtmp. lgo. Qed.
#[export] Hint Resolve far_address_quiet no_regtmp_quiet : vl.
Lemma asm_fmem_quiet op v r fr size : lrel quiet (asm_fmem op v r fr size).
Proof. unfold asm_fmem. lgo. Qed.
#[export] Hint Resolve asm_fmem_quiet : vl.

Lemma asm_reg_quiet p o : lrel quiet (asm_reg p o).
Proof. unfold asm_reg. lgo. Qed.
Lemma asm_con_quiet pid p o : lrel quiet (asm_con pid p o).
Proof. unfold asm_con. lgo. Qed.
Lemma asm_mem_quiet pid p o : lrel quiet (asm_mem pid p o).
Proof. unfold asm_mem. lgo. Qed.
Lemma asm_float_quiet pid p o : lrel quiet (asm_float pid p o).
Proof. unfold asm_float. lgo. Qed.
Lemma asm_cop_quiet pid p o : lrel quiet (asm_cop pid p o).
Proof. unfold asm_cop. lgo. Qed.
Lemma asm_noslot_quiet pid p o : lrel quiet (asm_noslot pid p o).
Proof. unfold asm_noslot. lgo. Qed.
#[export] Hint Resolve asm_reg_quiet asm_con_quiet asm_mem_quiet asm_float_quiet asm_cop_quiet
  asm_noslot_quiet : vl.

(** [asmout] computes the words of an instruction without changing the program. *)
Lemma asm_words_quiet pid p o : lrel quiet (asm_words pid p o).
Proof. unfold asm_words. lgo. Qed.
Lemma asm_jmp_quiet p : lrel quiet (asm_jmp p).
Proof. unfold asm_jmp. lgo. Qed.
#[export] Hint Resolve asm_words_quiet asm_jmp_quiet : vl.

(** ** What is calm *)

Lemma lrel_quiet_calm {A} (m : L A) : lrel quiet m -> lrel calm m.
Proof. apply lrel_weaken, quiet_calm. Qed.
#[export] Hint Extern 2 (lrel (emits []) _) => apply lrel_quiet_calm : vl.

(** An update of the caches; an entry that was found is kept. *)
Lemma updp_calm p f s s' :
  (forall x, progs s !! p = Some x ->
     code (f x) = code x /\ (p_optab x <> 0 -> p_optab (f x) = p_optab x)) ->
  updp p f s = LOk tt s' -> calm s s'.
Proof.
  intros Hf. unfold updp. destruct (progs s !! p) as [x|] eqn:E; [|done].
  destruct (Hf x eq_refl) as [Hc Ho].
  intros [= <-]. split; [|by rewrite app_nil_r]. split; try done.
  - simpl. rewrite fmap_insert, Hc. apply insert_id. by rewrite lookup_fmap, E.
  - intros pid q Hq Hk. simpl. destruct (decide (pid = p)) as [->|].
    + simplify_eq. exists (f x). rewrite lookup_insert_eq. auto.
    + exists q. by rewrite lookup_insert_ne.
Qed.

(** The [optab] field of [pid] is as before. *)
Definition keeps_entry (pid : Z) (s s' : vl) : Prop :=
  p_optab <$> progs s' !! pid = p_optab <$> progs s !! pid.

#[export] Instance keeps_entry_refl pid : Reflexive (keeps_entry pid).
Proof. done. Qed.
#[export] Instance keeps_entry_trans pid : Transitive (keeps_entry pid).
Proof. intros a b c H1 H2. by etrans. Qed.

(** The classes are cached: calm, and without an effect on [optab]. *)
Definition caches (pid : Z) (s s' : vl) : Prop := calm s s' /\ keeps_entry pid s s'.

#[export] Instance caches_refl pid : Reflexive (caches pid).
Proof. by split. Qed.
#[export] Instance caches_trans pid : Transitive (caches pid).
Proof. intros a b c [] []. split; by etrans. Qed.

Lemma quiet_caches pid s s' : quiet s s' -> caches pid s s'.
Proof. intros H. split; [by apply quiet_calm|]. unfold keeps_entry. by destruct H as [-> _ _]. Qed.
Lemma lrel_quiet_caches {A} pid (m : L A) : lrel quiet m -> lrel (caches pid) m.
Proof. apply lrel_weaken, quiet_caches. Qed.
#[export] Hint Extern 2 (lrel (caches _) _) => apply lrel_quiet_caches : vl.

Lemma updp_caches pid f :
  (forall x, code (f x) = code x) -> (forall x, p_optab (f x) = p_optab x) ->
  lrel (caches pid) (updp pid f).
Proof.
  intros H1 H2 s [] s' E. split; [eapply updp_calm; eauto|].
  revert E. unfold updp, keeps_entry. destruct (progs s !! pid) as [x|] eqn:E; [|done].
  intros [= <-]. simpl. rewrite lookup_insert_eq. simpl. by rewrite H2.
Qed.

Lemma class_from_caches pid : lrel (caches pid) (class_from pid).
Proof. unfold class_from. lgo. by apply updp_caches. Qed.
Lemma class_to_caches pid : lrel (caches pid) (class_to pid).
Proof. unfold class_to. lgo. by apply updp_caches. Qed.
#[export] Hint Resolve class_from_caches class_to_caches : vl.

(** Where [pid] has no entry yet, [set_optab] is calm. *)
Lemma set_optab_calm pid k s s' :
  p_optab <$> progs s !! pid = Some 0 -> set_optab pid k s = LOk tt s' -> calm s s'.
Proof. intros H. apply updp_calm. intros x Hx. rewrite Hx in H. by injection H. Qed.

(** [oplook] of an instruction without an entry classifies both operands and searches. *)
Lemma oplook_fresh pid s p :
  progs s !! pid = Some p -> p_optab p = 0 ->
  oplook pid s
  = (a1 ← class_from pid;
     a3 ← class_to pid;
     let a2 := if p_reg p =? NREG then C_NONE else C_REG in
     T ← lgets tabs;
     match ofind T (p_as p) a1 a2 a3 with
     | Some k => set_optab pid k;; opt_at k
     | None =>
         let a1 := match t_start T !! p_as p with None => 0 | Some _ => a1 end in
         diag "illegal combination %A %d %d %d" [p_as p; a1; a2; a3];;
         set_optab pid 0;; opt_at 0
     end) s.
Proof.
  intros Hp H0. unfold oplook, mbind at 1, L_bind at 1, getp. by rewrite Hp, H0.
Qed.

Lemma oplook_cached pid s p :
  progs s !! pid = Some p -> p_optab p <> 0 -> oplook pid s = opt_at (p_optab p - 1) s.
Proof.
  intros Hp H0. unfold oplook, mbind, L_bind, getp. rewrite Hp.
  by rewrite (proj2 (Z.eqb_neq _ _) H0).
Qed.

Lemma set_optab_opt_at_calm pid k s o s' :
  p_optab <$> progs s !! pid = Some 0 -> (set_optab pid k;; opt_at k) s = LOk o s' -> calm s s'.
Proof.
  intros H0 H. apply bind_ok in H as ([] & s1 & H1 & H2).
  etrans; [by eapply set_optab_calm|]. by apply (lrel_opt_at calm) in H2.
Qed.

Lemma oplook_calm pid : lrel calm (oplook pid).
Proof.
  intros s o s' H. destruct (progs s !! pid) as [p|] eqn:Hp;
    [|by unfold oplook, mbind, L_bind, getp in H; rewrite Hp in H].
  destruct (Z.eqb_spec (p_optab p) 0) as [H0|H0].
  - rewrite (oplook_fresh _ _ _ Hp H0) in H.
    apply bind_ok in H as (a1 & s1 & H1 & H). apply bind_ok in H as (a3 & s2 & H2 & H).
    apply class_from_caches in H1 as [C1 K1]. apply class_to_caches in H2 as [C2 K2].
    assert (p_optab <$> progs s2 !! pid = Some 0) as Hz.
    { rewrite K2, K1, Hp. simpl. by rewrite H0. }
    etrans; [exact C1|]. etrans; [exact C2|]. cbv zeta in H.
    apply bind_ok in H as (T & s3 & [= <- <-] & H). destruct (ofind _ _ _ _ _).
    + by eapply set_optab_opt_at_calm.
    + apply bind_ok in H as ([] & s3 & H3 & H). apply diag_quiet in H3.
      etrans; [by apply quiet_calm|]. eapply set_optab_opt_at_calm; [|exact H].
      by rewrite (quiet_progs _ _ H3).
  - rewrite (oplook_cached _ _ _ Hp H0) in H. by apply (lrel_opt_at calm) in H.
Qed.
#[export] Hint Resolve oplook_calm : vl.
