(* ===== verification/VlEmit.v ===== *)
(** What [asmout] writes: every instruction yields the number of words its table entry
    says, and the buffered output is the bytes of those words. *)
From S2P Require Import Prelude CInt VlObj VlOptab VlSym VlSpan VlAsm VlDemo VlLib.

(** ** The output buffer *)

Definition word_bytes (le : bool) (w : Z) : list Z := if le then le_bytes w else be_bytes w.

Lemma cflush_emits s : emits [] s (lset_cbc MAXIO (lset_cbuf [] (lset_written (written s ++ cbuf s) s))).
Proof. split; [split; eauto|]. unfold output. simpl. by rewrite !app_nil_r. Qed.

(** Writing succeeds, whatever room the buffer has, and appends the bytes. *)
Lemma putbytes_emits bs s : exists s', putbytes bs s = LOk tt s' /\ emits bs s s'.
Proof.
  unfold putbytes, mbind, L_bind, lmodify, lgets.
  set (s1 := lset_cbc _ _).
  assert (emits bs s s1) as H1.
  { split; [split; eauto|]. unfold output. simpl. by rewrite app_assoc. }
  destruct (_ <=? 0); eexists; (split; [reflexivity|]); [|exact H1].
  eapply emits_trans; [exact H1|apply cflush_emits|]. by rewrite app_nil_r.
Qed.

Lemma LPUT_emits w s : exists s', LPUT w s = LOk tt s' /\ emits (word_bytes (little s) w) s s'.
Proof.
  unfold LPUT, LLEPUT, LBEPUT, mbind, L_bind, lgets, word_bytes.
  destruct (little s); apply putbytes_emits.
Qed.

Lemma LPUTs_emits ws s :
  exists s', LPUTs ws s = LOk tt s' /\ emits (flat_map (word_bytes (little s)) ws) s s'.
Proof.
  revert s. induction ws as [|w ws IH]; intros s; [by exists s|].
  destruct (LPUT_emits w s) as (s1 & H1 & E1). destruct (IH s1) as (s2 & H2 & E2).
  exists s2. split; [unfold LPUTs, mbind, L_bind; by rewrite H1|].
  rewrite (steady_little _ _ (proj1 E1)) in E2. by eapply emits_trans.
Qed.

Lemma word_bytes_length le w : length (word_bytes le w) = 4%nat.
Proof. by destruct le. Qed.

Lemma flat_bytes_length le ws :
  Z.of_nat (length (flat_map (word_bytes le) ws)) = 4 * Z.of_nat (length ws).
Proof.
  induction ws as [|w ws IH]; [done|]. cbn [flat_map].
  rewrite length_app, word_bytes_length. cbn [length]. lia.
Qed.

(** ** The number of words *)

(** If [m] returns, its result satisfies [P]. *)
Definition lret {A} (P : A -> Prop) (m : L A) : Prop :=
  forall s a s', m s = LOk a s' -> P a.

Lemma lret_ret {A} (P : A -> Prop) a : P a -> lret P (mret a).
Proof. by intros H s b s' [= <- <-]. Qed.

Lemma lret_bind {A B} (Q : A -> Prop) (P : B -> Prop) (m : L A) k :
  lret Q m -> (forall a, Q a -> lret P (k a)) -> lret P (x ← m; k x).
Proof. intros Hm Hk s b s' H. apply bind_ok in H as (a & s1 & H1 & H). by eapply Hk; [eapply Hm|]. Qed.

Lemma lret_any {A} (m : L A) : lret (fun _ => True) m.
Proof. done. Qed.

(** [m] yields [n] words. *)
Definition yields (n : nat) : L (list Z) -> Prop := lret (fun ws => length ws = n).

Lemma yields_ret n ws : length ws = n -> yields n (mret ws).
Proof. intros H. by apply lret_ret. Qed.

Lemma yields_seq {A} n (m : L A) k : (forall a, yields n (k a)) -> yields n (x ← m; k x).
Proof. intros H. apply (lret_bind (fun _ => True)); [apply lret_any|]. intros a _. apply H. Qed.

Lemma yields_app n i (m : L (list Z)) k :
  yields i m -> (forall ws, length ws = i -> yields n (k ws)) -> yields n (x ← m; k x).
Proof. apply lret_bind. Qed.

Lemma lui_ori_yields v t : yields 2 (lui_ori v t).
Proof. unfold lui_ori. do 2 (apply yields_seq; intros). by apply yields_ret. Qed.

Lemma far_address_yields v r : yields 3 (far_address v r).
Proof.
  unfold far_address. eapply yields_app; [apply lui_ori_yields|]. intros ws H.
  apply yields_seq. intros. apply yields_ret. rewrite length_app, H. done.
Qed.

Ltac yields :=
  cbv zeta; repeat match goal with
  | |- yields _ (mbind _ (lui_ori _ _)) => eapply yields_app; [apply lui_ori_yields|intros ws Hws]
  | |- yields _ (mbind _ (far_address _ _)) =>
      eapply yields_app; [apply far_address_yields|intros ws Hws]
  | |- yields _ (mbind _ _) => apply yields_seq; intros
  | |- yields _ (lui_ori _ _) => apply lui_ori_yields
  | Hws : length _ = _ |- yields _ (mret (_ ++ _)) =>
      apply yields_ret; rewrite length_app, Hws; reflexivity
  | |- yields _ (mret _) => apply yields_ret; reflexivity
  | |- yields _ (match ?x with _ => _ end) => destruct x
  end.

(** The words of an entry. The size of two entries, the float loads of large constants, is
    too small for the words of their type. *)
Definition nwords (o : Optab) : nat :=
  if in_types (o_type o) [35; 36] then 4 else Z.to_nat (o_size o / 4).

(** The types of instructions that [asm_words] makes, with their sizes. *)
Definition word_shapes : list (Z * Z) := Eval vm_compute in
  remove_dups (List.filter (fun ts => negb (in_types ts.1 [0; 11]))
                 (map (fun o => (o_type o, o_size o)) optab)).

Definition entry_ok (o : Optab) : bool :=
  if o_type o =? 0 then o_size o =? 0
  else if o_type o =? 11 then o_size o =? 4
  else bool_decide ((o_type o, o_size o) ∈ word_shapes).

Lemma optab_entries_ok : forallb entry_ok optab = true.
Proof. vm_cast_no_check (eq_refl true). Qed.

Lemma optab_entry o : In o optab -> entry_ok o = true.
Proof. apply forallb_forall, optab_entries_ok. Qed.

Lemma asm_words_yields pid p o :
  (o_type o, o_size o) ∈ word_shapes -> yields (nwords o) (asm_words pid p o).
Proof.
  intros H. apply list_elem_of_In in H. destruct o as [a a1 a2 a3 t sz pm]. simpl in H.
  repeat (destruct H as [[= <- <-]|H];
    [lazy beta iota zeta delta [asm_words nwords in_types existsb noslot_types orb Z.eqb Pos.eqb
       o_type o_size asm_reg asm_con asm_mem asm_float asm_cop asm_noslot asm_fmem];
     yields|]).
  done.
Qed.

Lemma shape_facts o :
  (o_type o, o_size o) ∈ word_shapes ->
  (o_type o =? 0) = false /\ (o_type o =? 11) = false
  /\ in_types (o_size o) [4; 8; 12; 16; 20; 28] = true /\ 4 * (o_size o / 4) = o_size o.
Proof.
  intros H. apply list_elem_of_In in H. destruct o as [a a1 a2 a3 t sz pm]. simpl in *.
  repeat (destruct H as [[= <- <-]|H]; [by split_and!|]). done.
Qed.

(** The words that go to the file: of a short entry only the first ones. *)
Lemma words_of_length o ws :
  (o_type o, o_size o) ∈ word_shapes ->
  4 * Z.of_nat (length (words_of (o_size o) ws)) = o_size o.
Proof.
  intros (_ & _ & Hs & Hd)%shape_facts. unfold words_of. rewrite length_map, length_seq, Hs.
  rewrite Z2Nat.id; [done|]. unfold in_types in Hs.
  apply existsb_exists in Hs as (x & Hx & ->%Z.eqb_eq).
  repeat (destruct Hx as [<-|Hx]; [done|]). done.
Qed.

(** The first words are written, all of them but for the entries whose size is too small. *)
Lemma words_of_take size ws :
  in_types size [4; 8; 12; 16; 20; 28] = true -> (Z.to_nat (size / 4) <= length ws)%nat ->
  words_of size ws = take (Z.to_nat (size / 4)) ws.
Proof.
  intros Hs Hl. unfold words_of. rewrite Hs. apply list_eq. intros i.
  rewrite list_lookup_fmap. destruct (decide (i < Z.to_nat (size / 4))%nat) as [Hi|Hi].
  - rewrite lookup_seq_lt, lookup_take_lt by done. simpl.
    by destruct (lookup_lt_is_Some_2 ws i) as [w ->]; [lia|].
  - rewrite lookup_take_ge by lia. by rewrite lookup_ge_None_2; [|rewrite length_seq; lia].
Qed.

(** An entry has at least the words its size asks for. *)
Lemma nwords_enough o :
  (o_type o, o_size o) ∈ word_shapes -> (Z.to_nat (o_size o / 4) <= nwords o)%nat.
Proof.
  intros H. apply list_elem_of_In in H. destruct o as [a a1 a2 a3 t sz pm]. simpl in *.
  repeat (destruct H as [[= <- <-]|H]; [vm_compute; lia|]). done.
Qed.

(** ** [asmout] *)

(** For a delay slot [asmout] writes nothing. *)
Lemma asmout_slot_calm f pid o : lrel calm (asmout f pid o true).
Proof.
  revert pid o. induction f as [|f IH]; intros pid o; [apply lrel_diverge|].
  cbn [asmout]. rewrite andb_true_r. cbn iota. lgo; apply IH.
Qed.

(** An instruction of a type [asm_words] makes: its words are written. *)
Lemma asmout_plain f pid p o s ws s1 :
  progs s !! pid = Some p -> (o_type o, o_size o) ∈ word_shapes ->
  asm_words pid p o s = LOk ws s1 ->
  exists s', asmout (S f) pid o false s = LOk 0 s'
    /\ emits (flat_map (word_bytes (little s)) (words_of (o_size o) ws)) s s'.
Proof.
  intros Hp Ho Hw.
  destruct (shape_facts o Ho) as (H0 & H11 & _).
  cbn [asmout]. unfold mbind at 1, L_bind at 1, getp. rewrite Hp, H0, H11, andb_false_r.
  cbn iota. unfold mbind at 1, L_bind at 1. rewrite Hw.
  pose proof (quiet_calm _ _ (asm_words_quiet pid p o _ _ _ Hw)) as Hq.
  destruct (LPUTs_emits (words_of (o_size o) ws) s1) as (s2 & H2 & E2).
  exists s2. unfold mbind, L_bind. rewrite H2. split; [done|].
  rewrite (steady_little _ _ (proj1 Hq)) in E2. by eapply emits_trans.
Qed.

(** [bytes n]: [n] bytes were written. *)
Definition writes (n : Z) (s s' : vl) : Prop :=
  exists bs, emits bs s s' /\ Z.of_nat (length bs) = n.

Lemma writes_calm n s1 s2 s3 : calm s1 s2 -> writes n s2 s3 -> writes n s1 s3.
Proof. intros H (bs & E & L). exists bs. split; [|done]. by eapply emits_trans. Qed.

Lemma LPUTs_writes ws s s' u :
  LPUTs ws s = LOk u s' -> writes (4 * Z.of_nat (length ws)) s s'.
Proof.
  intros H. destruct (LPUTs_emits ws s) as (s2 & H2 & E2). rewrite H2 in H.
  injection H as _ <-. eexists. split; [exact E2|apply flat_bytes_length].
Qed.

(** The instruction after [pid] is a nop, which a jump at [pid] may replace. *)
Definition before_nop (pid : Z) (s : vl) : Prop :=
  exists p l q, progs s !! pid = Some p /\ link p = Some l
                /\ progs s !! l = Some q /\ isnop q = true.

(** The result of [asmout]: 0, or 1 where the jump took the place of the nop after it. *)
Definition returns (r pid : Z) (s : vl) : Prop := r = 0 \/ r = 1 /\ before_nop pid s.

(** The test of [asmout] for a nop after the jump. *)
Lemma jump_nop_test pid p y s s' nop :
  progs s !! pid = Some p ->
  (match link p with
   | Some l => q ← getp l; mret (negb y && bool_decide (is_Some (cond p)) && isnop q)
   | None => mret false
   end) s = LOk nop s' -> s' = s /\ (nop = true -> before_nop pid s).
Proof.
  intros Hp. destruct (link p) as [l|] eqn:El; [|by intros [= <- <-]].
  unfold mbind, L_bind, getp. destruct (progs s !! l) as [q|] eqn:Eq; [|done].
  intros [= <- <-]. split; [done|]. rewrite !andb_true_iff. intros [_ Hq].
  by exists p, l, q.
Qed.

(** A jump writes itself, and with the instruction it puts in its delay slot a second word. *)
Lemma asmout_jump_writes f pid o s r s' :
  o_type o = 11 -> o_size o = 4 -> asmout (S f) pid o false s = LOk r s' ->
  returns r pid s /\ writes (o_size o + 4 * r) s s'.
Proof.
  intros Ht Hs H. cbn [asmout] in H. rewrite Ht in H. cbn iota in H.
  change (11 =? 0) with false in H. change (11 =? 11) with true in H. cbn iota in H.
  apply bind_ok in H as (p & s1 & H1 & H). apply bind_ok in H as (o1 & s2 & H2 & H).
  apply bind_ok in H as (y & s3 & H3 & H). apply bind_ok in H as (nop & s4 & H4 & H).
  unfold getp in H1. destruct (progs s !! pid) as [p'|] eqn:Hp; [|done]. injection H1 as -> <-.
  injection H3 as <- <-. apply asm_jmp_quiet in H2. pose proof (quiet_progs _ _ H2) as Hps.
  apply (jump_nop_test pid) in H4 as [-> Hnop]; [|by rewrite Hps].
  assert (calm s s2) as Hc by by apply quiet_calm.
  assert (forall ws u s5 s6, calm s2 s5 -> LPUTs (words_of (o_size o) ws) s5 = LOk u s6 ->
            returns 0 pid s /\ writes (o_size o + 4 * 0) s s6) as Hw.
  { intros ws u s5 s6 H5 H6. split; [by left|]. rewrite Z.add_0_r.
    apply (writes_calm _ _ _ _ Hc), (writes_calm _ _ _ _ H5).
    rewrite Hs in *. by apply LPUTs_writes in H6. }
  destruct nop; [destruct (cond p) as [t|]|].
  - apply bind_ok in H as (oc & s5 & H5 & H). apply bind_ok in H as (o2 & s6 & H6 & H).
    apply oplook_calm in H5. apply asmout_slot_calm in H6.
    assert (calm s2 s6) as H46 by (by etrans).
    destruct (negb (o2 =? 0)).
    + apply bind_ok in H as ([] & s7 & H7 & H). apply bind_ok in H as ([] & s8 & H8 & [= <- <-]).
      split; [right; split; [done|]; unfold before_nop in *; rewrite <- Hps; by apply Hnop|].
      rewrite Hs. apply (writes_calm _ _ _ _ Hc), (writes_calm _ _ _ _ H46).
      apply (LPUTs_writes [s32 (o1 + 1); o2] s6 s8 tt). simpl.
      unfold mbind, L_bind. by rewrite H7, H8.
    + apply bind_ok in H as (u & s7 & H7 & [= <- <-]). by eapply Hw.
  - apply bind_ok in H as (u & s7 & H7 & [= <- <-]). by eapply Hw.
  - apply bind_ok in H as (u & s7 & H7 & [= <- <-]). by eapply Hw.
Qed.

Lemma asmout_writes f pid o s r s' :
  In o optab -> asmout f pid o false s = LOk r s' ->
  returns r pid s /\ writes (o_size o + 4 * r) s s'.
Proof.
  intros Ho H. destruct f as [|f]; [done|]. apply optab_entry in Ho. unfold entry_ok in Ho.
  destruct (Z.eqb_spec (o_type o) 0) as [H0|H0]; [|destruct (Z.eqb_spec (o_type o) 11) as [H11|]].
  - apply Z.eqb_eq in Ho. cbn [asmout] in H. rewrite H0, Ho in H. simpl in H.
    apply bind_ok in H as (p & s1 & H1 & H). cbn in H. injection H as <- <-.
    apply (lrel_getp calm) in H1. split; [by left|]. exists []. rewrite Ho. by split.
  - apply Z.eqb_eq in Ho. by eapply asmout_jump_writes.
  - apply bool_decide_eq_true in Ho.
    cbn [asmout] in H. apply bind_ok in H as (p & s1 & H1 & H).
    unfold getp in H1. destruct (progs s !! pid) as [p'|] eqn:Hp; [|done].
    injection H1 as -> ->. rewrite !(proj2 (Z.eqb_neq _ _)), andb_false_r in H by done.
    cbn iota in H. apply bind_ok in H as (ws & s2 & H2 & H).
    apply asm_words_quiet, quiet_calm in H2.
    apply bind_ok in H as (u & s3 & H3 & [= <- <-]). split; [by left|].
    apply LPUTs_writes in H3. rewrite Z.add_0_r. apply (writes_calm _ _ _ _ H2).
    by rewrite (words_of_length o) in H3.
Qed.

(** ** What is written *)


Definition demo_lcon : Optab := mkOptab AMOVW C_LCON C_NONE C_REG 19 8 REGZERO.

Definition demo_out : vl :=
  match asmout 1 1 demo_lcon false demo with LOk _ s => s | _ => demo end.

Lemma demo_run : asmout 1 1 demo_lcon false demo = LOk 0 demo_out.
Proof. vm_cast_no_check (eq_refl (LOk 0 demo_out)). Qed.



