(* ===== verification/VlLook.v ===== *)
(** Instruction selection: [oplook] finds the first entry of the table that takes the
    operands, and remembers it. *)
From S2P Require Import Prelude CInt VlObj VlOptab VlSym VlSpan VlAsm VlTables VlDemo VlLib VlEmit.

(** ** Operand classes *)

Definition is_class (c : Z) : Prop := 0 <= c < 29.

Lemma lret_seq {A B} (P : B -> Prop) (m : L A) k :
  (forall a, lret P (k a)) -> lret P (x ← m; k x).
Proof. intros H. apply (lret_bind (fun _ => True)); [apply lret_any|]. intros a _. apply H. Qed.

(** Every path ends in one of the classes of [l.h]. *)
Ltac classes :=
  cbv zeta; repeat match goal with
  | |- lret _ (mret _) => apply lret_ret; by vm_compute
  | |- lret _ (mbind _ _) => apply lret_seq; intros
  | |- lret _ (match ?x with _ => _ end) => destruct x
  | |- lret _ lfault => by intros ? ? ?
  | H : lret _ ?m |- lret _ ?m => exact H
  end.

Lemma near_class c d : is_class c -> is_class d -> lret is_class (near c d).
Proof. intros Hc Hd. unfold near. apply lret_seq; intros v. apply lret_ret. by case_match. Qed.

(** The classes that [near] chooses from. *)
Lemma near_classes :
  lret is_class (near C_SEXT C_LEXT) /\ lret is_class (near C_SOREG C_LOREG).
Proof. split; by apply near_class; vm_compute. Qed.

Lemma consize_class : lret is_class consize.
Proof.
  unfold consize. apply lret_seq; intros v. apply lret_ret. unfold consize_of.
  repeat case_match; by vm_compute.
Qed.

Lemma auto_class_class a d c e : is_class c -> is_class e -> lret is_class (auto_class a d c e).
Proof. intros Hc He. unfold auto_class. do 2 (apply lret_seq; intros). by apply near_class. Qed.

(** [aclass] yields a class below [C_GOK + 1], so one that the tables have. *)
Lemma aclass_class a : lret is_class (aclass a).
Proof.
  pose proof near_classes as [? ?]. pose proof consize_class.
  assert (forall a d, lret is_class (auto_class a d C_SAUTO C_LAUTO)
                      /\ lret is_class (auto_class a d C_SACON C_LACON)) as Ha
    by (intros; split; by apply auto_class_class; vm_compute).
  unfold aclass, aclass_oreg, aclass_oconst, aclass_const. classes; apply Ha.
Qed.

(** ** The cached classes *)

Definition classes_ok (p : Prog) : Prop :=
  0 <= a_class (from p) <= 29 /\ 0 <= a_class (to p) <= 29.

Definition class_ok (pid : Z) (s : vl) : Prop :=
  exists p, progs s !! pid = Some p /\ classes_ok p.

(** [getp] and the update of the classes, run. *)
Lemma getp_run pid p s : progs s !! pid = Some p -> getp pid s = LOk p s.
Proof. intros H. unfold getp. by rewrite H. Qed.

Lemma s8_class c : is_class c -> s8 (c + 1) = c + 1.
Proof. intros H. apply wraps_id; [lia|]. unfold in_s, is_class in *. lia. Qed.

(** One operand is classified: the class is one of the tables', and stays cached. *)
Lemma class_step (sel : Prog -> Adr) (upd : Z -> Prog -> Prog) pid s a s1 :
  (forall c x, classes_ok x -> is_class c -> classes_ok (upd (c + 1) x)) ->
  (forall x, classes_ok x -> 0 <= a_class (sel x) <= 29) ->
  class_ok pid s ->
  (p ← getp pid;
   if a_class (sel p) =? 0 then
     c ← aclass (sel p); updp pid (upd (s8 (c + 1)));; mret c
   else mret (a_class (sel p) - 1)) s = LOk a s1 ->
  is_class a /\ class_ok pid s1.
Proof.
  intros Hu Hs (p & Hp & Hc) H. unfold mbind at 1, L_bind at 1 in H.
  rewrite (getp_run _ _ _ Hp) in H. pose proof (Hs p Hc).
  destruct (Z.eqb_spec (a_class (sel p)) 0).
  - apply bind_ok in H as (c & s2 & H1 & H). pose proof (aclass_class _ _ _ _ H1) as Hcl.
    apply aclass_quiet in H1. apply bind_ok in H as ([] & s3 & H3 & [= <- <-]).
    split; [done|]. unfold updp in H3. rewrite (quiet_progs _ _ H1), Hp in H3.
    injection H3 as <-. rewrite (s8_class _ Hcl). exists (upd (c + 1) p).
    split; [apply lookup_insert_eq|]. by apply Hu.
  - injection H as <- <-. split; [unfold is_class; lia|]. by exists p.
Qed.

Lemma class_from_ok pid s a s1 :
  class_ok pid s -> class_from pid s = LOk a s1 -> is_class a /\ class_ok pid s1.
Proof.
  intros Hc H.
  apply (class_step from (fun c x => pset_from (aset_class c (from x)) x) pid s); try done.
  - intros c x [H1 H2] Hcl. split; [|done]. simpl. unfold is_class in Hcl. lia.
  - by intros x [? ?].
Qed.

Lemma class_to_ok pid s a s1 :
  class_ok pid s -> class_to pid s = LOk a s1 -> is_class a /\ class_ok pid s1.
Proof.
  intros Hc H.
  apply (class_step to (fun c x => pset_to (aset_class c (to x)) x) pid s); try done.
  - intros c x [H1 H2] Hcl. split; [done|]. simpl. unfold is_class in Hcl. lia.
  - by intros x [? ?].
Qed.

(** ** oplook *)

(** What [oplook] does once it has the classes. *)
Definition a2_of (p : Prog) : Z := if p_reg p =? NREG then C_NONE else C_REG.

Lemma a2_of_range p : 0 <= a2_of p < 2.
Proof. unfold a2_of. case_match; by vm_compute. Qed.

(** An entry found before is found again. *)
Lemma oplook_again pid k o s p :
  progs s !! pid = Some p -> p_optab p = u8 (k + 1) -> u8 (k + 1) = k + 1 -> u8 (k + 1) <> 0 ->
  t_optab (tabs s) !! Z.to_nat k = Some o -> oplook pid s = LOk o s.
Proof.
  intros Hp Ho Hu H0 Ht. rewrite (oplook_cached _ _ _ Hp) by (by rewrite Ho).
  rewrite Ho, Hu. replace (k + 1 - 1) with k by lia. unfold opt_at. by rewrite Ht.
Qed.

Lemma set_optab_run pid k s p :
  progs s !! pid = Some p ->
  set_optab pid k s = LOk tt (lset_progs (<[pid := pset_optab (u8 (k + 1)) p]> (progs s)) s).
Proof. intros H. unfold set_optab, updp. by rewrite H. Qed.

(** The entry of the search is in the table, and its index fits the [uchar] that caches it. *)
Lemma ofind_range r a1 a2 a3 k :
  ofind tables r a1 a2 a3 = Some k -> 0 <= k < 178 /\ is_Some (t_optab tables !! Z.to_nat k).
Proof.
  assert (forallb (fun kv => 0 <=? kv.2) (map_to_list (t_start tables)) = true) as Hst
    by (vm_compute; reflexivity).
  assert (forallb (fun kv => (0 <=? kv.2) && (kv.2 <? 178)) (map_to_list (t_opcross tables))
          = true) as Hcr by (vm_compute; reflexivity).
  rewrite forallb_forall in Hst, Hcr. intros Hk.
  assert (0 <= k < 178) as Hr; [|split; [done|]; apply lookup_lt_is_Some; rewrite tables_length; lia].
  revert Hk. unfold ofind. destruct (t_start tables !! r) as [st|] eqn:E.
  - apply elem_of_map_to_list, list_elem_of_In, Hst, Z.leb_le in E. simpl in E.
    generalize (Z.to_nat (tlook (t_stop tables) r - st)). intros n. revert st E.
    induction n as [|n IH]; intros st E; [done|]. cbn [oscan].
    destruct (t_optab tables !! Z.to_nat st) as [o|] eqn:Eo; [|done]. case_match; [|apply IH; lia].
    intros [= <-]. apply lookup_lt_Some in Eo. rewrite tables_length in Eo. lia.
  - cbv zeta. case_match; [done|]. intros [= <-]. unfold tlook in *.
    destruct (t_opcross tables !! _) as [v|] eqn:Ev; [|done]. simpl.
    apply elem_of_map_to_list, list_elem_of_In, Hcr, andb_true_iff in Ev as [H1 H2].
    apply Z.leb_le in H1. by apply Z.ltb_lt in H2.
Qed.

(** The classes [oplook] works with. *)
Definition classified (pid : Z) (s : vl) (a1 a3 : Z) (s2 : vl) : Prop :=
  exists s1, class_from pid s = LOk a1 s1 /\ class_to pid s1 = LOk a3 s2.

(** [oplook] of an instruction without an entry: the state after the classification, and
    the instruction there. *)
Lemma oplook_classified pid s p a1 a3 s2 :
  tabs s = tables -> progs s !! pid = Some p -> p_optab p = 0 -> classes_ok p ->
  classified pid s a1 a3 s2 ->
  is_class a1 /\ is_class a3 /\ calm s s2 /\ tabs s2 = tables
  /\ (exists q, progs s2 !! pid = Some q /\ p_optab q = 0)
  /\ oplook pid s
     = match ofind tables (p_as p) a1 (a2_of p) a3 with
       | Some k => (set_optab pid k;; opt_at k) s2
       | None =>
           let a1 := match t_start tables !! p_as p with None => 0 | Some _ => a1 end in
           (diag "illegal combination %A %d %d %d" [p_as p; a1; a2_of p; a3];;
            set_optab pid 0;; opt_at 0) s2
       end.
Proof.
  intros Ht Hp H0 Hc (s1 & H1 & H2).
  destruct (class_from_ok pid s a1 s1) as [C1 K1]; [by exists p|done|].
  destruct (class_to_ok pid s1 a3 s2 K1 H2) as [C3 K3].
  rewrite (oplook_fresh _ _ _ Hp H0). unfold mbind, L_bind. rewrite H1, H2.
  apply class_from_caches in H1 as [Q1 E1]. apply class_to_caches in H2 as [Q2 E2].
  assert (calm s s2) as Hq by (by etrans).
  assert (tabs s2 = tables) as Ht2 by (rewrite <- Ht; apply Hq).
  split_and!; try done.
  - assert (p_optab <$> progs s2 !! pid = Some 0) as Ho by (rewrite E2, E1, Hp; simpl; by rewrite H0).
    destruct (progs s2 !! pid) as [q|]; [|done]. exists q. split; [done|]. by injection Ho.
  - unfold lgets. rewrite Ht2. fold (a2_of p). by destruct (ofind _ _ _ _ _).
Qed.

(** The first entry that takes the classes is found, and remembered. *)
Lemma oplook_finds pid s p a1 a3 s2 o :
  tabs s = tables -> progs s !! pid = Some p -> p_optab p = 0 -> classes_ok p ->
  0 <= p_as p < ALAST -> classified pid s a1 a3 s2 ->
  find (accepts a1 (a2_of p) a3) (entries (p_as p)) = Some o ->
  exists s', oplook pid s = LOk o s' /\ calm s s' /\ forall t, steady s' t -> oplook pid t = LOk o t.
Proof.
  intros Ht Hp H0 Hc Has Hcl Hfd.
  destruct (oplook_classified pid s p a1 a3 s2) as (C1 & C3 & Hq & Ht2 & (q & Hq2 & Hz) & Hl);
    [done..|].
  pose proof (lookup_entry_find (p_as p) a1 (a2_of p) a3 Has C1 (a2_of_range p) C3) as Hf.
  rewrite Hfd in Hf. unfold lookup_entry in Hf.
  destruct (ofind tables (p_as p) a1 (a2_of p) a3) as [k|] eqn:Ek; [|done].
  destruct (ofind_range _ _ _ _ _ Ek) as [Hk _]. simpl in Hf.
  unfold mbind, L_bind in Hl. rewrite (set_optab_run _ _ _ _ Hq2) in Hl.
  unfold opt_at in Hl. simpl in Hl. rewrite Ht2, Hf in Hl.
  assert (u8 (k + 1) = k + 1) as Hu by (apply wrapu_id; unfold in_u; lia).
  eexists. split_and!; [exact Hl|by apply oplook_calm in Hl|]. intros t Hst.
  destruct (steady_cache _ _ Hst pid (pset_optab (u8 (k + 1)) q)) as (q' & Hq' & Hk').
  + by apply lookup_insert_eq.
  + simpl. lia.
  + eapply oplook_again; [exact Hq'|exact Hk'|done|lia|].
    rewrite (steady_tabs _ _ Hst). simpl. by rewrite Ht2.
Qed.

(** C13: [oplook] finds, for an instruction that has no entry yet, the first entry of the
    sorted instruction table for its opcode that takes the classes of its operands, whether
    the opcode is searched linearly or through the tables [buildop] makes; the entry is
    remembered, so that later calls, in any state with the same program, yield it again. Where
    no entry takes the operands the combination is reported and the first entry of the table
    stands in. *)
Theorem oplook_search pid s p a1 a3 s2 :
  tabs s = tables -> progs s !! pid = Some p -> p_optab p = 0 -> classes_ok p ->
  0 <= p_as p < ALAST -> classified pid s a1 a3 s2 ->
  match find (accepts a1 (a2_of p) a3) (entries (p_as p)) with
  | Some o =>
      exists s', oplook pid s = LOk o s' /\ calm s s'
        /\ forall t, steady s' t -> oplook pid t = LOk o t
  | None =>
      forall o s', oplook pid s = LOk o s' ->
        t_optab tables !! 0%nat = Some o /\ calm s s'
        /\ exists a, Ldiag "illegal combination %A %d %d %d" [p_as p; a; a2_of p; a3]
                      ∈ diags s'
  end.
Proof.
  intros Ht Hp H0 Hc Has Hcl.
  destruct (find _ _) as [o|] eqn:Hfd; [by eapply oplook_finds|].
  destruct (oplook_classified pid s p a1 a3 s2) as (C1 & C3 & Hq & Ht2 & (q & Hq2 & Hz) & Hl);
    [done..|].
  pose proof (lookup_entry_find (p_as p) a1 (a2_of p) a3 Has C1 (a2_of_range p) C3) as Hf.
  rewrite Hfd in Hf. unfold lookup_entry in Hf.
  destruct (ofind tables (p_as p) a1 (a2_of p) a3) as [k|] eqn:Ek.
  { destruct (ofind_range _ _ _ _ _ Ek) as [_ [x Hx]]. simpl in Hf. congruence. }
  intros o s' Ho. pose proof (oplook_calm pid _ _ _ Ho) as Hcalm.
  rewrite Hl in Ho. cbv zeta in Ho. apply bind_ok in Ho as ([] & s3 & H3 & Ho).
  apply bind_ok in Ho as ([] & s4 & H4 & Ho).
  assert (tabs s4 = tables /\ diags s4 = diags s3) as [Ht4 Hd4].
  { unfold set_optab, updp in H4. destruct (progs s3 !! pid); [|done]. injection H4 as <-.
    simpl. split; [|done]. pose proof (quiet_vars _ _ (diag_quiet _ _ _ _ _ H3)) as Hv.
    unfold vars in Hv. simplify_eq. by etrans. }
  unfold opt_at in Ho. rewrite Ht4 in Ho.
  destruct (t_optab tables !! Z.to_nat 0) as [o0|] eqn:E0; [|done]. injection Ho as <- <-.
  split_and!; [done|done|]. eexists. rewrite Hd4.
  unfold diag in H3. apply bind_ok in H3 as ([] & s5 & [= <-] & H3).
  apply bind_ok in H3 as (n & s6 & [= <- <-] & H3).
  destruct (10 <? _); [done|]. injection H3 as <-. simpl. by apply list_elem_of_here.
Qed.

(** The linker after the operands of instruction 2, [ADD $5, R2, R3], are classified. *)
Definition demo_add (to_class : Z) : vl :=
  lset_progs (<[2 := mkProg (aset_class (C_SCON + 1) (acon 5)) (aset_class to_class (areg 3))
                       None (Some 3) None 0 0 0 0 AADD 2]> demo_prog) (lset_instoffset 5 demo).

Lemma demo_add_classified : classified 2 demo C_SCON C_REG (demo_add (C_REG + 1)).
Proof.
  exists (demo_add 0). split.
  - vm_cast_no_check (eq_refl (LOk C_SCON (demo_add 0))).
  - vm_cast_no_check (eq_refl (LOk C_REG (demo_add (C_REG + 1)))).
Qed.

Lemma demo_add_entry :
  find (accepts C_SCON C_REG C_REG) (entries AADD) = Some (mkOptab AADD C_ADD0CON C_REG C_REG 4 4 0).
Proof. by vm_compute. Qed.

Lemma oplook_search_witness :
  exists s', oplook 2 demo = LOk (mkOptab AADD C_ADD0CON C_REG C_REG 4 4 0) s' /\ calm demo s'
    /\ forall t, steady s' t -> oplook 2 t = LOk (mkOptab AADD C_ADD0CON C_REG C_REG 4 4 0) t.
Proof.
  pose proof (oplook_search 2 demo (ins AADD (acon 5) (areg 3) 2 None (Some 3)) C_SCON C_REG
                (demo_add (C_REG + 1))) as H.
  change (a2_of _) with C_REG in H. change (p_as _) with AADD in H.
  rewrite demo_add_entry in H.
  apply H; [reflexivity|reflexivity|reflexivity|unfold classes_ok; simpl; lia
           |unfold AADD, ALAST; lia|].
  exact demo_add_classified.
Defined.
