(* ===== verification/VlLayout.v ===== *)
(** The layout of the text: [span] gives every instruction the address its bytes get, and
    the text loop of [asmb] writes them there. *)
From S2P Require Import Prelude CInt VlObj VlOptab VlSym VlSpan VlAsm VlTables VlDemo VlLib VlEmit.

(** ** Entries *)

(** The remembered entry of [p] is [o]; a nop has an entry of four bytes. *)
Definition entry (p : Prog) (o : Optab) : Prop :=
  p_optab p <> 0 /\ t_optab tables !! Z.to_nat (p_optab p - 1) = Some o
  /\ (p_as p = ANOR -> o_size o = 4).

(** The instructions from [p] on have consecutive addresses, from [c] up to [e]. *)
Inductive laid (s : vl) : option Z -> Z -> Z -> Prop :=
  | laid_nil c : laid s None c c
  | laid_cons pid p o c e :
      progs s !! pid = Some p -> entry p o -> p_pc p = c ->
      laid s (link p) (s32 (c + o_size o)) e -> laid s (Some pid) c e.

Lemma isnop_as p : isnop p = true -> p_as p = ANOR.
Proof. unfold isnop. destruct (Z.eqb_spec (p_as p) ANOR); done. Qed.

Lemma entry_in_optab p o : entry p o -> In o optab.
Proof.
  intros (_ & H & _). apply list_elem_of_lookup_2, list_elem_of_In in H.
  assert (forallb (fun o => bool_decide (o ∈ optab)) (t_optab tables) = true) as Ha
    by (vm_compute; reflexivity).
  apply (proj1 (forallb_forall _ _) Ha), bool_decide_eq_true in H. by apply list_elem_of_In.
Qed.

(** Layout does not depend on what the passes change in passing. *)
Lemma steady_entry s s' pid p o :
  steady s s' -> progs s !! pid = Some p -> entry p o ->
  exists p', progs s' !! pid = Some p' /\ code p' = code p /\ entry p' o.
Proof.
  intros Hs Hp (H0 & Ho & Hn).
  destruct (steady_cache _ _ Hs pid p Hp H0) as (p' & Hp' & Hk).
  destruct (steady_getp _ _ _ _ Hs Hp') as (p1 & Hp1 & Hc).
  rewrite Hp in Hp1. injection Hp1 as <-. exists p'. split_and!; [done|done|].
  unfold entry. by rewrite Hk, <- (code_as _ _ Hc).
Qed.

Lemma laid_steady s s' p c e : steady s s' -> laid s p c e -> laid s' p c e.
Proof.
  intros Hs H. induction H as [c|pid p o c e Hp Ho Hpc Hl IH]; [constructor|].
  destruct (steady_entry s s' pid p o Hs Hp Ho) as (p' & Hp' & Hc & Ho').
  econstructor; [exact Hp'|exact Ho'| |].
  - by rewrite (code_pc _ _ Hc).
  - by rewrite (code_link _ _ Hc).
Qed.

(** ** The text loop *)

Lemma getp_ok pid p s : progs s !! pid = Some p -> getp pid s = LOk p s.
Proof. intros H. unfold getp. by rewrite H. Qed.

Lemma s32_add_l a b : s32 (s32 a + b) = s32 (a + b).
Proof.
  apply wraps_congr. rewrite <- (Zplus_mod_idemp_l (s32 a)). unfold s32.
  by rewrite wraps_mod, Zplus_mod_idemp_l by lia.
Qed.

Lemma bind_ext {A B} (m : L A) (k k' : A -> L B) s :
  (forall a s', m s = LOk a s' -> k a s' = k' a s') -> (x ← m; k x) s = (x ← m; k' x) s.
Proof. intros H. unfold mbind, L_bind. destruct (m s) eqn:E; [by apply H|done..]. Qed.

Definition enter_text (pid : Z) (p : Prog) : L unit :=
  if p_as p =? ATEXT then
    lmodify (lset_curtext (Some pid));;
    lmodify (lset_autosize (s32 (a_offset (to p) + 4)))
  else lskip.

Lemma enter_text_quiet pid p : lrel quiet (enter_text pid p).
Proof. unfold enter_text. lgo. Qed.

(** Where the address of the instruction is the address reached, the check is silent. *)
Lemma body_in_phase f pid p s :
  progs s !! pid = Some p -> p_pc p = pc s ->
  asmb_body asmb_phase f pid s = asmb_body (fun _ => lskip) f pid s.
Proof.
  intros Hp Hpc. unfold asmb_body. fold (enter_text pid). apply bind_ext. intros p' s1 H1.
  unfold getp in H1. rewrite Hp in H1. injection H1 as <- <-.
  apply bind_ext. intros [] s2 H2. apply enter_text_quiet in H2.
  pose proof (quiet_vars _ _ H2) as Hv. unfold vars in Hv. simplify_eq.
  unfold asmb_phase, mbind, L_bind, lgets. rewrite (proj2 (Z.eqb_eq (p_pc p) (pc s2))); [done|].
  congruence.
Qed.

(** [n] bytes were written, and the address advanced by as much. *)
Definition advances (n : Z) (s s' : vl) : Prop :=
  (exists bs, output s' = output s ++ bs /\ Z.of_nat (length bs) = n)
  /\ pc s' = s32 (pc s + n) /\ tabs s' = tabs s
  /\ forall p c e, laid s p c e -> laid s' p c e.

Lemma laid_progs s s' p c e : progs s' = progs s -> laid s p c e -> laid s' p c e.
Proof.
  intros He H. induction H; [constructor|]. econstructor; [by rewrite He| | |]; done.
Qed.

Lemma advances_pc n s0 s1 s2 s' :
  calm s0 s1 -> writes n s1 s2 -> progs s' = progs s2 -> output s' = output s2 ->
  tabs s' = tabs s2 -> pc s' = s32 (pc s2 + n) -> advances n s0 s' /\ steady s0 s2.
Proof.
  intros H1 (bs & H2 & Hl) Hp Ho Ht Hpc.
  assert (emits bs s0 s2) as [Hs Hb] by by eapply emits_trans.
  split; [|done]. split_and!.
  - exists bs. by rewrite Ho.
  - by rewrite Hpc, (steady_pc _ _ Hs).
  - rewrite Ht. apply Hs.
  - intros p c e Hlay. apply (laid_progs s2); [done|]. by eapply laid_steady.
Qed.

(** One instruction: its bytes are written at its address, and the next instruction of the
    list, or after a jump that took the nop the one after the nop, is at the address then
    reached. *)
Lemma body_advances f pid p o s next s' e :
  tabs s = tables -> progs s !! pid = Some p -> entry p o ->
  laid s (link p) (s32 (pc s + o_size o)) e ->
  asmb_body (fun _ => lskip) f pid s = LOk next s' ->
  exists n q, advances n s s' /\ progs s' !! next = Some q /\ laid s' (link q) (pc s') e.
Proof.
  intros Ht Hp Ho Hl H. unfold asmb_body in H. fold (enter_text pid) in H.
  apply bind_ok in H as (p' & s1 & H1 & H). unfold getp in H1. rewrite Hp in H1.
  injection H1 as <- <-. apply bind_ok in H as ([] & s2 & H2 & H).
  apply enter_text_quiet in H2. apply bind_ok in H as ([] & s3 & [= <-] & H).
  apply bind_ok in H as ([] & s4 & H4 & H). apply curp_quiet in H4.
  assert (quiet s s4) as Hq by (by etrans).
  pose proof (quiet_progs _ _ Hq) as Hps. pose proof (quiet_calm _ _ Hq) as Hc.
  assert (tabs s4 = tables) as Ht4 by (rewrite <- Ht; apply Hc).
  apply bind_ok in H as (o' & s5 & H5 & H).
  rewrite (oplook_cached pid s4 p) in H5; [|by rewrite Hps|apply Ho].
  unfold opt_at in H5. rewrite Ht4, (proj1 (proj2 Ho)) in H5. injection H5 as <- <-.
  apply bind_ok in H as (r & s6 & H6 & H).
  apply asmout_writes in H6 as [Hr Hw]; [|by eapply entry_in_optab].
  destruct Hr as [->|[-> (p1 & l & q & Hp1 & El & Hlq & Hnop)]].
  - apply bind_ok in H as (? & s7 & [= <- <-] & H).
    apply bind_ok in H as ([] & s8 & [= <-] & [= <- <-]). rewrite Z.add_0_r in Hw.
    destruct (advances_pc (o_size o) s s4 s6 (lset_pc (s32 (pc s6 + o_size o)) s6))
      as [Ha Hs]; [done..|].
    destruct (steady_entry s s6 pid p o Hs Hp Ho) as (q & Hq' & Hcq & _).
    exists (o_size o), q. split_and!; [exact Ha|done|].
    rewrite (code_link _ _ Hcq). destruct Ha as (_ & -> & _ & Ha). by apply Ha.
  - rewrite Hps in Hp1, Hlq. rewrite Hp in Hp1. injection Hp1 as <-. rewrite El in Hl.
    inversion Hl as [|l' q2 o2 c2 e2 Hq2 Ho2 _ Hl2]; subst. rewrite Hlq in Hq2.
    injection Hq2 as <-. rewrite (proj2 (proj2 Ho2)) in Hl2 by by apply isnop_as.
    apply bind_ok in H as (n' & s7 & H7 & H). apply bind_ok in H as ([] & s8 & [= <-] & [= <- <-]).
    apply bind_ok in H7 as ([] & s8 & [= <-] & H7).
    destruct (advances_pc (o_size o + 4 * 1) s s4 s6
                (lset_pc (s32 (s32 (pc s6 + 4) + o_size o)) (lset_pc (s32 (pc s6 + 4)) s6)))
      as [Ha Hs]; [done..| |].
    { simpl. rewrite s32_add_l. f_equal. lia. }
    destruct (steady_entry s s6 pid p o Hs Hp Ho) as (p' & Hp' & Hcp & _).
    destruct (steady_entry s s6 l q o2 Hs Hlq Ho2) as (q' & Hq' & Hcq & _).
    unfold mbind, L_bind, getp in H7. simpl in H7.
    rewrite Hp', (code_link _ _ Hcp), El in H7. injection H7 as <- <-.
    exists (o_size o + 4 * 1), q'. split_and!; [exact Ha|done|].
    rewrite (code_link _ _ Hcq). destruct Ha as (_ & Hpc & _ & Ha). simpl in Hpc.
    rewrite s32_add_l in Hl2.
    replace (pc s + o_size o + 4) with (pc s + (o_size o + 4 * 1)) in Hl2 by lia.
    apply Ha in Hl2. rewrite <- Hpc in Hl2. exact Hl2.
Qed.

Lemma loop_advances f p s s' e :
  tabs s = tables -> laid s p (pc s) e -> asmb_loop (fun _ => lskip) f p s = LOk tt s' ->
  pc s' = e /\ exists bs, output s' = output s ++ bs
                        /\ (pc s + Z.of_nat (length bs)) mod 2 ^ 32 = e mod 2 ^ 32.
Proof.
  revert p s. induction f as [|f IH]; intros p s Ht Hl H; [done|]. cbn [asmb_loop] in H.
  destruct p as [pid|].
  - inversion Hl as [|pid' p o c e' Hp Ho Hpc Hl']; subst.
    apply bind_ok in H as (next & s1 & H1 & H).
    destruct (body_advances f pid p o s next s1 e Ht Hp Ho) as (n & q & Ha & Hq & Hl1);
      [first [exact Hl' | by rewrite <- Hpc]|done|].
    apply bind_ok in H as (q' & s2 & H2 & H). rewrite (getp_ok _ _ _ Hq) in H2.
    injection H2 as <- <-. destruct Ha as ((bs1 & Hb1 & Hn) & Hpc1 & Ht1 & _).
    destruct (IH (link q) s1) as (He & bs2 & Hb2 & Hm); [by rewrite Ht1|done|done|].
    split; [done|]. exists (bs1 ++ bs2). split; [by rewrite Hb2, Hb1, app_assoc|].
    rewrite <- Hm, Hpc1, length_app. rewrite <- (Zplus_mod_idemp_l (s32 _)). unfold s32.
    rewrite wraps_mod, Zplus_mod_idemp_l by lia. f_equal. lia.
  - injection H as <-. inversion Hl; subst. split; [done|]. exists [].
    by rewrite app_nil_r, Z.add_0_r.
Qed.

Lemma loop_in_phase f p s e :
  tabs s = tables -> laid s p (pc s) e ->
  asmb_loop asmb_phase f p s = asmb_loop (fun _ => lskip) f p s.
Proof.
  revert p s. induction f as [|f IH]; intros p s Ht Hl; [done|]. cbn [asmb_loop].
  destruct p as [pid|]; [|done]. inversion Hl as [|pid' p o c e' Hp Ho Hpc Hl']; subst.
  unfold mbind at 1 3, L_bind at 1 3. rewrite (body_in_phase f pid p s Hp Hpc).
  destruct (asmb_body (fun _ => lskip) f pid s) as [next s1| | |] eqn:E; [|done..].
  destruct (body_advances f pid p o s next s1 e Ht Hp Ho) as (n & q & Ha & Hq & Hl1);
    [first [exact Hl' | by rewrite <- Hpc]|done|].
  unfold mbind, L_bind. rewrite (getp_ok _ _ _ Hq). apply IH; [|done].
  destruct Ha as (_ & _ & -> & _). done.
Qed.
