(* ===== verification/VlAddr.v ===== *)
(** [span] assigns consecutive addresses to the instructions of the program. *)
From S2P Require Import Prelude CInt VlObj VlOptab VlSym VlSpan VlAsm VlTables VlDemo VlLib VlEmit VlLook VlLayout VlWp.

(** ** Entries of the whole store *)

(** Every remembered entry is one of the table. *)
Definition cache_ok (s : vl) : Prop :=
  forall pid p, progs s !! pid = Some p -> p_optab p <> 0 -> exists o, entry p o.

(** [s'] differs from [s] in the classes of [pid]. *)
Definition touches (pid : Z) (p p' : Prog) (s s' : vl) : Prop :=
  progs s !! pid = Some p /\ progs s' = <[pid:=p']> (progs s)
  /\ code p' = code p /\ p_optab p' = p_optab p /\ vars s' = vars s.

Lemma touches_quiet pid p s s' :
  progs s !! pid = Some p -> quiet s s' -> touches pid p p s s'.
Proof.
  intros Hp Hq. split_and!; try done; [|apply Hq].
  rewrite (quiet_progs _ _ Hq). symmetry. by apply insert_id.
Qed.

Lemma touches_trans pid p p1 p2 s s1 s2 :
  touches pid p p1 s s1 -> touches pid p1 p2 s1 s2 -> touches pid p p2 s s2.
Proof.
  intros (H1 & H2 & H3 & H4 & H5) (K1 & K2 & K3 & K4 & K5).
  split_and!; [done| |congruence..]. by rewrite K2, H2, insert_insert_eq.
Qed.

Lemma touches_updp pid f p s s' :
  progs s !! pid = Some p -> code (f p) = code p -> p_optab (f p) = p_optab p ->
  updp pid f s = LOk tt s' -> touches pid p (f p) s s'.
Proof.
  intros Hp Hc Ho. unfold updp. rewrite Hp. intros [= <-]. by split_and!.
Qed.

Lemma class_from_touches pid p s a s' :
  progs s !! pid = Some p -> class_from pid s = LOk a s' -> exists p', touches pid p p' s s'.
Proof.
  intros Hp H. unfold class_from in H. apply bind_ok in H as (p1 & s1 & H1 & H).
  rewrite (getp_ok _ _ _ Hp) in H1. injection H1 as <- <-. destruct (_ =? 0).
  - apply bind_ok in H as (c & s2 & H2 & H). apply bind_ok in H as ([] & s3 & H3 & [= <- <-]).
    apply aclass_quiet in H2. pose proof (touches_quiet _ _ _ _ Hp H2) as T2.
    eexists. eapply touches_trans; [exact T2|].
    refine (touches_updp pid _ p _ _ _ _ _ H3); [by rewrite (quiet_progs _ _ H2)|done|done].
  - injection H as <- <-. exists p. by apply touches_quiet.
Qed.

Lemma class_to_touches pid p s a s' :
  progs s !! pid = Some p -> class_to pid s = LOk a s' -> exists p', touches pid p p' s s'.
Proof.
  intros Hp H. unfold class_to in H. apply bind_ok in H as (p1 & s1 & H1 & H).
  rewrite (getp_ok _ _ _ Hp) in H1. injection H1 as <- <-. destruct (_ =? 0).
  - apply bind_ok in H as (c & s2 & H2 & H). apply bind_ok in H as ([] & s3 & H3 & [= <- <-]).
    apply aclass_quiet in H2. pose proof (touches_quiet _ _ _ _ Hp H2) as T2.
    eexists. eapply touches_trans; [exact T2|].
    refine (touches_updp pid _ p _ _ _ _ _ H3); [by rewrite (quiet_progs _ _ H2)|done|done].
  - injection H as <- <-. exists p. by apply touches_quiet.
Qed.

(** The entries of [ANOR], and the entry that stands in where none is found, have four bytes;
    every entry that is found is in the table, at an index that fits the cache. *)
Lemma oscan_in T a1 a2 a3 n k j :
  oscan T a1 a2 a3 n k = Some j -> k <= j < k + Z.of_nat n /\ is_Some (t_optab T !! Z.to_nat j).
Proof.
  revert k. induction n as [|n IH]; intros k; [done|]. cbn [oscan].
  destruct (t_optab T !! Z.to_nat k) eqn:E; [|done]. case_match.
  - intros [= <-]. split; [lia|by rewrite E].
  - intros Hj%IH. split; [lia|apply Hj].
Qed.

Definition nop_entries : list Optab :=
  Eval vm_compute in
    match t_start tables !! ANOR with
    | Some k => take (Z.to_nat (tlook (t_stop tables) ANOR - k)) (drop (Z.to_nat k) (t_optab tables))
    | None => []
    end.

Lemma nop_entries_size : forallb (fun o => o_size o =? 4) nop_entries = true.
Proof. by vm_compute. Qed.

Lemma ofind_entry r a1 a2 a3 k :
  ofind tables r a1 a2 a3 = Some k ->
  u8 (k + 1) = k + 1 /\ k + 1 <> 0
  /\ exists o, t_optab tables !! Z.to_nat k = Some o /\ (r = ANOR -> o_size o = 4).
Proof.
  intros Hk. destruct (ofind_range r a1 a2 a3 k Hk) as [Hr [o Ho]].
  split_and!; [apply wrapu_id; unfold in_u; lia|lia|]. exists o. split; [done|]. intros ->.
  unfold ofind in Hk. destruct (t_start tables !! ANOR) as [st|] eqn:E; [|by vm_compute in E].
  apply oscan_in in Hk as [Hj _]. apply (proj1 (Z.eqb_eq _ _)).
  refine (proj1 (forallb_forall _ _) nop_entries_size o _). apply list_elem_of_In.
  assert (nop_entries = take (Z.to_nat (tlook (t_stop tables) ANOR - st))
                          (drop (Z.to_nat st) (t_optab tables))) as ->.
  { assert (st = default 0 (t_start tables !! ANOR)) as -> by by rewrite E. by vm_compute. }
  assert (0 <= st) by (assert (st = default 0 (t_start tables !! ANOR)) as -> by (by rewrite E); by vm_compute).
  apply (list_elem_of_lookup_2 _ (Z.to_nat k - Z.to_nat st)).
  rewrite lookup_take_lt, lookup_drop by lia.
  by replace (Z.to_nat st + (Z.to_nat k - Z.to_nat st))%nat with (Z.to_nat k) by lia.
Qed.

(** ** oplook *)

(** [s'] is [s] with [pid] replaced, up to symbols and errors. *)
Definition replaces (pid : Z) (p' : Prog) (s s' : vl) : Prop :=
  progs s' = <[pid:=p']> (progs s) /\ vars s' = vars s.

Lemma set_optab_replaces pid k s p o s' :
  progs s !! pid = Some p -> (set_optab pid k;; opt_at k) s = LOk o s' ->
  replaces pid (pset_optab (u8 (k + 1)) p) s s' /\ t_optab (tabs s) !! Z.to_nat k = Some o.
Proof.
  intros Hp H. apply bind_ok in H as ([] & s1 & H1 & H).
  rewrite (set_optab_run _ _ _ _ Hp) in H1. injection H1 as <-.
  unfold opt_at in H. simpl in H. destruct (t_optab (tabs s) !! Z.to_nat k) as [o'|]; [|done].
  injection H as <- <-. by split.
Qed.

Lemma entry_0 : exists o, t_optab tables !! 0%nat = Some o /\ o_size o = 4.
Proof.
  set (o := mkOptab AABSF C_FREG C_NONE C_FREG 33 4 0). exists o.
  split; [vm_cast_no_check (eq_refl (Some o))|reflexivity].
Qed.

(** [oplook] leaves the instruction with the entry it returns. *)
Lemma oplook_entry pid p s o s' :
  tabs s = tables -> cache_ok s -> progs s !! pid = Some p -> oplook pid s = LOk o s' ->
  exists p', replaces pid p' s s' /\ code p' = code p /\ entry p' o.
Proof.
  intros Ht Hok Hp H. destruct (Z.eq_dec (p_optab p) 0) as [H0|H0].
  - rewrite (oplook_fresh _ _ _ Hp H0) in H.
    apply bind_ok in H as (a1 & s1 & H1 & H). apply bind_ok in H as (a3 & s2 & H2 & H).
    apply (class_from_touches _ p) in H1 as (p1 & T1); [|done].
    apply (class_to_touches _ p1) in H2 as (p2 & T2);
      [|destruct T1 as (_ & -> & _); by rewrite lookup_insert_eq].
    pose proof (touches_trans _ _ _ _ _ _ _ T1 T2) as (_ & Hps & Hc & _ & Hv).
    assert (progs s2 !! pid = Some p2) as Hp2 by by rewrite Hps, lookup_insert_eq.
    assert (tabs s2 = tables) as Ht2 by (unfold vars in Hv; congruence).
    cbv zeta in H. apply bind_ok in H as (T & s3 & [= <- <-] & H). rewrite Ht2 in H.
    fold (a2_of p) in H. destruct (ofind tables (p_as p) a1 (a2_of p) a3) as [k|] eqn:Ek.
    + apply (set_optab_replaces _ _ _ p2) in H as [[R1 R2] Ho]; [|done]. rewrite Ht2 in Ho.
      destruct (ofind_entry _ _ _ _ _ Ek) as (Hu & Hn & o' & Ho' & Has).
      assert (o' = o) as -> by congruence.
      eexists. split_and!; [split; [by rewrite R1, Hps, insert_insert_eq|by rewrite R2]|done|].
      unfold entry. simpl. rewrite Hu. replace (k + 1 - 1) with k by lia. split_and!; [done|done|].
      intros Ha. apply Has. by rewrite <- (code_as _ _ Hc).
    + apply bind_ok in H as ([] & s3 & H3 & H). apply diag_quiet in H3.
      apply (set_optab_replaces _ _ _ p2) in H as [[R1 R2] Ho];
        [|by rewrite (quiet_progs _ _ H3)].
      pose proof (quiet_vars _ _ H3) as Hv3.
      assert (tabs s3 = tables) as Ht3 by (unfold vars in Hv3; congruence). rewrite Ht3 in Ho.
      destruct entry_0 as (o' & Ho' & Hs). assert (o' = o) as -> by (change (Z.to_nat 0) with 0%nat in Ho; congruence).
      eexists. split_and!;
        [split; [by rewrite R1, (quiet_progs _ _ H3), Hps, insert_insert_eq|by rewrite R2, Hv3]|done|].
      by split_and!.
  - rewrite (oplook_cached _ _ _ Hp H0) in H. unfold opt_at in H. rewrite Ht in H.
    destruct (Hok pid p Hp H0) as (o' & He). destruct (t_optab tables !! _) as [o1|] eqn:E1; [|done].
    injection H as <- <-. exists p. split_and!; [split; [symmetry; by apply insert_id|done]|done|].
    destruct He as (_ & E2 & E3). split_and!; [done|done|]. intros Ha. rewrite E1 in E2.
    injection E2 as ->. by apply E3.
Qed.

Lemma replaces_cache pid p' o s s' :
  cache_ok s -> entry p' o -> replaces pid p' s s' -> cache_ok s'.
Proof.
  intros Hok He [Hp _] x q. rewrite Hp. destruct (decide (x = pid)) as [->|].
  - rewrite lookup_insert_eq. intros [= <-] _. by exists o.
  - rewrite lookup_insert_ne by done. apply Hok.
Qed.

(** ** One instruction of a pass *)

(** What the passes of [span] leave alone. *)
Definition rest (s : vl) :=
  (tabs s, firstp s, INITTEXT s, INITRND s, debug_t s, little s, pc s, written s, cbuf s).

(** From [s] to [s'] only instruction [pid] was changed, to [p'], and instructions were
    allocated; those after [pid], which were [l], are now [l']. *)
Record visits (pid : Z) (l : list Z) (s : vl) (p' : Prog) (l' : list Z) (s' : vl) : Prop := {
  v_prog : progs s' !! pid = Some p';
  v_chain : chained s' (link p') l';
  v_fresh : pid ∉ l';
  v_lt : pid < nextp s';
  v_new : forall x, x ∈ l' -> x ∈ l \/ nextp s <= x;
  v_cache : cache_ok s';
  v_frame : forall x, x <> pid -> x < nextp s -> progs s' !! x = progs s !! x;
  v_next : nextp s <= nextp s';
  v_rest : rest s' = rest s }.

Lemma visits_refl pid s p l :
  progs s !! pid = Some p -> chained s (link p) l -> pid ∉ l -> pid < nextp s -> cache_ok s ->
  visits pid l s p l s.
Proof. intros. split; try done. by left. Qed.

Lemma visits_trans pid l s p1 l1 s1 p2 l2 s2 :
  visits pid l s p1 l1 s1 -> visits pid l1 s1 p2 l2 s2 -> visits pid l s p2 l2 s2.
Proof.
  intros [] []. split; try done.
  - intros x Hx. destruct (v_new1 x Hx) as [H|H]; [by apply v_new0|right; lia].
  - intros x Hx Hlt. rewrite v_frame1 by (done || lia). by apply v_frame0.
  - lia.
  - congruence.
Qed.

(** A change after a new instruction [x] that follows [pid]. *)
Lemma visits_lift pid l s p x l1 s1 q l2 s2 :
  nextp s <= x -> visits pid l s p (x :: l1) s1 -> visits x l1 s1 q l2 s2 ->
  visits pid l s p (x :: l2) s2.
Proof.
  intros Hnew [] [].
  assert (link p = Some x) as Hlp by apply v_chain0.
  apply not_elem_of_cons in v_fresh0 as [Hne Hni]. split; try done.
  - by rewrite v_frame1.
  - rewrite Hlp. by apply (chained_push s2 x q).
  - apply not_elem_of_cons. split; [done|]. intros Hin. destruct (v_new1 _ Hin); [done|lia].
  - lia.
  - intros y [->|Hy]%elem_of_cons; [by right|].
    destruct (v_new1 y Hy); [apply v_new0; by right|right; lia].
  - intros y Hy Hlt. rewrite v_frame1 by lia. by apply v_frame0.
  - lia.
  - congruence.
Qed.

(** [pid] is replaced by [p']. *)
Lemma visits_update pid s p l p' s' :
  visits pid l s p l s -> link p' = link p -> (p_optab p' <> 0 -> exists o, entry p' o) ->
  replaces pid p' s s' -> visits pid l s p' l s'.
Proof.
  intros [] Hl Ho [Hp Hv]. assert (nextp s' = nextp s) as Hn by (unfold vars in Hv; congruence).
  split.
  - by rewrite Hp, lookup_insert_eq.
  - rewrite Hl. apply (chained_same s); [|lia|done]. rewrite Hp. by apply same_on_insert.
  - done.
  - lia.
  - by left.
  - intros x q. rewrite Hp. destruct (decide (x = pid)) as [->|].
    + rewrite lookup_insert_eq. intros [= <-]. done.
    + rewrite lookup_insert_ne by done. apply v_cache0.
  - intros x Hx _. rewrite Hp. by apply lookup_insert_ne.
  - lia.
  - unfold vars in Hv. unfold rest. congruence.
Qed.

(** A new instruction [g] after [pid], which becomes [p']. *)
Lemma visits_insert pid s p l g p' s' :
  visits pid l s p l s -> link g = link p -> link p' = Some (nextp s) ->
  (p_optab g <> 0 -> exists o, entry g o) -> (p_optab p' <> 0 -> exists o, entry p' o) ->
  progs s' = <[pid:=p']> (<[nextp s:=g]> (progs s)) -> nextp s' = nextp s + 1 ->
  rest s' = rest s -> visits pid l s p' (nextp s :: l) s'.
Proof.
  intros [] Hlg Hlp Hg Hp' Hps Hn Hr.
  assert (nextp s ∉ l) as Hni.
  { intros Hin. destruct v_chain0 as (_ & _ & Hf).
    apply (proj1 (list.Forall_forall _ _) Hf) in Hin. lia. }
  assert (progs s' !! nextp s = Some g) as Hq.
  { rewrite Hps, lookup_insert_ne by lia. apply lookup_insert_eq. }
  split.
  - by rewrite Hps, lookup_insert_eq.
  - rewrite Hlp. apply (chained_push s' _ g); [done|done|lia|]. rewrite Hlg.
    apply (chained_same s); [|lia|done]. intros x Hx. rewrite Hps, !lookup_insert_ne; [done| |].
    + intros ?; subst; done.
    + intros ?; subst; done.
  - apply not_elem_of_cons. split; [lia|done].
  - lia.
  - intros x [->|Hx]%elem_of_cons; [right; lia|by left].
  - intros x q. rewrite Hps. destruct (decide (x = pid)) as [->|].
    { rewrite lookup_insert_eq. intros [= <-]. done. }
    rewrite lookup_insert_ne by done. destruct (decide (x = nextp s)) as [->|].
    { rewrite lookup_insert_eq. intros [= <-]. done. }
    rewrite lookup_insert_ne by done. apply v_cache0.
  - intros x Hx Hlt. rewrite Hps, !lookup_insert_ne by lia. done.
  - lia.
  - done.
Qed.

(** ** The changes of span *)

Lemma prg_run s :
  prg s = LOk (nextp s) (lset_nextp (nextp s + 1) (lset_progs (<[nextp s:=zprg]> (progs s)) s)).
Proof. done. Qed.

Lemma visits_entry pid s p l :
  visits pid l s p l s -> p_optab p <> 0 -> exists o, entry p o.
Proof. intros [] H. by apply (v_cache0 pid). Qed.

Lemma pagebug_visits pid s p l s' :
  visits pid l s p l s -> pagebug pid s = LOk tt s' ->
  exists p' l', visits pid l s p' l' s'.
Proof.
  intros Hv H. pose proof (v_prog _ _ _ _ _ _ Hv) as Hp. pose proof (v_lt _ _ _ _ _ _ Hv) as Hlt.
  unfold pagebug in H. apply bind_ok in H as (p1 & s1 & H1 & H).
  rewrite (getp_ok _ _ _ Hp) in H1. injection H1 as <- <-.
  destruct (is_branch (p_as p)); [|injection H as <-; eauto].
  apply bind_ok in H as (q & s1 & H1 & H). rewrite prg_run in H1. injection H1 as <- <-.
  apply bind_ok in H as ([] & s1 & H1 & H). unfold updp in H1. simpl in H1.
  rewrite lookup_insert_eq in H1. injection H1 as <-. unfold updp in H. simpl in H.
  rewrite !lookup_insert_ne, Hp in H by lia. injection H as <-.
  eexists _, _.
  refine (visits_insert pid s p l p
            (pset_to areg0 (pset_from areg0 (pset_optab 0 (pset_as ANOR
              (pset_link (Some (nextp s)) p))))) _ Hv _ _ _ _ _ _ _); try done.
  - by apply (visits_entry pid s p l).
  - simpl. by rewrite insert_insert_eq.
Qed.

Lemma addnop_visits pid s p l s' :
  visits pid l s p l s -> addnop pid s = LOk tt s' ->
  visits pid l s (pset_link (Some (nextp s)) p) (nextp s :: l) s'.
Proof.
  intros Hv H. pose proof (v_prog _ _ _ _ _ _ Hv) as Hp. pose proof (v_lt _ _ _ _ _ _ Hv) as Hlt.
  unfold addnop in H. apply bind_ok in H as (q & s1 & H1 & H). rewrite prg_run in H1.
  injection H1 as <- <-. apply bind_ok in H as (p1 & s1 & H1 & H).
  unfold getp in H1. simpl in H1. rewrite lookup_insert_ne, Hp in H1 by lia. injection H1 as <- <-.
  apply bind_ok in H as ([] & s1 & H1 & H). unfold updp in H1. simpl in H1.
  rewrite lookup_insert_eq in H1. injection H1 as <-. unfold updp in H. simpl in H.
  rewrite !lookup_insert_ne, Hp in H by lia. injection H as <-.
  refine (visits_insert pid s p l
            (pset_link (link p) (pset_to areg0 (pset_from areg0
              (pset_line (p_line p) (pset_as ANOR zprg))))) _ _ Hv _ _ _ _ _ _ _); try done.
  - by apply (visits_entry pid s p l).
  - simpl. by rewrite insert_insert_eq.
Qed.

(** From a state, [pid] and what follows it. *)
Lemma visits_here pid l s p l' s' : visits pid l s p l' s' -> visits pid l' s' p l' s'.
Proof. intros []. by apply visits_refl. Qed.

(** A jump inserted after [pid], as [span] does twice for a branch that does not reach. *)
Lemma insert_jump_visits pid s p l g f s' :
  visits pid l s p l s -> link g = link p -> p_optab g = 0 ->
  link (f p) = Some (nextp s) -> p_optab (f p) = p_optab p -> p_as (f p) = p_as p ->
  progs s' = <[pid:=f p]> (<[nextp s:=g]> (progs s)) -> nextp s' = nextp s + 1 ->
  rest s' = rest s -> visits pid l s (f p) (nextp s :: l) s'.
Proof.
  intros Hv Hlg Hg Hlf Hof Haf Hps Hn Hr. apply (visits_insert pid s p l g); try done.
  rewrite Hof. intros Hk. destruct (visits_entry _ _ _ _ Hv Hk) as [o Ho]. exists o.
  unfold entry in *. by rewrite Hof, Haf.
Qed.

(** The instruction after [pid] as a place of its own. *)
Lemma visits_next pid l s p x l' s' :
  visits pid l s p (x :: l') s' -> exists q, visits x l' s' q l' s'.
Proof.
  intros []. destruct v_chain0 as (Hl & Hd & Hf). destruct Hl as (_ & q & Hq & Hl).
  apply list.NoDup_cons in Hd as [Hx Hd]. apply list.Forall_cons in Hf as [Hlt Hf].
  exists q. by apply visits_refl.
Qed.

(** Steps the two insertions of [span_expand] share: allocate, read, fill, link. *)
Ltac alloc H :=
  let q := fresh "q" in let s := fresh "s" in let H1 := fresh "H" in
  apply bind_ok in H as (q & s & H1 & H); rewrite prg_run in H1; injection H1 as <- <-.
Ltac look H :=
  let q := fresh "q" in let s := fresh "s" in let H1 := fresh "H" in
  apply bind_ok in H as (q & s & H1 & H); unfold getp in H1; simpl in H1;
  repeat (rewrite lookup_insert_ne in H1 by lia); rewrite ?lookup_insert_eq in H1.
Ltac fill H :=
  let s := fresh "s" in let H1 := fresh "H" in
  apply bind_ok in H as ([] & s & H1 & H); unfold updp in H1; simpl in H1;
  repeat (rewrite lookup_insert_ne in H1 by lia); rewrite ?lookup_insert_eq in H1.

Lemma span_expand_visits pid s p l s' :
  visits pid l s p l s -> span_expand pid s = LOk tt s' ->
  exists p' l', visits pid l s p' l' s' /\ p_pc p' = p_pc p /\ p_optab p' = p_optab p
                /\ p_as p' = p_as p.
Proof.
  intros Hv H. pose proof (v_prog _ _ _ _ _ _ Hv) as Hp. pose proof (v_lt _ _ _ _ _ _ Hv) as Hlt.
  unfold span_expand in H. alloc H. look H. rewrite Hp in H0. injection H0 as <- <-.
  fill H. injection H0 as <-. fill H. rewrite Hp in H0. injection H0 as <-.
  set (f1 := fun p => pset_cond (Some (nextp s)) (pset_link (Some (nextp s)) p)) in H.
  match type of H with mbind _ _ ?s1 = _ => set (sa := s1) in H end.
  assert (visits pid l s (f1 p) (nextp s :: l) sa) as Va.
  { unfold sa. apply (insert_jump_visits pid s p l
      (pset_cond (cond p) (pset_to (mkAdr 0 None D_BRANCH NREG D_NONE 0)
        (pset_as AJMP (pset_link (link p) zprg)))) f1); try done.
    simpl. by rewrite insert_insert_eq. }
  pose proof (visits_here _ _ _ _ _ _ Va) as Vh. pose proof (v_prog _ _ _ _ _ _ Va) as Hpa.
  pose proof (v_lt _ _ _ _ _ _ Va) as Hlta.
  destruct (visits_next _ _ _ _ _ _ _ Va) as [q0 Vq].
  pose proof (v_prog _ _ _ _ _ _ Vq) as Hqa. pose proof (v_lt _ _ _ _ _ _ Vq) as Hltq.
  pose proof (v_next _ _ _ _ _ _ Va) as Hna. set (qn := nextp s) in *. clearbody sa.
  alloc H. look H. rewrite Hpa in H0. injection H0 as <- <-.
  look H. rewrite Hqa in H0. injection H0 as <- <-. fill H. injection H0 as <-.
  fill H. rewrite Hpa in H0. injection H0 as <-.
  set (f2 := pset_link (Some (nextp sa))) in H.
  match type of H with mbind _ _ ?s1 = _ => set (sb := s1) in H end.
  assert (visits pid (qn :: l) sa (f2 (f1 p)) (nextp sa :: qn :: l) sb) as Vb.
  { unfold sb. apply (insert_jump_visits pid sa (f1 p) (qn :: l)
      (pset_cond (link q0) (pset_to (mkAdr 0 None D_BRANCH NREG D_NONE 0)
        (pset_as AJMP (pset_link (link (f1 p)) zprg)))) f2); try done.
    simpl. by rewrite insert_insert_eq. }
  destruct (visits_next _ _ _ _ _ _ _ Vb) as [q2 Vq2]. clearbody sb.
  apply bind_ok in H as ([] & sc & Hc & H).
  pose proof (addnop_visits _ _ _ _ _ Vq2 Hc) as Vc.
  assert (visits pid l s (f2 (f1 p)) (nextp sa :: nextp sb :: qn :: l) sc) as Vd.
  { eapply visits_lift; [|eapply visits_trans; [exact Va|exact Vb]|exact Vc]. unfold qn in *. lia. }
  pose proof (addnop_visits _ _ _ _ _ (visits_here _ _ _ _ _ _ Vd) H) as Ve.
  do 2 eexists. split; [eapply visits_trans; [exact Vd|exact Ve]|]. by split_and!.
Qed.

(** The head of the loops: the instruction is at its address and has its entry. *)
Lemma span_visit_visits pid c s p l o s' :
  tabs s = tables -> visits pid l s p l s -> span_visit pid c s = LOk o s' ->
  exists p' l', visits pid l s p' l' s' /\ p_pc p' = c /\ entry p' o.
Proof.
  intros Ht Hv H. unfold span_visit in H. apply bind_ok in H as ([] & s1 & H1 & H).
  assert (exists p1 l1, visits pid l s p1 l1 s1) as (p1 & l1 & V1).
  { destruct (_ =? 0xffc); [by eapply pagebug_visits|]. injection H1 as <-. eauto. }
  apply bind_ok in H as ([] & s2 & H2 & H).
  pose proof (v_prog _ _ _ _ _ _ V1) as Hp1. pose proof (visits_here _ _ _ _ _ _ V1) as V1'.
  assert (replaces pid (pset_pc c p1) s1 s2) as R2.
  { unfold updp in H2. rewrite Hp1 in H2. injection H2 as <-. by split. }
  assert (visits pid l1 s1 (pset_pc c p1) l1 s2) as V2.
  { apply (visits_update pid s1 p1); [done|done| |done]. by apply (visits_entry pid s1 p1 l1). }
  assert (tabs s2 = tables) as Ht2.
  { pose proof (v_rest _ _ _ _ _ _ V1). pose proof (v_rest _ _ _ _ _ _ V2).
    unfold rest in *. congruence. }
  destruct (oplook_entry pid (pset_pc c p1) s2 o s') as (p3 & R3 & Hc & Ho);
    [done|by apply (v_cache _ _ _ _ _ _ V2)|by apply (v_prog _ _ _ _ _ _ V2)|done|].
  assert (visits pid l1 s2 p3 l1 s') as V3.
  { apply (visits_update pid s2 (pset_pc c p1)); [by eapply visits_here| |by exists o|done].
    by rewrite (code_link _ _ Hc). }
  exists p3, l1. split_and!.
  - eapply visits_trans; [exact V1|]. by eapply visits_trans.
  - by rewrite (code_pc _ _ Hc).
  - done.
Qed.

(** ** The passes *)

(** From [s] to [s'] the list [l] from [p] on became [l'], and its instructions have the
    addresses from [c] to [e]. *)
Record spanned (l : list Z) (s : vl) (p : option Z) (c e : Z) (l' : list Z) (s' : vl) : Prop := {
  sp_chain : chained s' p l';
  sp_new : forall x, x ∈ l' -> x ∈ l \/ nextp s <= x;
  sp_cache : cache_ok s';
  sp_frame : forall x, x ∉ l -> x < nextp s -> progs s' !! x = progs s !! x;
  sp_next : nextp s <= nextp s';
  sp_rest : rest s' = rest s;
  sp_laid : laid s' p c e }.

Lemma quiet_rest s s' : quiet s s' -> rest s' = rest s /\ nextp s' = nextp s.
Proof. intros [_ Hv _]. unfold vars in Hv. unfold rest. split; congruence. Qed.

Lemma cache_quiet s s' : quiet s s' -> cache_ok s -> cache_ok s'.
Proof. intros Hq Hc pid p. rewrite (quiet_progs _ _ Hq). apply Hc. Qed.

Lemma spanned_nil s l c : chained s None l -> cache_ok s -> spanned l s None c c l s.
Proof. intros Hc Ho. split; try done; [by left|constructor]. Qed.

Lemma spanned_cons pid l s p l1 s1 s2 o c e l2 s3 :
  visits pid l s p l1 s1 -> p_pc p = c -> entry p o -> quiet s1 s2 ->
  spanned l1 s2 (link p) (s32 (c + o_size o)) e l2 s3 ->
  spanned (pid :: l) s (Some pid) c e (pid :: l2) s3.
Proof.
  intros [] Hpc Ho Hq []. destruct (quiet_rest _ _ Hq) as [Hr Hn].
  assert (progs s3 !! pid = Some p) as Hp by (rewrite sp_frame0, (quiet_progs _ _ Hq); by first [lia|done]).
  assert (pid ∉ l2) as Hni by (intros Hin; destruct (sp_new0 _ Hin); [done|lia]).
  split; try done.
  - apply (chained_push s3 pid p); [done|done|lia|done].
  - intros x [->|Hx]%elem_of_cons; [by left; left|]. destruct (sp_new0 x Hx) as [Hl|]; [|right; lia].
    destruct (v_new0 x Hl); [left; by right|by right].
  - intros x [Hx Hl]%not_elem_of_cons Hlt. rewrite sp_frame0, (quiet_progs _ _ Hq).
    + by apply v_frame0.
    + intros Hin. destruct (v_new0 x Hin); [done|lia].
    + lia.
  - lia.
  - congruence.
  - by econstructor.
Qed.

Lemma span_text_quiet pid c : lrel quiet (span_text pid c).
Proof. unfold span_text. lgo. Qed.
#[export] Hint Resolve span_text_quiet : vl.

Definition span_ready (s : vl) (p : option Z) (l : list Z) : Prop :=
  tabs s = tables /\ cache_ok s /\ chained s p l.

Lemma ready_visits s pid l :
  span_ready s (Some pid) l ->
  exists p l0, (l = pid :: l0) /\ visits pid l0 s p l0 s.
Proof.
  intros (Ht & Hc & Hl). destruct (chained_cons s pid l Hl) as (p & l0 & -> & Hp & Hl0 & Hx & Hlt).
  exists p, l0. split; [done|]. by apply visits_refl.
Qed.

Lemma ready_after pid l s p l1 s1 s2 :
  tabs s = tables -> visits pid l s p l1 s1 -> quiet s1 s2 -> span_ready s2 (link p) l1.
Proof.
  intros Ht [] Hq. destruct (quiet_rest _ _ Hq) as [Hr Hn]. split_and!.
  - unfold rest in *. congruence.
  - by apply (cache_quiet s1).
  - apply (chained_same s1); [|lia|done]. by rewrite (quiet_progs _ _ Hq).
Qed.

Lemma s32_range c : in_s 32 (s32 c).
Proof. by apply wraps_range. Qed.

Lemma size_0 c o : in_s 32 c -> o_size o = 0 -> s32 (c + o_size o) = c.
Proof. intros Hc ->. rewrite Z.add_0_r. by apply wraps_id. Qed.

Lemma span_pass1_spanned f p c ot b s l r s' :
  span_ready s p l -> in_s 32 c -> span_pass1 f p c ot b s = LOk r s' ->
  exists l', spanned l s p c (fst r) l' s'.
Proof.
  revert p c ot b s l. induction f as [|f IH]; intros p c ot b s l Hr Hc H; [done|].
  cbn [span_pass1] in H. destruct p as [pid|].
  - destruct (ready_visits _ _ _ Hr) as (p & l0 & -> & V0). pose proof (proj1 Hr) as Ht.
    apply bind_ok in H as (o & s1 & H1 & H).
    destruct (span_visit_visits pid c s p l0 o s1 Ht V0 H1) as (p1 & l1 & V1 & Hpc & Ho).
    apply bind_ok in H as (p2 & s2 & H2 & H). rewrite (getp_ok _ _ _ (v_prog _ _ _ _ _ _ V1)) in H2.
    injection H2 as <- <-. destruct (Z.eqb_spec (o_size o) 0) as [E|E].
    + assert (exists ot' b' s2, quiet s1 s2 /\ span_pass1 f (link p1) c ot' b' s2 = LOk r s')
        as (ot' & b' & s2 & Hq & H2).
      { destruct (_ =? ATEXT); apply bind_ok in H as ([] & s2 & H2 & H); do 3 eexists;
          (split; [|exact H]); [by eapply span_text_quiet|by eapply diag_quiet]. }
      pose proof (ready_after _ _ _ _ _ _ _ Ht V1 Hq) as Hr2.
      destruct (IH _ _ _ _ _ _ Hr2 Hc H2) as [l2 S2]. exists (pid :: l2).
      eapply spanned_cons; [exact V1|done|exact Ho|exact Hq|]. by rewrite size_0.
    + pose proof (ready_after _ _ _ _ _ _ _ Ht V1 (reflexivity s1)) as Hr2.
      destruct (IH _ _ _ _ _ _ Hr2 (s32_range _) H) as [l2 S2]. exists (pid :: l2).
      by eapply spanned_cons; [exact V1|done|exact Ho|reflexivity|].
  - injection H as <- <-. exists l. apply spanned_nil; apply Hr.
Qed.

Lemma span_far_quiet o pid c : lrel quiet (span_far o pid c).
Proof. unfold span_far. lgo. Qed.

Lemma visits_quiet pid l s p l1 s1 s2 :
  visits pid l s p l1 s1 -> quiet s1 s2 -> visits pid l s p l1 s2.
Proof.
  intros [] Hq. destruct (quiet_rest _ _ Hq) as [Hr Hn]. pose proof (quiet_progs _ _ Hq) as Hp.
  split; try done; [by rewrite Hp| |lia|by apply (cache_quiet s1)| |lia|congruence].
  - apply (chained_same s1); [by rewrite Hp|lia|done].
  - intros x Hx Hlt. rewrite Hp. by apply v_frame0.
Qed.

Lemma span_pass2_spanned f p c b s l r s' :
  span_ready s p l -> in_s 32 c -> span_pass2 f p c b s = LOk r s' ->
  exists l', spanned l s p c (fst r) l' s'.
Proof.
  revert p c b s l. induction f as [|f IH]; intros p c b s l Hr Hc H; [done|].
  cbn [span_pass2] in H. destruct p as [pid|].
  - destruct (ready_visits _ _ _ Hr) as (p & l0 & -> & V0). pose proof (proj1 Hr) as Ht.
    apply bind_ok in H as (o & s1 & H1 & H).
    destruct (span_visit_visits pid c s p l0 o s1 Ht V0 H1) as (p1 & l1 & V1 & Hpc & Ho).
    apply bind_ok in H as (far & s2 & H2 & H). apply span_far_quiet in H2.
    apply (visits_quiet _ _ _ _ _ _ _ V1) in H2 as V2.
    apply bind_ok in H as ([] & s3 & H3 & H).
    assert (exists p3 l3, visits pid l0 s p3 l3 s3 /\ p_pc p3 = c /\ entry p3 o)
      as (p3 & l3 & V3 & Hpc3 & Ho3).
    { destruct far; [|injection H3 as <-; by exists p1, l1].
      destruct (span_expand_visits pid s2 p1 l1 s3 (visits_here _ _ _ _ _ _ V2) H3)
        as (p3 & l3 & V3 & E1 & E2 & E3).
      exists p3, l3. split_and!; [by eapply visits_trans|congruence|].
      unfold entry in *. by rewrite E2, E3. }
    cbv zeta in H. apply bind_ok in H as (p4 & s4 & H4 & H).
    rewrite (getp_ok _ _ _ (v_prog _ _ _ _ _ _ V3)) in H4. injection H4 as <- <-.
    destruct (Z.eqb_spec (o_size o) 0) as [E|E].
    + apply bind_ok in H as ([] & s4 & H4 & H).
      assert (quiet s3 s4) as Hq
        by (destruct (_ =? ATEXT); [by eapply span_text_quiet|by eapply diag_quiet]).
      pose proof (ready_after _ _ _ _ _ _ _ Ht V3 Hq) as Hr2.
      destruct (IH _ _ _ _ _ Hr2 Hc H) as [l2 S2]. exists (pid :: l2).
      eapply spanned_cons; [exact V3|done|exact Ho3|exact Hq|]. by rewrite size_0.
    + pose proof (ready_after _ _ _ _ _ _ _ Ht V3 (reflexivity s3)) as Hr2.
      destruct (IH _ _ _ _ _ Hr2 (s32_range _) H) as [l2 S2]. exists (pid :: l2).
      by eapply spanned_cons; [exact V3|done|exact Ho3|reflexivity|].
  - injection H as <- <-. exists l. apply spanned_nil; apply Hr.
Qed.

(** ** span *)

(** The program from [firstp] on is laid out up to [e]. *)
Definition laid_out (s : vl) (e : Z) : Prop :=
  exists l, span_ready s (firstp s) l /\ laid s (firstp s) (INITTEXT s) e.

Lemma spanned_laid_out l s e l' s' :
  tabs s = tables -> spanned l s (firstp s) (INITTEXT s) e l' s' ->
  laid_out s' e /\ rest s' = rest s.
Proof.
  intros Ht []. assert (rest s' = rest s) as Hr by done. unfold rest in sp_rest0.
  split; [|done]. exists l'. replace (firstp s') with (firstp s) by congruence.
  replace (INITTEXT s') with (INITTEXT s) by congruence. split; [|done].
  split_and!; [congruence|done|done].
Qed.

Lemma span_passes_laid_out rounds fuel c b s c' s' :
  in_s 32 (INITTEXT s) -> laid_out s c -> span_passes rounds fuel c b s = LOk c' s' ->
  laid_out s' c' /\ rest s' = rest s.
Proof.
  revert c b s. induction rounds as [|n IH]; intros c b s Hi Hl H; destruct b; try done;
    [by injection H as <- <-| |by injection H as <- <-].
  cbn [span_passes] in H. apply bind_ok in H as (fp & s1 & [= <- <-] & H).
  apply bind_ok in H as (c0 & s1 & [= <- <-] & H). apply bind_ok in H as ([c1 b1] & s1 & H1 & H).
  destruct Hl as (l & Hr & _). destruct (span_pass2_spanned _ _ _ _ _ _ _ _ Hr Hi H1) as [l' Hsp].
  destruct (spanned_laid_out _ _ _ _ _ (proj1 Hr) Hsp) as [Hl1 Hr1].
  destruct (IH c1 b1 s1) as [Hl2 Hr2]; [|done|done|].
  - unfold rest in Hr1. by replace (INITTEXT s1) with (INITTEXT s) by congruence.
  - split; [done|congruence].
Qed.

Lemma laid_out_quiet s s' e : quiet s s' -> laid_out s e -> laid_out s' e.
Proof.
  intros Hq (l & (Ht & Hc & Hch) & Hl). pose proof (quiet_vars _ _ Hq) as Hv. unfold vars in Hv.
  exists l. replace (firstp s') with (firstp s) by congruence.
  replace (INITTEXT s') with (INITTEXT s) by congruence. split; [split; [|split]|].
  - congruence.
  - by apply (cache_quiet s).
  - apply (chained_same s); [by rewrite (quiet_progs _ _ Hq)| |done].
    by replace (nextp s') with (nextp s) by congruence.
  - apply (laid_progs s); [by apply quiet_progs|done].
Qed.

Lemma chain_find_quiet symb v l : lrel quiet (chain_find symb v l).
Proof. induction l as [|y l IH]; cbn [chain_find]; lgo. Qed.
#[export] Hint Resolve chain_find_quiet : vl.

Lemma lookup_quiet symb v : lrel quiet (lookup symb v).
Proof.
  unfold lookup. lgo. by intros s1 y s2 [= <- <-].
Qed.

Lemma span_strings_quiet l c : lrel quiet (span_strings l c).
Proof. revert c. induction l as [|y l IH]; intros c; cbn [span_strings]; lgo. Qed.
#[export] Hint Resolve lookup_quiet span_strings_quiet : vl.

(** The end of [span]: the size of the text, and the address of the data. *)
Lemma span_tail c s s' e :
  laid_out s e ->
  (y ← lookup etext_name 0;
   updsym y (sset_value c);;
   lmodify (fun s => lset_textsize (s32 (c - INITTEXT s)) s);;
   rn ← lgets INITRND;
   if rn =? 0 then lskip else lmodify (fun s => lset_INITDAT (rnd c (INITRND s)) s)) s = LOk tt s' ->
  laid_out s' e /\ rest s' = rest s /\ textsize s' = s32 (c - INITTEXT s)
  /\ (INITRND s <> 0 -> INITDAT s' = rnd c (INITRND s)).
Proof.
  intros Hl H. apply bind_ok in H as (y & s1 & H1 & H). apply bind_ok in H as ([] & s2 & H2 & H).
  apply bind_ok in H as ([] & s3 & [= <-] & H). apply bind_ok in H as (rn & s4 & [= <- <-] & H).
  simpl in H. assert (quiet s s2) as Hq.
  { apply lookup_quiet in H1. apply updsym_quiet in H2. by etrans. }
  pose proof (laid_out_quiet s s2 e Hq Hl) as Hl2. destruct (quiet_rest _ _ Hq) as [Hr _].
  pose proof Hr as Hrest. unfold rest in Hr. replace (INITRND s2) with (INITRND s) in H by congruence.
  replace (INITTEXT s2) with (INITTEXT s) in H by congruence.
  assert (forall f, progs (f s2) = progs s2 -> rest (f s2) = rest s2 -> nextp (f s2) = nextp s2 ->
            laid_out (f s2) e) as Hf.
  { intros f Hp Hrf Hn. destruct Hl2 as (l & (Ht & Hc & Hch) & Hll). unfold rest in Hrf. exists l.
    replace (firstp (f s2)) with (firstp s2) by congruence.
    replace (INITTEXT (f s2)) with (INITTEXT s2) by congruence. split; [split; [|split]|].
    - congruence.
    - intros pid p. rewrite Hp. apply Hc.
    - apply (chained_same s2); [by rewrite Hp|lia|done].
    - by apply (laid_progs s2). }
  destruct (Z.eqb_spec (INITRND s) 0); injection H as <-.
  - split_and!; [by apply (Hf (lset_textsize _))|exact Hrest|done|done].
  - split_and!; [by apply (Hf (fun s => lset_INITDAT _ (lset_textsize _ s)))|exact Hrest|done|]. intros _. simpl. congruence.
Qed.

Lemma span_laid_out rounds fuel s l s' :
  span_ready s (firstp s) l -> in_s 32 (INITTEXT s) -> span rounds fuel s = LOk tt s' ->
  exists e, laid_out s' e /\ rest s' = rest s
    /\ (debug_t s = false ->
        textsize s' = s32 (rnd e 8 - INITTEXT s)
        /\ (INITRND s <> 0 -> INITDAT s' = rnd (rnd e 8) (INITRND s))).
Proof.
  intros Hr Hi H. unfold span in H. apply bind_ok in H as (fp & s1 & [= <- <-] & H).
  apply bind_ok in H as (c0 & s1 & [= <- <-] & H). apply bind_ok in H as ([c b] & s1 & H1 & H).
  destruct (span_pass1_spanned _ _ _ _ _ _ _ _ _ Hr Hi H1) as [l' Hsp].
  destruct (spanned_laid_out _ _ _ _ _ (proj1 Hr) Hsp) as [Hl1 Hr1]. simpl in Hl1.
  apply bind_ok in H as (e & s2 & H2 & H).
  assert (INITTEXT s1 = INITTEXT s) as Hi1 by (unfold rest in Hr1; congruence).
  destruct (span_passes_laid_out _ _ _ _ _ _ _ ltac:(by rewrite Hi1) Hl1 H2) as [Hl2 Hr2].
  apply bind_ok in H as (dt & s3 & [= <- <-] & H). apply bind_ok in H as (c3 & s3 & H3 & H).
  assert (quiet s2 s3 /\ (debug_t s2 = false -> c3 = e)) as [Hq Hc3].
  { destruct (debug_t s2); [|injection H3 as <- <-; done].
    apply bind_ok in H3 as (ch & s4 & H4 & H3). split; [|done].
    apply (lrel_gets quiet) in H4. apply span_strings_quiet in H3. by etrans. }
  destruct (span_tail (rnd c3 8) s3 s' e (laid_out_quiet _ _ _ Hq Hl2) H) as (Hl4 & Hr4 & Htx & Hd).
  destruct (quiet_rest _ _ Hq) as [Hr3 _]. exists e. split; [done|].
  assert (rest s3 = rest s) as Hr5 by congruence. split; [congruence|]. intros Hdt.
  unfold rest in *. rewrite Hc3 in * by congruence.
  replace (INITTEXT s) with (INITTEXT s3) by congruence.
  by replace (INITRND s) with (INITRND s3) by congruence.
Qed.


(** [asmb] starts the text at [INITTEXT]. *)
Definition text_start (s : vl) : vl := lset_pc (INITTEXT s) s.

Lemma text_start_laid rounds fuel s l s1 :
  span_ready s (firstp s) l -> in_s 32 (INITTEXT s) -> span rounds fuel s = LOk tt s1 ->
  tabs (text_start s1) = tables
  /\ exists e, laid (text_start s1) (firstp s1) (pc (text_start s1)) e.
Proof.
  intros Hr Hi H. destruct (span_laid_out _ _ _ _ _ Hr Hi H) as (e & (l' & Hrl & Hl) & _).
  split; [apply Hrl|]. exists e. by apply (laid_progs s1).
Qed.


(** ** The program of the examples *)

(** [m], and then [g] from the start of the text. *)
Definition then_write (m : L unit) (g : option Z -> L unit) : L unit :=
  m;; lmodify text_start;; f ← lgets firstp; g f.

Lemma then_write_ok m g s :
  is_ok (then_write m g s) = true ->
  exists s1 s2, m s = LOk tt s1 /\ g (firstp s1) (text_start s1) = LOk tt s2.
Proof.
  intros H. unfold is_ok in H. destruct (then_write m g s) as [[] s2| | |] eqn:E; try discriminate H.
  apply bind_ok in E as ([] & s1 & H1 & E). apply bind_ok in E as ([] & s3 & [= <-] & E).
  apply bind_ok in E as (f & s4 & [= <- <-] & E). exists s1, s2. split; assumption.
Qed.

Lemma demo_runs : is_ok (then_write (span 1 20) (asmb_text 20) demo) = true.
Proof. vm_cast_no_check (eq_refl true). Qed.

Lemma demo_ready : span_ready demo (firstp demo) [0; 1; 2; 3; 4; 5; 6; 7].
Proof.
  split; [done|]. split; [|split; [|split]].
  - assert (map_Forall (fun _ p => p_optab p = 0) demo_prog) as H.
    { apply map_Forall_to_list. by repeat constructor. }
    intros pid p Hp Hk. by specialize (H pid p Hp).
  - repeat (split; [done|]; eexists; split; [reflexivity|]). done.
  - by apply (bool_decide_unpack _).
  - by repeat constructor.
Qed.

Lemma demo_text_range : in_s 32 (INITTEXT demo).
Proof. unfold in_s. simpl. lia. Qed.


