(* ===== verification/VlCode.v ===== *)
(** Register instructions of the linker, by what their words do in the architecture. *)
From S2P Require Import Prelude CInt ViMachine ViMem ViMemThm Mips MipsIsa ViSim ViAlu VlObj VlOptab VlSym VlSpan VlAsm VlEnc VlTables VlDemo VlLib VlEmit VlLook VlLayout.

(** ** Words of register arithmetic, one after another *)

Fixpoint alu_code (ws : list Z) (g : Z -> Z) : option (Z -> Z) :=
  match ws with
  | [] => Some g
  | w :: ws' => '(d, v) ← alu w (upd g 0 0); alu_code ws' (upd g d (u32 v))
  end.

(** The words [ws] are at the program counter, and no jump is pending. *)
Record code_at (a : mips) (ws : list Z) : Prop := {
  ca_seq : m_npc a = m_pc a + 4;
  ca_align : m_pc a mod 4 = 0;
  ca_range : 0 <= m_pc a /\ m_pc a + 4 * Z.of_nat (length ws) + 4 < 2 ^ 32;
  ca_words : forall i w, ws !! i = Some w ->
    word_at (m_mem a) (m_pc a + 4 * Z.of_nat i) = Some w }.

(** [a] after straight-line code of [n] words that left the registers [g]. *)
Definition passed (a : mips) (n : nat) (g : Z -> Z) : mips :=
  mkmips (m_pc a + 4 * Z.of_nat n) (m_pc a + 4 * Z.of_nat n + 4) g (m_hi a) (m_lo a) (m_mem a).

Lemma alu_nojump w a d v : alu w (m_regs a) = Some (d, v) -> control_of w a = NoJump.
Proof.
  unfold alu, control_of, branch. generalize (m_regs a) (Z.shiftr w 26) (Z.land w 0x3f).
  intros g op fn.
  destruct op as [|p|p]; [|repeat (destruct p as [p|p|]; try done)|done].
  simpl. destruct fn as [|p|p]; [done|repeat (destruct p as [p|p|]; try done)|done].
Qed.

Lemma fetch_here a w ws : code_at a (w :: ws) -> fetch a = Some w.
Proof.
  intros [_ Ha _ Hw]. unfold fetch, aligned. rewrite Ha. pose proof (Hw 0%nat w eq_refl) as H.
  simpl in H. rewrite Z.add_0_r in H. exact H.
Qed.

Lemma alu_word_step a w ws d v :
  code_at a (w :: ws) -> alu w (m_regs a) = Some (d, v) ->
  step a = Some (passed a 1 (upd (m_r a) d (u32 v))) /\ code_at (passed a 1 (upd (m_r a) d (u32 v))) ws.
Proof.
  intros Hc Hv. pose proof (fetch_here _ _ _ Hc) as Hf. destruct Hc as [Hs Ha [Hr1 Hr2] Hw].
  cbn [length] in Hr2. split.
  - unfold step. rewrite Hf. cbn [mbind option_bind]. rewrite (alu_nojump _ _ _ _ Hv).
    unfold simple. rewrite Hv. cbn [mbind option_bind]. unfold with_pcs, with_reg, passed. cbn.
    rewrite Hs, u32_id by lia. do 2 f_equal; lia.
  - unfold passed. split; cbn [m_pc m_npc m_mem].
    + lia.
    + Z.div_mod_to_equations. lia.
    + lia.
    + intros i x Hx. rewrite <- (Hw (S i) x Hx). f_equal. lia.
Qed.

Lemma alu_code_steps ws a g :
  code_at a ws -> alu_code ws (m_r a) = Some g -> steps (length ws) a = Some (passed a (length ws) g).
Proof.
  revert a. induction ws as [|w ws IH]; intros a Hc H.
  - injection H as <-. destruct Hc as [Hs _ _ _]. destruct a. unfold passed. cbn in *. rewrite Hs.
    do 2 f_equal; lia.
  - cbn [alu_code] in H. destruct (alu w (upd (m_r a) 0 0)) as [[d v]|] eqn:Hv; [|done].
    cbn [mbind option_bind] in H. destruct (alu_word_step a w ws d v Hc Hv) as [H1 Hc1].
    cbn [steps length]. rewrite H1. cbn [mbind option_bind]. rewrite (IH _ Hc1 H).
    unfold passed. cbn. do 2 f_equal; lia.
Qed.

(** ** What the formats compute *)

Lemma word_s32 o : word (s32 o) = word o.
Proof. unfold word, s32. by rewrite wraps_wraps by lia. Qed.

Lemma land_reg r : 0 <= r < 32 -> Z.land r 31 = r.
Proof. intros. change 31 with (Z.ones 5). by apply land_small. Qed.

Lemma rrr_alu c r1 r2 r3 g v :
  0 <= c < 64 -> r_alu c (g (Z.land r2 31)) (g (Z.land r1 31)) 0 = Some v ->
  alu (word (s32 (OP_RRR c r1 r2 r3))) g = Some (Z.land r3 31, v).
Proof.
  intros Hc Hv. rewrite word_s32. destruct (decode_RRR c Hc r1 r2 r3) as (H0 & Hf & Hs & Ht & Hd & Hsh).
  unfold alu. by rewrite H0, Hf, Hs, Ht, Hd, Hsh, Hv.
Qed.

Lemma srr_alu c sa r2 r3 g v :
  0 <= c < 64 -> r_alu c (g 0) (g (Z.land r2 31)) (Z.land sa 31) = Some v ->
  alu (word (s32 (OP_SRR c sa r2 r3))) g = Some (Z.land r3 31, v).
Proof.
  intros Hc Hv. rewrite word_s32. destruct (decode_SRR c Hc sa r2 r3) as (H0 & Hf & Hs & Ht & Hd & Hsh).
  unfold alu. by rewrite H0, Hf, Hs, Ht, Hd, Hsh, Hv.
Qed.

Lemma irr_alu c op i r2 r3 g v :
  0 < c < 64 -> u32 op = Z.shiftl c 26 ->
  i_alu c (g (Z.land r2 31)) (Z.land i 0xffff) = Some v ->
  alu (word (s32 (OP_IRR op i r2 r3))) g = Some (Z.land r3 31, v).
Proof.
  intros Hc Hop Hv. rewrite word_s32.
  destruct (decode_IRR c ltac:(lia) op Hop i r2 r3) as (H0 & Hs & Ht & Hi & _).
  unfold alu. rewrite H0, Hs, Ht, Hi, Hv. by rewrite (proj2 (Z.eqb_neq _ _)) by lia.
Qed.

(** ** What instructions mean *)

(** Of three operands: [x] is the value of [from], [y] of the middle register. *)
Definition meaning (a x y : Z) : option Z :=
  switch a
    [ (AADD, u32 (y + x)); (AADDU, u32 (y + x)); (ASUBU, u32 (y - x)); (AAND, Z.land y x);
      (AOR, Z.lor y x); (AXOR, Z.lxor y x); (ANOR, 2 ^ 32 - 1 - Z.lor y x);
      (ASGT, bool32 (s32 y <? s32 x)); (ASGTU, bool32 (y <? x));
      (ASLL, u32 (y * 2 ^ (x mod 32))); (ASRL, y / 2 ^ (x mod 32));
      (ASRA, u32 (s32 y / 2 ^ (x mod 32))) ].

(** Of a move: [x] is the value of [from]. *)
Definition move_meaning (a x : Z) : option Z :=
  switch a
    [ (AMOVW, x); (AMOVB, u32 (s8 x)); (AMOVBU, u8 x); (AMOVH, u32 (s16 x)); (AMOVHU, u16 x) ].

Definition is_shift (a : Z) : bool := in_types a [ASLL; ASRL; ASRA].
Definition is_logic (a : Z) : bool := in_types a [AAND; AOR; AXOR].
Definition is_arith (a : Z) : bool := in_types a [AADD; AADDU; ASGT; ASGTU].

Definition is_reg (a : Adr) (r : Z) : Prop := a_type a = D_REG /\ a_reg a = r /\ 0 <= r < 32.
Definition is_con (a : Adr) (v : Z) : Prop :=
  a_type a = D_CONST /\ a_name a = D_NONE /\ a_offset a = v /\ a_reg a = NREG /\ in_s 32 v.

(** The registers of a machine: words, and zero in register 0. *)
Definition words (g : Z -> Z) : Prop := (forall i, 0 <= g i < 2 ^ 32) /\ g 0 = 0.

(** [ws], run from any registers, leaves in [d] what [v] says of them, and changes no other
    register but [REGTMP]. *)
Definition does (ws : list Z) (d : Z) (v : (Z -> Z) -> Z) : Prop :=
  forall g, words (upd g 0 0) -> exists g', alu_code (map word ws) g = Some g'
    /\ g' d = v (upd g 0 0)
    /\ forall i, 0 < i < 32 -> i <> d -> i <> REGTMP -> g' i = g i.

Lemma upd_same g d v : upd g d v d = v.
Proof. unfold upd. by rewrite Z.eqb_refl. Qed.
Lemma upd_other g d v i : i <> d -> upd g d v i = g i.
Proof. intros. unfold upd. by rewrite (proj2 (Z.eqb_neq _ _)). Qed.
Lemma upd_zero g i : i <> 0 -> upd g 0 0 i = g i.
Proof. apply upd_other. Qed.

Lemma words_upd g d v : words (upd g 0 0) -> words (upd (upd g d (u32 v)) 0 0).
Proof.
  intros [H H0]. split; [|done]. intros i. pose proof (H i) as Hi. unfold upd in *.
  destruct (i =? 0); [lia|]. destruct (i =? d); [by apply wrapu_range|lia].
Qed.

(** [ws], run from any registers, sets [t] alone, to [x] of them. *)
Definition sets (ws : list Z) (t : Z) (x : (Z -> Z) -> Z) : Prop :=
  forall g, words (upd g 0 0) -> exists g1, alu_code (map word ws) g = Some g1
    /\ words (upd g1 0 0) /\ g1 t = x (upd g 0 0) /\ forall i, i <> t -> g1 i = g i.

Lemma sets_one w t x :
  (forall g, words g -> exists v, alu (word w) g = Some (t, v) /\ u32 v = x g) -> sets [w] t x.
Proof.
  intros H g Hg. destruct (H _ Hg) as (v & Hv & Ev). cbn [map alu_code]. rewrite Hv.
  cbn [mbind option_bind]. eexists. split; [reflexivity|].
  split; [by apply words_upd|]. split; [by rewrite upd_same|]. intros i Hi. by apply upd_other.
Qed.

Lemma sets_does ws d v : sets ws d v -> does ws d v.
Proof. intros H g Hg. destruct (H g Hg) as (g1 & H1 & _ & H2 & H3). eauto 10. Qed.

Lemma does_one w d v :
  (forall g, words g -> exists x, alu (word w) g = Some (d, x) /\ u32 x = v g) -> does [w] d v.
Proof. intros H. by apply sets_does, sets_one. Qed.

Lemma alu_code_app xs ys g : alu_code (xs ++ ys) g = alu_code xs g ≫= alu_code ys.
Proof.
  revert g. induction xs as [|w xs IH]; intros g; [done|]. cbn [alu_code app].
  destruct (alu w (upd g 0 0)) as [[d v]|]; [|done]. apply IH.
Qed.

(** Code that uses what [pre] left in [t]. *)
Lemma does_after pre ws t d x v2 v :
  0 < t -> t = REGTMP \/ t = d -> sets pre t x -> does ws d v2 ->
  (forall g g1, words g -> words g1 -> g1 t = x g -> (forall i, i <> t -> g1 i = g i) -> v2 g1 = v g) ->
  does (pre ++ ws) d v.
Proof.
  intros Ht Htd Hpre Hws Hv g Hg. destruct (Hpre _ Hg) as (g1 & H1 & Hg1 & Hx & Ho).
  destruct (Hws g1 Hg1) as (g' & H2 & H3 & H4).
  exists g'. rewrite map_app, alu_code_app, H1. split; [done|]. split.
  - rewrite H3. apply Hv; [done..| |].
    + rewrite upd_zero by lia. exact Hx.
    + intros i Hi. unfold upd. by rewrite Ho.
  - intros i Hi Hid Hit. rewrite H4, Ho by (done || (destruct Htd; congruence)). done.
Qed.

(** ** Opcodes *)

Lemma switch_In {A} x (l : list (Z * A)) v : switch x l = Some v -> In (x, v) l.
Proof.
  induction l as [|[k w] l IH]; [done|]. simpl.
  destruct (Z.eqb_spec x k) as [->|]; [intros [= ->]; by left|right; auto].
Qed.

Ltac cases_of H :=
  apply switch_In in H; simpl in H;
  repeat (destruct H as [[= <- <-]|H]; [|]); [..|contradiction].

Definition word_val (x : Z) : Prop := 0 <= x < 2 ^ 32.

(** The instructions of three operands, and their results as words. *)
Definition op3 (a : Z) : Prop := is_Some (meaning a 0 0).
Definition val (a x y : Z) : Z := u32 (default 0 (meaning a x y)).

(** The register forms: the operands are [rt] and [rs], of shifts [rs] and [rt]. *)
Lemma oprrr_code a :
  op3 a -> exists c, 0 <= c < 64 /\ (forall s, oprrr a s = LOk c s)
    /\ forall x y, exists v, u32 v = val a x y
         /\ (if is_shift a then r_alu c x y 0 else r_alu c y x 0) = Some v.
Proof.
  intros [v0 H]. unfold meaning in H. exists (default 0 (switch a oprrr_tab)).
  cases_of H; (split; [split; [intros ?; discriminate|reflexivity]|]);
    (split; [intros; reflexivity|]); intros; eexists; (split; [|reflexivity]); reflexivity.
Qed.

Lemma s32_u32_s16 i : s32 (u32 (s16 i)) = s16 i.
Proof. rewrite s32_u32. apply wraps_id; [lia|]. by apply (in_s_mono 16), wraps_range. Qed.

(** Immediates: sign-extended by arithmetic, zero-extended by logic. *)
Definition immediate (a i : Z) : Z := if is_logic a then i else u32 (s16 i).

Lemma opirr_meaning a i y :
  is_arith a || is_logic a = true ->
  exists c op v, 0 < c < 64 /\ u32 op = Z.shiftl c 26 /\ (forall s, opirr a s = LOk op s)
    /\ meaning a (immediate a i) y = Some v /\ i_alu c y i = Some v.
Proof.
  intros H. unfold is_arith, is_logic, in_types in H.
  assert (In a [AADD; AADDU; ASGT; ASGTU; AAND; AOR; AXOR]) as Ha.
  { apply orb_true_iff in H as [H|H]; apply existsb_exists in H as (b & Hb & ->%Z.eqb_eq);
      simpl in *; tauto. }
  assert (forall z, u32 (y + z) = u32 (y + u32 z)) as Hadd.
  { intros z. unfold u32, wrapu. by rewrite Zplus_mod_idemp_r. }
  exists (Z.shiftr (u32 (default 0 (switch a opirr_tab))) 26), (default 0 (switch a opirr_tab)),
    (default 0 (meaning a (immediate a i) y)).
  simpl in Ha.
  repeat (destruct Ha as [<-|Ha];
    [split; [split; reflexivity|]; split; [reflexivity|]; split; [intros; reflexivity|];
     split; [reflexivity|]|]); try contradiction;
    lazy beta iota zeta delta [i_alu immediate is_logic in_types existsb orb Z.eqb Pos.eqb meaning
      switch default from_option id AADD AADDU ASGT ASGTU AAND AOR AXOR ASUBU ANOR];
    simpl; rewrite ?s32_u32_s16, <- ?Hadd; reflexivity.
Qed.

(** Shifts by a constant. *)
Lemma shift_code a : is_shift a = true -> forall v, exists c, 0 <= c < 64
  /\ (forall s, opirr a s = LOk c s)
  /\ forall g0 y, exists x, u32 x = val a (u32 v) y /\ r_alu c g0 y (Z.land v 31) = Some x.
Proof.
  intros Hs v. unfold is_shift, in_types in Hs.
  apply existsb_exists in Hs as (b & Hb & ->%Z.eqb_eq).
  assert (u32 v mod 32 = Z.land v 31) as E.
  { change 31 with (Z.ones 5). rewrite Z.land_ones by lia. change (2 ^ 5) with 32.
    unfold u32, wrapu. Z.div_mod_to_equations. lia. }
  exists (default 0 (switch b opirr_tab)).
  repeat (destruct Hb as [<-|Hb];
    [split; [split; [intros H; discriminate H|reflexivity]|]; split; [reflexivity|];
     intros g0 y; eexists; (split; [|reflexivity]); unfold val;
     lazy beta iota zeta delta [meaning switch default from_option id Z.eqb Pos.eqb
       AADD AADDU ASGT ASGTU AAND AOR AXOR ASUBU ANOR ASLL ASRL ASRA]; by rewrite E|]).
  destruct Hb.
Qed.

(** A shift to the left and one to the right: sign extension. *)
Lemma sign_by_shift x k : k = 24 \/ k = 16 -> s32 (u32 (x * 2 ^ k)) / 2 ^ k = wraps (32 - k) x.
Proof.
  intros [-> | ->]; unfold s32, u32, wraps, wrapu; simpl; Z.div_mod_to_equations; lia.
Qed.

(** ** The words of each kind of entry *)

(** A constant that fits the immediate field of [a]. *)
Definition fits16 (a v : Z) : Prop :=
  if is_logic a then 0 <= v < 2 ^ 16 else - 2 ^ 15 <= v < 2 ^ 15.

Lemma land_ffff v : Z.land v 0xffff = v mod 2 ^ 16.
Proof. change 0xffff with (Z.ones 16). by apply Z.land_ones. Qed.

Lemma immediate_con a v : fits16 a v -> immediate a (Z.land v 0xffff) = u32 v.
Proof.
  unfold fits16, immediate. rewrite land_ffff. destruct (is_logic a); intros H.
  - rewrite Z.mod_small by lia. symmetry. apply u32_id. lia.
  - f_equal. apply wraps_eq_signed; [lia|unfold in_s; lia|by rewrite Z.mod_mod].
Qed.

(** The two halves of a word. *)
Lemma halves_word v : u32 (Z.lor (u32 (Z.land (Z.shiftr v 16) 0xffff * 2 ^ 16)) (Z.land v 0xffff)) = u32 v.
Proof. rewrite <- Z.shiftl_mul_pow2 by lia. cbits. Qed.

Lemma high_word v : Z.land v 0xffff = 0 -> u32 (Z.land (Z.shiftr v 16) 0xffff * 2 ^ 16) = u32 v.
Proof.
  intros H. pose proof (halves_word v) as E. rewrite H, Z.lor_0_r in E. rewrite <- E.
  unfold u32. by rewrite wrapu_wrapu by lia.
Qed.

(** A linker without a program. *)
Definition zlinker : vl := linker ∅ 0.

Lemma bind_run {A B} (m : L A) (k : A -> L B) s a s' : m s = LOk a s' -> (x ← m; k x) s = k a s'.
Proof. intros H. unfold mbind, L_bind. by rewrite H. Qed.

Lemma aclass_con a v s :
  is_con a v -> aclass a s = LOk (consize_of v) (lset_instoffset v s).
Proof.
  intros (Ht & Hn & Hv & _ & Hr). unfold aclass, aclass_const. rewrite Ht, Hn, Hv. cbn.
  unfold mbind, L_bind, mret, L_ret, lmodify, lgets. cbn. unfold s32. by rewrite wraps_id by (lia || done).
Qed.

Lemma regoff_con a v s : is_con a v -> exists s', regoff a s = LOk v s'.
Proof.
  intros Ha. unfold regoff, set_instoffset, mbind, L_bind, lmodify, lgets.
  rewrite (aclass_con a v) by done. by eexists.
Qed.

Lemma aclass_reg a r s : is_reg a r -> aclass a s = LOk C_REG s.
Proof. intros (Ht & _). unfold aclass. by rewrite Ht. Qed.

(** The middle register, the destination where there is none. *)
Definition middle (p : Prog) : Z := or_to p.

(** The entry yields words that set [d] to [v]. *)
Definition makes (pid : Z) (p : Prog) (o : Optab) (d : Z) (v : (Z -> Z) -> Z) : Prop :=
  forall s, exists ws s', asm_words pid p o s = LOk ws s' /\ does ws d v.

Ltac asm_type Ht :=
  intros s; unfold asm_words; rewrite Ht;
  lazy beta iota zeta delta [in_types existsb orb Z.eqb Pos.eqb];
  unfold asm_reg, asm_con; rewrite ?Ht.

Ltac run_by H := erewrite bind_run by (apply H).

Section Types.
Context (pid : Z) (p : Prog) (o : Optab) (d : Z).
Context (Hd : 0 < d < 32) (Hto : is_reg (to p) d).

Lemma to_reg : Z.land (a_reg (to p)) 31 = d.
Proof. destruct Hto as (_ & -> & ?). apply land_reg. lia. Qed.

Lemma to_is : a_reg (to p) = d.
Proof. by destruct Hto as (_ & -> & _). Qed.

(** [OR from, R0, to]. *)
Lemma type_1 :
  o_type o = 1 -> makes pid p o d (fun g => g (Z.land (a_reg (from p)) 31)).
Proof.
  intros Ht. asm_type Ht. eexists _, s. split; [reflexivity|]. apply does_one.
  intros g [Hg H0]. eexists. split.
  - rewrite <- to_reg. by apply rrr_alu.
  - simpl. change (Z.land REGZERO 31) with 0. rewrite H0. apply u32_id, Hg.
Qed.

(** A word of an immediate form. *)
Lemma irr_word r2 t i a :
  0 <= t < 32 -> is_arith a || is_logic a = true ->
  exists op, (forall s, opirr a s = LOk op s)
    /\ forall g, exists v, alu (word (s32 (OP_IRR op i r2 t))) g = Some (t, v)
         /\ u32 v = val a (immediate a (Z.land i 0xffff)) (g (Z.land r2 31)).
Proof.
  intros Ht Ha. destruct (opirr_meaning a (Z.land i 0xffff) 0 Ha) as (c & op & _ & Hc & Hop & Ho & _).
  exists op. split; [done|]. intros g.
  destruct (opirr_meaning a (Z.land i 0xffff) (g (Z.land r2 31)) Ha)
    as (c' & op' & v & Hc' & Hop' & Ho' & Hm & Hi).
  assert (op' = op) as -> by (pose proof (Ho zlinker); pose proof (Ho' zlinker); congruence).
  exists v. split; [|unfold val; by rewrite Hm].
  rewrite <- (land_reg t) at 2 by done. by apply (irr_alu c').
Qed.

(** [LUI] and [ORI]: the constant [v] in [t]. *)
Lemma lui_word v t g :
  0 <= t < 32 -> alu (word (s32 (OP_IRR (SP 1 7) (Z.shiftr v 16) REGZERO t))) g
                 = Some (t, Z.land (Z.shiftr v 16) 0xffff * 2 ^ 16).
Proof. intros Ht. rewrite <- (land_reg t) at 2 by done. by apply (irr_alu 15). Qed.

Lemma ori_word v t g :
  0 <= t < 32 -> alu (word (s32 (OP_IRR (SP 1 5) v t t))) g = Some (t, Z.lor (g t) (Z.land v 0xffff)).
Proof.
  intros Ht.
  pose proof (irr_alu 13 (SP 1 5) v t t g _ ltac:(lia) eq_refl eq_refl) as H.
  by rewrite !land_reg in H by lia.
Qed.

Lemma lui_ori_sets v t :
  0 < t < 32 ->
  sets [s32 (OP_IRR (SP 1 7) (Z.shiftr v 16) REGZERO t); s32 (OP_IRR (SP 1 5) v t t)] t
       (fun _ => u32 v).
Proof.
  intros Ht g Hg. cbn [map alu_code]. rewrite lui_word by lia. cbn [mbind option_bind].
  rewrite ori_word by lia. cbn [mbind option_bind]. eexists. split; [reflexivity|].
  split; [by apply words_upd, words_upd|]. split.
  - rewrite upd_same, upd_zero, upd_same by lia. apply halves_word.
  - intros i Hi. by rewrite !upd_other.
Qed.

Section Three.
Context (y : Z) (Hy : 0 <= y < 32) (Hmid : middle p = y).

(** A word of the register form: of shifts [r1] is the middle register, else [r2]. *)
Lemma rrr_word c r1 r2 g x z :
  op3 (p_as p) -> (forall s, oprrr (p_as p) s = LOk c s) ->
  x = g (Z.land r1 31) -> z = g (Z.land r2 31) ->
  exists v, alu (word (s32 (if is_shift (p_as p) then OP_RRR c r2 r1 (a_reg (to p))
                            else OP_RRR c r1 r2 (a_reg (to p))))) g = Some (d, v)
    /\ u32 v = val (p_as p) x z.
Proof.
  intros Hop Ho -> ->. destruct (oprrr_code _ Hop) as (c' & Hc & Ho' & Hv).
  assert (c' = c) as -> by (pose proof (Ho zlinker); pose proof (Ho' zlinker); congruence).
  destruct (Hv (g (Z.land r1 31)) (g (Z.land r2 31))) as (v & Ev & Ha). exists v. split; [|done].
  rewrite <- to_reg. destruct (is_shift (p_as p)); by apply rrr_alu.
Qed.

Lemma type_2_9 :
  o_type o = (if is_shift (p_as p) then 9 else 2) -> op3 (p_as p) ->
  makes pid p o d (fun g => val (p_as p) (g (Z.land (a_reg (from p)) 31)) (g y)).
Proof.
  intros Ht Hop. destruct (oprrr_code _ Hop) as (c & _ & Ho & _).
  assert (forall g, exists v,
    alu (word (s32 (if is_shift (p_as p) then OP_RRR c (or_to p) (a_reg (from p)) (a_reg (to p))
                    else OP_RRR c (a_reg (from p)) (or_to p) (a_reg (to p))))) g = Some (d, v)
    /\ u32 v = val (p_as p) (g (Z.land (a_reg (from p)) 31)) (g y)) as Hw.
  { intros g. apply rrr_word; [done..|]. fold (middle p). by rewrite Hmid, land_reg. }
  destruct (is_shift (p_as p)); asm_type Ht; run_by Ho; eexists _, s;
    (split; [reflexivity|]); by apply does_one.
Qed.

Section Constant.
Context (v : Z) (Hfrom : is_con (from p) v).

(** [lui_ori], run. *)
Lemma lui_ori_run t s :
  lui_ori v t s = LOk [s32 (OP_IRR (SP 1 7) (Z.shiftr v 16) REGZERO t); s32 (OP_IRR (SP 1 5) v t t)] s.
Proof. reflexivity. Qed.

Lemma type_4 :
  o_type o = 4 -> is_arith (p_as p) || is_logic (p_as p) = true -> fits16 (p_as p) v ->
  makes pid p o d (fun g => val (p_as p) (u32 v) (g y)).
Proof.
  intros Ht Ha Hf. destruct (irr_word y d v (p_as p) ltac:(lia) Ha) as (op & Hop & Hw).
  asm_type Ht. destruct (regoff_con _ _ s Hfrom) as [s1 Hr]. rewrite (bind_run _ _ _ _ _ Hr).
  run_by Hop. rewrite to_is. fold (middle p). rewrite Hmid. eexists _, s1. split; [reflexivity|].
  apply does_one. intros g _. destruct (Hw g) as (x & H1 & H2). exists x. split; [done|].
  by rewrite H2, immediate_con, land_reg.
Qed.

(** The immediate that makes a small constant of register 0. *)
Lemma small_word t a :
  0 < t < 32 -> a = AADDU /\ - 2 ^ 15 <= v < 2 ^ 15 \/ a = AOR /\ 0 <= v < 2 ^ 16 ->
  exists op, (forall s, opirr a s = LOk op s)
    /\ sets [s32 (OP_IRR op v 0 t)] t (fun _ => u32 v).
Proof.
  intros Ht Ha.
  destruct (irr_word 0 t v a ltac:(lia)) as (op & Hop & Hw); [by destruct Ha as [[-> _]|[-> _]]|].
  exists op. split; [done|]. apply sets_one. intros g [_ H0].
  destruct (Hw g) as (x & H1 & H2). exists x. split; [done|].
  rewrite H2. change (Z.land 0 31) with 0. rewrite H0, immediate_con
    by (unfold fits16; destruct Ha as [[-> ?]|[-> ?]]; simpl; lia).
  assert (0 <= u32 v < 2 ^ 32) as Hu by by apply wrapu_range.
  destruct Ha as [[-> _]|[-> _]].
  - change (u32 (u32 (0 + u32 v)) = u32 v). by rewrite Z.add_0_l, !(u32_id (u32 v)) by exact Hu.
  - change (u32 (Z.lor 0 (u32 v)) = u32 v). by rewrite Z.lor_0_l, u32_id by exact Hu.
Qed.

Lemma type_3 :
  o_type o = 3 -> o_param o = 0 ->
  (if o_a1 o =? C_ANDCON then 0 <= v < 2 ^ 16 else - 2 ^ 15 <= v < 2 ^ 15) ->
  makes pid p o d (fun g => u32 v).
Proof.
  intros Ht Hpm Hv. destruct (small_word d (if o_a1 o =? C_ANDCON then AOR else AADDU) Hd)
    as (op & Hop & Hw); [by destruct (o_a1 o =? C_ANDCON); auto|].
  asm_type Ht. destruct (regoff_con _ _ s Hfrom) as [s1 Hr]. rewrite (bind_run _ _ _ _ _ Hr).
  run_by Hop. destruct Hfrom as (_ & _ & _ & Hn & _). unfold or_param. rewrite Hn, Hpm, to_is.
  eexists _, s1. split; [reflexivity|]. by apply sets_does.
Qed.

Lemma type_19 : o_type o = 19 -> makes pid p o d (fun g => u32 v).
Proof.
  intros Ht. asm_type Ht. destruct (regoff_con _ _ s Hfrom) as [s1 Hr].
  rewrite (bind_run _ _ _ _ _ Hr), to_is. eexists _, s1. split; [apply lui_ori_run|].
  by apply sets_does, lui_ori_sets.
Qed.

Lemma lui_sets t :
  0 < t < 32 -> Z.land v 0xffff = 0 ->
  sets [s32 (OP_IRR (SP 1 7) (Z.shiftr v 16) REGZERO t)] t (fun _ => u32 v).
Proof.
  intros Ht Hl. apply sets_one. intros g _. eexists. split; [apply lui_word; lia|].
  by apply high_word.
Qed.

Lemma type_24 : o_type o = 24 -> Z.land v 0xffff = 0 -> makes pid p o d (fun g => u32 v).
Proof.
  intros Ht Hl. asm_type Ht. destruct (regoff_con _ _ s Hfrom) as [s1 Hr].
  rewrite (bind_run _ _ _ _ _ Hr), to_is. eexists _, s1. split; [reflexivity|].
  by apply sets_does, lui_sets.
Qed.

Lemma type_16 :
  o_type o = 16 -> is_shift (p_as p) = true ->
  makes pid p o d (fun g => val (p_as p) (u32 v) (g y)).
Proof.
  intros Ht Hs. destruct (shift_code _ Hs v) as (c & Hc & Ho & Hv).
  asm_type Ht. destruct (regoff_con _ _ s Hfrom) as [s1 Hr]. rewrite (bind_run _ _ _ _ _ Hr).
  assert (vshift (p_as p) = false) as ->.
  { unfold is_shift, in_types in Hs. unfold vshift.
    apply existsb_exists in Hs as (b & Hb & ->%Z.eqb_eq).
    repeat (destruct Hb as [<-|Hb]; [reflexivity|]). destruct Hb. }
  rewrite andb_false_r. run_by Ho. rewrite to_is. fold (middle p). rewrite Hmid.
  eexists _, s1. split; [reflexivity|]. apply does_one. intros g _.
  destruct (Hv (g 0) (g y)) as (x & Ex & Hx). exists x. split; [|done].
  pose proof (srr_alu c v y d g x Hc) as H. rewrite (land_reg y), (land_reg d) in H by lia. by apply H.
Qed.

(** The constant in [REGTMP], then the register form. *)
Context (Hop : op3 (p_as p)) (Hns : is_shift (p_as p) = false) (Hyt : y <> REGTMP) (Hdt : d <> REGTMP).

Lemma through_tmp pre c :
  sets pre REGTMP (fun _ => u32 v) -> (forall s, oprrr (p_as p) s = LOk c s) ->
  does (pre ++ [s32 (OP_RRR c REGTMP (or_to p) (a_reg (to p)))]) d
       (fun g => val (p_as p) (u32 v) (g y)).
Proof.
  intros Hpre Hc.
  apply (does_after _ _ REGTMP _ (fun _ => u32 v) (fun g => val (p_as p) (g REGTMP) (g y)));
    [done|by left|done| |].
  - apply does_one. intros g _.
    destruct (rrr_word c REGTMP (or_to p) g _ (g y) Hop Hc eq_refl) as (x & Hx & Ex).
    + fold (middle p). by rewrite Hmid, land_reg.
    + rewrite Hns in Hx. exists x. by split.
  - intros g g1 _ _ H1 H2. by rewrite H1, H2.
Qed.

Lemma oprrr_op3 : exists c, forall s, oprrr (p_as p) s = LOk c s.
Proof. destruct (oprrr_code _ Hop) as (c & _ & Ho & _). by exists c. Qed.

Lemma type_10 :
  o_type o = 10 -> - 2 ^ 15 <= v < 2 ^ 16 -> makes pid p o d (fun g => val (p_as p) (u32 v) (g y)).
Proof.
  intros Ht Hv. destruct oprrr_op3 as [c Hc].
  destruct (small_word REGTMP (if v <? 0 then AADDU else AOR)) as (op & Ho & Hw);
    [done|destruct (Z.ltb_spec v 0); [left|right]; (split; [done|lia])|].
  asm_type Ht. destruct (regoff_con _ _ s Hfrom) as [s1 Hr]. rewrite (bind_run _ _ _ _ _ Hr).
  run_by Ho. run_by Hc. eexists _, s1. split; [reflexivity|]. by apply (through_tmp [_]).
Qed.

Lemma type_25 :
  o_type o = 25 -> Z.land v 0xffff = 0 -> makes pid p o d (fun g => val (p_as p) (u32 v) (g y)).
Proof.
  intros Ht Hl. destruct oprrr_op3 as [c Hc]. asm_type Ht.
  destruct (regoff_con _ _ s Hfrom) as [s1 Hr]. rewrite (bind_run _ _ _ _ _ Hr).
  erewrite bind_run by reflexivity. run_by Hc. eexists _, s1. split; [reflexivity|].
  apply (through_tmp [_]); [by apply lui_sets|done].
Qed.

Lemma type_23 : o_type o = 23 -> makes pid p o d (fun g => val (p_as p) (u32 v) (g y)).
Proof.
  intros Ht. destruct oprrr_op3 as [c Hc]. asm_type Ht.
  destruct (regoff_con _ _ s Hfrom) as [s1 Hr]. rewrite (bind_run _ _ _ _ _ Hr).
  assert ((a_reg (to p) =? REGTMP) || (p_reg p =? REGTMP) = false) as ->.
  { rewrite to_is. apply orb_false_iff. rewrite !Z.eqb_neq. split; [done|]. intros E.
    apply Hyt. rewrite <- Hmid. unfold middle, or_to. rewrite E. reflexivity. }
  erewrite bind_run by reflexivity. rewrite (bind_run _ _ _ _ _ (lui_ori_run _ _)). run_by Hc.
  eexists _, s1. split; [reflexivity|]. apply (through_tmp [_; _]); [by apply lui_ori_sets|done].
Qed.
End Constant.
End Three.

(** ** Moves of bytes and halves *)

Definition source_field : Z := Z.land (a_reg (from p)) 31.

Lemma type_12 (sh : Z) :
  o_type o = 12 -> sh = (if p_as p =? AMOVB then 24 else 16) ->
  makes pid p o d (fun g => u32 (wraps (32 - sh) (g source_field))).
Proof.
  intros Ht Hsh. asm_type Ht. rewrite <- Hsh. unfold mbind, L_bind. cbn.
  eexists _, s. split; [reflexivity|]. rewrite to_is. fold (source_field).
  assert (Z.land sh 31 = sh) as Esh by (subst sh; by destruct (p_as p =? AMOVB)).
  apply (does_after [_] [_] d _ (fun g => u32 (g source_field * 2 ^ sh))
           (fun g => u32 (u32 (s32 (g d) / 2 ^ sh)))); [lia|by right| | |].
  - apply sets_one. intros g _. eexists. split.
    + pose proof (srr_alu 0 sh (a_reg (from p)) d g _ ltac:(lia) eq_refl) as H.
      rewrite (land_reg d) in H by lia. exact H.
    + fold source_field. rewrite Esh. unfold u32. by rewrite wrapu_wrapu by lia.
  - apply does_one. intros g _. eexists. split.
    + pose proof (srr_alu 3 sh d d g _ ltac:(lia) eq_refl) as H.
      rewrite !land_reg in H by lia. exact H.
    + by rewrite Esh.
  - intros g g1 _ _ H1 _. rewrite H1. subst sh. destruct (p_as p =? AMOVB);
      rewrite sign_by_shift by lia; unfold u32; by rewrite wrapu_wrapu by lia.
Qed.

Lemma type_13 (n : Z) :
  o_type o = 13 -> n = (if p_as p =? AMOVBU then 8 else 16) ->
  makes pid p o d (fun g => wrapu n (g source_field)).
Proof.
  intros Ht Hn. destruct (irr_word (a_reg (from p)) d (if p_as p =? AMOVBU then 0xff else 0xffff) AAND
    ltac:(lia) eq_refl) as (op & Hop & Hw).
  asm_type Ht. run_by Hop. rewrite to_is. eexists _, s. split; [reflexivity|].
  apply does_one. intros g _. destruct (Hw g) as (x & H1 & H2). exists x. split; [done|].
  rewrite H2. fold source_field. subst n.
  assert (forall k, 0 <= k <= 32 -> u32 (Z.land (g source_field) (Z.ones k)) = wrapu k (g source_field))
    as Hk.
  { intros k Hk. rewrite Z.land_ones by lia. apply wrapu_id, (in_u_mono k); [lia|].
    apply wrapu_range. lia. }
  destruct (p_as p =? AMOVBU); [apply (Hk 8)|apply (Hk 16)]; lia.
Qed.
End Types.

(** The bytes [bs] are at the program counter, and no jump is pending. *)
Record loaded (a : mips) (bs : list Z) : Prop := {
  ld_seq : m_npc a = m_pc a + 4;
  ld_align : m_pc a mod 4 = 0;
  ld_range : 0 <= m_pc a /\ m_pc a + Z.of_nat (length bs) + 4 < 2 ^ 32;
  ld_bytes : forall i b, bs !! i = Some b -> m_mem a (m_pc a + Z.of_nat i) = Some b }.

Lemma flat_bytes_at ws i w k :
  ws !! i = Some w -> (k < 4)%nat -> flat_map (word_bytes false) ws !! (4 * i + k)%nat = be_bytes w !! k.
Proof.
  revert i. induction ws as [|x ws IH]; intros [|i] H Hk; try done.
  - injection H as ->. cbn [flat_map]. apply lookup_app_l. exact Hk.
  - cbn [flat_map]. replace (4 * S i + k)%nat with (length (word_bytes false x) + (4 * i + k))%nat
      by (rewrite word_bytes_length; lia).
    rewrite lookup_app_r by lia. replace (_ - _)%nat with (4 * i + k)%nat by lia. by apply IH.
Qed.

(** The bytes of a big-endian file are its words in memory. *)
Lemma loaded_code a ws : loaded a (flat_map (word_bytes false) ws) -> code_at a (map word ws).
Proof.
  intros [Hs Ha Hr Hb]. rewrite flat_bytes_length in Hr. split; [done|done| |].
  - rewrite length_map. lia.
  - intros i w Hw. rewrite list_lookup_fmap in Hw. destruct (ws !! i) as [x|] eqn:Hx; [|done].
    injection Hw as <-.
    assert (forall k b, (k < 4)%nat -> be_bytes x !! k = Some b ->
      m_mem a (m_pc a + 4 * Z.of_nat i + Z.of_nat k) = Some b) as H.
    { intros k b Hk E. rewrite <- (flat_bytes_at ws i) in E by done. rewrite <- (Hb _ _ E).
      f_equal. lia. }
    unfold word_at.
    pose proof (H 0%nat _ ltac:(lia) eq_refl) as H0. pose proof (H 1%nat _ ltac:(lia) eq_refl) as H1.
    pose proof (H 2%nat _ ltac:(lia) eq_refl) as H2. pose proof (H 3%nat _ ltac:(lia) eq_refl) as H3.
    change (Z.of_nat 0) with 0 in H0. change (Z.of_nat 1) with 1 in H1.
    change (Z.of_nat 2) with 2 in H2. change (Z.of_nat 3) with 3 in H3. rewrite Z.add_0_r in H0.
    rewrite H0, H1, H2, H3. cbn [mbind option_bind]. by rewrite be32_bytes, word_u32.
Qed.
