(* ===== verification/VlInstr.v ===== *)
(** From an instruction of registers and constants to what its bytes do in the architecture:
    selection, encoding and execution. *)
From S2P Require Import Prelude CInt ViMachine ViMem Mips MipsIsa VlObj VlOptab VlSym VlSpan VlAsm VlTables VlDemo VlLib VlEmit VlLook VlCode.

(** ** What an instruction means *)

(** The value of its source. *)
Definition source (a : Adr) (g : Z -> Z) : Z :=
  if a_type a =? D_REG then g (a_reg a) else u32 (a_offset a).

(** The value of its destination, of the registers before it. *)
Definition result (p : Prog) (g : Z -> Z) : Z :=
  match move_meaning (p_as p) (source (from p) g) with
  | Some v => v
  | None => val (p_as p) (source (from p) g) (g (middle p))
  end.

Definition opcode3 : list Z :=
  [AADD; AADDU; ASGT; ASGTU; AAND; AOR; AXOR; ASUBU; ANOR; ASLL; ASRL; ASRA].
Definition moves : list Z := [AMOVW; AMOVB; AMOVBU; AMOVH; AMOVHU].

(** Its source is a register or a constant, its destination the register [d]; beside a
    constant no operand is the register that the linker keeps for itself. *)
Record operands (p : Prog) (d : Z) : Prop := {
  op_as : In (p_as p) (opcode3 ++ moves);
  op_to : is_reg (to p) d;
  op_dest : 0 < d;
  op_from : (exists r, is_reg (from p) r)
            \/ (exists v, is_con (from p) v) /\ d <> REGTMP /\ middle p <> REGTMP;
  op_mid : p_reg p = NREG \/ 0 <= p_reg p < 32 }.

Definition source_class (a : Adr) : Z :=
  if a_type a =? D_REG then C_REG else consize_of (a_offset a).

(** ** The entries *)

(** The type of the entry for a source of class [c]. *)
Definition kind (a c : Z) : Z :=
  let zero := (c =? C_REG) || (c =? C_ZCON) in
  if a =? AMOVW then
    if zero then 1 else if c =? C_UCON then 24 else if c =? C_LCON then 19 else 3
  else if in_types a [AMOVB; AMOVH] then 12
  else if in_types a [AMOVBU; AMOVHU] then 13
  else if zero then if is_shift a then 9 else 2
  else if is_shift a then 16
  else if c =? C_UCON then 25
  else if c =? C_LCON then 23
  else if c =? (if is_logic a then C_ADDCON else C_ANDCON) then 10
  else 4.

Definition size_of (t : Z) : Z :=
  if in_types t [10; 12; 19; 25] then 8 else if t =? 23 then 12 else 4.

Definition source_classes : list Z := [C_REG; C_ZCON; C_SCON; C_ADDCON; C_ANDCON; C_UCON; C_LCON].

(** A constant class other than zero is for moves of words and for arithmetic and logic, a
    small one also for shifts. *)
Definition takes (a c : Z) : bool :=
  (c =? C_REG) || (c =? C_ZCON) || (a =? AMOVW) || is_arith a || is_logic a
  || is_shift a && (c =? C_SCON).

Definition entry_fits (a c : Z) (o : Optab) : bool :=
  (o_type o =? kind a c) && (o_size o =? size_of (kind a c)) && takes a c
  && (if o_type o =? 3 then (o_param o =? 0) && eqb (o_a1 o =? C_ANDCON) (c =? C_ANDCON) else true).

Definition entries_fit : bool :=
  forallb (fun a => forallb (fun c => forallb (fun a2 =>
    match find (accepts c a2 C_REG) (entries a) with Some o => entry_fits a c o | None => true end)
    [C_NONE; C_REG]) source_classes) (opcode3 ++ moves).

Lemma entries_fit_true : entries_fit = true.
Proof. vm_cast_no_check (eq_refl true). Qed.

Lemma selected_fits p c o :
  In (p_as p) (opcode3 ++ moves) -> In c source_classes ->
  find (accepts c (a2_of p) C_REG) (entries (p_as p)) = Some o ->
  o_type o = kind (p_as p) c /\ o_size o = size_of (kind (p_as p) c) /\ takes (p_as p) c = true
  /\ (o_type o = 3 -> o_param o = 0 /\ (o_a1 o =? C_ANDCON) = (c =? C_ANDCON)).
Proof.
  intros Ha Hc Hf. pose proof entries_fit_true as H. unfold entries_fit in H.
  rewrite forallb_forall in H. specialize (H _ Ha). cbv beta in H.
  rewrite forallb_forall in H. specialize (H _ Hc). cbv beta in H.
  rewrite forallb_forall in H. specialize (H (a2_of p)). cbv beta in H. rewrite Hf in H.
  assert (entry_fits (p_as p) c o = true) as E
    by (apply H; unfold a2_of; case_match; [by left|right; by left]).
  unfold entry_fits in E. rewrite !andb_true_iff, !Z.eqb_eq in E.
  destruct E as [[[E1 E2] E3] E4]. split_and!; try done. intros E5.
  rewrite E5 in E4. simpl in E4. rewrite andb_true_iff, Z.eqb_eq, eqb_true_iff in E4. done.
Qed.

(** ** The words of the instruction *)

(** What the class says of a constant. *)
Lemma consize_spec v :
  let c := consize_of v in
  In c source_classes /\ c <> C_REG /\ (c = C_ZCON -> v = 0)
  /\ (c = C_SCON -> 0 <= v < 2 ^ 15) /\ (c = C_ADDCON -> - 2 ^ 15 <= v < 0)
  /\ (c = C_ANDCON -> 0 <= v < 2 ^ 16) /\ (c = C_UCON -> Z.land v 0xffff = 0).
Proof.
  unfold consize_of, source_classes. repeat case_match; simpl;
    rewrite ?Z.ltb_lt, ?Z.ltb_ge, ?Z.leb_le, ?Z.leb_gt, ?Z.eqb_eq in *;
    split_and!; try tauto; try (intros E; discriminate E); intros _; lia.
Qed.

Lemma source_class_In p d : operands p d -> In (source_class (from p)) source_classes.
Proof.
  intros [_ _ _ Hf _]. unfold source_class. destruct Hf as [(r & Ht & _)|((v & Ht & _) & _)]; rewrite Ht.
  - by left.
  - apply consize_spec.
Qed.

Lemma makes_ext pid p o d v v' :
  (forall g, words g -> v g = v' g) -> makes pid p o d v -> makes pid p o d v'.
Proof.
  intros H Hm s. destruct (Hm s) as (ws & s' & H1 & H2). exists ws, s'. split; [done|].
  intros g Hg. destruct (H2 g Hg) as (g' & H3 & H4 & H5). exists g'. split_and!; [done| |done].
  rewrite H4. by apply H.
Qed.

Section Instr.
Context (pid : Z) (p : Prog) (o : Optab) (d : Z) (Hp : operands p d).
Let c : Z := source_class (from p).
Context (Ht : o_type o = kind (p_as p) c) (Htk : takes (p_as p) c = true)
  (H3 : o_type o = 3 -> o_param o = 0 /\ (o_a1 o =? C_ANDCON) = (c =? C_ANDCON)).

Lemma dest_range : 0 < d < 32.
Proof. destruct Hp as [_ (_ & _ & ?) ? _ _]. lia. Qed.

Lemma dest_reg : is_reg (to p) d.
Proof. apply Hp. Qed.

Lemma middle_range : 0 <= middle p < 32.
Proof.
  destruct Hp as [_ (_ & E & ?) _ _ Hm]. unfold middle, or_to. rewrite E.
  destruct (Z.eqb_spec (p_reg p) NREG); [lia|]. by destruct Hm.
Qed.

(** A source that the register field of the word holds. *)
Lemma source_zero :
  (c =? C_REG) || (c =? C_ZCON) = true ->
  forall g, words g -> g (source_field p) = source (from p) g.
Proof.
  unfold source, source_field, c, source_class. destruct Hp as [_ _ _ Hf _].
  destruct Hf as [(r & Hr & <- & ?)|((v & Hr & _ & <- & Hn & _) & _)]; rewrite Hr; intros Hc g [_ H0].
  - simpl. by rewrite land_reg.
  - simpl in *. destruct (consize_spec (a_offset (from p))) as (_ & Hc1 & Hz & _). cbv zeta in *.
    rewrite Hn. change (Z.land NREG 31) with 0. rewrite H0, Hz; [done|].
    rewrite orb_true_iff, !Z.eqb_eq in Hc. tauto.
Qed.

(** Otherwise it is a constant, and the register the linker keeps is free. *)
Lemma source_con :
  (c =? C_REG) || (c =? C_ZCON) = false ->
  exists v, is_con (from p) v /\ c = consize_of v /\ d <> REGTMP /\ middle p <> REGTMP
    /\ forall g, source (from p) g = u32 v.
Proof.
  unfold source, c, source_class. destruct Hp as [_ _ _ Hf _].
  destruct Hf as [(r & Hr & _)|((v & Hv) & ? & ?)]; [by rewrite Hr|].
  intros _. exists v. pose proof Hv as (Hr & _ & E & _). rewrite Hr, E. by split_and!.
Qed.

Lemma word_makes :
  p_as p = AMOVW -> makes pid p o d (source (from p)).
Proof.
  intros Ha. pose proof Ht as Hk. rewrite Ha in Hk. unfold kind in Hk. simpl in Hk.
  pose proof dest_range as Hd. pose proof dest_reg as Hto.
  destruct ((c =? C_REG) || (c =? C_ZCON)) eqn:Hz.
  - apply (makes_ext _ _ _ _ (fun g => g (source_field p))); [by apply source_zero|].
    by apply type_1.
  - destruct (source_con Hz) as (v & Hv & Hc & _ & _ & Hs).
    apply (makes_ext _ _ _ _ (fun _ => u32 v)); [done|].
    destruct (consize_spec v) as (Hin & Hnr & H0 & Hsc & Hac & Han & Hu).
    cbv zeta in *. rewrite <- Hc in *.
    destruct (Z.eqb_spec c C_UCON); [by apply type_24; auto|].
    destruct (Z.eqb_spec c C_LCON); [by apply type_19|].
    destruct (H3 Hk) as [Hpm Ha1]. apply type_3; try done. rewrite Ha1.
    apply orb_false_iff in Hz as [Hz1 Hz2]. apply Z.eqb_neq in Hz1, Hz2.
    destruct (Z.eqb_spec c C_ANDCON); [auto|].
    unfold source_classes in Hin.
    repeat (destruct Hin as [E|Hin]; [try congruence|]); [| |contradiction].
    + specialize (Hsc (eq_sym E)). lia.
    + specialize (Hac (eq_sym E)). lia.
Qed.

(** A move of a part of a word takes no constant but zero. *)
Lemma part_zero :
  In (p_as p) [AMOVB; AMOVBU; AMOVH; AMOVHU] -> (c =? C_REG) || (c =? C_ZCON) = true.
Proof.
  intros Ha. pose proof Htk as H. unfold takes in H.
  destruct ((c =? C_REG) || (c =? C_ZCON)); [done|]. simpl in H.
  repeat (destruct Ha as [Ha|Ha]; [rewrite <- Ha in H; by simpl in H|]). destruct Ha.
Qed.

Lemma part_makes :
  In (p_as p) [AMOVB; AMOVBU; AMOVH; AMOVHU] -> makes pid p o d (result p).
Proof.
  intros Ha. pose proof dest_range as Hd. pose proof dest_reg as Hto.
  pose proof (source_zero (part_zero Ha)) as Hz. pose proof Ht as Hk. unfold kind in Hk.
  repeat (destruct Ha as [Ha|Ha]; [rewrite <- Ha in Hk; simpl in Hk|]); [..|destruct Ha];
    [eapply makes_ext; [|by apply (type_12 pid p o d Hd Hto 24); [|rewrite <- Ha]]
    |eapply makes_ext; [|by apply (type_13 pid p o d Hd Hto 8); [|rewrite <- Ha]]
    |eapply makes_ext; [|by apply (type_12 pid p o d Hd Hto 16); [|rewrite <- Ha]]
    |eapply makes_ext; [|by apply (type_13 pid p o d Hd Hto 16); [|rewrite <- Ha]]];
    intros g Hg; cbv beta; rewrite (Hz g Hg); unfold result; rewrite <- Ha; reflexivity.
Qed.

Lemma three_makes :
  In (p_as p) opcode3 ->
  makes pid p o d (fun g => val (p_as p) (source (from p) g) (g (middle p))).
Proof.
  intros Ha. pose proof dest_range as Hd. pose proof dest_reg as Hto. pose proof middle_range as Hy.
  assert (op3 (p_as p)) as Hop by
    (repeat (destruct Ha as [<-|Ha]; [by eexists|]); destruct Ha).
  assert (o_type o = if (c =? C_REG) || (c =? C_ZCON) then if is_shift (p_as p) then 9 else 2
          else if is_shift (p_as p) then 16 else if c =? C_UCON then 25 else if c =? C_LCON then 23
          else if c =? (if is_logic (p_as p) then C_ADDCON else C_ANDCON) then 10 else 4) as Hk.
  { rewrite Ht. unfold kind. repeat (destruct Ha as [<-|Ha]; [reflexivity|]). destruct Ha. }
  destruct ((c =? C_REG) || (c =? C_ZCON)) eqn:Hz.
  - eapply makes_ext; [|by apply (type_2_9 pid p o d Hd Hto (middle p))].
    intros g Hg. cbv beta. fold (source_field p). by rewrite (source_zero Hz g Hg).
  - destruct (source_con Hz) as (v & Hv & Hc & Hdt & Hyt & Hs).
    apply (makes_ext _ _ _ _ (fun g => val (p_as p) (u32 v) (g (middle p)))); [intros; by rewrite Hs|].
    destruct (is_shift (p_as p)) eqn:Hsh; [by apply type_16|].
    destruct (consize_spec v) as (Hin & Hnr & H0 & Hsc & Hac & Han & Hu). cbv zeta in *.
    rewrite <- Hc in *.
    destruct (Z.eqb_spec c C_UCON); [by apply type_25; auto|].
    destruct (Z.eqb_spec c C_LCON); [by apply type_23|].
    pose proof Htk as Hal. unfold takes in Hal. rewrite Hz, Hsh in Hal. simpl in Hal.
    assert ((p_as p =? AMOVW) = false) as Hw by
      (repeat (destruct Ha as [<-|Ha]; [reflexivity|]); destruct Ha).
    rewrite Hw, orb_false_r in Hal. simpl in Hal.
    apply orb_false_iff in Hz as [_ Hz]. apply Z.eqb_neq in Hz.
    assert (c = C_SCON \/ c = C_ADDCON \/ c = C_ANDCON) as Hcs
      by (unfold source_classes in Hin; simpl in Hin; intuition congruence).
    destruct (Z.eqb_spec c (if is_logic (p_as p) then C_ADDCON else C_ANDCON)) as [E|E].
    + apply type_10; try done. destruct Hcs as [E1|[E1|E1]];
        [specialize (Hsc E1)|specialize (Hac E1)|specialize (Han E1)]; lia.
    + apply type_4; try done. unfold fits16.
      destruct (is_logic (p_as p)); destruct Hcs as [E1|[E1|E1]]; try congruence;
        [specialize (Hsc E1)|specialize (Han E1)|specialize (Hsc E1)|specialize (Hac E1)]; lia.
Qed.

Lemma instr_makes : makes pid p o d (result p).
Proof.
  destruct Hp as [Ha _ _ _ _]. apply in_app_iff in Ha as [Ha|Ha].
  - eapply makes_ext; [|by apply three_makes]. intros g _. unfold result.
    by repeat (destruct Ha as [<-|Ha]; [reflexivity|]).
  - destruct Ha as [Ha|Ha]; [|by apply part_makes].
    eapply makes_ext; [|by apply word_makes]. intros g _. unfold result. by rewrite <- Ha.
Qed.
End Instr.

(** ** Selection, output and execution *)

Lemma source_classify pid p d s :
  operands p d -> progs s !! pid = Some p -> a_class (from p) = 0 -> a_class (to p) = 0 ->
  exists s2, classified pid s (source_class (from p)) C_REG s2.
Proof.
  intros [_ Hto _ Hf _] Hp Hc1 Hc3.
  assert (exists s0, aclass (from p) s = LOk (source_class (from p)) s0 /\ quiet s s0)
    as (s0 & H0 & Hq).
  { assert (exists s0, aclass (from p) s = LOk (source_class (from p)) s0) as [s0 H0].
    { unfold source_class. destruct Hf as [(r & Hr)|((v & Hv) & _)].
      - pose proof Hr as (E & _). rewrite E. exists s. by apply (aclass_reg _ r).
      - pose proof Hv as (E & _ & E' & _). rewrite E, E'. eexists. by apply aclass_con. }
    exists s0. split; [done|]. by eapply aclass_quiet. }
  eexists _, _. split.
  - unfold class_from. rewrite (bind_run _ _ _ _ _ (getp_run _ _ _ Hp)), Hc1, Z.eqb_refl.
    rewrite (bind_run _ _ _ _ _ H0). unfold updp, mbind, L_bind.
    rewrite (quiet_progs _ _ Hq), Hp. reflexivity.
  - unfold class_to. erewrite bind_run by (apply getp_run; simpl; apply lookup_insert_eq).
    cbn [to pset_from]. rewrite Hc3, Z.eqb_refl.
    erewrite bind_run by (apply (aclass_reg _ d); exact Hto).
    unfold updp, mbind, L_bind. simpl. rewrite lookup_insert_eq. reflexivity.
Qed.

(** The caches are not looked at. *)
Lemma operands_code p q d :
  code p = code q -> operands p d ->
  operands q d /\ result q = result p /\ source_class (from q) = source_class (from p).
Proof.
  intros H. destruct p as [[fo fs ft fr fn fc] [xo xs xt xr xn xc] c l w m r k pc a re].
  destruct q as [[fo' fs' ft' fr' fn' fc'] [xo' xs' xt' xr' xn' xc'] c' l' w' m' r' k' pc' a' re'].
  injection H as ->. simplify_eq. intros [? ? ? ? ?]. split; [by split|]. by split.
Qed.

Definition words_fit (a c : Z) : bool :=
  let k := kind a c in
  bool_decide ((k, size_of k) ∈ word_shapes)
  && (Z.of_nat (nwords (mkOptab 0 0 0 0 k (size_of k) 0)) * 4 =? size_of k).

Lemma kinds_fit :
  forallb (fun a => forallb (words_fit a) source_classes) (opcode3 ++ moves) = true.
Proof. vm_cast_no_check (eq_refl true). Qed.

Lemma kind_fits a c :
  In a (opcode3 ++ moves) -> In c source_classes ->
  (kind a c, size_of (kind a c)) ∈ word_shapes
  /\ 4 * Z.of_nat (nwords (mkOptab 0 0 0 0 (kind a c) (size_of (kind a c)) 0)) = size_of (kind a c).
Proof.
  intros Ha Hc. pose proof kinds_fit as H. rewrite forallb_forall in H. specialize (H a Ha).
  cbv beta in H. rewrite forallb_forall in H. specialize (H c Hc). unfold words_fit in H.
  rewrite andb_true_iff, bool_decide_eq_true, Z.eqb_eq in H. destruct H. split; [done|lia].
Qed.

(** The machine after [n] words that set [d], and nothing else a program may use. *)
Definition set_by (a : mips) (n : nat) (d v : Z) (a' : mips) : Prop :=
  exists g, a' = passed a n g /\ g d = v
    /\ forall i, 0 < i < 32 -> i <> d -> i <> REGTMP -> g i = m_r a i.

(** What [asmout] writes for the instruction sets its destination. *)
Lemma instr_emits f pid p d o t :
  progs t !! pid = Some p -> operands p d -> little t = false ->
  find (accepts (source_class (from p)) (a2_of p) C_REG) (entries (p_as p)) = Some o ->
  exists ws t', asmout (S f) pid o false t = LOk 0 t' /\ steady t t'
    /\ output t' = output t ++ flat_map (word_bytes false) ws
    /\ 4 * Z.of_nat (length ws) = o_size o /\ does ws d (result p).
Proof.
  intros Hp Hop Hle Hf. pose proof (op_as _ _ Hop) as Ha. pose proof (source_class_In _ _ Hop) as Hc.
  destruct (selected_fits _ _ _ Ha Hc Hf) as (Ht & Hs & Htk & H3).
  destruct (kind_fits _ _ Ha Hc) as [Hsh Hn]. rewrite <- Hs, <- Ht in Hsh, Hn.
  destruct (instr_makes pid p o d Hop Ht Htk H3 t) as (ws & t1 & Hw & Hd).
  pose proof (asm_words_yields pid p o Hsh t ws t1 Hw) as Hl.
  assert (length ws = nwords (mkOptab 0 0 0 0 (o_type o) (o_size o) 0)) as Hl' by exact Hl.
  destruct (asmout_plain f pid p o t ws t1 Hp Hsh Hw) as (t' & Hr & Hst & Hout).
  destruct (shape_facts o Hsh) as (_ & _ & Hsz & Hdiv).
  assert (Z.to_nat (o_size o / 4) = length ws) as Hlen by lia.
  rewrite words_of_take in Hout by (done || lia). rewrite Hle in Hout.
  exists ws, t'. split_and!; try done; [|lia]. rewrite Hout. do 2 f_equal. apply take_ge. lia.
Qed.


