(* ===== verification/VlPass.v ===== *)
(** [pass.c]: the targets of the branches ([patch], [mkfwd], [brloop]) and the order of the
    instructions ([follow], [xfol]). *)
From S2P Require Import Prelude CInt VlObj VlSym.

(** [a = p->as; if(a == ATEXT) curtext = p;] *)
Definition note_text (pid : Z) (p : Prog) : L unit :=
  if p_as p =? ATEXT then lmodify (lset_curtext (Some pid)) else lskip.

Definition marked (m : Z) (p : Prog) : bool := negb (Z.land (p_mark p) m =? 0).

(** The node a pointer points to. *)
Definition getpo (p : option Z) : L Prog :=
  match p with Some p => getp p | None => lfault end.

(** ** mkfwd *)

Definition LOG : Z := 5.

(** [cnt[i] = LOG * cnt[i-1]] *)
Fixpoint mkfwd_cnt (n : nat) (c : Z) : list Z :=
  match n with O => [] | S n => c :: mkfwd_cnt n (LOG * c) end.

Fixpoint mkfwd_loop (fuel : nat) (p : option Z) (i : Z) (dwn : list Z) (lst : list (option Z)) : L unit :=
  match p with
  | None => lskip
  | Some pid =>
      match fuel with
      | O => ldiverge
      | S f =>
          x ← getp pid;
          note_text pid x;;
          let i := if i - 1 <? 0 then LOG - 1 else i - 1 in
          let k := Z.to_nat i in
          updp pid (pset_forwd None);;
          let d := default 0 (dwn !! k) - 1 in
          if d <=? 0 then
            (match default None (lst !! k) with
             | Some q => updp q (pset_forwd (Some pid))
             | None => lskip
             end);;
            x ← getp pid;
            mkfwd_loop f (link x) i
              (<[k := default 0 (mkfwd_cnt (Z.to_nat LOG) 1 !! k)]> dwn) (<[k := Some pid]> lst)
          else
            x ← getp pid;
            mkfwd_loop f (link x) i (<[k := d]> dwn) lst
      end
  end.

Definition mkfwd (fuel : nat) : L unit :=
  p ← lgets firstp;
  mkfwd_loop fuel p 0 (replicate (Z.to_nat LOG) 1) (replicate (Z.to_nat LOG) None).

(** ** brloop *)

(** [q <= p]: the null pointer is below every instruction, and instructions are allocated
    at increasing addresses. *)
Definition ptr_le (q : option Z) (p : Z) : bool :=
  match q with None => true | Some q => q <=? p end.

Fixpoint brloop (fuel : nat) (c : Z) (p : option Z) : L (option Z) :=
  match p with
  | None => mret None
  | Some pid =>
      match fuel with
      | O => ldiverge
      | S f =>
          x ← getp pid;
          if negb (p_as x =? AJMP) || marked NOSCHED x then mret (Some pid)
          else
            let q := cond x in
            if ptr_le q pid then
              if bool_decide (q = Some pid) || (5000 <? c + 1) then mret None
              else brloop f (c + 1) q
            else brloop f c q
      end
  end.

(** ** patch *)

(** The search for the instruction of address [c]. *)
Fixpoint patch_find (fuel : nat) (c : Z) (q : option Z) : L (option Z) :=
  match q with
  | None => mret None
  | Some qid =>
      match fuel with
      | O => ldiverge
      | S f =>
          x ← getp qid;
          w ← (match forwd x with
               | Some w => y ← getp w; mret (if p_pc y <=? c then Some w else None)
               | None => mret None
               end);
          match w with
          | Some w => patch_find f c (Some w)
          | None => if c =? p_pc x then mret (Some qid) else patch_find f c (link x)
          end
      end
  end.

(** A call, jump or return to a symbol becomes a branch to its address. *)
Definition patch_sym (pid : Z) (vexit : Z) : L unit :=
  p ← getp pid;
  if ((p_as p =? AJAL) || (p_as p =? AJMP) || (p_as p =? ARET)) && negb (a_type (to p) =? D_BRANCH)
  then
    match a_sym (to p) with
    | None => lskip
    | Some y =>
        x ← getsym y;
        (if negb (s_type x =? STEXT) then
           diag "undefined: %s\n%P" [y; pid];;
           updsym y (fun x => sset_value vexit (sset_type STEXT x))
         else lskip);;
        x ← getsym y;
        updp pid (fun p => pset_to (aset_type D_BRANCH (aset_offset (s_value x) (to p))) p)
    end
  else lskip.

Definition patch_one (fuel : nat) (pid : Z) (vexit : Z) : L unit :=
  p ← getp pid;
  note_text pid p;;
  patch_sym pid vexit;;
  p ← getp pid;
  if negb (a_type (to p) =? D_BRANCH) then lskip
  else
    f ← lgets firstp;
    q ← patch_find fuel (a_offset (to p)) f;
    (if bool_decide (q = None) then
       diag "branch out of range %ld\n%P" [a_offset (to p); pid];;
       updp pid (fun p => pset_to (aset_type D_NONE (to p)) p)
     else lskip);;
    updp pid (pset_cond q).

Definition patch_loop (fuel : nat) (pid : Z) : L unit :=
  p ← getp pid;
  note_text pid p;;
  match cond p with
  | None => lskip
  | Some _ =>
      q ← brloop fuel 0 (cond p);
      updp pid (pset_cond q);;
      match q with
      | None => lskip
      | Some qid =>
          p ← getp pid;
          if a_type (to p) =? D_BRANCH then
            x ← getp qid;
            updp pid (fun p => pset_to (aset_offset (p_pc x) (to p)) p)
          else lskip
      end
  end.

(** [for(p = firstp; p != P; p = p->link)] *)
Fixpoint each_prog (fuel : nat) (f : Z -> L unit) (p : option Z) : L unit :=
  match p with
  | None => lskip
  | Some pid =>
      match fuel with
      | O => ldiverge
      | S n => f pid;; x ← getp pid; each_prog n f (link x)
      end
  end.

Definition name_exit : list Z := [101; 120; 105; 116].

(** [n] bounds the length of the program, [m] the number of jumps [brloop] follows. *)
Definition patch (n m : nat) : L unit :=
  mkfwd n;;
  y ← lookup name_exit 0;
  x ← getsym y;
  p ← lgets firstp;
  each_prog n (fun pid => patch_one n pid (s_value x)) p;;
  p ← lgets firstp;
  each_prog n (patch_loop m) p.

(** ** follow *)

Definition stops (a : Z) : bool := (a =? AJMP) || (a =? ARET) || (a =? ARFE).

Definition set_foll (pid : Z) : L unit := updp pid (fun p => pset_mark (Z.lor (p_mark p) FOLL) p).

(** [lastp->link = p; lastp = p;] *)
Definition place (pid : Z) : L unit :=
  l ← lgets lastp;
  match l with Some l => updp l (pset_link (Some pid)) | None => lfault end;;
  lmodify (lset_lastp (Some pid)).

(** The loop that looks, from [p], for a jump or a conditional branch that is worth a copy of
    the instructions up to it. *)
Fixpoint xfol_scan (fuel : nat) (i : Z) (q : option Z) : L (option Z) :=
  if 4 <=? i then mret None
  else match fuel with
  | O => ldiverge
  | S f =>
      l ← lgets lastp;
      if bool_decide (q = l) then mret None
      else
        x ← getpo q;
        if marked NOSCHED x then mret None
        else if p_as x =? ANOP then xfol_scan f i (link x)
        else if stops (p_as x) then mret q
        else match cond x with
        | None => xfol_scan f (i + 1) (link x)
        | Some t =>
            y ← getp t;
            if marked FOLL y then xfol_scan f (i + 1) (link x)
            else if negb (p_as x =? ABEQ) && negb (p_as x =? ABNE) then xfol_scan f (i + 1) (link x)
            else mret q
        end
  end.

(** Copies of the instructions from [p] up to [q] go to the end of the list; the result is
    the last one. *)
Fixpoint xfol_copy (fuel : nat) (p q : Z) : L Z :=
  match fuel with
  | O => ldiverge
  | S f =>
      r ← prg;
      x ← getp p;
      updp r (fun _ => x);;
      set_foll r;;
      if p =? q then place r;; mret r
      else
        x ← getp p;
        match link x with
        | None => lfault
        | Some p' => place r;; xfol_copy f p' q
        end
  end.

Section Xfol.
(** The recursive call. *)
Context (xfol : option Z -> L unit).

(** [p->mark |= FOLL; lastp->link = p; lastp = p; ...] *)
Definition xfol_place (pid a : Z) : L unit :=
  set_foll pid;;
  place pid;;
  x ← getp pid;
  if stops a then
    if marked NOSCHED x then xfol (link x) else lskip
  else
    match cond x, link x with
    | Some _, Some l =>
        if negb (a =? AJAL) then
          xfol (Some l);;
          x ← getp pid;
          match cond x with
          | None => lskip
          | Some t => y ← getp t; if marked FOLL y then lskip else xfol (Some t)
          end
        else xfol (Some l)
    | _, _ => xfol (link x)
    end.

(** The copies from [p] up to [q]. *)
Definition xfol_copies (pid qid : Z) : L unit :=
  n ← lgets nextp;
  x ← getp qid;
  let a := p_as x in
  r ← xfol_copy (Z.to_nat n) pid qid;
  if stops a then lskip
  else
    updp r (pset_as (if a =? ABNE then ABEQ else ABNE));;
    x ← getp qid;
    updp r (pset_cond (link x));;
    updp r (pset_link (cond x));;
    y ← getpo (cond x);
    if marked FOLL y then lskip else xfol (cond x).

(** A jump to an instruction that has its place. *)
Definition xfol_jump (pid : Z) : L unit :=
  q ← prg;
  x ← getp pid;
  updp q (fun j => pset_cond (Some pid)
    (pset_to (aset_offset (p_pc x) (aset_type D_BRANCH (to j)))
      (pset_line (p_line x) (pset_as AJMP j))));;
  xfol_place q AJMP.

(** [if(p->mark & FOLL)]; the list is no longer than the instructions there are. *)
Definition xfol_rest (pid a : Z) : L unit :=
  x ← getp pid;
  if marked FOLL x then
    n ← lgets nextp;
    r ← xfol_scan (Z.to_nat n) 0 (Some pid);
    match r with
    | Some qid => xfol_copies pid qid
    | None => xfol_jump pid
    end
  else xfol_place pid a.

Definition xfol_step (pid : Z) : L unit :=
  x ← getp pid;
  note_text pid x;;
  if p_as x =? AJMP then
    ns ← (match cond x with Some q => y ← getp q; mret (marked NOSCHED y) | None => mret false end);
    if marked NOSCHED x || ns then
      set_foll pid;;
      place pid;;
      y ← getp pid;
      xfol (link y);;
      match cond x with
      | None => lskip
      | Some q => y ← getp q; if marked FOLL y then lskip else xfol (Some q)
      end
    else
      match cond x with
      | None => xfol_rest pid AJMP
      | Some q =>
          set_foll pid;;
          y ← getp q;
          if marked FOLL y then xfol_rest q AJMP else xfol (Some q)
      end
  else xfol_rest pid (p_as x).
End Xfol.

(** [goto loop] and the recursive calls take one of the fuel. *)
Fixpoint xfol (fuel : nat) (p : option Z) : L unit :=
  match p with
  | None => lskip
  | Some pid => match fuel with O => ldiverge | S f => xfol_step (xfol f) pid end
  end.

Definition follow (fuel : nat) : L unit :=
  f ← prg;
  lmodify (lset_firstp (Some f));;
  lmodify (lset_lastp (Some f));;
  t ← lgets textp;
  xfol fuel t;;
  f ← lgets firstp;
  x ← getpo f;
  lmodify (lset_firstp (link x));;
  l ← lgets lastp;
  match l with Some l => updp l (pset_link None) | None => lfault end.
