(* ===== verification/VlPatch.v ===== *)
(** [patch]: every branch gets the instruction at its address, past the jumps it may lead to. *)
From S2P Require Import Prelude CInt VlObj VlSym VlWp VlSymThm VlPass.

(** Gives the state of a goal another form. *)
Ltac in_state s' := match goal with |- lwp _ _ _ ?s => change s with s' end.

(** ** mkfwd *)

(** An instruction without its pointer forward. *)
Definition core (p : Prog) : Prog := pset_forwd None p.

(** The pointers forward of [l] lead further on in [l]. *)
Definition fwd_inv (m : gmap Z Prog) (l : list Z) : Prop :=
  forall i q x w, l !! i = Some q -> m !! q = Some x -> forwd x = Some w ->
  exists j, (i < j)%nat /\ l !! j = Some w.

Definition lst_inv (lst : list (option Z)) (l : list Z) : Prop :=
  forall k q, lst !! k = Some (Some q) -> q ∈ l.

Lemma core_lookup (m m' : gmap Z Prog) (x : Z) p :
  core <$> m' = core <$> m -> m !! x = Some p -> exists p', m' !! x = Some p' /\ core p' = core p.
Proof.
  intros H Hp. pose proof (lookup_fmap core m' x) as E. rewrite H, lookup_fmap, Hp in E.
  destruct (m' !! x) as [p'|]; [|done]. exists p'. split; [done|]. by apply (inj Some) in E.
Qed.

Lemma core_insert (m : gmap Z Prog) (x : Z) p p' :
  m !! x = Some p -> core p' = core p -> core <$> <[x := p']> m = core <$> m.
Proof.
  intros Hp E. rewrite fmap_insert, E. apply insert_id. by rewrite lookup_fmap, Hp.
Qed.

Lemma linked_core (m m' : gmap Z Prog) p l : core <$> m' = core <$> m -> linked m p l -> linked m' p l.
Proof.
  intros Hc. revert p. induction l as [|x l IH]; intros p; [done|]. intros (-> & q & Hq & Hl).
  split; [done|]. destruct (core_lookup _ _ _ _ Hc Hq) as (q' & Hq' & E). exists q'. split; [done|].
  rewrite (f_equal link E : link q' = link q). by apply IH.
Qed.

Lemma fwd_inv_other (m : gmap Z Prog) l x p : x ∉ l -> fwd_inv m l -> fwd_inv (<[x := p]> m) l.
Proof.
  intros Hx H i q y w Hq. rewrite lookup_insert_ne; [by apply H|].
  intros ->. by apply Hx, (list_elem_of_lookup_2 _ i).
Qed.

(** The next instruction, with no pointer yet. *)
Lemma fwd_inv_snoc (m : gmap Z Prog) l x : fwd_inv m l -> (forall p, m !! x = Some p -> forwd p = None) ->
  fwd_inv m (l ++ [x]).
Proof.
  intros H Hx i q y w Hq Hy Hw. apply lookup_snoc_Some in Hq as [[Hi Hq]|[-> ->]].
  - destruct (H i q y w Hq Hy Hw) as (j & Hj & Hl). exists j. split; [done|].
    rewrite lookup_app_l; [done|]. by eapply lookup_lt_Some.
  - rewrite (Hx y Hy) in Hw. done.
Qed.

(** A pointer to it. *)
Lemma fwd_inv_point (m : gmap Z Prog) l x q p :
  q ∈ l -> m !! q = Some p -> fwd_inv m (l ++ [x]) -> x ∉ l ->
  fwd_inv (<[q := pset_forwd (Some x) p]> m) (l ++ [x]).
Proof.
  intros Hq Hp H Hx i y z w Hy. destruct (decide (y = q)) as [->|Hn].
  - rewrite lookup_insert_eq. intros [= <-] [= <-]. exists (length l). split.
    + apply lookup_snoc_Some in Hy as [[Hi _]|[_ ->]]; [done|done].
    + by rewrite list_lookup_middle.
  - rewrite lookup_insert_ne by done. by apply H.
Qed.

Lemma lst_inv_mono lst l x : lst_inv lst l -> lst_inv lst (l ++ [x]).
Proof. intros H k q Hk. apply elem_of_app. left. by eapply H. Qed.

Lemma lst_inv_insert lst l k x : lst_inv lst l -> lst_inv (<[k := Some x]> lst) (l ++ [x]).
Proof.
  intros H k' q Hk. apply elem_of_app. destruct (decide (k = k')) as [->|Hn].
  - apply list_lookup_insert_Some in Hk as [(_ & [= <-] & _)|(? & _)]; [right; by left|done].
  - rewrite list_lookup_insert_ne in Hk by done. left. by eapply H.
Qed.

Lemma mkfwd_loop_run n s ct m p i dwn lst l1 l2 :
  core <$> m = core <$> progs s -> linked m p l2 -> NoDup (l1 ++ l2) -> (length l2 <= n)%nat ->
  (forall x, x ∈ l1 -> is_Some (m !! x)) ->
  fwd_inv m l1 -> lst_inv lst l1 ->
  lwp noexit (mkfwd_loop n p i dwn lst)
    (fun _ s' => exists ct m, s' = lset_curtext ct (lset_progs m s) /\ core <$> m = core <$> progs s
       /\ fwd_inv m (l1 ++ l2)) (lset_curtext ct (lset_progs m s)).
Proof.
  revert ct m p i dwn lst l1 l2. induction n as [|n IH]; intros ct m p i dwn lst l1 l2 Hc Hl Hd Hn Hs Hf Hls.
  - destruct l2; [|simpl in Hn; lia]. simpl in Hl. subst p. rewrite app_nil_r. by exists ct, m.
  - destruct l2 as [|x l2].
    { simpl in Hl. subst p. rewrite app_nil_r. by exists ct, m. }
    destruct Hl as (-> & px & Hx & Hl). cbn [mkfwd_loop].
    apply (lwp_getp _ _ px); [done|].
    assert (x ∉ l1) as Hx1.
    { apply list.NoDup_app in Hd as (_ & Hd & _). intros H. apply (Hd x H). by left. }
    set (k := Z.to_nat _). clearbody k.
    apply (lwp_run _ _ _ _ _ tt (lset_curtext (if p_as px =? ATEXT then Some x else ct) (lset_progs m s)));
      [unfold note_text; by destruct (_ =? _)|].
    apply (lwp_updp _ _ px); [done|]. cbn zeta.
    set (m1 := <[x := pset_forwd None px]> m).
    assert (core <$> m1 = core <$> m) as Hc1 by by apply (core_insert _ _ px).
    assert (m1 !! x = Some (pset_forwd None px)) as Hx' by apply lookup_insert_eq.
    assert (fwd_inv m1 (l1 ++ [x])) as Hf1.
    { apply fwd_inv_snoc; [by apply fwd_inv_other|]. intros p Hp. rewrite Hx' in Hp.
      by injection Hp as <-. }
    assert (forall ct m2 dwn lst, core <$> m2 = core <$> m1 -> m2 !! x = Some (pset_forwd None px) ->
      fwd_inv m2 (l1 ++ [x]) -> lst_inv lst (l1 ++ [x]) ->
      lwp noexit (x0 ← getp x; mkfwd_loop n (link x0) (if i - 1 <? 0 then LOG - 1 else i - 1) dwn lst)
        (fun _ s' => exists ct m, s' = lset_curtext ct (lset_progs m s) /\ core <$> m = core <$> progs s
           /\ fwd_inv m (l1 ++ x :: l2)) (lset_curtext ct (lset_progs m2 s))) as Hgo.
    { intros ct' m2 dwn' lst' E2 H2 F2 L2. apply (lwp_getp _ _ (pset_forwd None px)); [exact H2|].
      replace (l1 ++ x :: l2) with ((l1 ++ [x]) ++ l2) by by rewrite <- app_assoc.
      apply IH; try done.
      - by rewrite E2, Hc1.
      - eapply linked_core; [|exact Hl]. by rewrite E2, Hc1.
      - by rewrite <- app_assoc.
      - simpl in Hn. lia.
      - intros y Hy. apply elem_of_app in Hy as [Hy|Hy].
        + destruct (Hs y Hy) as [py Hpy]. destruct (core_lookup m m2 y py) as (? & ? & _);
            [by rewrite E2, Hc1|done|by eexists].
        + apply list_elem_of_singleton in Hy as ->. by eexists. }
    set (ct1 := if p_as px =? ATEXT then Some x else ct).
    destruct (_ <=? 0).
    + destruct (default None (lst !! k)) as [q|] eqn:Eq.
      * assert (lst !! k = Some (Some q)) as Hk by (by destruct (lst !! k); simpl in Eq; subst).
        pose proof (Hls k q Hk) as Hq. destruct (Hs q Hq) as [pq Hpq].
        assert (q <> x) as Hqx by congruence.
        assert (m1 !! q = Some pq) as Hq1 by (unfold m1; by rewrite lookup_insert_ne).
        apply (lwp_updp _ _ pq); [exact Hq1|].
        in_state (lset_curtext ct1 (lset_progs (<[q := pset_forwd (Some x) pq]> m1) s)).
        apply Hgo.
        -- by apply (core_insert _ _ pq).
        -- by rewrite lookup_insert_ne.
        -- by apply fwd_inv_point.
        -- by apply lst_inv_insert.
      * apply lwp_skip. in_state (lset_curtext ct1 (lset_progs m1 s)).
        apply Hgo; try done. by apply lst_inv_insert.
    + in_state (lset_curtext ct1 (lset_progs m1 s)). apply Hgo; try done. by apply lst_inv_mono.
Qed.

Lemma mkfwd_run n s l :
  chained s (firstp s) l -> (length l <= n)%nat ->
  exists ct m, mkfwd n s = LOk tt (lset_curtext ct (lset_progs m s))
    /\ core <$> m = core <$> progs s /\ fwd_inv m l.
Proof.
  intros (Hl & Hd & _) Hn.
  assert (lwp noexit (mkfwd n) (fun _ s' => exists ct m, s' = lset_curtext ct (lset_progs m s)
    /\ core <$> m = core <$> progs s /\ fwd_inv m l) s) as H.
  { unfold mkfwd. apply lwp_get.
    replace s with (lset_curtext (curtext s) (lset_progs (progs s) s)) at 2 by by destruct s.
    apply (mkfwd_loop_run _ _ _ _ _ _ _ _ [] l); try done.
    - intros x Hx. by apply elem_of_nil in Hx.
    - intros k q Hk. apply lookup_replicate in Hk as [? _]. done. }
  unfold lwp in H. destruct (mkfwd n s) as [[] s'|s'| |]; [|done..].
  destruct H as (ct & m & -> & H). by exists ct, m.
Qed.

(** ** The instruction at an address *)

Definition at_pc (m : gmap Z Prog) (c x : Z) : bool :=
  match m !! x with Some p => p_pc p =? c | None => false end.

(** Addresses increase along the program. *)
Definition increasing (m : gmap Z Prog) (l : list Z) : Prop :=
  forall i j x y p q, (i < j)%nat -> l !! i = Some x -> l !! j = Some y ->
  m !! x = Some p -> m !! y = Some q -> p_pc p < p_pc q.

Lemma linked_drop m p l i j : (i <= j)%nat -> linked m p (drop i l) ->
  forall x, l !! j = Some x -> linked m (Some x) (drop j l).
Proof.
  revert p l j. induction i as [|i IH]; intros p l j Hij Hl x Hx.
  - rewrite drop_0 in Hl. clear Hij. revert p l Hl Hx. induction j as [|j IHj]; intros p l Hl Hx.
    + destruct l as [|y l]; [done|]. injection Hx as ->. destruct Hl as (-> & q & Hq & Hl).
      split; [done|]. by exists q.
    + destruct l as [|y l]; [done|]. destruct Hl as (-> & q & Hq & Hl). by apply (IHj (link q)).
  - destruct j as [|j]; [lia|]. destruct l as [|y l]; [done|]. cbn [drop] in *.
    apply (IH p l j); [lia|done|done].
Qed.

Lemma linked_here m p l i j x :
  (i <= j)%nat -> linked m p (drop i l) -> l !! j = Some x -> is_Some (m !! x).
Proof.
  intros Hij Hl Hx. pose proof (linked_drop m p l i j Hij Hl x Hx) as H.
  rewrite (drop_S _ _ _ Hx) in H. destruct H as (_ & q & Hq & _). by exists q.
Qed.

Lemma find_drop {A} (f : A -> bool) l i j :
  (i <= j)%nat -> (forall k y, (i <= k < j)%nat -> l !! k = Some y -> f y = false) ->
  List.find f (drop i l) = List.find f (drop j l).
Proof.
  intros Hij. induction Hij as [|j Hij IH]; intros H; [done|].
  rewrite IH by (intros k y Hk; apply H; lia). destruct (l !! j) as [y|] eqn:E.
  - rewrite (drop_S _ _ _ E). cbn [List.find]. by rewrite (H j y) by (lia || done).
  - apply lookup_ge_None in E. by rewrite !drop_ge by lia.
Qed.

Lemma patch_find_run n s l c i p :
  linked (progs s) p (drop i l) -> (length (drop i l) <= n)%nat ->
  fwd_inv (progs s) l -> increasing (progs s) l ->
  patch_find n c p s = LOk (List.find (at_pc (progs s) c) (drop i l)) s.
Proof.
  intros Hl Hn Hf Hi. revert i p Hl Hn. induction n as [|n IH]; intros i p Hl Hn.
  { destruct (drop i l); [|simpl in Hn; lia]. simpl in Hl. by subst p. }
  destruct (l !! i) as [x|] eqn:Hx.
  2:{ apply lookup_ge_None in Hx. rewrite drop_ge in * by done. simpl in Hl. by subst p. }
  pose proof (drop_S _ _ _ Hx) as Ed. rewrite Ed in Hl. destruct Hl as (-> & px & Hpx & Hl).
  cbn [patch_find]. unfold mbind at 1, L_bind at 1, getp at 1. rewrite Hpx.
  assert (at_pc (progs s) c x = (p_pc px =? c)) as Eat by (unfold at_pc; by rewrite Hpx).
  assert (forall w, w = None \/ (exists y j, w = Some y /\ (i < j)%nat /\ l !! j = Some y /\
      exists py, progs s !! y = Some py /\ p_pc py <= c) ->
    match w with
    | Some w => patch_find n c (Some w)
    | None => if c =? p_pc px then mret (Some x) else patch_find n c (link px)
    end s = LOk (List.find (at_pc (progs s) c) (drop i l)) s) as Hgo.
  { intros w [->|(y & j & -> & Hij & Hy & py & Hpy & Hc)].
    - rewrite Ed. cbn [List.find]. rewrite Eat, Z.eqb_sym. destruct (_ =? _); [done|].
      apply IH; [done|]. rewrite Ed in Hn. simpl in Hn. lia.
    - rewrite (find_drop _ l i j).
      + apply IH; [|rewrite length_drop in *; apply lookup_lt_Some in Hx; lia].
        apply (linked_drop (progs s) (Some x) l i j); [lia| |done].
        rewrite Ed. split; [done|]. by exists px.
      + lia.
      + intros k z Hk Hz. unfold at_pc. destruct (progs s !! z) as [pz|] eqn:Hpz; [|done].
        apply Z.eqb_neq. pose proof (Hi k j z y pz py ltac:(lia) Hz Hy Hpz Hpy). lia. }
  destruct (forwd px) as [w|] eqn:Ew.
  - destruct (Hf i x px w Hx Hpx Ew) as (j & Hj & Hw).
    destruct (linked_here (progs s) (Some x) l i j w) as [pw Hpw]; [lia| |done|].
    { rewrite Ed. split; [done|]. by exists px. }
    unfold mbind, L_bind, getp. rewrite Hpw.
    specialize (Hgo (if p_pc pw <=? c then Some w else None)).
    destruct (Z.leb_spec (p_pc pw) c); apply Hgo; [right|by left].
    exists w, j. split_and!; [done|done|done|]. by exists pw.
  - apply (Hgo None). by left.
Qed.

(** ** Jumps to jumps *)

(** [x] is a jump that [brloop] follows, to [q]. *)
Definition hops (m : gmap Z Prog) (x : Z) (q : option Z) : Prop :=
  exists p, m !! x = Some p /\ p_as p = AJMP /\ marked NOSCHED p = false /\ cond p = q.

Definition ends (m : gmap Z Prog) (x : Z) : Prop :=
  exists p, m !! x = Some p /\ (p_as p <> AJMP \/ marked NOSCHED p = true).

(** From [x] jumps lead to [y], [n] of them backward. *)
Inductive leads (m : gmap Z Prog) : Z -> Z -> Z -> Prop :=
  | leads_end x : ends m x -> leads m 0 x x
  | leads_hop n x q y :
      hops m x (Some q) -> leads m n q y -> leads m (n + if q <=? x then 1 else 0) x y.

Lemma hops_ends m x q : hops m x q -> ends m x -> False.
Proof. intros (p & Hp & Ha & Hm & _) (p' & Hp' & [?|?]); simplify_eq. congruence. Qed.

Lemma leads_range m n x y : leads m n x y -> 0 <= n /\ (n = 0 -> x <= y).
Proof.
  induction 1 as [|n x q y Hh Hl [IH1 IH2]]; [lia|].
  destruct (Z.leb_spec q x); [lia|]. split; [lia|]. intros. specialize (IH2 ltac:(lia)). lia.
Qed.

Lemma leads_hop_back m n x q y : hops m x (Some q) -> leads m n x y -> y <= x -> 1 <= n.
Proof.
  intros Hh Hl Hy. inversion Hl as [z He|k z q' w Hh' Hl']; subst.
  - destruct (hops_ends _ _ _ Hh He).
  - apply leads_range in Hl' as [H1 H2]. destruct (Z.leb_spec q' x); [lia|].
    destruct (Z.eq_dec k 0) as [->|]; [specialize (H2 eq_refl)|]; lia.
Qed.

Lemma leads_ends m n x y : leads m n x y -> ends m y.
Proof. by induction 1. Qed.

Lemma leads_self m n x y : hops m x (Some x) -> leads m n x y -> False.
Proof.
  intros Hh Hl. remember x as z eqn:Ez in Hl. revert Ez.
  induction Hl as [z He|k z q w Hh' Hl' IH]; intros ->; [by eapply hops_ends|].
  destruct Hh as (p & Hp & _ & _ & Hc), Hh' as (p' & Hp' & _ & _ & Hc').
  rewrite Hp in Hp'. injection Hp' as <-. apply IH. congruence.
Qed.

Lemma leads_det m n x y n' y' : leads m n x y -> leads m n' x y' -> n = n' /\ y = y'.
Proof.
  intros Hl. revert n' y'. induction Hl as [x He|n x q y Hh Hl IH]; intros n' y' H.
  - inversion H; subst; [done|]. exfalso. by eapply hops_ends.
  - inversion H as [z He|k z q' w Hh' Hl']; subst; [exfalso; by eapply hops_ends|].
    assert (q' = q) as -> by (destruct Hh as (? & ? & _ & _ & ?), Hh' as (? & ? & _ & _ & ?); congruence).
    by destruct (IH _ _ Hl') as [-> ->].
Qed.

(** What is left of a chain of jumps: its end, or nothing where there is none near enough. *)
Definition ended (m : gmap Z Prog) (c : Z) (q r : option Z) : Prop :=
  match q, r with
  | None, _ => r = None
  | Some q, Some y => exists n, leads m n q y
  | Some q, None => forall n y, leads m n q y -> 5000 < c + n
  end.

(** [m] is [m0] with some chains of jumps cut short. *)
Definition shortcut (m0 m : gmap Z Prog) : Prop :=
  forall x p0, m0 !! x = Some p0 -> exists p, m !! x = Some p
    /\ p_as p = p_as p0 /\ p_mark p = p_mark p0
    /\ (cond p = cond p0 \/ ended m0 0 (cond p0) (cond p)).

(** The jumps of [l] stay in [l]. *)
Definition conds_in (m : gmap Z Prog) (l : list Z) (K : Z) : Prop :=
  forall x, x ∈ l -> 0 <= x < K /\ exists p, m !! x = Some p /\ forall q, cond p = Some q -> q ∈ l.

Lemma leads_in m l K n x y : conds_in m l K -> leads m n x y -> x ∈ l -> y ∈ l.
Proof.
  intros Hc. induction 1 as [|n x q y (p & Hp & _ & _ & E) Hl IH]; intros Hx; [done|].
  apply IH. destruct (Hc x Hx) as (_ & p' & Hp' & H). simplify_eq. by apply H.
Qed.

(** [brloop] follows the chain. *)
Lemma brloop_run m0 l K f c q s :
  shortcut m0 (progs s) -> conds_in m0 l K -> 0 <= c <= 5000 ->
  (forall x, q = Some x -> x ∈ l /\ (5001 - c) * K + K - x < Z.of_nat f) ->
  exists r, brloop f c q s = LOk r s /\ ended m0 c q r.
Proof.
  intros Hs Hl. revert c q. induction f as [|f IH]; intros c q Hc Hq.
  { destruct q as [x|]; [|by exists None]. destruct (Hq x eq_refl) as [Hx Hf].
    destruct (Hl x Hx) as [Hr _]. nia. }
  destruct q as [x|]; [|by exists None]. destruct (Hq x eq_refl) as [Hx Hf].
  destruct (Hl x Hx) as (Hr & p0 & Hp0 & Hcd). destruct (Hs x p0 Hp0) as (p & Hp & Ea & Em & Hsc).
  cbn [brloop]. unfold mbind, L_bind, getp. rewrite Hp.
  assert (marked NOSCHED p = marked NOSCHED p0) as Emk by (unfold marked; by rewrite Em).
  rewrite Ea, Emk. destruct (negb (p_as p0 =? AJMP) || marked NOSCHED p0) eqn:Eb.
  { exists (Some x). split; [done|]. exists 0. constructor. exists p0. split; [done|].
    rewrite orb_true_iff, negb_true_iff, Z.eqb_neq in Eb. tauto. }
  rewrite orb_false_iff, negb_false_iff, Z.eqb_eq in Eb. destruct Eb as [Ej Enm].
  assert (hops m0 x (cond p0)) as Hh by by exists p0.
  assert (forall q, cond p0 = Some q -> forall n y, leads m0 n x y ->
    exists n', leads m0 n' q y /\ n = n' + if q <=? x then 1 else 0) as Hinv.
  { intros q E n y Hn. inversion Hn as [z He|k z q' w Hh' Hl']; subst.
    - destruct (hops_ends _ _ _ Hh He).
    - destruct Hh' as (p' & Hp' & _ & _ & E'). simplify_eq. exists k. split; [done|].
      congruence. }
  destruct (cond p) as [z|] eqn:Ez.
  2:{ (* a null pointer ends the search *)
    exists None. split.
    - cbn [ptr_le]. rewrite bool_decide_false by done. cbn [orb]. by destruct (5000 <? c + 1), f.
    - intros n y Hn. destruct (cond p0) as [q|] eqn:E0.
      + destruct (Hinv q eq_refl n y Hn) as (n' & Hn' & ->). destruct Hsc as [?|Hsc]; [done|].
        specialize (Hsc n' y Hn'). case_match; lia.
      + inversion Hn as [? He|? ? ? ? Hh' ?]; subst; [by destruct (hops_ends _ _ _ Hh He)|].
        destruct Hh' as (p' & Hp' & _ & _ & E'). congruence. }
  (* [z] is the next instruction, or the end of the chain *)
  assert (z ∈ l /\ (forall n y, leads m0 n z y -> exists n', leads m0 n' x y)
    /\ (forall n y, leads m0 n x y -> exists n', leads m0 n' z y /\ n' + (if z <=? x then 1 else 0) <= n)
    /\ z <> x \/ z = x /\ forall n y, ~ leads m0 n x y) as Hz.
  { destruct Hsc as [E|Hsc].
    - symmetry in E. destruct (Z.eq_dec z x) as [->|Hn].
      + right. split; [done|]. intros n y H. rewrite E in Hh. by eapply leads_self.
      + left. split_and!; [by apply Hcd| | |done].
        * intros n y H. eexists. eapply leads_hop; [|exact H]. by rewrite <- E.
        * intros n y H. destruct (Hinv z E n y H) as (n' & H' & ->). exists n'. split; [done|lia].
    - destruct (cond p0) as [q|] eqn:E0; [|done]. destruct Hsc as [n0 Hn0].
      pose proof (leads_ends _ _ _ _ Hn0) as He.
      assert (z <> x) as Hne by (intros ->; by eapply hops_ends).
      left. split_and!; [by apply (leads_in m0 l K n0 q); [|done|apply Hcd]| | |done].
      + intros n y H. destruct (leads_det _ _ _ _ _ _ H (leads_end _ _ He)) as [-> ->].
        eexists. by eapply leads_hop.
      + intros n y H. destruct (Hinv q eq_refl n y H) as (n' & H' & ->).
        destruct (leads_det _ _ _ _ _ _ H' Hn0) as [-> ->]. exists 0. split; [by constructor|].
        pose proof (leads_hop m0 _ x q z Hh H') as Hx0. pose proof (leads_range _ _ _ _ Hx0).
        destruct (Z.leb_spec z x); [|lia]. by pose proof (leads_hop_back _ _ _ _ _ Hh Hx0 ltac:(lia)). }
  destruct Hz as [(Hzl & Hz1 & Hz2 & Hne)|[-> Hz]].
  - assert (forall c', 0 <= c' <= 5000 -> (5001 - c') * K + K - z < Z.of_nat f ->
      (forall n y, leads m0 n z y -> 5000 < c' + n -> 5000 < c + (n + if z <=? x then 1 else 0)) ->
      exists r, brloop f c' (Some z) s = LOk r s /\ ended m0 c (Some x) r) as Hgo.
    { intros c' Hc' Hf' Hle. destruct (IH c' (Some z) Hc') as (r & Hr' & He).
      { intros w [= <-]. by split. }
      exists r. split; [done|]. destruct r as [y|]; simpl in *.
      - destruct He as [n Hn]. by eapply Hz1.
      - intros n y Hn. destruct (Hz2 n y Hn) as (n' & Hn' & Hle'). specialize (Hle n' y Hn' (He n' y Hn')).
        lia. }
    cbn [ptr_le]. destruct (Hl z Hzl) as [Hzr _]. destruct (Z.leb_spec z x).
    + rewrite bool_decide_false by congruence. cbn [orb]. destruct (Z.ltb_spec 5000 (c + 1)).
      * exists None. split; [done|]. intros n y Hn. destruct (Hz2 n y Hn) as (n' & Hn' & ?).
        apply leads_range in Hn' as [? _]. lia.
      * apply Hgo; [lia|nia|]. intros. lia.
    + apply Hgo; [lia|nia|]. intros. lia.
  - exists None. split; [|by intros n y Hn; destruct (Hz n y)].
    cbn [ptr_le]. rewrite (proj2 (Z.leb_le x x)) by lia. by rewrite bool_decide_true.
Qed.

(** ** The loops of [patch] *)

Lemma linked_at m p l d x r :
  linked m p l -> l = d ++ x :: r -> exists px, m !! x = Some px /\ link px = head r.
Proof.
  revert p l. induction d as [|y d IH]; intros p l Hl ->.
  - destruct Hl as (_ & q & Hq & Hl). exists q. split; [done|]. destruct r; [done|apply Hl].
  - destruct Hl as (_ & q & Hq & Hl). by apply (IH (link q) (d ++ x :: r)).
Qed.

(** A loop over the program: [f] takes the instructions in their order. *)
Lemma each_prog_run X n f s l (I : list Z -> vl -> Prop) :
  (length l <= n)%nat -> I [] s ->
  (forall d x r s1, l = d ++ x :: r -> I d s1 ->
     lwp X (f x) (fun _ s2 => I (d ++ [x]) s2
       /\ exists px, progs s2 !! x = Some px /\ link px = head r) s1) ->
  lwp X (each_prog n f (head l)) (fun _ s' => I l s') s.
Proof.
  intros Hn HI Hf.
  assert (forall n r d s1, l = d ++ r -> (length r <= n)%nat -> I d s1 ->
    lwp X (each_prog n f (head r)) (fun _ s' => I l s') s1) as H.
  { clear n Hn. induction n as [|n IH]; intros r d s1 El Hr Hd.
    - destruct r; [|simpl in Hr; lia]. rewrite app_nil_r in El. by subst.
    - destruct r as [|x r]; [rewrite app_nil_r in El; by subst|]. cbn [each_prog head].
      apply lwp_bind. eapply lwp_mono; [by apply Hf|]. intros [] s2 _ [H2 (px & Hpx & Hlx)].
      apply (lwp_getp _ _ px); [done|]. rewrite Hlx. apply (IH r (d ++ [x])); [|simpl in Hr; lia|done].
      by rewrite <- app_assoc. }
  by apply (H n l []).
Qed.

(** The value a symbol gives a jump: that of [exit] where it is no text. *)
Definition sym_addr (s : vl) (vexit y : Z) : Z :=
  match syms s !! y with
  | Some x => if s_type x =? STEXT then s_value x else vexit
  | None => 0
  end.

(** The address an instruction branches to. *)
Definition target (s : vl) (vexit : Z) (p : Prog) : option Z :=
  if a_type (to p) =? D_BRANCH then Some (a_offset (to p))
  else if (p_as p =? AJAL) || (p_as p =? AJMP) || (p_as p =? ARET)
  then y ← a_sym (to p); Some (sym_addr s vexit y)
  else None.

(** The instruction with its branch resolved: the instruction at its address, if there is
    one. *)
Definition branch_to (q : option Z) (c : Z) (p : Prog) : Prog :=
  pset_cond q
    (pset_to (aset_type (match q with Some _ => D_BRANCH | None => D_NONE end)
                (aset_offset c (to p))) p).

Definition resolved (s : vl) (vexit : Z) (l : list Z) (p : Prog) : Prog :=
  match target s vexit p with
  | Some c => branch_to (List.find (at_pc (progs s) c) l) c p
  | None => p
  end.

(** The part of the symbols that [patch] depends on. *)
Definition syms_as (s s' : vl) (vexit : Z) : Prop :=
  forall y, is_Some (syms s !! y) -> is_Some (syms s' !! y) /\ sym_addr s' vexit y = sym_addr s vexit y.

Definition errors : vl -> Prop := fun s => 10 < nerrors s.

Lemma syms_as_refl s s' v : syms s' = syms s -> syms_as s s' v.
Proof. intros E y Hy. unfold sym_addr. by rewrite E. Qed.

Lemma syms_as_trans s s1 s2 v : syms_as s s1 v -> syms_as s1 s2 v -> syms_as s s2 v.
Proof.
  intros H1 H2 y Hy. destruct (H1 y Hy) as [Hy1 E1]. destruct (H2 y Hy1) as [Hy2 E2].
  split; [done|congruence].
Qed.

Lemma note_text_run {A} X pid p (k : unit -> L A) Q s :
  (forall ct, lwp X (k tt) Q (lset_curtext ct s)) -> lwp X (x ← note_text pid p; k x) Q s.
Proof.
  intros H. unfold note_text. destruct (_ =? _); [by apply lwp_modify|].
  apply lwp_skip. specialize (H (curtext s)). by destruct s.
Qed.

Lemma branch_same p :
  a_type (to p) = D_BRANCH -> pset_to (aset_type D_BRANCH (aset_offset (a_offset (to p)) (to p))) p = p.
Proof. destruct p as [? [] ? ? ? ? ? ? ? ? ?]. simpl. by intros <-. Qed.

(** An undefined symbol takes the value it has for the jumps to it. *)
Lemma syms_as_update s s' vexit y x :
  syms s !! y = Some x -> s_type x <> STEXT ->
  syms s' = <[y := sset_value vexit (sset_type STEXT x)]> (syms s) -> syms_as s s' vexit.
Proof.
  intros Hx Ht Es z Hz. unfold sym_addr. rewrite Es. destruct (decide (z = y)) as [->|Hn].
  - rewrite lookup_insert_eq, Hx. split; [by eexists|]. simpl. by rewrite (proj2 (Z.eqb_neq _ _) Ht).
  - by rewrite lookup_insert_ne.
Qed.

(** [patch_sym] makes a branch of an instruction that has a target. *)
Lemma patch_sym_run pid vexit s p :
  progs s !! pid = Some p -> (forall y, a_sym (to p) = Some y -> is_Some (syms s !! y)) ->
  lwp errors (patch_sym pid vexit)
    (fun _ s' => progs s' = <[pid := match target s vexit p with
                              | Some c => pset_to (aset_type D_BRANCH (aset_offset c (to p))) p
                              | None => p end]> (progs s)
       /\ firstp s' = firstp s /\ syms_as s s' vexit) s.
Proof.
  intros Hp Hy. unfold patch_sym. apply (lwp_getp _ _ p); [done|]. unfold target.
  assert (forall p', p' = p -> lwp errors lskip (fun _ s' => progs s' = <[pid := p']> (progs s)
    /\ firstp s' = firstp s /\ syms_as s s' vexit) s) as Hskip.
  { intros p' ->. split_and!; [symmetry; by apply insert_id|done|by apply syms_as_refl]. }
  destruct (Z.eqb_spec (a_type (to p)) D_BRANCH) as [E|E].
  { rewrite andb_false_r. by apply Hskip, branch_same. }
  rewrite andb_true_r. destruct ((_ || _) || _); [|by apply Hskip].
  destruct (a_sym (to p)) as [y|]; [|by apply Hskip]. destruct (Hy y eq_refl) as [x Hx].
  apply (lwp_getsym _ y x); [done|]. cbn [mbind option_bind]. unfold sym_addr at 1. rewrite Hx.
  apply lwp_bind. destruct (Z.eqb_spec (s_type x) STEXT) as [Et|Et]; cbn [negb].
  - apply lwp_ret. apply (lwp_getsym _ y x); [done|]. apply (lwp_updp' _ _ p); [done|].
    split_and!; [done|done|by apply syms_as_refl].
  - apply lwp_diag; [intros Hn; exact Hn|]. apply (lwp_updsym' _ _ x); [done|].
    eapply lwp_getsym; [apply lookup_insert_eq|]. apply (lwp_updp' _ _ p); [done|].
    split_and!; [done|done|by apply (syms_as_update _ _ _ y x)].
Qed.

(** An instruction without its branch: [patch] changes nothing else. *)
Definition flat (p : Prog) : Prog := pset_cond None (pset_to zadr p).

Record shaped (m : gmap Z Prog) (p : option Z) (l : list Z) : Prop := {
  sh_linked : linked m p l; sh_fwd : fwd_inv m l; sh_inc : increasing m l }.

Lemma flat_lookup (m m' : gmap Z Prog) (x : Z) p' :
  flat <$> m' = flat <$> m -> m' !! x = Some p' -> exists p, m !! x = Some p /\ flat p = flat p'.
Proof.
  intros H Hp. pose proof (lookup_fmap flat m x) as E. rewrite <- H, lookup_fmap, Hp in E.
  destruct (m !! x) as [p|]; [|done]. exists p. split; [done|]. by apply (inj Some) in E.
Qed.

Lemma flat_insert (m : gmap Z Prog) (x : Z) p p' :
  m !! x = Some p -> flat p' = flat p -> flat <$> <[x := p']> m = flat <$> m.
Proof. intros Hp E. rewrite fmap_insert, E. apply insert_id. by rewrite lookup_fmap, Hp. Qed.

Lemma at_pc_flat m m' c x : flat <$> m' = flat <$> m -> at_pc m' c x = at_pc m c x.
Proof.
  intros H. unfold at_pc. destruct (m' !! x) as [p'|] eqn:E'.
  - destruct (flat_lookup _ _ _ _ H E') as (p & -> & E).
    by rewrite (f_equal p_pc E : p_pc p = p_pc p').
  - destruct (m !! x) as [p|] eqn:E; [|done].
    destruct (flat_lookup _ _ _ _ (eq_sym H) E) as (p' & ? & _). congruence.
Qed.

Lemma find_flat m m' c l :
  flat <$> m' = flat <$> m -> List.find (at_pc m' c) l = List.find (at_pc m c) l.
Proof.
  intros H. induction l as [|x l IH]; [done|]. simpl. by rewrite IH, (at_pc_flat m m').
Qed.

Lemma linked_flat m m' p l : flat <$> m' = flat <$> m -> linked m p l -> linked m' p l.
Proof.
  intros H. revert p. induction l as [|x l IH]; intros p; [done|]. intros (-> & q & Hq & Hl).
  split; [done|]. destruct (flat_lookup _ _ _ _ (eq_sym H) Hq) as (q' & Hq' & E).
  exists q'. split; [done|]. rewrite (f_equal link E : link q' = link q). by apply IH.
Qed.

Lemma shaped_flat m m' p l : flat <$> m' = flat <$> m -> shaped m p l -> shaped m' p l.
Proof.
  intros H [H1 H2 H3]. split; [by eapply linked_flat| |].
  - intros i q x w Hq Hx Hw. destruct (flat_lookup _ _ _ _ H Hx) as (x0 & Hx0 & E).
    apply (H2 i q x0 w Hq Hx0). by rewrite (f_equal forwd E : forwd x0 = forwd x).
  - intros i j x y p1 q1 Hij Hx Hy Hp Hq.
    destruct (flat_lookup _ _ _ _ H Hp) as (p0 & Hp0 & E). destruct (flat_lookup _ _ _ _ H Hq) as (q0 & Hq0 & E').
    rewrite <- (f_equal p_pc E : p_pc p0 = p_pc p1), <- (f_equal p_pc E' : p_pc q0 = p_pc q1).
    by apply (H3 i j x y).
Qed.

Lemma patch_one_run n x vexit s l p :
  shaped (progs s) (firstp s) l -> (length l <= n)%nat -> progs s !! x = Some p ->
  (forall y, a_sym (to p) = Some y -> is_Some (syms s !! y)) ->
  lwp errors (patch_one n x vexit) (fun _ s' => progs s' = <[x := resolved s vexit l p]> (progs s)
    /\ firstp s' = firstp s /\ syms_as s s' vexit) s.
Proof.
  intros Hsh Hn Hp Hy. unfold patch_one. apply (lwp_getp _ _ p); [done|].
  apply note_text_run. intros ct. apply lwp_bind.
  eapply lwp_mono; [apply (patch_sym_run x vexit (lset_curtext ct s) p Hp Hy)|].
  intros [] s1 _ (E1 & Ef & Hs1). change (target (lset_curtext ct s)) with (target s) in E1.
  change (progs (lset_curtext ct s)) with (progs s) in E1.
  change (firstp (lset_curtext ct s)) with (firstp s) in Ef.
  assert (syms_as s s1 vexit) as Hs by (intros y Hy'; by apply Hs1).
  eapply lwp_getp; [rewrite E1; apply lookup_insert_eq|]. unfold resolved.
  destruct (target s vexit p) as [c|] eqn:Et.
  - cbn [to pset_to a_type aset_type]. change (D_BRANCH =? D_BRANCH) with true. cbn [negb].
    apply lwp_get.
    assert (flat <$> progs s1 = flat <$> progs s) as Hflat
      by (rewrite E1; by apply (flat_insert _ _ p)).
    eapply lwp_run.
    { apply (patch_find_run n s1 l _ 0); rewrite ?drop_0; [|done|..].
      - rewrite Ef. by eapply linked_flat, Hsh.
      - by apply (shaped_flat (progs s) (progs s1) (firstp s)).
      - by apply (shaped_flat (progs s) (progs s1) (firstp s)). }
    rewrite drop_0, (find_flat (progs s)) by done. cbn [a_offset aset_type aset_offset].
    set (q := List.find _ _).
    assert (forall s2 p2, progs s2 = <[x := p2]> (progs s) -> firstp s2 = firstp s ->
      syms_as s s2 vexit -> pset_cond q p2 = branch_to q c p ->
      lwp errors (updp x (pset_cond q)) (fun _ s' => progs s' = <[x := branch_to q c p]> (progs s)
        /\ firstp s' = firstp s /\ syms_as s s' vexit) s2) as Hgo.
    { intros s2 p2 E2 Ef2 Hs2 Ep. apply (lwp_updp' _ _ p2); [rewrite E2; apply lookup_insert_eq|].
      cbn [progs lset_progs firstp]. split_and!; [by rewrite E2, insert_insert_eq, Ep|done|].
      intros y Hy'. by apply Hs2. }
    apply lwp_bind. case_bool_decide as Eq.
    + apply lwp_diag; [intros Hx; exact Hx|]. eapply lwp_updp'; [cbn; rewrite E1; apply lookup_insert_eq|].
      eapply Hgo; [cbn; by rewrite E1, insert_insert_eq|done|exact Hs|]. rewrite Eq. by destruct p, to.
    + apply lwp_ret. eapply Hgo; [exact E1|done|exact Hs|]. destruct q; [|done]. by destruct p, to.
  - assert (negb (a_type (to p) =? D_BRANCH) = true) as ->.
    { unfold target in Et. destruct (a_type (to p) =? D_BRANCH); [done|]. done. }
    by apply lwp_ret.
Qed.

(** ** Branches without jumps to jumps *)

(** The address in a branch is that of the instruction it leads to. *)
Definition settled_to (m : gmap Z Prog) (t : Adr) (r : option Z) : Adr :=
  match r ≫= fun y => m !! y with
  | Some q => if a_type t =? D_BRANCH then aset_offset (p_pc q) t else t
  | None => t
  end.

(** [p] is [p0] with its branch led through the jumps of [m]; nothing else has changed. *)
Record settled (m : gmap Z Prog) (p0 p : Prog) : Prop := {
  st_end : ended m 0 (cond p0) (cond p);
  st_rest : p = pset_cond (cond p) (pset_to (settled_to m (to p0) (cond p)) p0) }.

Lemma settled_flat m p0 p : settled m p0 p -> flat p = flat p0.
Proof. intros [_ ->]. done. Qed.

Lemma patch_loop_run m0 l K f x p0 s :
  shortcut m0 (progs s) -> flat <$> progs s = flat <$> m0 -> conds_in m0 l K ->
  5002 * K < Z.of_nat f -> x ∈ l -> m0 !! x = Some p0 -> progs s !! x = Some p0 ->
  lwp errors (patch_loop f x) (fun _ s' => exists p, progs s' = <[x := p]> (progs s)
    /\ settled m0 p0 p /\ firstp s' = firstp s) s.
Proof.
  intros Hs Hfl Hl Hf Hx H0 Hp. unfold patch_loop. apply (lwp_getp _ _ p0); [done|].
  apply note_text_run. intros ct. destruct (cond p0) as [z|] eqn:Ez.
  2:{ apply lwp_ret. exists p0. split_and!; [symmetry; by apply insert_id| |done].
      split; rewrite Ez; [done|]. by destruct p0; simpl in *; subst. }
  assert (z ∈ l) as Hz.
  { destruct (Hl x Hx) as (_ & p & Hp' & H). simplify_eq. by apply H. }
  destruct (brloop_run m0 l K f 0 (Some z) (lset_curtext ct s)) as (r & Hr & He).
  { done. } { done. } { lia. }
  { intros w [= <-]. split; [done|]. destruct (Hl z Hz) as [? _]. lia. }
  eapply lwp_run; [exact Hr|]. apply (lwp_updp _ _ p0); [done|].
  destruct r as [y|].
  - eapply lwp_getp; [apply lookup_insert_eq|]. cbn [to pset_cond].
    destruct He as [n Hn].
    assert (y ∈ l) as Hy by by apply (leads_in m0 l K n z).
    destruct (Hl y Hy) as (_ & py & Hpy & _).
    assert (exists py', <[x := pset_cond (Some y) p0]> (progs s) !! y = Some py' /\ p_pc py' = p_pc py)
      as (py' & Hpy' & Epc).
    { destruct (flat_lookup (<[x := pset_cond (Some y) p0]> (progs s)) m0 y py) as (q & Hq & E);
        [|done|exists q; split; [done|exact (f_equal p_pc E)]].
      symmetry. rewrite <- Hfl. by apply (flat_insert _ _ p0). }
    destruct (a_type (to p0) =? D_BRANCH) eqn:Eb.
    + eapply lwp_getp; [exact Hpy'|]. eapply lwp_updp'; [apply lookup_insert_eq|].
      eexists. split_and!; [cbn; by rewrite insert_insert_eq| |done].
      split; simpl; rewrite ?Ez; [by exists n|].
      unfold settled_to. simpl. by rewrite Hpy, Eb, Epc.
    + apply lwp_ret. eexists. split_and!; [done| |done].
      split; simpl; rewrite ?Ez; [by exists n|].
      unfold settled_to. simpl. rewrite Hpy, Eb. by destruct p0.
  - apply lwp_ret. eexists. split_and!; [done| |done].
    split; simpl; rewrite ?Ez; [done|]. unfold settled_to. simpl. by destruct p0.
Qed.

(** What is settled cuts chains short. *)
Lemma shortcut_settled m0 m (d : list Z) :
  (forall x p0, m0 !! x = Some p0 -> exists p, m !! x = Some p /\
     if decide (x ∈ d) then settled m0 p0 p else p = p0) -> shortcut m0 m.
Proof.
  intros H x p0 Hp0. destruct (H x p0 Hp0) as (p & Hp & Hd). exists p. split; [done|].
  destruct (decide (x ∈ d)).
  - pose proof (settled_flat _ _ _ Hd) as E. split_and!; [exact (f_equal p_as E)|exact (f_equal p_mark E)|].
    right. apply Hd.
  - subst. by split_and!; [| |left].
Qed.

(** ** Both loops *)

(** [m] is [m0] with [f] done on the instructions of [d]. *)
Definition done_on (f : Prog -> Prog) (d : list Z) (m0 m : gmap Z Prog) : Prop :=
  forall x, m !! x = (fun p => if decide (x ∈ d) then f p else p) <$> m0 !! x.

Lemma done_on_flat f d m0 m : (forall p, flat (f p) = flat p) -> done_on f d m0 m -> flat <$> m = flat <$> m0.
Proof.
  intros Hf H. apply map_eq. intros x. rewrite !lookup_fmap, H. destruct (m0 !! x); simpl; [|done].
  case_decide; by rewrite ?Hf.
Qed.

Lemma done_on_step f d m0 m x p :
  done_on f d m0 m -> x ∉ d -> m0 !! x = Some p -> done_on f (d ++ [x]) m0 (<[x := f p]> m).
Proof.
  intros H Hx Hp z. destruct (decide (z = x)) as [->|Hn].
  - rewrite lookup_insert_eq, Hp. simpl. rewrite decide_True; [done|]. apply elem_of_app. right. by left.
  - rewrite lookup_insert_ne, H by done. destruct (m0 !! z); [|done]. simpl. f_equal.
    apply decide_ext. rewrite elem_of_app, list_elem_of_singleton. tauto.
Qed.

Lemma branch_to_flat q c p : flat (branch_to q c p) = flat p.
Proof. done. Qed.

Lemma resolved_flat s v l p : flat (resolved s v l p) = flat p.
Proof. unfold resolved. by destruct (target s v p). Qed.

Lemma target_as s s' v p :
  syms_as s s' v -> (forall y, a_sym (to p) = Some y -> is_Some (syms s !! y)) ->
  target s' v p = target s v p.
Proof.
  intros H Hy. unfold target. case_match; [done|]. case_match; [|done].
  destruct (a_sym (to p)) as [y|]; [|done]. simpl. by destruct (H y (Hy y eq_refl)) as [_ ->].
Qed.

Lemma NoDup_split (d : list Z) x r : NoDup (d ++ x :: r) -> x ∉ d.
Proof. intros (_ & Hd & _)%list.NoDup_app H. apply (Hd x H). by left. Qed.

Lemma first_loop n v s l :
  shaped (progs s) (firstp s) l -> NoDup l -> firstp s = head l -> (length l <= n)%nat ->
  (forall x p y, x ∈ l -> progs s !! x = Some p -> a_sym (to p) = Some y -> is_Some (syms s !! y)) ->
  lwp errors (each_prog n (fun pid => patch_one n pid v) (head l))
    (fun _ s' => done_on (resolved s v l) l (progs s) (progs s') /\ firstp s' = firstp s) s.
Proof.
  intros Hsh Hd Hh Hn Hy.
  apply (lwp_mono _ _ (fun _ s' => done_on (resolved s v l) l (progs s) (progs s')
    /\ firstp s' = firstp s /\ syms_as s s' v)); [|tauto].
  apply (each_prog_run _ n _ s l (fun d s' => done_on (resolved s v l) d (progs s) (progs s')
    /\ firstp s' = firstp s /\ syms_as s s' v)); [done| |].
  { split_and!; [|done|by apply syms_as_refl]. intros x. by destruct (progs s !! x). }
  intros d x r s1 El (Hdone & Ef & Hs).
  assert (x ∈ l) as Hx by (rewrite El; apply elem_of_app; right; by left).
  assert (x ∉ d) as Hxd by (rewrite El in Hd; by eapply NoDup_split).
  destruct (linked_at _ _ _ d x r (sh_linked _ _ _ Hsh) El) as (p & Hp & Hlp).
  assert (flat <$> progs s1 = flat <$> progs s) as Hfl
    by (eapply done_on_flat; [|exact Hdone]; intros; apply resolved_flat).
  assert (progs s1 !! x = Some p) as Hp1 by (rewrite Hdone, Hp; simpl; by rewrite decide_False).
  assert (forall y, a_sym (to p) = Some y -> is_Some (syms s !! y)) as Hyp by (intros y; by apply (Hy x p)).
  eapply lwp_mono.
  { apply (patch_one_run n x v s1 l p); [|done|done|].
    - rewrite Ef. by apply (shaped_flat (progs s)).
    - intros y E. apply Hs. by apply Hyp. }
  intros [] s2 _ (E2 & Ef2 & Hs2).
  assert (resolved s1 v l p = resolved s v l p) as Er.
  { unfold resolved. rewrite (target_as s s1) by done. destruct (target s v p); [|done].
    by rewrite (find_flat (progs s)) by done. }
  rewrite Er in E2. split.
  - split_and!; [rewrite E2; by apply done_on_step|congruence|by eapply syms_as_trans].
  - exists (resolved s v l p). split; [rewrite E2; apply lookup_insert_eq|].
    rewrite <- Hlp. exact (f_equal link (resolved_flat s v l p)).
Qed.

Lemma second_loop n f m0 l K s :
  progs s = m0 -> linked m0 (head l) l -> NoDup l -> (length l <= n)%nat ->
  conds_in m0 l K -> 5002 * K < Z.of_nat f ->
  lwp errors (each_prog n (patch_loop f) (head l))
    (fun _ s' => forall x p0, x ∈ l -> m0 !! x = Some p0 ->
       exists p, progs s' !! x = Some p /\ settled m0 p0 p) s.
Proof.
  intros Es Hl Hd Hn Hc Hf.
  set (I := fun (d : list Z) (s' : vl) => flat <$> progs s' = flat <$> m0 /\
    forall x p0, m0 !! x = Some p0 -> exists p, progs s' !! x = Some p /\
     if decide (x ∈ d) then settled m0 p0 p else p = p0).
  apply (lwp_mono _ _ (fun _ => I l)).
  2:{ intros [] s' _ [_ H] x p0 Hx Hp0. destruct (H x p0 Hp0) as (p & Hp & Hs).
      rewrite decide_True in Hs by done. by exists p. }
  apply each_prog_run; [done|split; [by rewrite Es|]|].
  { intros x p0 Hp0. exists p0. by rewrite Es. }
  intros d x r s1 El [Hfl HI].
  assert (x ∈ l) as Hx by (rewrite El; apply elem_of_app; right; by left).
  assert (x ∉ d) as Hxd by (rewrite El in Hd; by eapply NoDup_split).
  destruct (linked_at _ _ _ d x r Hl El) as (p0 & Hp0 & Hlp).
  destruct (HI x p0 Hp0) as (p1 & Hp1 & E1). rewrite decide_False in E1 by done. subst p1.
  eapply lwp_mono.
  { apply (patch_loop_run m0 l K f x p0 s1); try done. by apply (shortcut_settled _ _ d). }
  intros [] s2 _ (p & E2 & Hp & _). pose proof (settled_flat _ _ _ Hp) as Efl. split; [split|].
  - rewrite E2. by rewrite (flat_insert _ _ p0).
  - intros z q0 Hq0. rewrite E2. destruct (decide (z = x)) as [->|Hn'].
    + simplify_eq. exists p. rewrite lookup_insert_eq, decide_True; [done|].
      apply elem_of_app. right. by left.
    + destruct (HI z q0 Hq0) as (q & Hq & Hqs). exists q. rewrite lookup_insert_ne by done.
      split; [done|]. destruct (decide (z ∈ d)).
      * rewrite decide_True; [done|]. apply elem_of_app. by left.
      * rewrite decide_False; [done|]. rewrite elem_of_app, list_elem_of_singleton. tauto.
  - exists p. split; [rewrite E2; apply lookup_insert_eq|]. rewrite <- Hlp. exact (f_equal link Efl).
Qed.

(** ** patch *)

(** The value of the symbol [exit], which [patch] makes where there is none. *)
Definition is_exit (yx : Z * Sym) : bool :=
  bool_decide (s_name yx.2 = name_exit /\ s_version yx.2 = 0).
Definition exit_value (s : vl) : Z :=
  match List.find is_exit (map_to_list (syms s)) with Some (_, x) => s_value x | None => 0 end.

(** The program with its branches resolved, and without the pointers of [mkfwd]. *)
Definition branches (s : vl) (l : list Z) : gmap Z Prog :=
  map_imap (fun x p => Some (core (if decide (x ∈ l) then resolved s (exit_value s) l p else p))) (progs s).

Lemma exit_value_named s y x :
  hash_ok s -> syms s !! y = Some x -> named s name_exit 0 y -> exit_value s = s_value x.
Proof.
  intros Hok Hx Hn. unfold exit_value. destruct (List.find _ _) as [[z w]|] eqn:E.
  - apply List.find_some in E as [Hin Hb]. apply list_elem_of_In, elem_of_map_to_list in Hin.
    unfold is_exit in Hb. apply bool_decide_eq_true in Hb as [H1 H2]. simpl in *.
    assert (z = y) as -> by (apply (h_one _ Hok z y name_exit 0); [by exists w|done]). congruence.
  - destruct Hn as (x' & Hx' & H1 & H2). simplify_eq.
    apply (List.find_none _ _) with (x := (y, x)) in E.
    + unfold is_exit in E. apply bool_decide_eq_false in E. simpl in E. tauto.
    + by apply list_elem_of_In, elem_of_map_to_list.
Qed.

Lemma exit_value_none s : (forall z, ~ named s name_exit 0 z) -> exit_value s = 0.
Proof.
  intros H. unfold exit_value. destruct (List.find _ _) as [[z w]|] eqn:E; [|done].
  apply List.find_some in E as [Hin Hb]. apply list_elem_of_In, elem_of_map_to_list in Hin.
  unfold is_exit in Hb. apply bool_decide_eq_true in Hb as [H1 H2]. destruct (H z). by exists w.
Qed.

(** The symbol [exit], found or made. *)
Lemma exit_run s :
  hash_ok s -> exists y s' x, lookup name_exit 0 s = LOk y s' /\ syms s' !! y = Some x
    /\ s_value x = exit_value s /\ progs s' = progs s /\ firstp s' = firstp s
    /\ syms_as s s' (exit_value s).
Proof.
  intros Hok. destruct (lookup_run name_exit 0 s Hok) as (y & s' & Hr & _ & Hn & Hc);
    [split; [discriminate|reflexivity]|].
  pose proof Hn as (x & Hx & E1 & E2). exists y, s', x.
  destruct Hc as [[Hold ->]|(Hnone & -> & Es & _ & h & Est)].
  - split_and!; try done; []. symmetry. by eapply exit_value_named.
  - rewrite Es, lookup_insert_eq in Hx. injection Hx as <-.
    split; [done|]. split; [rewrite Es; apply lookup_insert_eq|].
    split; [by rewrite exit_value_none|]. split; [by rewrite Est|]. split; [by rewrite Est|].
    intros z [w Hz]. unfold sym_addr. rewrite Es. pose proof (h_next _ Hok z w Hz).
    by rewrite lookup_insert_ne, Hz by lia.
Qed.

(** Jumps do not depend on the pointers of [mkfwd]. *)
Lemma core_get (m : gmap Z Prog) x p' :
  (core <$> m) !! x = Some p' -> exists p, m !! x = Some p /\ p' = core p.
Proof. rewrite lookup_fmap. destruct (m !! x) as [p|]; [|done]. intros [= <-]. by exists p. Qed.

Lemma hops_core m x q : hops (core <$> m) x q <-> hops m x q.
Proof.
  split; intros (p & Hp & H).
  - destruct (core_get _ _ _ Hp) as (p0 & Hp0 & ->). by exists p0.
  - exists (core p). by rewrite lookup_fmap, Hp.
Qed.

Lemma ends_core m x : ends (core <$> m) x <-> ends m x.
Proof.
  split; intros (p & Hp & H).
  - destruct (core_get _ _ _ Hp) as (p0 & Hp0 & ->). by exists p0.
  - exists (core p). by rewrite lookup_fmap, Hp.
Qed.

Lemma leads_core m n x y : leads (core <$> m) n x y <-> leads m n x y.
Proof.
  split; induction 1 as [x He|n x q y Hh Hl IH].
  - constructor. by apply ends_core.
  - econstructor; [by apply hops_core|done].
  - constructor. by apply ends_core.
  - econstructor; [by apply hops_core|done].
Qed.

Lemma settled_core m p0 p : settled m p0 p -> settled (core <$> m) (core p0) (core p).
Proof.
  intros [He Hr]. split.
  - change (cond (core p0)) with (cond p0). change (cond (core p)) with (cond p). unfold ended in *.
    destruct (cond p0) as [q|]; [|done]. destruct (cond p) as [y|].
    + destruct He as [n Hn]. exists n. by apply leads_core.
    + intros n y Hn. apply (He n y). by apply leads_core.
  - rewrite Hr. cbn. unfold core, settled_to. simpl. f_equal.
    destruct (cond p) as [y|]; [|done]. simpl. rewrite lookup_fmap. by destruct (m !! y).
Qed.

Lemma at_pc_fmap m c x : at_pc m c x = match (p_pc <$> m) !! x with Some v => v =? c | None => false end.
Proof. unfold at_pc. rewrite lookup_fmap. by destruct (m !! x). Qed.

Lemma find_core m m' c l :
  core <$> m' = core <$> m -> List.find (at_pc m' c) l = List.find (at_pc m c) l.
Proof.
  intros H. assert (p_pc <$> m' = p_pc <$> m) as E.
  { change (p_pc <$> m') with ((fun p => p_pc (core p)) <$> m').
    change (p_pc <$> m) with ((fun p => p_pc (core p)) <$> m).
    change (fun p => p_pc (core p)) with (p_pc ∘ core). by rewrite !map_fmap_compose, H. }
  induction l as [|x l IH]; [done|]. simpl. by rewrite IH, !at_pc_fmap, E.
Qed.

Lemma resolved_of_core s v l p : resolved s v l (core p) = core (resolved s v l p).
Proof. unfold resolved. change (target s v (core p)) with (target s v p). by destruct (target s v p). Qed.

Lemma resolved_core s s' v l p p' :
  core <$> progs s' = core <$> progs s -> syms_as s s' v -> core p' = core p ->
  (forall y, a_sym (to p) = Some y -> is_Some (syms s !! y)) ->
  core (resolved s' v l p') = core (resolved s v l p).
Proof.
  intros Hc Hs E Hy. rewrite <- !resolved_of_core, E. unfold resolved.
  rewrite (target_as s s') by done. destruct (target s v (core p)); [|done]. by rewrite (find_core (progs s)).
Qed.

(** What [patch] expects of the program it gets from the object files. *)
Record patchable (s : vl) (l : list Z) : Prop := {
  pt_chain : chained s (firstp s) l;
  pt_inc : increasing (progs s) l;
  pt_conds : conds_in (progs s) l (nextp s);
  pt_syms : forall x p y, x ∈ l -> progs s !! x = Some p -> a_sym (to p) = Some y ->
    is_Some (syms s !! y);
  pt_hash : hash_ok s }.

Lemma hash_ok_same s s' :
  syms s' = syms s -> hash s' = hash s -> nexts s' = nexts s -> hash_ok s -> hash_ok s'.
Proof.
  intros E1 E2 E3 [A1 A2 A3 A4]. unfold named, chain in *.
  split; unfold named, chain; rewrite ?E1, ?E2, ?E3; done.
Qed.

(** After the first loop every branch of [l] leads to an instruction of [l]. *)
Lemma resolved_conds s v l K m0 :
  conds_in (progs s) l K -> done_on (resolved s v l) l (progs s) m0 -> conds_in m0 l K.
Proof.
  intros Hc Hd x Hx. destruct (Hc x Hx) as (Hr & p & Hp & Hq). split; [done|].
  exists (resolved s v l p). rewrite Hd, Hp. simpl. rewrite decide_True by done. split; [done|].
  intros q. unfold resolved. destruct (target s v p) as [c|]; [|apply Hq].
  simpl. intros Hf. apply List.find_some in Hf as [Hf _]. by apply list_elem_of_In.
Qed.

Lemma conds_core m m' l K : core <$> m' = core <$> m -> conds_in m l K -> conds_in m' l K.
Proof.
  intros H Hc x Hx. destruct (Hc x Hx) as (Hr & p & Hp & Hq). split; [done|].
  destruct (core_lookup _ _ _ _ H Hp) as (p' & Hp' & E). exists p'. split; [done|].
  intros q. rewrite (f_equal cond E : cond p' = cond p). apply Hq.
Qed.

Lemma increasing_core m m' l : core <$> m' = core <$> m -> increasing m l -> increasing m' l.
Proof.
  intros H Hi i j x y p q Hij Hx Hy Hp Hq.
  destruct (core_lookup _ _ _ _ (eq_sym H) Hp) as (p0 & Hp0 & E).
  destruct (core_lookup _ _ _ _ (eq_sym H) Hq) as (q0 & Hq0 & E').
  rewrite <- (f_equal p_pc E : p_pc p0 = p_pc p), <- (f_equal p_pc E' : p_pc q0 = p_pc q).
  by apply (Hi i j x y).
Qed.

(** C6: [patch] settles every branch. Let the program be a list of instructions at increasing
    addresses. Then [patch] returns, or stops the linker after more than ten errors, and where
    it returns every instruction is as before but for its branch: a jump, call or return to a
    symbol and a branch to an address get the instruction of the program at that address (found
    over the pointers of [mkfwd]), or none where there is none; and where that is a jump, the end
    of the chain of jumps it starts, with the address of that. Only a chain without an end, or
    with more than five thousand jumps backward, loses its branch. *)
Theorem patch_resolves n m s l :
  patchable s l -> (length l <= n)%nat -> 5002 * nextp s < Z.of_nat m ->
  match patch n m s with
  | LOk _ s' => forall x p, x ∈ l -> progs s !! x = Some p -> exists p', progs s' !! x = Some p'
      /\ settled (branches s l) (core (resolved s (exit_value s) l p)) (core p')
  | LExit s' => 10 < nerrors s'
  | _ => False
  end.
Proof.
  intros [Hch Hinc Hcd Hsy Hok] Hn Hm. set (v := exit_value s).
  destruct (mkfwd_run n s l Hch Hn) as (ct & m1 & Hmk & Hcore & Hfw).
  set (s1 := lset_curtext ct (lset_progs m1 s)) in *.
  destruct (exit_run s1) as (y & s2 & xs & Hlk & Hxs & Ev & Ep2 & Ef2 & Hs2);
    [by apply (hash_ok_same s)|].
  change (exit_value s1) with v in Ev, Hs2. change (progs s1) with m1 in Ep2.
  assert (syms_as s s2 v) as Hs by (intros z Hz; by apply Hs2).
  destruct Hch as (Hl & Hnd & _).
  assert (firstp s = head l) as Hh by (destruct l; [done|apply Hl]).
  assert (linked m1 (head l) l) as Hl1 by (rewrite <- Hh; by eapply linked_core).
  change (lwp errors (patch n m) (fun _ s' => forall x p, x ∈ l -> progs s !! x = Some p ->
    exists p', progs s' !! x = Some p' /\ settled (branches s l) (core (resolved s v l p)) (core p')) s).
  unfold patch. eapply lwp_run; [exact Hmk|]. eapply lwp_run; [exact Hlk|].
  apply (lwp_getsym _ y xs); [done|]. apply lwp_get. rewrite Ev, Ef2.
  change (firstp s1) with (firstp s). rewrite Hh. apply lwp_bind. eapply lwp_mono.
  { apply (first_loop n v s2 l); try done.
    - rewrite Ep2, Ef2. change (firstp s1) with (firstp s). rewrite Hh.
      split; [done|done|by apply (increasing_core (progs s))].
    - rewrite Ef2. exact Hh.
    - intros x p z Hx Hp Hz. rewrite Ep2 in Hp.
      destruct (core_lookup _ _ _ _ (eq_sym Hcore) Hp) as (p0 & Hp0 & E). apply Hs.
      apply (Hsy x p0 z Hx Hp0). by rewrite (f_equal to E : to p0 = to p). }
  intros [] s3 _ [Hd3 Ef3]. rewrite Ep2 in Hd3. apply lwp_get. rewrite Ef3, Ef2.
  change (firstp s1) with (firstp s). rewrite Hh.
  assert (conds_in (progs s3) l (nextp s)) as Hc3.
  { apply (resolved_conds s2 v); [|by rewrite Ep2]. rewrite Ep2. by apply (conds_core (progs s)). }
  assert (core <$> progs s3 = branches s l) as Ebr.
  { apply map_eq. intros x. unfold branches. rewrite lookup_fmap, map_lookup_imap, Hd3.
    destruct (progs s !! x) as [p|] eqn:Hp.
    - destruct (core_lookup _ _ _ _ Hcore Hp) as (p1 & -> & E). simpl. f_equal.
      destruct (decide (x ∈ l)) as [Hx|]; [|done].
      apply resolved_core; [by rewrite Ep2|done|done|]. intros z. by apply (Hsy x p).
    - destruct (m1 !! x) as [p1|] eqn:E1; [|done].
      destruct (core_lookup _ _ _ _ (eq_sym Hcore) E1) as (? & ? & _). congruence. }
  eapply lwp_mono; [apply (second_loop n m (progs s3) l (nextp s))|]; try done.
  { eapply linked_flat; [|exact Hl1]. eapply done_on_flat; [|exact Hd3]. intros. apply resolved_flat. }
  intros [] s4 _ H4 x p Hx Hp. destruct (core_lookup _ _ _ _ Hcore Hp) as (p1 & Hp1 & E).
  destruct (H4 x (resolved s2 v l p1) Hx) as (p' & Hp' & Hst).
  { rewrite Hd3, Hp1. simpl. by rewrite decide_True. }
  exists p'. split; [done|]. apply settled_core in Hst. rewrite Ebr in Hst.
  rewrite <- (resolved_core s s2 v l p p1); [done|by rewrite Ep2|done|done|].
  intros z. by apply (Hsy x p).
Qed.

(** ** An example *)

(** [0 TEXT main; 1 BEQ R2, R3, 3; 2 RET; 3 JMP 5; 4 JAL main; 5 RET]: the branch goes to a jump. *)
Definition pins (a : Z) (f t : Adr) (r pc : Z) (l : option Z) : Prog :=
  mkProg f t None l None pc 0 0 0 a r.
Definition preg (r : Z) : Adr := mkAdr 0 None D_REG r D_NONE 0.
Definition pbranch (c : Z) : Adr := mkAdr c None D_BRANCH NREG D_NONE 0.
Definition pmain : Adr := mkAdr 0 (Some 0) D_OREG NREG D_EXTERN 0.
Definition patch_prog : gmap Z Prog := list_to_map
  [(0, pins ATEXT pmain zadr NREG 0 (Some 1)); (1, pins ABEQ (preg 2) (pbranch 3) 3 1 (Some 2));
   (2, pins ARET zadr zadr NREG 2 (Some 3)); (3, pins AJMP zadr (pbranch 5) NREG 3 (Some 4));
   (4, pins AJAL zadr pmain NREG 4 (Some 5)); (5, pins ARET zadr zadr NREG 5 None)].
Definition patch_demo : vl :=
  lset_firstp (Some 0) (lset_nextp 6 (lset_progs patch_prog one_symbol)).
Definition patch_list : list Z := seqZ 0 6.

(** A check of every instruction. *)
Lemma patch_prog_all (P : Z -> Prog -> bool) :
  forallb (fun xp => P xp.1 xp.2) (map_to_list patch_prog) = true ->
  forall x p, patch_prog !! x = Some p -> P x p = true.
Proof.
  intros H x p Hp. rewrite forallb_forall in H.
  apply (H (x, p)), list_elem_of_In, elem_of_map_to_list, Hp.
Qed.

Lemma patch_demo_ok : patchable patch_demo patch_list.
Proof.
  split.
  - split_and!.
    + repeat (split; [reflexivity|]; eexists; split; [reflexivity|]). reflexivity.
    + apply NoDup_seqZ.
    + apply list.Forall_forall. intros x Hx%elem_of_seqZ. simpl. lia.
  - intros i j x y p q Hij [-> _]%lookup_seqZ [-> _]%lookup_seqZ Hp Hq.
    apply (patch_prog_all (fun x p => p_pc p =? x) eq_refl), Z.eqb_eq in Hp, Hq. lia.
  - intros x Hx. pose proof Hx as Hx'. apply elem_of_seqZ in Hx. split; [simpl; lia|].
    assert (is_Some (patch_prog !! x)) as [p Hp].
    { assert (x = 0 \/ x = 1 \/ x = 2 \/ x = 3 \/ x = 4 \/ x = 5) as
        [-> | [-> | [-> | [-> | [-> | ->]]]]] by lia; by eexists. }
    exists p. split; [done|]. intros q Hq.
    apply (patch_prog_all (fun x p => match cond p with None => true | _ => false end) eq_refl) in Hp.
    by rewrite Hq in Hp.
  - intros x p y _ Hp Hy.
    apply (patch_prog_all (fun x p => match a_sym (to p) with Some y => y =? 0 | _ => true end) eq_refl) in Hp.
    rewrite Hy in Hp. apply Z.eqb_eq in Hp as ->. by eexists.
  - by apply (hash_ok_same one_symbol), one_symbol_ok.
Qed.

(** The branch goes on to the return, and the call to the text. *)
Example patch_demo_runs :
  match patch 6 100 patch_demo with
  | LOk _ s => (cond <$> progs s !! 1, cond <$> progs s !! 4) = (Some (Some 5), Some (Some 0))
  | _ => False
  end.
Proof. vm_compute. reflexivity. Qed.

Lemma patch_resolves_witness :
  match patch 6 (Z.to_nat 40000) patch_demo with
  | LOk _ s' => forall x p, x ∈ patch_list -> patch_prog !! x = Some p -> exists p', progs s' !! x = Some p'
      /\ settled (branches patch_demo patch_list)
           (core (resolved patch_demo (exit_value patch_demo) patch_list p)) (core p')
  | LExit s' => 10 < nerrors s'
  | _ => False
  end.
Proof.
  apply (patch_resolves 6 (Z.to_nat 40000) patch_demo patch_list patch_demo_ok).
  - change (length patch_list) with 6%nat. lia.
  - change (nextp patch_demo) with 6. lia.
Defined.
