(* ===== verification/VlFollow.v ===== *)
(** [follow] lays the program out anew: it drops jumps, copies short ends of paths, turns
    branches round. What the program does is the same. *)
From S2P Require Import Prelude CInt VlObj VlSym VlWp VlSymThm VlPass.

(** ** What a program does *)

(** A jump to a known place does nothing but go there. *)
Definition is_jump (p : Prog) : bool := (p_as p =? AJMP) && bool_decide (is_Some (cond p)).

(** The instruction that control arrives at in [x]. *)
Definition land (m : gmap Z Prog) (x : Z) : option Z :=
  p ← m !! x; if is_jump p then cond p else Some x.

(** Two successors: [AJAL] comes back. *)
Definition two_way (p : Prog) : bool := negb (p_as p =? AJAL) && bool_decide (is_Some (cond p)).

(** Where control goes after [p], if the condition it tests is [d]: of [ABEQ] and [ABNE] that
    the operands are equal, else that the branch is taken. *)
Definition next (d : bool) (p : Prog) : option Z :=
  if stops (p_as p) then None
  else if two_way p && eqb d (negb (p_as p =? ABNE)) then cond p
  else link p.

(** The instruction itself, with [ABNE] as the test it is. *)
Definition op (p : Prog) : Prog :=
  pset_as (if p_as p =? ABNE then ABEQ else p_as p)
    (pset_mark 0 (pset_link None (pset_cond None (pset_forwd None p)))).

(** The instructions executed from [x] on, where the tests come out as [ds]. *)
Fixpoint trace (m : gmap Z Prog) (x : Z) (ds : list bool) : list Prog :=
  match land m x ≫= fun y => m !! y with
  | None => []
  | Some p =>
      op p :: match ds with
              | [] => []
              | d :: ds => match next d p with Some z => trace m z ds | None => [] end
              end
  end.

(** ** The program before *)

Section Follow.
Context (m0 : gmap Z Prog) (D : list Z).

(** The instructions of [D] are as [patch] leaves them: no branch to a jump, and no end of the
    program but at jumps and returns. *)
Record node0 (x : Z) (p : Prog) : Prop := {
  n0_at : m0 !! x = Some p;
  n0_foll : marked FOLL p = false;
  n0_sched : marked NOSCHED p = false;
  n0_link : forall q, link p = Some q -> q ∈ D;
  n0_cond : forall q, cond p = Some q -> q ∈ D /\ exists pq, m0 !! q = Some pq /\ p_as pq <> AJMP;
  n0_next : stops (p_as p) = false -> is_Some (link p) }.

Context (HD : forall x, x ∈ D -> exists p, node0 x p).

(** [x] is in the program, and no jump. *)
Definition real (x : Z) : Prop := x ∈ D /\ exists p, m0 !! x = Some p /\ is_jump p = false.

Lemma cond_real x p q : x ∈ D -> m0 !! x = Some p -> cond p = Some q -> real q.
Proof.
  intros Hx Hp Hq. destruct (HD x Hx) as (p' & [Hp' _ _ _ Hc _]). simplify_eq.
  destruct (Hc q Hq) as (Hqd & pq & Hpq & Ha). split; [done|]. exists pq. split; [done|].
  unfold is_jump. by rewrite (proj2 (Z.eqb_neq _ _) Ha).
Qed.

(** Control arrives at an instruction that is no jump. *)
Lemma land_real x : x ∈ D -> exists y, land m0 x = Some y /\ real y.
Proof.
  intros Hx. destruct (HD x Hx) as (p & Hn). pose proof (n0_at _ _ Hn) as Hp.
  unfold land. rewrite Hp. simpl. destruct (is_jump p) eqn:E.
  - unfold is_jump in E. apply andb_true_iff in E as [_ E]. apply bool_decide_eq_true in E as [q Hq].
    exists q. split; [done|]. by eapply cond_real.
  - exists x. split; [done|]. split; [done|]. by exists p.
Qed.

(** ** The program laid out *)

(** [L] is what is laid out in [m]; [orig] says what an instruction is a copy of. *)
Section Laid.
Context (m : gmap Z Prog) (L : list Z) (orig : Z -> Z).

(** Control that arrives at [n] arrives at a copy of [x]. *)
Definition stands (n x : Z) : Prop :=
  n ∈ L /\ exists t p, land m n = Some t /\ t ∈ L /\ m !! t = Some p /\ is_jump p = false /\ orig t = x.

(** [n] is a copy of its original, and what its successor has to stand for, if there is one.
    The places of [pend] are still to be laid out. *)
Inductive copy (pend : list Z) (p : Prog) (o : Z) : option Z -> Prop :=
  | copy_stop p0 :
      m0 !! o = Some p0 -> op p = op p0 -> p_as p = p_as p0 -> cond p = cond p0 ->
      stops (p_as p0) = true -> copy pend p o None
  | copy_same p0 l x :
      m0 !! o = Some p0 -> op p = op p0 -> p_as p = p_as p0 -> cond p = cond p0 ->
      stops (p_as p0) = false -> link p0 = Some l -> land m0 l = Some x ->
      (forall t, cond p0 = Some t -> p_as p0 <> AJAL -> t ∈ L \/ t ∈ pend) ->
      copy pend p o (Some x)
  | copy_turned p0 l y c x :
      m0 !! o = Some p0 -> op p = op p0 -> p_as p0 = ABEQ /\ p_as p = ABNE \/ p_as p0 = ABNE /\ p_as p = ABEQ ->
      link p0 = Some l -> land m0 l = Some y -> cond p = Some c -> stands c y ->
      cond p0 = Some x -> copy pend p o (Some x).

(** What is laid out at [n]: a copy, or a jump to one. *)
Inductive laid_at (pend : list Z) (n : Z) (p : Prog) : option Z -> Prop :=
  | laid_copy w : is_jump p = false -> real (orig n) -> copy pend p (orig n) w -> laid_at pend n p w
  | laid_jump t x : p_as p = AJMP -> cond p = Some t -> stands t x -> land m t = Some t -> laid_at pend n p None.
End Laid.

(** Instructions that are the same to whoever comes to them. *)
Definition alike (p p' : Prog) : Prop := op p' = op p /\ p_as p' = p_as p /\ cond p' = cond p.
(** Jumps to the same place, or no jumps. *)
Definition like (p p' : Prog) : Prop := is_jump p' = is_jump p /\ (is_jump p = true -> cond p' = cond p).
Definition agree (K : list Z) (m m' : gmap Z Prog) : Prop :=
  forall k p, k ∈ K -> m !! k = Some p -> exists p', m' !! k = Some p' /\ like p p'.

Lemma alike_refl p : alike p p.
Proof. done. Qed.
Lemma alike_jump p p' : alike p p' -> is_jump p' = is_jump p.
Proof. intros (_ & Ha & Hc). unfold is_jump. by rewrite Ha, Hc. Qed.

Lemma alike_like p p' : alike p p' -> like p p'.
Proof. intros Ha. split; [by apply alike_jump|]. by destruct Ha as (_ & _ & ->). Qed.

Section Grow.
Context (m m' : gmap Z Prog) (L L' : list Z) (orig orig' : Z -> Z).
Context (Hm : agree L m m') (HL : forall k, k ∈ L -> k ∈ L') (Ho : forall k, k ∈ L -> orig' k = orig k).

Lemma land_grow k t : k ∈ L -> land m k = Some t -> land m' k = Some t.
Proof.
  intros Hk. unfold land. destruct (m !! k) as [p|] eqn:Hp; [|done]. simpl.
  destruct (Hm k p Hk Hp) as (p' & Hp' & Hj & Hc). rewrite Hp'. simpl. rewrite Hj.
  destruct (is_jump p); [|done]. by rewrite Hc.
Qed.

Lemma stands_grow n x : stands m L orig n x -> stands m' L' orig' n x.
Proof.
  intros (Hn & t & p & Ht & HtL & Hp & Hj & Hx). split; [by apply HL|].
  destruct (Hm t p HtL Hp) as (p' & Hp' & Hj' & _). exists t, p'.
  split_and!; [by apply land_grow|by apply HL|done|by rewrite Hj'|by rewrite Ho].
Qed.

Lemma copy_grow pend pend' p p' o w :
  (forall t, t ∈ pend -> t ∈ pend' \/ t ∈ L') -> alike p p' ->
  copy m L orig pend p o w -> copy m' L' orig' pend' p' o w.
Proof.
  intros Hpd (E1 & E2 & E3) Hc. inversion Hc as [p0 H1 H2 H3 H4 H5|p0 l x H1 H2 H3 H4 H5 H6 H7 H8
    |p0 l y c x H1 H2 H3 H4 H5 H6 H7 H8]; subst.
  - eapply copy_stop; [done|by rewrite E1|by rewrite E2|by rewrite E3|done].
  - eapply copy_same; [done|by rewrite E1|by rewrite E2|by rewrite E3|done|done|done|].
    intros t Ht Ha. destruct (H8 t Ht Ha) as [H|H]; [left; by apply HL|]. apply Hpd in H. tauto.
  - eapply copy_turned; [done|by rewrite E1| |done|done|by rewrite E3| |done].
    + by rewrite E2.
    + by apply stands_grow.
Qed.

Lemma laid_grow pend pend' n p p' w :
  n ∈ L -> (forall t, t ∈ pend -> t ∈ pend' \/ t ∈ L') -> alike p p' ->
  laid_at m L orig pend n p w -> laid_at m' L' orig' pend' n p' w.
Proof.
  intros Hn Hpd Ha Hl. inversion Hl as [w' Hj Hr Hc|t x Hj Hc Hs Ht]; subst.
  - apply laid_copy; [by rewrite (alike_jump _ _ Ha)|by rewrite Ho|]. rewrite Ho by done.
    by apply (copy_grow pend _ p).
  - destruct Ha as (_ & E2 & E3). eapply laid_jump; [by rewrite E2|by rewrite E3|by apply stands_grow|].
    apply land_grow; [by destruct Hs|done].
Qed.
End Grow.

(** ** The state of [xfol] *)

(** [t0] is the start, [f] the instruction in front of the list. *)
Context (t0 f : Z).

(** What is laid out at place [i], and what its successor must stand for. *)
Definition place_ok m L orig pend (i : nat) (n : Z) (p : Prog) (w : option Z) : Prop :=
  if decide (i = 0%nat) then w = land m0 t0
  else marked FOLL p = true /\ laid_at m L orig pend n p w.

Record laid_out (m : gmap Z Prog) (L : list Z) (orig : Z -> Z) (pend : list Z) (wait : option Z) : Prop := {
  lo_nodup : NoDup (f :: L);
  lo_place : forall i n, (f :: L) !! i = Some n -> exists p w, m !! n = Some p
    /\ marked NOSCHED p = false /\ place_ok m L orig pend i n p w
    /\ match (f :: L) !! S i with
       | Some n' => link p = Some n' /\ forall x, w = Some x -> stands m L orig n' x
       | None => w = wait
       end }.

(** The instructions of the program: those laid out are marked, the others untouched. *)
Record originals (m : gmap Z Prog) (L : list Z) (orig : Z -> Z) : Prop := {
  or_orig : forall x, x ∈ D -> orig x = x;
  or_node : forall x, x ∈ D -> exists p0 p, m0 !! x = Some p0 /\ m !! x = Some p /\ alike p0 p
    /\ marked NOSCHED p = false /\ (x ∉ L -> link p = link p0)
    /\ (marked FOLL p = true -> x ∈ L \/ is_jump p0 = true) /\ (x ∈ L -> is_jump p0 = false) }.

Record inv (s : vl) (L : list Z) (orig : Z -> Z) (pend : list Z) (wait : option Z) : Prop := {
  in_last : lastp s = list.last (f :: L);
  in_first : firstp s = Some f;
  in_range : forall x, x ∈ f :: L \/ x ∈ D -> 0 <= x < nextp s;
  in_laid : laid_out (progs s) L orig pend wait;
  in_orig : originals (progs s) L orig }.

Context (Hf : f ∉ D).

(** *** One more instruction *)

(** [m'] is [m] with [n] after the last instruction. *)
Record extends (m m' : gmap Z Prog) (C : list Z) (n : Z) : Prop := {
  ex_fresh : n ∉ C;
  ex_last : forall k pk, list.last C = Some k -> m !! k = Some pk -> m' !! k = Some (pset_link (Some n) pk);
  ex_other : forall k, list.last C <> Some k -> m' !! k = m !! k }.

Lemma extends_agree m m' L n : extends m m' (f :: L) n -> agree L m m'.
Proof.
  intros [Hn Hl Ho] k p Hk Hp. destruct (decide (list.last (f :: L) = Some k)) as [E|E].
  - exists (pset_link (Some n) p). split; [by apply Hl|done].
  - exists p. split; [|done]. by rewrite Ho.
Qed.

Lemma last_in {A} (l : list A) x : list.last l = Some x -> x ∈ l.
Proof. intros [l' ->]%last_Some. apply elem_of_app. right. by left. Qed.

Lemma last_index {A} (l : list A) i x : l !! i = Some x -> (list.last l = Some x \/ is_Some (l !! S i)).
Proof.
  intros H. destruct (l !! S i) as [y|] eqn:E; [right; by eexists|left].
  apply lookup_ge_None in E. pose proof (lookup_lt_Some _ _ _ H). rewrite last_lookup.
  by replace (pred (length l)) with i by lia.
Qed.

Lemma laid_out_snoc m m' L orig orig' pend pend' wait n p w :
  laid_out m L orig pend wait -> extends m m' (f :: L) n ->
  (forall k, k ∈ L -> orig' k = orig k) -> (forall t, t ∈ pend -> t ∈ pend' \/ t ∈ L ++ [n]) ->
  m' !! n = Some p -> marked NOSCHED p = false -> marked FOLL p = true ->
  laid_at m' (L ++ [n]) orig' pend' n p w ->
  (forall x, wait = Some x -> stands m' (L ++ [n]) orig' n x) ->
  laid_out m' (L ++ [n]) orig' pend' w.
Proof.
  intros [Hnd Hpl] Hex Ho Hpd Hn Hns Hfo Hla Hst. pose proof (extends_agree _ _ _ _ Hex) as Hag.
  destruct Hex as [Hfr Hel Heo].
  assert (forall k, k ∈ L -> k ∈ L ++ [n]) as HL by (intros; apply elem_of_app; by left).
  split.
  - change (f :: L ++ [n]) with ((f :: L) ++ [n]). apply list.NoDup_app. split_and!; [done| |apply NoDup_singleton].
    intros x Hx ->%list_elem_of_singleton. done.
  - intros i k Hk. change (f :: L ++ [n]) with ((f :: L) ++ [n]) in *.
    destruct (decide (i = length (f :: L))) as [->|Hi].
    { rewrite list_lookup_middle in Hk by done. injection Hk as <-. exists p, w.
      split_and!; [done|done|by unfold place_ok; rewrite decide_False by done|].
      rewrite lookup_ge_None_2; [done|]. rewrite length_app. simpl. lia. }
    pose proof (lookup_lt_Some _ _ _ Hk) as Hlt. rewrite length_app in Hlt. cbn [length] in Hlt, Hi.
    rewrite lookup_app_l in Hk by (cbn [length]; lia).
    destruct (Hpl i k Hk) as (pk & wk & Hpk & Hnsk & Hok & Hsucc).
    assert (k ∈ f :: L) as Hkin by by eapply list_elem_of_lookup_2.
    assert (k <> n) as Hkn by congruence.
    assert (exists pk', m' !! k = Some pk' /\ alike pk pk' /\ p_mark pk' = p_mark pk /\
      (list.last (f :: L) <> Some k -> pk' = pk) /\ (list.last (f :: L) = Some k -> link pk' = Some n))
      as (pk' & Hpk' & Hal & Hmk & Hsame & Hlst).
    { destruct (decide (list.last (f :: L) = Some k)) as [E|E].
      - exists (pset_link (Some n) pk). by split_and!; [apply Hel| | | |].
      - exists pk. by split_and!; [rewrite Heo| | | |]. }
    exists pk', wk. split_and!; [done|by unfold marked; rewrite Hmk| |].
    + unfold place_ok in *. destruct (decide (i = 0%nat)); [done|]. destruct Hok as [H1 H2].
      split; [by unfold marked; rewrite Hmk|].
      apply (laid_grow m m' L (L ++ [n]) orig orig' Hag HL Ho pend pend' k pk); try done.
      destruct i; [done|]. by eapply list_elem_of_lookup_2.
    + destruct ((f :: L) !! S i) as [k'|] eqn:Ek'.
      * rewrite lookup_app_l by by eapply lookup_lt_Some. rewrite Ek'. destruct Hsucc as [H1 H2].
        assert (list.last (f :: L) <> Some k) as Hnl.
        { rewrite last_lookup. intros E. pose proof (NoDup_lookup _ _ _ _ Hnd E Hk).
          apply lookup_lt_Some in Ek'. lia. }
        rewrite Hsame by done. split; [done|]. intros x Hx.
        by apply (stands_grow m m' L (L ++ [n]) orig orig' Hag HL Ho), H2.
      * apply lookup_ge_None in Ek'. cbn [length] in Ek'.
        replace (S i) with (length (f :: L)) by (cbn [length]; lia). rewrite list_lookup_middle by done.
        split; [|intros x Hx; apply Hst; by rewrite <- Hsucc].
        apply Hlst. rewrite last_lookup. rewrite <- Hk. f_equal. cbn [length]. lia.
Qed.

(** What is not laid out does not matter. *)
Lemma laid_out_other m m' L orig pend wait :
  (forall k, k ∈ f :: L -> m' !! k = m !! k) ->
  laid_out m L orig pend wait -> laid_out m' L orig pend wait.
Proof.
  intros He [Hnd Hpl]. split; [done|]. intros i n Hn. destruct (Hpl i n Hn) as (p & w & Hp & Hns & Hok & Hs).
  assert (agree L m m') as Hag.
  { intros k pk Hk Hpk. exists pk. split; [|done]. rewrite He; [done|by right]. }
  exists p, w. split_and!; [rewrite He; [done|by eapply list_elem_of_lookup_2]|done| |].
  - unfold place_ok in *. destruct (decide (i = 0%nat)); [done|]. destruct Hok as [H1 H2]. split; [done|].
    apply (laid_grow m m' L L orig orig Hag ltac:(done) ltac:(done) pend pend n p); auto; [|done].
    destruct i; [done|]. by eapply list_elem_of_lookup_2.
  - destruct ((f :: L) !! S i) as [n'|]; [|done]. destruct Hs as [H1 H2]. split; [done|].
    intros x Hx. by apply (stands_grow m m' L L orig orig Hag ltac:(done) ltac:(done)), H2.
Qed.

(** What is still to be laid out may be laid out already. *)
Lemma laid_out_pend m L orig pend pend' wait :
  (forall t, t ∈ pend -> t ∈ pend' \/ t ∈ L) ->
  laid_out m L orig pend wait -> laid_out m L orig pend' wait.
Proof.
  intros Hpd [Hnd Hpl]. split; [done|]. intros i n Hn. destruct (Hpl i n Hn) as (p & w & Hp & Hns & Hok & Hs).
  exists p, w. split_and!; [done|done| |done]. unfold place_ok in *.
  destruct (decide (i = 0%nat)); [done|]. destruct Hok as [H1 H2]. split; [done|].
  apply (laid_grow m m L L orig orig) with (pend := pend) (p := p); try done.
  - intros k pk _ Hpk. by exists pk.
  - destruct i; [done|]. by eapply list_elem_of_lookup_2.
Qed.

Definition mark_foll (p : Prog) : Prog := pset_mark (Z.lor (p_mark p) FOLL) p.

Lemma mark_foll_foll p : marked FOLL (mark_foll p) = true.
Proof.
  unfold marked, mark_foll. simpl. rewrite Z.land_lor_distr_l. change (Z.land FOLL FOLL) with FOLL.
  apply negb_true_iff, Z.eqb_neq. intros H. apply (f_equal (fun z => Z.testbit z 0)) in H.
  rewrite Z.lor_spec in H. simpl in H. by rewrite orb_true_r in H.
Qed.

Lemma mark_foll_sched p : marked NOSCHED (mark_foll p) = marked NOSCHED p.
Proof.
  unfold marked, mark_foll. simpl. rewrite Z.land_lor_distr_l. change (Z.land FOLL NOSCHED) with 0.
  by rewrite Z.lor_0_r.
Qed.

Lemma mark_foll_alike p : alike p (mark_foll p).
Proof. done. Qed.

Lemma alike_trans p q r : alike p q -> alike q r -> alike p r.
Proof. intros (? & ? & ?) (? & ? & ?). split_and!; congruence. Qed.

(** A jump is marked, not laid out. *)
Lemma originals_jump m L orig x p :
  originals m L orig -> x ∈ D -> m !! x = Some p -> is_jump p = true ->
  originals (<[x := mark_foll p]> m) L orig.
Proof.
  intros [Ho Hn] Hx Hp Hj. split; [done|]. intros k Hk.
  destruct (Hn k Hk) as (p0 & q & H0 & Hq & Hal & Hns & Hlk & Hfl & HL). exists p0.
  destruct (decide (k = x)) as [->|Hne].
  - rewrite lookup_insert_eq. simplify_eq. exists (mark_foll p).
    split_and!; [done|done|done|by rewrite mark_foll_sched|done| |done].
    right. by rewrite <- (alike_jump _ _ Hal).
  - rewrite lookup_insert_ne by done. by exists q.
Qed.

(** A new instruction is laid out. *)
Lemma originals_new m m1 m' L orig orig' n :
  originals m L orig -> n ∉ D -> (forall x, x ∈ D -> orig' x = x) ->
  (forall k, k ∈ D -> m1 !! k = m !! k) -> (forall k, list.last (f :: L) = Some k -> k ∈ D -> k ∈ L) ->
  extends m1 m' (f :: L) n -> originals m' (L ++ [n]) orig'.
Proof.
  intros [Ho Hn] HnD Ho' Hm Hll [_ Hel Heo]. split; [done|]. intros x Hx.
  destruct (Hn x Hx) as (p0 & p & H0 & Hp & Hal & Hns & Hlk & Hfl & HL).
  assert (x <> n) as Hxn by congruence. rewrite <- Hm in Hp by done.
  assert (forall P : Prop, P \/ x ∈ L -> P \/ x ∈ L ++ [n]) as HLn.
  { intros P [?|?]; [by left|right]. apply elem_of_app. by left. }
  assert (x ∈ L ++ [n] -> x ∈ L) as HL'.
  { intros [?|?%list_elem_of_singleton]%elem_of_app; done. }
  destruct (decide (list.last (f :: L) = Some x)) as [E|E].
  - exists p0, (pset_link (Some n) p).
    split_and!; [done|by apply Hel|done|done| | |by intros; apply HL, HL'].
    + intros Hc. destruct Hc. apply elem_of_app. left. by apply Hll.
    + intros Hfo. destruct (Hfl Hfo); [|by right]. left. apply elem_of_app. by left.
  - exists p0, p. rewrite Heo by done. split_and!; try done.
    + intros Hc. apply Hlk. intros Hi. apply Hc, elem_of_app. by left.
    + intros Hfo. destruct (Hfl Hfo); [|by right]. left. apply elem_of_app. by left.
    + intros. by apply HL, HL'.
Qed.

(** An instruction of the program is laid out. *)
Lemma originals_place m m' L orig x p :
  originals m L orig -> x ∈ D -> x ∉ L -> m !! x = Some p -> is_jump p = false ->
  (forall k, list.last (f :: L) = Some k -> k ∈ D -> k ∈ L) ->
  extends (<[x := mark_foll p]> m) m' (f :: L) x -> originals m' (L ++ [x]) orig.
Proof.
  intros [Ho Hn] HxD HxL Hpx Hj Hll [Hfr Hel Heo]. split; [done|]. intros k Hk.
  destruct (Hn k Hk) as (p0 & q & H0 & Hq & Hal & Hns & Hlk & Hfl & HL).
  destruct (decide (k = x)) as [->|Hne].
  - simplify_eq. exists p0, (mark_foll p). split_and!; try done.
    + rewrite Heo; [apply lookup_insert_eq|]. intros E. by apply Hfr, last_in.
    + by rewrite mark_foll_sched.
    + intros _. by apply Hlk.
    + intros _. left. apply elem_of_app. right. by left.
    + intros _. by rewrite <- (alike_jump _ _ Hal).
  - assert (k ∈ L ++ [x] -> k ∈ L) as HL'.
    { intros [?|?%list_elem_of_singleton]%elem_of_app; done. }
    assert (k ∈ L -> k ∈ L ++ [x]) as HLn by (intros; apply elem_of_app; by left).
    destruct (decide (list.last (f :: L) = Some k)) as [E|E].
    + exists p0, (pset_link (Some x) q). split_and!; try done.
      * apply Hel; [done|]. by rewrite lookup_insert_ne.
      * intros Hc. destruct Hc. by apply HLn, Hll.
      * intros Hfo. destruct (Hfl Hfo); [|by right]. left. by apply HLn.
      * intros. by apply HL, HL'.
    + exists p0, q. rewrite Heo, lookup_insert_ne by done. split_and!; try done.
      * intros Hc. apply Hlk. intros Hi. by apply Hc, HLn.
      * intros Hfo. destruct (Hfl Hfo); [|by right]. left. by apply HLn.
      * intros. by apply HL, HL'.
Qed.

(** *** The operations *)

(** Instructions that have no mark yet. *)
Definition unmarked (m : gmap Z Prog) (x : Z) : bool :=
  match m !! x with Some p => negb (marked FOLL p) | None => false end.
Definition left (s : vl) : nat := length (List.filter (unmarked (progs s)) D).

Lemma filter_le {A} (g g' : A -> bool) l :
  (forall y, In y l -> g' y = true -> g y = true) -> (length (List.filter g' l) <= length (List.filter g l))%nat.
Proof.
  induction l as [|y l IH]; intros H; [done|]. simpl.
  assert (length (List.filter g' l) <= length (List.filter g l))%nat by (apply IH; intros; apply H; [by right|done]).
  pose proof (H y (or_introl eq_refl)). destruct (g' y), (g y); simpl; lia.
Qed.

Lemma filter_lt {A} (g g' : A -> bool) l x :
  (forall y, In y l -> g' y = true -> g y = true) -> In x l -> g x = true -> g' x = false ->
  (length (List.filter g' l) < length (List.filter g l))%nat.
Proof.
  induction l as [|y l IH]; intros H Hx Hg Hg'; [done|]. simpl.
  assert (length (List.filter g' l) <= length (List.filter g l))%nat
    by (apply filter_le; intros; apply H; [by right|done]).
  destruct Hx as [->|Hx].
  - rewrite Hg, Hg'. simpl. lia.
  - assert (length (List.filter g' l) < length (List.filter g l))%nat
      by (apply IH; try done; intros; apply H; [by right|done]).
    pose proof (H y (or_introl eq_refl)) as Hy. destruct (g' y), (g y); simpl; lia.
Qed.

(** Marks do not go away. *)
Definition more_marked (m m' : gmap Z Prog) : Prop :=
  forall x, x ∈ D -> unmarked m' x = true -> unmarked m x = true.

Lemma left_le s s' : more_marked (progs s) (progs s') -> (left s' <= left s)%nat.
Proof. intros H. apply filter_le. intros y Hy. apply H. by apply list_elem_of_In. Qed.

Lemma left_lt s s' x :
  more_marked (progs s) (progs s') -> x ∈ D -> unmarked (progs s) x = true ->
  unmarked (progs s') x = false -> (left s' < left s)%nat.
Proof.
  intros H Hx H1 H2. apply (filter_lt _ _ _ x); [|by apply list_elem_of_In|done|done].
  intros y Hy. apply H. by apply list_elem_of_In.
Qed.

Lemma set_foll_run X {A} x p (k : unit -> L A) Q s :
  progs s !! x = Some p ->
  lwp X (k tt) Q (lset_progs (<[x := mark_foll p]> (progs s)) s) -> lwp X (y ← set_foll x; k y) Q s.
Proof. apply lwp_updp. Qed.

Definition placed (n l : Z) (pl : Prog) (s : vl) : vl :=
  lset_lastp (Some n) (lset_progs (<[l := pset_link (Some n) pl]> (progs s)) s).

Lemma place_run X {A} n l pl (k : unit -> L A) Q s :
  lastp s = Some l -> progs s !! l = Some pl ->
  lwp X (k tt) Q (placed n l pl s) -> lwp X (y ← place n; k y) Q s.
Proof.
  intros Hl Hp. apply lwp_run. unfold place. unfold mbind, L_bind, lgets, updp, lmodify.
  rewrite Hl, Hp. reflexivity.
Qed.

Lemma placed_extends n l pl s C :
  list.last C = Some l -> progs s !! l = Some pl -> n ∉ C ->
  extends (progs s) (progs (placed n l pl s)) C n.
Proof.
  intros Hl Hp Hn. split; [done| |].
  - intros k pk E Hk. simplify_eq. apply lookup_insert_eq.
  - intros k E. apply lookup_insert_ne. congruence.
Qed.

(** The last instruction exists. *)
Lemma inv_last s L orig pend wait :
  inv s L orig pend wait -> exists l pl, list.last (f :: L) = Some l /\ lastp s = Some l
    /\ progs s !! l = Some pl /\ l ∈ f :: L /\ (l ∈ D -> l ∈ L).
Proof.
  intros Hi. destruct (list.last (f :: L)) as [l|] eqn:E.
  - pose proof (last_in _ _ E) as Hin. destruct (proj1 (list_elem_of_lookup _ _) Hin) as [i Hi'].
    destruct (lo_place _ _ _ _ _ (in_laid _ _ _ _ _ Hi) i l Hi') as (p & _ & Hp & _).
    exists l, p. split_and!; [done|by rewrite (in_last _ _ _ _ _ Hi)|done|done|].
    intros HlD. apply elem_of_cons in Hin as [->|]; done.
  - by apply list.last_None in E.
Qed.

Lemma real_land x p : m0 !! x = Some p -> is_jump p = false -> land m0 x = Some x.
Proof. intros Hp Hj. unfold land. rewrite Hp. simpl. by rewrite Hj. Qed.

Lemma unmarked_at m x p : m !! x = Some p -> unmarked m x = negb (marked FOLL p).
Proof. intros H. unfold unmarked. by rewrite H. Qed.

(** What the successor of an instruction must stand for. *)
Definition after (p0 : Prog) : option Z :=
  if stops (p_as p0) then None else link p0 ≫= land m0.

(** An instruction of the program as it is laid out. *)
Lemma laid_original m L orig pend x p0 p :
  x ∈ D -> m0 !! x = Some p0 -> is_jump p0 = false -> alike p0 p -> orig x = x ->
  (forall t, cond p0 = Some t -> p_as p0 <> AJAL -> stops (p_as p0) = false -> t ∈ pend) ->
  laid_at m L orig pend x p (after p0).
Proof.
  intros Hx H0 Hj Hal Ho Hpd. destruct (HD x Hx) as (q & Hn). pose proof (n0_at _ _ Hn) as Hq. simplify_eq.
  pose proof Hal as (E1 & E2 & E3).
  apply laid_copy; [by rewrite (alike_jump _ _ Hal)|rewrite Ho; split; [done|by exists p0]|].
  rewrite Ho. unfold after. destruct (stops (p_as p0)) eqn:Es; [by eapply copy_stop|].
  destruct (n0_next _ _ Hn Es) as [l Hl]. destruct (land_real l) as (y & Hy & _); [by eapply n0_link|].
  rewrite Hl. simpl. rewrite Hy. eapply copy_same; try done. intros t Ht Ha. right. by apply Hpd.
Qed.

Lemma place_original X x p0 (k : VlObj.L unit) Q s L orig pend pend' wait :
  inv s L orig pend wait -> x ∈ D -> m0 !! x = Some p0 -> is_jump p0 = false ->
  unmarked (progs s) x = true -> (forall y, wait = Some y -> y = x) ->
  (forall t, t ∈ pend -> t ∈ pend') ->
  (forall t, cond p0 = Some t -> p_as p0 <> AJAL -> stops (p_as p0) = false -> t ∈ pend') ->
  (forall s' p, inv s' (L ++ [x]) orig pend' (after p0) -> (left s' < left s)%nat ->
     progs s' !! x = Some p -> alike p0 p -> link p = link p0 -> lwp X k Q s') ->
  lwp X (set_foll x;; place x;; k) Q s.
Proof.
  intros Hi Hx H0 Hj Hu Hw Hpd Hc Hk. destruct (inv_last _ _ _ _ _ Hi) as (l & pl & Hl & Hls & Hpl & Hlin & HlD).
  pose proof Hi as [_ Hfst Hrg Hlo [Hor Hno]].
  destruct (Hno x Hx) as (q0 & p & Hq0 & Hp & Hal & Hns & Hlk & Hfl & HL). simplify_eq.
  rewrite (unmarked_at _ _ _ Hp) in Hu. apply negb_true_iff in Hu.
  assert (x ∉ L) as HxL.
  { intros HxL. apply list_elem_of_lookup in HxL as [i HxL].
    destruct (lo_place _ _ _ _ _ Hlo (S i) x HxL) as (px & w & Hpx & _ & Hok & _).
    unfold place_ok in Hok. rewrite decide_False in Hok by done. destruct Hok. congruence. }
  assert (x ∉ f :: L) as HxC by (intros [->|?]%elem_of_cons; done).
  assert (x <> l) as Hxl by congruence.
  apply (set_foll_run _ _ p); [done|]. set (s1 := lset_progs _ s).
  assert (progs s1 !! l = Some pl) as Hpl1 by (unfold s1; simpl; by rewrite lookup_insert_ne).
  apply (place_run _ _ l pl); [done|done|].
  pose proof (placed_extends x l pl s1 (f :: L) Hl Hpl1 HxC) as Hex.
  assert (progs (placed x l pl s1) !! x = Some (mark_foll p)) as Hx'.
  { simpl. rewrite lookup_insert_ne by done. apply lookup_insert_eq. }
  apply (Hk _ (mark_foll p)).
  - split.
    + simpl. by rewrite app_comm_cons, last_snoc.
    + done.
    + intros y Hy. simpl. apply Hrg. destruct Hy as [Hy|Hy]; [|by right].
      change (f :: L ++ [x]) with ((f :: L) ++ [x]) in Hy. apply elem_of_app in Hy as [Hy|Hy]; [by left|].
      apply list_elem_of_singleton in Hy as ->. by right.
    + apply (laid_out_snoc (progs s1) _ L orig orig pend pend' wait x (mark_foll p)); try done.
      * apply (laid_out_other (progs s)); [|done]. intros y Hy. simpl. rewrite lookup_insert_ne; [done|].
        intros ->. done.
      * intros t Ht. left. by apply Hpd.
      * by rewrite mark_foll_sched.
      * apply mark_foll_foll.
      * apply laid_original; try done. by apply Hor.
      * intros y ->. rewrite (Hw y eq_refl). split; [apply elem_of_app; right; by left|].
        exists x, (mark_foll p). split_and!; [|apply elem_of_app; right; by left|done| |by apply Hor].
        -- unfold land. rewrite Hx'. simpl. change (is_jump (mark_foll p)) with (is_jump p).
           by rewrite (alike_jump _ _ Hal), Hj.
        -- change (is_jump (mark_foll p)) with (is_jump p). by rewrite (alike_jump _ _ Hal).
    + apply (originals_place (progs s) _ L orig x p); try done.
      * by rewrite (alike_jump _ _ Hal).
      * intros y Hy HyD. simplify_eq. by apply HlD.
  - apply (left_lt _ _ x); [|done|by rewrite (unmarked_at _ _ _ Hp), Hu|].
    + intros y Hy. unfold unmarked. simpl. destruct (decide (y = l)) as [->|].
      * by rewrite lookup_insert_eq, Hpl.
      * rewrite lookup_insert_ne by done. destruct (decide (y = x)) as [->|]; [|by rewrite lookup_insert_ne].
        rewrite lookup_insert_eq, mark_foll_foll. done.
    + by rewrite (unmarked_at _ _ _ Hx'), mark_foll_foll.
  - done.
  - done.
  - simpl. by apply Hlk.
Qed.

Lemma extends_agree_all m m' C n K : extends m m' C n -> agree K m m'.
Proof.
  intros [Hn Hl Ho] k p Hk Hp. destruct (decide (list.last C = Some k)) as [E|E].
  - exists (pset_link (Some n) p). split; [by apply Hl|done].
  - exists p. split; [|done]. by rewrite Ho.
Qed.

(** A new instruction [n] with the content [p] goes to the end. *)
Lemma place_new {B} X n p w (k : VlObj.L B) Q s s1 L orig orig' pend pend' wait :
  inv s L orig pend wait -> n = nextp s ->
  progs s1 = <[n := p]> (progs s) -> nextp s1 = nextp s + 1 -> lastp s1 = lastp s -> firstp s1 = firstp s ->
  marked NOSCHED p = false -> marked FOLL p = true ->
  (forall x, x ∈ L \/ x ∈ D -> orig' x = orig x) -> (forall t, t ∈ pend -> t ∈ pend') ->
  laid_at (progs s1) (L ++ [n]) orig' pend' n p w ->
  (forall x, wait = Some x -> stands (progs s1) (L ++ [n]) orig' n x) ->
  (forall s', inv s' (L ++ [n]) orig' pend' w -> nextp s' = nextp s + 1 ->
     (forall x, x ∈ D -> unmarked (progs s') x = unmarked (progs s) x) -> progs s' !! n = Some p ->
     (forall x px, x <> n -> progs s !! x = Some px ->
        exists px', progs s' !! x = Some px' /\ alike px px') ->
     lwp X k Q s') ->
  lwp X (place n;; k) Q s1.
Proof.
  intros Hi -> E1 En El Ef Hns Hfo Ho Hpd Hla Hst Hk.
  destruct (inv_last _ _ _ _ _ Hi) as (l & pl & Hl & Hls & Hpl & Hlin & HlD).
  pose proof Hi as [_ Hfst Hrg Hlo Hor]. set (n := nextp s) in *.
  assert ((n ∉ f :: L) /\ (n ∉ D)) as [HnC HnD].
  { split; intros H; [destruct (Hrg n (or_introl H))|destruct (Hrg n (or_intror H))]; lia. }
  assert (n <> l) as Hnl by congruence.
  assert (progs s1 !! l = Some pl) as Hpl1 by (rewrite E1; by rewrite lookup_insert_ne).
  apply (place_run _ _ l pl); [by rewrite El|done|].
  pose proof (placed_extends n l pl s1 (f :: L) Hl Hpl1 HnC) as Hex.
  assert (progs (placed n l pl s1) !! n = Some p) as Hn'.
  { simpl. rewrite lookup_insert_ne by done. rewrite E1. apply lookup_insert_eq. }
  assert (forall K, agree K (progs s1) (progs (placed n l pl s1))) as Hag
    by (intros; by eapply extends_agree_all).
  apply Hk.
  - split.
    + simpl. by rewrite app_comm_cons, last_snoc.
    + simpl. by rewrite Ef.
    + intros y Hy. simpl. rewrite En.
      assert (y = n \/ y ∈ f :: L \/ y ∈ D) as [-> |Hy'].
      { destruct Hy as [Hy|Hy]; [|by right; right]. change (f :: L ++ [n]) with ((f :: L) ++ [n]) in Hy.
        apply elem_of_app in Hy as [Hy|Hy%list_elem_of_singleton]; [by right; left|by left]. }
      * destruct (Hrg l (or_introl Hlin)). lia.
      * specialize (Hrg y Hy'). lia.
    + apply (laid_out_snoc (progs s1) _ L orig orig' pend pend' wait n p); try done.
      * apply (laid_out_other (progs s)); [|done]. intros y Hy. rewrite E1.
        rewrite lookup_insert_ne; [done|]. intros <-. done.
      * intros y Hy. apply Ho. by left.
      * intros t Ht. left. by apply Hpd.
      * apply (laid_grow (progs s1) _ (L ++ [n]) (L ++ [n]) orig' orig' (Hag _)) with (pend := pend') (p := p);
          try done; [apply elem_of_app; right; by left|by intros t Ht; left].
      * intros y Hy. apply (stands_grow (progs s1) _ (L ++ [n]) (L ++ [n]) orig' orig' (Hag _)); auto.
    + apply (originals_new (progs s) (progs s1) _ L orig); try done.
      * intros y Hy. rewrite Ho by by right. by apply Hor.
      * intros y Hy. rewrite E1. rewrite lookup_insert_ne; [done|]. intros <-. done.
      * intros y Hy HyD. simplify_eq. by apply HlD.
  - done.
  - intros y Hy. unfold unmarked. simpl. destruct (decide (y = l)) as [->|].
    + by rewrite lookup_insert_eq, Hpl.
    + rewrite lookup_insert_ne by done. rewrite E1, lookup_insert_ne; [done|]. intros <-. done.
  - done.
  - intros y py Hy Hpy. simpl. destruct (decide (y = l)) as [->|].
    + rewrite lookup_insert_eq. exists (pset_link (Some n) pl). simplify_eq. done.
    + rewrite lookup_insert_ne by done. exists py. split; [|done]. by rewrite E1, lookup_insert_ne.
Qed.

Lemma inv_same s s' L orig pend wait :
  progs s' = progs s -> lastp s' = lastp s -> firstp s' = firstp s -> nextp s' = nextp s ->
  inv s L orig pend wait -> inv s' L orig pend wait.
Proof. intros E1 E2 E3 E4 [H1 H2 H3 H4 H5]. split; rewrite ?E1, ?E2, ?E3, ?E4; done. Qed.

Lemma inv_pend s L orig pend pend' wait :
  (forall t, t ∈ pend -> t ∈ pend' \/ t ∈ L) -> inv s L orig pend wait -> inv s L orig pend' wait.
Proof. intros H [H1 H2 H3 H4 H5]. split; try done. by eapply laid_out_pend. Qed.

(** *** The search for something to copy *)

(** What is laid out at [i], after the first. *)
Lemma place_at s L orig pend wait i n :
  inv s L orig pend wait -> (f :: L) !! i = Some n -> i <> 0%nat ->
  exists p w, progs s !! n = Some p /\ marked NOSCHED p = false /\ marked FOLL p = true
    /\ laid_at (progs s) L orig pend n p w /\ n ∈ L
    /\ match (f :: L) !! S i with
       | Some n' => link p = Some n' /\ forall x, w = Some x -> stands (progs s) L orig n' x
       | None => w = wait
       end.
Proof.
  intros Hi Hn H0. destruct (lo_place _ _ _ _ _ (in_laid _ _ _ _ _ Hi) i n Hn) as (p & w & Hp & Hns & Hok & Hs).
  unfold place_ok in Hok. rewrite decide_False in Hok by done. destruct Hok.
  exists p, w. split_and!; try done. destruct i; [done|]. by eapply list_elem_of_lookup_2.
Qed.

(** The target of an instruction that is laid out exists. *)
Lemma laid_cond m L orig pend n p w t :
  originals m L orig -> (forall k, k ∈ L -> is_Some (m !! k)) ->
  laid_at m L orig pend n p w -> cond p = Some t -> is_Some (m !! t).
Proof.
  intros [_ Hno] HL Hl Ht.
  assert (forall o p0, o ∈ D -> m0 !! o = Some p0 -> cond p0 = Some t -> is_Some (m !! t)) as Hc.
  { intros o p0 Ho H0 E. destruct (cond_real o p0 t Ho H0 E) as [HtD _].
    destruct (Hno t HtD) as (? & q & _ & Hq & _). by exists q. }
  inversion Hl as [w' Hj [HoD _] Hcp|t' x Hj E Hs Hld]; subst.
  - inversion Hcp; subst; try (eapply Hc; [exact HoD|done|congruence]).
    apply HL. match goal with H : stands _ _ _ _ _ |- _ => destruct H as [H _] end. congruence.
  - apply HL. destruct Hs. congruence.
Qed.

(** What [xfol_scan] may find. *)
Definition worth (s : vl) (L : list Z) (i : nat) (q : Z) : Prop :=
  exists j p, (i <= j)%nat /\ (f :: L) !! j = Some q /\ is_Some ((f :: L) !! S j) /\ progs s !! q = Some p
    /\ (stops (p_as p) = true \/ stops (p_as p) = false /\ (p_as p = ABEQ \/ p_as p = ABNE)
        /\ exists t pt, cond p = Some t /\ progs s !! t = Some pt /\ marked FOLL pt = false).

Lemma scan_run s L orig pend wait fuel cnt i n :
  inv s L orig pend wait -> (f :: L) !! i = Some n -> i <> 0%nat -> (length L < fuel + i)%nat ->
  exists r, xfol_scan fuel cnt (Some n) s = LOk r s
    /\ match r with Some q => worth s L i q | None => True end.
Proof.
  intros Hi. revert cnt i n. induction fuel as [|fuel IH]; intros cnt i n Hn H0 Hfu.
  { apply lookup_lt_Some in Hn. cbn [length] in Hn. lia. }
  cbn [xfol_scan]. destruct (4 <=? cnt); [by exists None|].
  unfold mbind at 1, L_bind at 1, lgets. case_bool_decide as El; [by exists None|].
  destruct (place_at _ _ _ _ _ i n Hi Hn H0) as (p & w & Hp & Hns & Hfo & Hla & HnL & Hs).
  unfold mbind at 1, L_bind at 1, getpo, getp. rewrite Hp, Hns.
  assert (exists n', (f :: L) !! S i = Some n' /\ link p = Some n') as (n' & Hn' & Hlk).
  { destruct ((f :: L) !! S i) as [n'|] eqn:E; [by exists n'; destruct Hs|].
    destruct El. rewrite (in_last _ _ _ _ _ Hi). destruct (last_index _ _ _ Hn) as [H|[? H]]; [done|congruence]. }
  assert (forall c, exists r, xfol_scan fuel c (link p) s = LOk r s
    /\ match r with Some q => worth s L i q | None => True end) as Hgo.
  { intros c. rewrite Hlk. destruct (IH c (S i) n' Hn') as (r & Hr & Hw); [done|lia|].
    exists r. split; [done|]. destruct r as [q|]; [|done]. destruct Hw as (j & pq & Hj & Hw).
    exists j, pq. split; [lia|done]. }
  destruct (p_as p =? ANOP); [apply Hgo|]. destruct (stops (p_as p)) eqn:Es.
  { exists (Some n). split; [done|]. exists i, p. split; [lia|]. split; [done|]. split; [by exists n'|]. split; [done|by left]. }
  destruct (cond p) as [t|] eqn:Et; [|apply Hgo].
  assert (is_Some (progs s !! t)) as [pt Hpt].
  { eapply laid_cond; [by apply Hi| |exact Hla|exact Et]. intros y Hy. apply list_elem_of_lookup in Hy as [k Hk].
    destruct (place_at _ _ _ _ _ (S k) y Hi Hk) as (py & _ & Hpy & _); [done|by exists py]. }
  unfold mbind at 1, L_bind at 1, getp. rewrite Hpt. destruct (marked FOLL pt) eqn:Em; [apply Hgo|].
  destruct (negb (p_as p =? ABEQ) && negb (p_as p =? ABNE)) eqn:Eb; [apply Hgo|].
  exists (Some n). split; [done|]. exists i, p. split; [lia|]. split; [done|]. split; [by exists n'|]. split; [done|right].
  split; [done|]. split; [|by exists t, pt].
  apply andb_false_iff in Eb as [E|E]; apply negb_false_iff, Z.eqb_eq in E; tauto.
Qed.

(** *** Copies *)

Lemma laid_rename m L orig pend n r p w :
  orig r = orig n -> laid_at m L orig pend n p w -> laid_at m L orig pend r p w.
Proof.
  intros E Hl. inversion Hl as [w' Hj Hr Hc|t x Hj Hc Hs Ht]; subst.
  - apply laid_copy; [done|by rewrite E|by rewrite E].
  - by eapply laid_jump.
Qed.

(** A copy stands for what its original stands for. *)
Lemma stands_copy m m1 L orig orig' n r p y :
  agree L m m1 -> (forall k, k ∈ L -> orig' k = orig k) -> m !! n = Some p ->
  m1 !! r = Some (mark_foll p) -> orig' r = orig n -> stands m L orig n y -> stands m1 (L ++ [r]) orig' r y.
Proof.
  intros Hag Ho Hp Hr Er (Hn & t & pt & Ht & HtL & Hpt & Hj & Hy).
  assert (r ∈ L ++ [r]) as Hrr by (apply elem_of_app; right; by left).
  split; [done|]. unfold land in Ht. rewrite Hp in Ht. simpl in Ht. destruct (is_jump p) eqn:E.
  - destruct (Hag t pt HtL Hpt) as (pt' & Hpt' & Hj' & _). exists t, pt'.
    split_and!; [|apply elem_of_app; by left|done|by rewrite Hj'|by rewrite Ho].
    unfold land. rewrite Hr. simpl. change (is_jump (mark_foll p)) with (is_jump p). by rewrite E.
  - injection Ht as <-. exists r, (mark_foll p). split_and!; try done; [|congruence].
    unfold land. rewrite Hr. simpl. change (is_jump (mark_foll p)) with (is_jump p). by rewrite E.
Qed.

(** [r] is the copy of [q] that the copies end with. *)
Definition copied (q : Z) (s : vl) (L : list Z) (orig : Z -> Z) (pend : list Z) (r : Z) (s' : vl) : Prop :=
  exists L1 orig' w pq pr, inv s' (L ++ L1 ++ [r]) orig' pend w
    /\ (forall k, k ∈ L -> orig' k = orig k) /\ orig' r = orig q
    /\ progs s !! q = Some pq /\ progs s' !! r = Some pr /\ alike pq pr
    /\ (stops (p_as pq) = true -> w = None)
    /\ (forall x, x ∈ D -> unmarked (progs s') x = unmarked (progs s) x)
    /\ (forall x px, x ∈ L -> progs s !! x = Some px ->
          exists px', progs s' !! x = Some px' /\ alike px px') /\ (r ∉ D).

Lemma copy_run fuel s L orig pend wait i j n q :
  inv s L orig pend wait -> (f :: L) !! i = Some n -> i <> 0%nat -> (f :: L) !! j = Some q ->
  (i <= j)%nat -> is_Some ((f :: L) !! S j) -> (j < fuel + i)%nat ->
  (forall y, wait = Some y -> stands (progs s) L orig n y) ->
  lwp noexit (xfol_copy fuel n q) (fun r s' => copied q s L orig pend r s') s.
Proof.
  revert s L orig wait i n. induction fuel as [|fuel IH]; intros s L orig wait i n Hi Hn H0 Hq Hij Hj Hfu Hw;
    [lia|].
  destruct (place_at _ _ _ _ _ i n Hi Hn H0) as (p & w & Hp & Hns & Hfo & Hla & HnL & Hs).
  set (r := nextp s). assert (n <> r) as Hnr.
  { intros ->. destruct (in_range _ _ _ _ _ Hi r); [left; by right|]. unfold r in *. lia. }
  cbn [xfol_copy]. apply lwp_prg. fold r. eapply lwp_getp; [simpl; rewrite lookup_insert_ne; [exact Hp|done]|].
  eapply lwp_updp; [apply lookup_insert_eq|]. eapply set_foll_run; [apply lookup_insert_eq|].
  match goal with |- lwp _ _ _ ?t => set (s1 := t) end.
  assert (progs s1 = <[r := mark_foll p]> (progs s)) as E1
    by (unfold s1; simpl; by rewrite !insert_insert_eq).
  set (orig' := fun k => if k =? r then orig n else orig k).
  assert (forall x, x ∈ L \/ x ∈ D -> orig' x = orig x) as Ho.
  { intros x Hx. unfold orig'. destruct (Z.eqb_spec x r) as [->|]; [|done].
    destruct (in_range _ _ _ _ _ Hi r); [destruct Hx; [left; by right|by right]|]. unfold r in *. lia. }
  assert (orig' r = orig n) as Er by (unfold orig'; by rewrite Z.eqb_refl).
  assert (agree L (progs s) (progs s1)) as Hag.
  { intros k pk Hk Hpk. exists pk. split; [|done]. rewrite E1, lookup_insert_ne; [done|].
    intros <-. destruct (in_range _ _ _ _ _ Hi r); [left; by right|]. unfold r in *. lia. }
  assert (laid_at (progs s1) (L ++ [r]) orig' pend r (mark_foll p) w) as Hlar.
  { apply (laid_rename _ _ _ _ n); [rewrite Er; symmetry; apply Ho; by left|].
    eapply (laid_grow (progs s)); [exact Hag|intros; apply elem_of_app; by left|intros; apply Ho; by left
      |exact HnL|by intros t Ht; left|apply mark_foll_alike|exact Hla]. }
  assert (forall B (k : VlObj.L B) Q, (forall s', inv s' (L ++ [r]) orig' pend w ->
     (forall x, x ∈ D -> unmarked (progs s') x = unmarked (progs s) x) -> progs s' !! r = Some (mark_foll p) ->
     (forall x px, x <> r -> progs s !! x = Some px ->
        exists px', progs s' !! x = Some px' /\ alike px px') -> lwp noexit k Q s') ->
     lwp noexit (place r;; k) Q s1) as Hplace.
  { intros B k Q Hk. apply (place_new noexit r (mark_foll p) w k Q s s1 L orig orig' pend pend wait); try done.
    - by rewrite mark_foll_sched.
    - apply mark_foll_foll.
    - intros x Hx. eapply (stands_copy (progs s)); [exact Hag|intros; apply Ho; by left|exact Hp| |exact Er|by apply Hw].
      rewrite E1. apply lookup_insert_eq.
    - intros s' H1 _ H2 H3 H4. by apply Hk. }
  assert (forall x, x ∈ L -> x <> r) as HLr.
  { intros x Hx ->. destruct (in_range _ _ _ _ _ Hi r); [left; by right|]. unfold r in *. lia. }
  destruct (Z.eqb_spec n q) as [->|Hnq].
  - apply Hplace. intros s' Hi' Hum Hr Hal. apply lwp_ret.
    exists [], orig', w, p, (mark_foll p). split_and!; try done.
    + intros k Hk. apply Ho. by left.
    + intros Hst. destruct Hla as [w' Hjj Hr' Hc|]; [|done].
      destruct Hc as [| p0 l x H1 H2 H3 H4 H5|p0 l y c x H1 H2 H3]; [done| |]; exfalso.
      * congruence.
      * destruct H3 as [[_ E]|[_ E]]; rewrite E in Hst; discriminate.
    + intros x px Hx Hpx. apply Hal; [by apply HLr|done].
    + intros HrD. destruct (in_range _ _ _ _ _ Hi r); [by right|]. unfold r in *. lia.
  - assert (i <> j) as Hne by (intros ->; congruence).
    assert (exists n', (f :: L) !! S i = Some n') as [n' Hn'].
    { apply lookup_lt_is_Some. destruct Hj as [z Hz]. apply lookup_lt_Some in Hz. lia. }
    rewrite Hn' in Hs. destruct Hs as [Hlk Hst].
    eapply lwp_getp; [rewrite E1, lookup_insert_ne by done; exact Hp|]. rewrite Hlk.
    apply Hplace. intros s' Hi' Hum Hr Hal.
    assert (forall k z, (f :: L) !! k = Some z -> (f :: L ++ [r]) !! k = Some z) as Hpre.
    { intros k z Hk. change (f :: L ++ [r]) with ((f :: L) ++ [r]). by apply lookup_app_l_Some. }
    eapply lwp_mono.
    { apply (IH s' (L ++ [r]) orig' w (S i) n'); try done; [by apply Hpre|by apply Hpre|lia| |lia|].
      - destruct Hj as [z Hz]. exists z. by apply Hpre.
      - intros y Hy. eapply (stands_grow (progs s)); [|intros; apply elem_of_app; by left|
          intros; apply Ho; by left|by apply Hst].
        intros k pk Hk Hpk. destruct (Hal k pk (HLr k Hk) Hpk) as (pk' & Hpk' & Hal').
        exists pk'. split; [done|by apply alike_like]. }
    intros r' s2 _ (L1 & orig2 & w2 & pq & pr & Hi2 & Ho2 & Eq2 & Hpq & Hpr & Halq & Hst2 & Hum2 & Hal2 & HrD).
    assert (q ∈ L) as HqL.
    { destruct j; [lia|]. by eapply list_elem_of_lookup_2. }
    destruct (place_at _ _ _ _ _ j q Hi Hq) as (pq0 & _ & Hpq0 & _); [lia|].
    destruct (Hal q pq0 (HLr q HqL) Hpq0) as (pq' & Hpq' & Halq'). simplify_eq.
    exists ([r] ++ L1), orig2, w2, pq0, pr. split_and!; try done.
    + by rewrite <- !app_assoc in *.
    + intros k Hk. rewrite Ho2 by (apply elem_of_app; by left). apply Ho. by left.
    + rewrite Eq2. apply Ho. by left.
    + by eapply alike_trans.
    + intros E. apply Hst2. destruct Halq' as (_ & Ha & _). by rewrite Ha.
    + intros x Hx. by rewrite Hum2, Hum.
    + intros x px Hx Hpx. destruct (Hal x px (HLr x Hx) Hpx) as (px' & Hpx' & Hax).
      destruct (Hal2 x px') as (px2 & Hpx2 & Hax2); [apply elem_of_app; by left|done|].
      exists px2. split; [done|by eapply alike_trans].
Qed.

(** The last instruction gets another content. *)
Lemma inv_turn s s' L r orig pend wait w p p' :
  inv s (L ++ [r]) orig pend wait -> r ∉ D -> progs s !! r = Some p -> is_jump p = false ->
  is_jump p' = false -> p_mark p' = p_mark p ->
  progs s' = <[r := p']> (progs s) -> lastp s' = lastp s -> firstp s' = firstp s -> nextp s' = nextp s ->
  laid_at (progs s') (L ++ [r]) orig pend r p' w -> inv s' (L ++ [r]) orig pend w.
Proof.
  intros [H1 H2 H3 [Hnd Hpl] [Ho Hno]] HrD Hp Hj Hj' Hm E1 E2 E3 E4 Hla.
  assert (agree (L ++ [r]) (progs s) (progs s')) as Hag.
  { intros k pk _ Hk. rewrite E1. destruct (decide (k = r)) as [->|].
    - rewrite lookup_insert_eq. exists p'. split; [done|]. simplify_eq. split; congruence.
    - rewrite lookup_insert_ne by done. by exists pk. }
  assert ((f :: L ++ [r]) !! S (length L) = Some r) as Hr by (simpl; by rewrite list_lookup_middle).
  split; [by rewrite E2|by rewrite E3|by rewrite E4| |].
  - split; [done|]. intros i n Hn. destruct (Hpl i n Hn) as (q & wq & Hq & Hns & Hok & Hs).
    destruct (decide (n = r)) as [->|Hnr].
    + pose proof (NoDup_lookup _ _ _ _ Hnd Hn Hr) as ->. simplify_eq. exists p', w.
      unfold place_ok in *. rewrite decide_False in * by done. destruct Hok as [Hfo _].
      split_and!; [rewrite E1; apply lookup_insert_eq|by unfold marked; rewrite Hm
        |by unfold marked; rewrite Hm|done|].
      rewrite lookup_ge_None_2; [done|]. simpl. rewrite length_app. simpl. lia.
    + exists q, wq. split_and!; [by rewrite E1, lookup_insert_ne|done| |].
      * unfold place_ok in *. destruct (decide (i = 0%nat)); [done|]. destruct Hok as [Hfo Hl].
        split; [done|]. apply (laid_grow (progs s) (progs s') (L ++ [r]) (L ++ [r]) orig orig Hag)
          with (pend := pend) (p := q); try done; [|by intros t Ht; left].
        destruct i; [done|]. by eapply list_elem_of_lookup_2.
      * destruct ((f :: L ++ [r]) !! S i) as [n'|] eqn:En'.
        -- destruct Hs as [Hs1 Hs2]. split; [done|]. intros x Hx.
           by apply (stands_grow (progs s) (progs s') (L ++ [r]) (L ++ [r]) orig orig Hag), Hs2.
        -- exfalso. apply lookup_ge_None in En'. cbn [length] in En'. rewrite length_app in En'. simpl in En'.
           pose proof (lookup_lt_Some _ _ _ Hn) as Hlt. cbn [length] in Hlt. rewrite length_app in Hlt. simpl in Hlt.
           assert (i = S (length L)) as -> by lia. congruence.
  - split; [done|]. intros x Hx. destruct (Hno x Hx) as (p0 & q & H). exists p0, q. rewrite E1.
    rewrite lookup_insert_ne; [done|]. intros <-. done.
Qed.

(** *** The recursion *)

(** A bound of the recursion: two for every instruction without a mark. *)
Definition need (s : vl) (x : Z) : nat :=
  2 * left s + if unmarked (progs s) x && match m0 !! x with Some p => negb (is_jump p) | None => false end
               then 1 else 2.

(** The list is longer, ends at a jump or return, and holds [x]. *)
Definition grown (s : vl) (L pend : list Z) (x : Z) (s' : vl) : Prop :=
  exists L' orig', inv s' (L ++ L') orig' pend None
    /\ (forall y, land m0 x = Some y -> y ∈ L ++ L') /\ (left s' <= left s)%nat.

Definition xfol_spec (xf : option Z -> VlObj.L unit) (n : nat) : Prop :=
  forall x s L orig pend wait, inv s L orig pend wait -> x ∈ D ->
  (forall y, wait = Some y -> land m0 x = Some y) -> (need s x <= n)%nat ->
  lwp noexit (xf (Some x)) (fun _ s' => grown s L pend x s') s.

Lemma left_same s s' : (forall x, x ∈ D -> unmarked (progs s') x = unmarked (progs s) x) -> left s' = left s.
Proof.
  intros H. apply Nat.le_antisymm; apply left_le; intros x Hx; by rewrite H.
Qed.

Lemma grown_in s L pend x y s' :
  land m0 x = Some y -> y ∈ L -> (exists L' orig', inv s' (L ++ L') orig' pend None) ->
  (left s' <= left s)%nat -> grown s L pend x s'.
Proof.
  intros Hx Hy (L' & orig' & Hi) Hle. exists L', orig'. split_and!; [done| |done].
  intros z Hz. simplify_eq. apply elem_of_app. by left.
Qed.

Lemma op_turn p a c l :
  p_as p = ABEQ /\ a = ABNE \/ p_as p = ABNE /\ a = ABEQ ->
  op (pset_link l (pset_cond c (pset_as a p))) = op p.
Proof. intros [[E ->]|[E ->]]; unfold op; simpl; by rewrite E. Qed.

(** A conditional branch to an instruction that is not laid out is as in the program. *)
Lemma laid_straight m L orig pend n p w t pt :
  laid_at m L orig pend n p w -> stops (p_as p) = false -> cond p = Some t -> m !! t = Some pt ->
  marked FOLL pt = false -> (forall k pk, k ∈ L -> m !! k = Some pk -> marked FOLL pk = true) ->
  exists p0 l y, real (orig n) /\ m0 !! orig n = Some p0 /\ op p = op p0 /\ p_as p = p_as p0 /\ cond p0 = Some t
    /\ link p0 = Some l /\ land m0 l = Some y /\ w = Some y.
Proof.
  intros Hl Hs Ht Hpt Hm HL. inversion Hl as [w' Hj Hr Hc|t' x E Hc Hst Hld]; subst.
  - inversion Hc as [p0 H1 H2 H3 H4 H5|p0 l x H1 H2 H3 H4 H5 H6 H7 H8|p0 l y c x H1 H2 H3 H4 H5 H6 H7 H8]; subst.
    + congruence.
    + exists p0, l, x. split_and!; try done. congruence.
    + destruct H7 as [HcL _]. assert (c = t) as -> by congruence. by rewrite (HL t pt HcL Hpt) in Hm.
  - unfold stops in Hs. rewrite E in Hs. done.
Qed.

Lemma copies_ok xf n s L orig pend wait i x qid :
  xfol_spec xf n -> inv s L orig pend wait -> (f :: L) !! i = Some x -> i <> 0%nat ->
  (forall y, wait = Some y -> stands (progs s) L orig x y) -> worth s L i qid -> (2 * left s + 1 <= n)%nat ->
  lwp noexit (xfol_copies xf x qid)
    (fun _ s' => (exists L' orig', inv s' (L ++ L') orig' pend None) /\ (left s' <= left s)%nat) s.
Proof.
  intros Hxf Hi Hx Hi0 Hw (j & p & Hij & Hq & Hsj & Hp & Hst) Hn. unfold xfol_copies.
  apply lwp_get. apply (lwp_getp _ _ p); [done|]. apply lwp_bind.
  pose proof Hq as Hq'. destruct j as [|j]; [lia|].
  assert (qid ∈ L) as HqL by by eapply list_elem_of_lookup_2.
  assert (length L < Z.to_nat (nextp s))%nat as HlenL.
  { pose proof (lo_nodup _ _ _ _ _ (in_laid _ _ _ _ _ Hi)) as Hnd.
    assert (f :: L ⊆+ seqZ 0 (nextp s)) as Hsub.
    { apply NoDup_submseteq; [done|]. intros z Hz. apply elem_of_seqZ.
      destruct (in_range _ _ _ _ _ Hi z (or_introl Hz)). lia. }
    apply submseteq_length in Hsub. rewrite length_seqZ in Hsub. cbn [length] in Hsub. lia. }
  eapply lwp_mono.
  { apply (copy_run _ s L orig pend wait i (S j) x qid Hi Hx Hi0 Hq Hij Hsj); [|done].
    apply lookup_lt_Some in Hq. cbn [length] in Hq. lia. }
  intros r s1 _ (L1 & o1 & w1 & pq & pr & Hi1 & Ho1 & Er & Hpq & Hpr & Hal & Hstop & Hum & Halk & HrD).
  rewrite Hp in Hpq. injection Hpq as <-. pose proof (left_same s s1 Hum) as Eleft.
  destruct (stops (p_as p)) eqn:Es.
  { apply lwp_ret. rewrite (Hstop eq_refl) in Hi1. split; [by eexists _, _|lia]. }
  destruct Hst as [?|(_ & Has & t & pt & Ht & Hpt & Hmt)]; [done|].
  (* the branch, in the new list *)
  set (LL := L ++ L1 ++ [r]) in *.
  assert (forall k z, (f :: L) !! k = Some z -> (f :: LL) !! k = Some z) as Hpre.
  { intros k z Hk. unfold LL. change (f :: L ++ L1 ++ [r]) with ((f :: L) ++ L1 ++ [r]).
    by apply lookup_app_l_Some. }
  assert (forall k pk, k ∈ L -> progs s !! k = Some pk -> marked FOLL pk = true) as HmL.
  { intros k pk Hk Hpk. apply list_elem_of_lookup in Hk as [e Hk].
    destruct (place_at _ _ _ _ _ (S e) k Hi Hk) as (? & _ & H1 & _ & H2 & _); [done|congruence]. }
  assert (forall k pk, k ∈ LL -> progs s1 !! k = Some pk -> marked FOLL pk = true) as HmLL.
  { intros k pk Hk Hpk. apply list_elem_of_lookup in Hk as [e Hk].
    destruct (place_at _ _ _ _ _ (S e) k Hi1 Hk) as (? & _ & H1 & _ & H2 & _); [done|congruence]. }
  destruct (place_at _ _ _ _ _ (S j) qid Hi Hq ltac:(done)) as (p_ & w_ & Hp_ & _ & _ & Hla & _).
  rewrite Hp in Hp_. injection Hp_ as <-.
  destruct (laid_straight _ _ _ _ _ _ _ t pt Hla Es Ht Hpt Hmt HmL)
    as (p0 & l & y & HrealD & H0 & Eop & Eas & Ec0 & El & Ey & _).
  assert (real t) as Htr by (eapply cond_real; [apply HrealD|exact H0|exact Ec0]).
  pose proof (Hum t (proj1 Htr)) as Hut. rewrite (unmarked_at _ _ _ Hpt), Hmt in Hut.
  destruct (place_at _ _ _ _ _ (S j) qid Hi1 (Hpre _ _ Hq) ltac:(done))
    as (p1 & w1' & Hp1 & _ & _ & Hla1 & _ & Hsucc).
  destruct (Halk qid p HqL Hp) as (p1' & Hp1' & Hal1). rewrite Hp1 in Hp1'. injection Hp1' as <-.
  assert (exists pt1, progs s1 !! t = Some pt1 /\ marked FOLL pt1 = false) as (pt1 & Hpt1 & Hmt1).
  { unfold unmarked in Hut. destruct (progs s1 !! t) as [pt1|]; [|done]. exists pt1. split; [done|].
    by apply negb_true_iff. }
  pose proof Hal1 as (Eop1 & Eas1 & Ec1). rewrite Ht in Ec1.
  destruct (laid_straight _ _ _ _ _ _ _ t pt1 Hla1 ltac:(by rewrite Eas1) Ec1 Hpt1 Hmt1 HmLL)
    as (p0' & l' & y' & _ & H0' & _ & _ & _ & El' & Ey' & Ew).
  rewrite (Ho1 qid HqL) in H0'. assert (p0' = p0) as -> by congruence.
  assert (l' = l) as -> by congruence. assert (y' = y) as -> by congruence. subst w1'.
  destruct Hsj as [c Hc]. rewrite (Hpre _ _ Hc) in Hsucc. destruct Hsucc as [Hlk Hstands].
  specialize (Hstands y eq_refl).
  assert (qid <> r) as Hqr.
  { intros ->. pose proof (lo_nodup _ _ _ _ _ (in_laid _ _ _ _ _ Hi1)) as Hnd. unfold LL in Hnd.
    apply list.NoDup_cons in Hnd as [_ Hnd]. apply list.NoDup_app in Hnd as (_ & Hnd & _).
    apply (Hnd r HqL). apply elem_of_app. right. by left. }
  (* the copy turned round *)
  cbv zeta. apply (lwp_updp _ _ pr); [done|].
  eapply lwp_getp; [simpl; rewrite lookup_insert_ne by done; exact Hp1|].
  eapply lwp_updp; [apply lookup_insert_eq|]. eapply lwp_updp; [apply lookup_insert_eq|].
  rewrite Hlk, Ec1. set (a := if p_as p =? ABNE then ABEQ else ABNE).
  set (p' := pset_link (Some t) (pset_cond (Some c) (pset_as a pr))).
  match goal with |- lwp _ _ _ ?z => set (s2 := z) end.
  assert (progs s2 = <[r := p']> (progs s1)) as E2 by (unfold s2; simpl; by rewrite !insert_insert_eq).
  destruct Hal as (Eopr & Easr & Ecr).
  assert (p_as pr = ABEQ /\ a = ABNE \/ p_as pr = ABNE /\ a = ABEQ) as Hturn.
  { rewrite Easr. unfold a. destruct Has as [-> | ->]; simpl; tauto. }
  assert (is_jump pr = false /\ is_jump p' = false) as [Hjr Hjp].
  { unfold is_jump. simpl. destruct Hturn as [[-> ->]|[-> ->]]; done. }
  assert (agree LL (progs s1) (progs s2)) as Hag2.
  { intros k pk _ Hk. rewrite E2. destruct (decide (k = r)) as [->|].
    - rewrite lookup_insert_eq. exists p'. split; [done|]. simplify_eq. split; congruence.
    - rewrite lookup_insert_ne by done. by exists pk. }
  assert (t <> r) as Htr' by (intros ->; by destruct Htr).
  assert (inv s2 LL o1 pend (Some t)) as Hi2.
  { unfold LL in *. rewrite app_assoc in *.
    apply (inv_turn s1 s2 (L ++ L1) r o1 pend w1 (Some t) pr p' Hi1 HrD Hpr Hjr Hjp); try done.
    apply laid_copy; [done|by rewrite Er|]. rewrite Er.
    apply (copy_turned _ _ _ _ _ _ p0 l y c t); try done.
    - unfold p'. rewrite op_turn by done. by rewrite Eopr.
    - rewrite <- Eas, <- Easr. unfold p'. simpl. tauto.
    - by apply (stands_grow (progs s1) (progs s2) _ _ o1 o1 Hag2). }
  apply (lwp_getp _ _ pt1); [by rewrite E2, lookup_insert_ne|]. rewrite Hmt1.
  destruct Htr as [HtD (pt0 & Hpt0 & Hjt)].
  assert (left s2 = left s1) as Eleft2.
  { apply left_same. intros z Hz. unfold unmarked. rewrite E2, lookup_insert_ne; [done|]. intros <-. done. }
  eapply lwp_mono.
  { apply (Hxf t s2 LL o1 pend (Some t) Hi2 HtD).
    - intros z [= <-]. by eapply real_land.
    - unfold need. rewrite E2. unfold unmarked. rewrite lookup_insert_ne, Hpt1, Hmt1, Hpt0, Hjt by done.
      simpl. lia. }
  intros [] s3 _ (L3 & o3 & Hi3 & _ & Hle3). split; [|lia]. unfold LL in Hi3.
  exists ((L1 ++ [r]) ++ L3), o3. by rewrite app_assoc.
Qed.

(** A jump to what has its place. *)
Lemma jump_ok xf s L orig pend wait x p :
  inv s L orig pend wait -> x ∈ L -> progs s !! x = Some p -> is_jump p = false ->
  (forall y, wait = Some y -> stands (progs s) L orig x y) ->
  lwp noexit (xfol_jump xf x)
    (fun _ s' => (exists L' orig', inv s' (L ++ L') orig' pend None) /\ (left s' <= left s)%nat) s.
Proof.
  intros Hi HxL Hp Hj Hw. unfold xfol_jump. set (r := nextp s).
  assert (forall y, y ∈ L \/ y ∈ D -> y <> r) as Hfresh.
  { intros y Hy ->. destruct (in_range _ _ _ _ _ Hi r); [destruct Hy; [left; by right|by right]|]. unfold r in *. lia. }
  assert (x <> r) as Hxr by (apply Hfresh; by left).
  apply lwp_prg. fold r. eapply lwp_getp; [simpl; rewrite lookup_insert_ne; [exact Hp|done]|].
  eapply lwp_updp; [apply lookup_insert_eq|]. unfold xfol_place.
  eapply set_foll_run; [apply lookup_insert_eq|].
  match goal with |- lwp _ _ _ ?t => set (s1 := t) end.
  set (pj := mark_foll (pset_cond (Some x) (pset_to (aset_offset (p_pc p) (aset_type D_BRANCH (to zprg)))
    (pset_line (p_line p) (pset_as AJMP zprg))))).
  assert (progs s1 = <[r := pj]> (progs s)) as E1 by (unfold s1; simpl; by rewrite !insert_insert_eq).
  assert (progs s1 !! x = Some p) as Hp1 by by rewrite E1, lookup_insert_ne.
  assert (land (progs s1) x = Some x) as Hlx by (unfold land; rewrite Hp1; simpl; by rewrite Hj).
  assert (x ∈ L ++ [r]) as HxL' by (apply elem_of_app; by left).
  apply (place_new noexit r pj None _ _ s s1 L orig orig pend pend wait); try done.
  - apply (laid_jump _ _ _ _ _ _ x (orig x)); try done. split; [done|].
    exists x, p. split_and!; done.
  - intros y Hy. destruct (Hw y Hy) as (_ & t & pt & Ht & HtL & Hpt & Hjt & Eo).
    unfold land in Ht. rewrite Hp in Ht. simpl in Ht. rewrite Hj in Ht. injection Ht as <-.
    split; [apply elem_of_app; right; by left|]. exists x, p.
    split_and!; try done. unfold land. rewrite E1, lookup_insert_eq. done.
  - intros s' Hi' _ Hum Hr _. apply (lwp_getp _ _ pj); [done|].
    change (lwp noexit (if marked NOSCHED pj then xf (link pj) else lskip) (fun _ s' =>
      (exists L' orig', inv s' (L ++ L') orig' pend None) /\ (left s' <= left s)%nat) s').
    change (marked NOSCHED pj) with false. apply lwp_ret. split; [by eexists _, _|].
    by rewrite (left_same s s').
Qed.

Lemma in_D s L orig pend wait x :
  inv s L orig pend wait -> x ∈ D -> exists p0 p, node0 x p0 /\ progs s !! x = Some p /\ alike p0 p
    /\ marked NOSCHED p = false /\ (is_jump p0 = false -> marked FOLL p = true -> x ∈ L)
    /\ (x ∈ L -> is_jump p0 = false).
Proof.
  intros Hi Hx. destruct (or_node _ _ _ (in_orig _ _ _ _ _ Hi) x Hx) as (p0 & p & H0 & Hp & Hal & Hns & _ & Hfo & HL).
  destruct (HD x Hx) as (q0 & Hn). pose proof (n0_at _ _ Hn) as Hq. simplify_eq.
  exists p0, p. split_and!; try done. intros Hj Hm. destruct (Hfo Hm); [done|congruence].
Qed.

Lemma length_next s L orig pend wait : inv s L orig pend wait -> (length L < Z.to_nat (nextp s))%nat.
Proof.
  intros Hi. pose proof (lo_nodup _ _ _ _ _ (in_laid _ _ _ _ _ Hi)) as Hnd.
  assert (f :: L ⊆+ seqZ 0 (nextp s)) as Hsub.
  { apply NoDup_submseteq; [done|]. intros z Hz. apply elem_of_seqZ.
    destruct (in_range _ _ _ _ _ Hi z (or_introl Hz)). lia. }
  apply submseteq_length in Hsub. rewrite length_seqZ in Hsub. cbn [length] in Hsub. lia.
Qed.

(** The instruction has its place: what follows it is copied, or jumped to. *)
Lemma rest_again xf n s L orig pend wait x p0 p a :
  xfol_spec xf n -> inv s L orig pend wait -> x ∈ D -> m0 !! x = Some p0 -> is_jump p0 = false ->
  progs s !! x = Some p -> marked FOLL p = true -> (forall y, wait = Some y -> y = x) ->
  (2 * left s + 1 <= n)%nat ->
  lwp noexit (xfol_rest xf x a) (fun _ s' => grown s L pend x s') s.
Proof.
  intros Hxf Hi Hx H0 Hj Hp Hm Hw Hn.
  destruct (in_D _ _ _ _ _ x Hi Hx) as (q0 & q & Hn0 & Hq & Hal & Hns & HinL & _).
  pose proof (n0_at _ _ Hn0) as Hq0. simplify_eq. specialize (HinL Hj Hm).
  assert (is_jump p = false) as Hjp by by rewrite (alike_jump _ _ Hal).
  assert (forall y, wait = Some y -> stands (progs s) L orig x y) as Hst.
  { intros y ->. rewrite (Hw y eq_refl). split; [done|]. exists x, p. split_and!; try done.
    - unfold land. rewrite Hp. simpl. by rewrite Hjp.
    - by apply (in_orig _ _ _ _ _ Hi). }
  unfold xfol_rest. apply (lwp_getp _ _ p); [done|]. rewrite Hm. apply lwp_get.
  apply list_elem_of_lookup in HinL as Hix. destruct Hix as [i Hix].
  destruct (scan_run s L orig pend wait (Z.to_nat (nextp s)) 0 (S i) x Hi Hix) as (r & Hr & Hwr);
    [done|pose proof (length_next _ _ _ _ _ Hi); lia|].
  eapply lwp_run; [exact Hr|]. destruct r as [qid|].
  - eapply lwp_mono; [by apply (copies_ok xf n s L orig pend wait (S i) x qid)|].
    intros [] s' _ [H1 H2]. apply (grown_in _ _ _ _ x); [by eapply real_land|done|done|done].
  - eapply lwp_mono; [by apply (jump_ok xf s L orig pend wait x p)|].
    intros [] s' _ [H1 H2]. apply (grown_in _ _ _ _ x); [by eapply real_land|done|done|done].
Qed.

(** The instruction is laid out, and what follows it. *)
Lemma place_ok_xfol xf n s L orig pend wait x p0 :
  xfol_spec xf n -> inv s L orig pend wait -> x ∈ D -> m0 !! x = Some p0 -> is_jump p0 = false ->
  unmarked (progs s) x = true -> (forall y, wait = Some y -> y = x) -> (2 * left s <= n)%nat ->
  lwp noexit (xfol_place xf x (p_as p0)) (fun _ s' => grown s L pend x s') s.
Proof.
  intros Hxf Hi Hx H0 Hj Hu Hw Hn. unfold xfol_place.
  destruct (HD x Hx) as (q0 & Hn0). pose proof (n0_at _ _ Hn0) as Hq0. rewrite H0 in Hq0. injection Hq0 as <-.
  pose proof (real_land x p0 H0 Hj) as Hlx.
  set (two := match cond p0 with Some _ => negb (stops (p_as p0) || (p_as p0 =? AJAL)) | None => false end).
  set (pend' := match cond p0 with Some t => if two then t :: pend else pend | None => pend end).
  assert (two = false -> pend' = pend) as Hone by (unfold pend'; intros ->; by destruct (cond p0)).
  apply (place_original noexit x p0 _ _ s L orig pend pend' wait); try done.
  { intros t Ht. unfold pend'. destruct (cond p0); [destruct two; [by right|done]|done]. }
  { intros t Ht Ha Hs. unfold pend', two. rewrite Ht, Hs, (proj2 (Z.eqb_neq _ _) Ha). by left. }
  intros s1 p Hi1 Hlt Hp Hal Hlk.
  destruct (in_D _ _ _ _ _ x Hi1 Hx) as (q0 & q & _ & Hq & _ & Hns & _).
  rewrite Hp in Hq. injection Hq as <-. apply (lwp_getp _ _ p); [done|]. rewrite Hns.
  assert (x ∈ L ++ [x]) as HxL by (apply elem_of_app; right; by left).
  assert (forall s2 pend2 L2 o2, inv s2 ((L ++ [x]) ++ L2) o2 pend2 None -> (left s2 <= left s)%nat ->
    (forall t, t ∈ pend2 -> t ∈ pend \/ t ∈ (L ++ [x]) ++ L2) -> grown s L pend x s2) as Hdone.
  { intros s2 pend2 L2 o2 H2 Hle Hpd. exists ([x] ++ L2), o2. rewrite app_assoc.
    split_and!; [by eapply inv_pend| |done]. intros y Hy. simplify_eq.
    apply elem_of_app. by left. }
  destruct (stops (p_as p0)) eqn:Es.
  { apply lwp_ret. unfold after in Hi1. rewrite Es in Hi1. rewrite Hone in Hi1 by (unfold two; by destruct (cond p0)).
    apply (Hdone s1 pend [] orig); [by rewrite app_nil_r|lia|by intros t Ht; left]. }
  destruct (n0_next _ _ Hn0 Es) as [l Hl]. pose proof (n0_link _ _ Hn0 l Hl) as HlD.
  assert (after p0 = land m0 l) as Eaf by (unfold after; by rewrite Es, Hl).
  rewrite Eaf in Hi1. destruct Hal as (_ & Eas & Ec). rewrite Hlk, Hl, Ec.
  (* the successor *)
  assert (lwp noexit (xf (Some l)) (fun _ s2 => exists L2 o2, inv s2 ((L ++ [x]) ++ L2) o2 pend' None
    /\ (left s2 <= left s1)%nat) s1) as Hsucc.
  { eapply lwp_mono.
    - apply (Hxf l s1 (L ++ [x]) orig pend' (land m0 l) Hi1 HlD); [by intros y ->|].
      unfold need. destruct (_ && _); lia.
    - intros [] s2 _ (L2 & o2 & H2 & _ & Hle). by exists L2, o2. }
  assert (two = false -> lwp noexit (xf (Some l)) (fun _ s' => grown s L pend x s') s1) as Honly.
  { intros E. eapply lwp_mono; [exact Hsucc|]. intros [] s2 _ (L2 & o2 & H2 & Hle). rewrite Hone in H2 by done.
    apply (Hdone s2 pend L2 o2); [done|lia|by intros t Ht; left]. }
  destruct (cond p0) as [t|] eqn:Et; [|by apply Honly].
  destruct (p_as p0 =? AJAL) eqn:Ej; [by apply Honly; unfold two; rewrite ?Et, ?Es, ?Ej|]. cbn [negb].
  assert (two = true) as Etwo by (unfold two; by rewrite ?Et, ?Es, ?Ej).
  assert (pend' = t :: pend) as Epd by (unfold pend'; by rewrite ?Et, ?Etwo).
  apply lwp_bind. eapply lwp_mono; [exact Hsucc|]. intros [] s2 _ (L2 & o2 & H2 & Hle2). rewrite Epd in H2.
  destruct (cond_real x p0 t Hx H0 Et) as [HtD (pt0 & Hpt0 & Hjt)].
  destruct (in_D _ _ _ _ _ x H2 Hx) as (p1 & p2 & Hn1 & Hp2 & (_ & _ & Ecq) & _).
  pose proof (n0_at _ _ Hn1) as Hp1. rewrite H0 in Hp1. injection Hp1 as <-.
  apply (lwp_getp _ _ p2); [done|]. rewrite Ecq, Et.
  destruct (in_D _ _ _ _ _ t H2 HtD) as (pt0' & pt & Hnt & Hpt & _ & _ & HtL & _).
  pose proof (n0_at _ _ Hnt) as Hnt'. rewrite Hpt0 in Hnt'. injection Hnt' as <-.
  apply (lwp_getp _ _ pt); [done|]. destruct (marked FOLL pt) eqn:Em.
  - apply lwp_ret. apply (Hdone s2 (t :: pend) L2 o2); [done|lia|].
    intros z [->|Hz]%elem_of_cons; [right; by apply HtL|by left].
  - eapply lwp_mono.
    { apply (Hxf t s2 ((L ++ [x]) ++ L2) o2 (t :: pend) None H2 HtD); [done|].
      unfold need. destruct (_ && _); lia. }
    intros [] s3 _ (L3 & o3 & H3 & Hin & Hle3). rewrite <- app_assoc in H3.
    apply (Hdone s3 (t :: pend) (L2 ++ L3) o3); [done|lia|].
    intros z [->|Hz]%elem_of_cons; [right|by left]. rewrite app_assoc. apply Hin. by eapply real_land.
Qed.

Lemma inv_curtext ct s L orig pend wait :
  inv s L orig pend wait -> inv (lset_curtext ct s) L orig pend wait.
Proof. by apply inv_same. Qed.

(** *** xfol *)

Lemma step_ok xf n : xfol_spec xf n -> forall x s L orig pend wait,
  inv s L orig pend wait -> x ∈ D -> (forall y, wait = Some y -> land m0 x = Some y) ->
  (need s x <= S n)%nat -> lwp noexit (xfol_step xf x) (fun _ s' => grown s L pend x s') s.
Proof.
  intros Hxf x s L orig pend wait Hi Hx Hw Hn. unfold xfol_step.
  destruct (in_D _ _ _ _ _ x Hi Hx) as (p0 & p & Hn0 & Hp & Hal & Hns & HinL & HLj).
  pose proof (n0_at _ _ Hn0) as H0. pose proof (alike_jump _ _ Hal) as Ejp. pose proof Hal as (_ & Eas & Ec).
  apply (lwp_getp _ _ p); [done|]. apply lwp_bind.
  apply (lwp_mono _ _ (fun _ s1 => exists ct, s1 = lset_curtext ct s)).
  { unfold note_text. destruct (_ =? _); [by eexists|]. exists (curtext s). by destruct s. }
  intros [] s1 _ (ct & ->). apply (inv_curtext ct) in Hi. set (s1 := lset_curtext ct s) in *.
  change (need s x) with (need s1 x) in Hn. change (progs s) with (progs s1) in Hp.
  change (lwp noexit (if p_as p =? AJMP then
      ns ← (match cond p with Some q => y ← getp q; mret (marked NOSCHED y) | None => mret false end);
      if marked NOSCHED p || ns then
        set_foll x;; place x;; y ← getp x; xf (link y);;
        match cond p with
        | None => lskip
        | Some q => y ← getp q; if marked FOLL y then lskip else xf (Some q)
        end
      else match cond p with
           | None => xfol_rest xf x AJMP
           | Some q => set_foll x;; y ← getp q; if marked FOLL y then xfol_rest xf q AJMP else xf (Some q)
           end
      else xfol_rest xf x (p_as p)) (fun _ s' => grown s1 L pend x s') s1).
  assert (is_jump p0 = false -> lwp noexit (xfol_rest xf x (p_as p0)) (fun _ s' => grown s1 L pend x s') s1) as Hrest.
  { intros Hj. assert (forall y, wait = Some y -> y = x) as Hw'.
    { intros y Hy. specialize (Hw y Hy). rewrite (real_land x p0 H0 Hj) in Hw. congruence. }
    unfold need in Hn. rewrite (unmarked_at _ _ _ Hp), H0, Hj in Hn.
    destruct (marked FOLL p) eqn:Em; cbn [negb andb] in Hn.
    - apply (rest_again xf n s1 L orig pend wait x p0 p); try done. lia.
    - unfold xfol_rest. apply (lwp_getp _ _ p); [done|]. rewrite Em.
      apply (place_ok_xfol xf n s1 L orig pend wait x p0); try done; [|lia].
      by rewrite (unmarked_at _ _ _ Hp), Em. }
  rewrite Eas. destruct (Z.eqb_spec (p_as p0) AJMP) as [Ej|Ej].
  2:{ apply Hrest. unfold is_jump. by rewrite (proj2 (Z.eqb_neq _ _) Ej). }
  rewrite Ec. destruct (cond p0) as [q|] eqn:Eq.
  2:{ apply (lwp_run _ _ _ _ _ false s1); [done|]. rewrite Hns. cbn [orb]. rewrite <- Ej. apply Hrest.
      unfold is_jump. rewrite Eq. by rewrite bool_decide_false, andb_false_r by (intros [? ?]; done). }
  assert (is_jump p0 = true) as Hj.
  { unfold is_jump. rewrite Ej, Eq. by rewrite bool_decide_true by by exists q. }
  destruct (cond_real x p0 q Hx H0 Eq) as [HqD (pq0 & Hpq0 & Hjq)].
  assert (q <> x) as Hqx by congruence.
  destruct (in_D _ _ _ _ _ q Hi HqD) as (pq0' & pq & Hnq & Hpq & Halq & Hnsq & HqL & _).
  pose proof (n0_at _ _ Hnq) as Hpq0'. rewrite Hpq0 in Hpq0'. injection Hpq0' as <-.
  apply (lwp_run _ _ _ _ _ false s1).
  { unfold mbind, L_bind, getp. rewrite Hpq, Hnsq. done. }
  rewrite Hns. cbn [orb]. apply (set_foll_run _ _ p); [done|]. set (s2 := lset_progs _ s1).
  assert (x ∉ f :: L) as HxC.
  { intros [->|HxL]%elem_of_cons; [done|]. apply HLj in HxL. congruence. }
  assert (inv s2 L orig pend wait) as Hi2.
  { destruct Hi as [A1 A2 A3 A4 A5]. split; try done.
    - apply (laid_out_other (progs s1)); [|done]. intros k Hk. simpl. rewrite lookup_insert_ne; [done|].
      intros <-. done.
    - apply originals_jump; try done. by rewrite Ejp. }
  assert (land m0 x = Some q) as Hlx by (unfold land; rewrite H0; simpl; by rewrite Hj).
  assert (progs s2 !! q = Some pq) as Hpq2 by (simpl; by rewrite lookup_insert_ne).
  assert (left s2 <= left s1)%nat as Hle.
  { apply left_le. intros y Hy. unfold unmarked. simpl. destruct (decide (y = x)) as [->|].
    - by rewrite lookup_insert_eq, mark_foll_foll.
    - by rewrite lookup_insert_ne. }
  assert (2 * left s1 + 2 <= S n)%nat as Hn2.
  { unfold need in Hn. rewrite H0, Hj, andb_false_r in Hn. lia. }
  assert (forall s', grown s2 L pend q s' -> grown s1 L pend x s') as Hgr.
  { intros s' (L' & o' & H1 & H2 & H3). exists L', o'. split_and!; [done| |lia].
    intros y Hy. simplify_eq. apply H2. by eapply real_land. }
  apply (lwp_getp _ _ pq); [done|]. destruct (marked FOLL pq) eqn:Em.
  - eapply lwp_mono; [apply (rest_again xf n s2 L orig pend wait q pq0 pq)|by intros [] s' _; apply Hgr]; try done.
    + intros y Hy. specialize (Hw y Hy). congruence.
    + lia.
  - eapply lwp_mono; [apply (Hxf q s2 L orig pend wait)|by intros [] s' _; apply Hgr]; try done.
    + intros y Hy. specialize (Hw y Hy). rewrite Hlx in Hw. injection Hw as <-. by eapply real_land.
    + unfold need. rewrite (unmarked_at _ _ _ Hpq2), Em, Hpq0, Hjq. simpl. lia.
Qed.

Lemma xfol_ok n : xfol_spec (xfol n) n.
Proof.
  induction n as [|n IH].
  - intros x s L orig pend wait _ _ _ Hn. unfold need in Hn. destruct (_ && _); lia.
  - intros x s L orig pend wait Hi Hx Hw Hn. exact (step_ok (xfol n) n IH x s L orig pend wait Hi Hx Hw Hn).
Qed.

(** ** The traces *)

(** The last link, which nothing uses, may change. *)
Lemma laid_out_alike m m' L orig pend wait :
  (forall k p, m !! k = Some p -> exists p', m' !! k = Some p' /\ alike p p' /\ p_mark p' = p_mark p
     /\ (list.last (f :: L) <> Some k -> link p' = link p)) ->
  laid_out m L orig pend wait -> laid_out m' L orig pend wait.
Proof.
  intros He [Hnd Hpl].
  assert (agree L m m') as Hag.
  { intros k pk _ Hpk. destruct (He k pk Hpk) as (p' & Hp' & Hal & _). exists p'.
    split; [done|by apply alike_like]. }
  split; [done|]. intros i n Hn. destruct (Hpl i n Hn) as (p & w & Hp & Hns & Hok & Hs).
  destruct (He n p Hp) as (p' & Hp' & Hal & Hm & Hlk).
  exists p', w. split_and!; [done|by unfold marked; rewrite Hm| |].
  - unfold place_ok in *. destruct (decide (i = 0%nat)); [done|]. destruct Hok as [H1 H2].
    split; [by unfold marked; rewrite Hm|].
    apply (laid_grow m m' L L orig orig Hag) with (pend := pend) (p := p); try done; [|by intros t Ht; left].
    destruct i; [done|]. by eapply list_elem_of_lookup_2.
  - destruct ((f :: L) !! S i) as [n'|] eqn:En'; [|done]. destruct Hs as [H1 H2].
    assert (list.last (f :: L) <> Some n) as Hnl.
    { rewrite last_lookup. intros E. pose proof (NoDup_lookup _ _ _ _ Hnd E Hn).
      apply lookup_lt_Some in En'. lia. }
    rewrite Hlk by done. split; [done|]. intros x Hx.
    by apply (stands_grow m m' L L orig orig Hag), H2.
Qed.

Section Traces.
Context (m : gmap Z Prog) (L : list Z) (orig : Z -> Z).
Context (Hlo : laid_out m L orig [] None) (Hor : forall x, x ∈ D -> orig x = x).
Context (Hal : forall x p0, x ∈ D -> m0 !! x = Some p0 -> exists p, m !! x = Some p /\ alike p0 p).

Lemma trace_land m1 m2 x y ds :
  land m1 x = land m2 y -> m1 = m2 -> trace m1 x ds = trace m2 y ds.
Proof. intros E <-. destruct ds; simpl; by rewrite E. Qed.

Lemma trace_stop m1 x ds : land m1 x = None -> trace m1 x ds = [].
Proof. intros E. destruct ds; simpl; by rewrite E. Qed.

(** The successor of what is laid out, for the outcome [d] of its test. *)
Lemma next_laid n p d :
  n ∈ L -> m !! n = Some p -> is_jump p = false ->
  exists p0, m0 !! orig n = Some p0 /\ op p = op p0 /\ real (orig n) /\
    match next d p0 with
    | None => next d p = None
    | Some x => exists z y, next d p = Some z /\ land m0 x = Some y /\ stands m L orig z y
    end.
Proof.
  intros Hn Hp Hj. apply list_elem_of_lookup in Hn as [i Hn].
  destruct (lo_place _ _ _ _ _ Hlo (S i) n Hn) as (q & w & Hq & _ & Hok & Hs). simplify_eq.
  unfold place_ok in Hok. rewrite decide_False in Hok by done. destruct Hok as [_ Hla].
  inversion Hla as [w' _ Hr Hc|t x E1 E2]; subst.
  2:{ unfold is_jump in Hj. rewrite E1, E2, bool_decide_true in Hj by by eexists. done. }
  assert (forall x, w = Some x -> exists z, link p = Some z /\ stands m L orig z x) as Hlk.
  { intros x ->. destruct ((f :: L) !! S (S i)) as [z|]; [|done]. destruct Hs as [H1 H2].
    exists z. split; [done|by apply H2]. }
  inversion Hc as [p0 H1 H2 H3 H4 H5|p0 l x H1 H2 H3 H4 H5 H6 H7 H8|p0 l y c x H1 H2 H3 H4 H5 H6 H7 H8]; subst.
  - exists p0. split_and!; try done. unfold next. by rewrite H3, H5.
  - exists p0. split_and!; try done. unfold next, two_way. rewrite H3, H4, H5.
    destruct (Hlk x eq_refl) as (z & Hz & Hst).
    destruct (negb (p_as p0 =? AJAL) && bool_decide (is_Some (cond p0))
      && eqb d (negb (p_as p0 =? ABNE))) eqn:E.
    + apply andb_true_iff in E as [E _]. apply andb_true_iff in E as [Ea Et].
      apply negb_true_iff, Z.eqb_neq in Ea. apply bool_decide_eq_true in Et as [t Et]. rewrite Et.
      destruct (H8 t Et Ea) as [HtL|Ht]; [|by apply elem_of_nil in Ht].
      destruct (cond_real (orig n) p0 t (proj1 Hr) H1 Et) as [HtD (pt0 & Hpt0 & Hjt)].
      destruct (Hal t pt0 HtD Hpt0) as (pt & Hpt & Halt).
      assert (is_jump pt = false) as Hjt' by by rewrite (alike_jump _ _ Halt).
      exists t, t. split_and!; [done|by eapply real_land|]. split; [done|]. exists t, pt.
      split_and!; try done; [unfold land; rewrite Hpt; simpl; by rewrite Hjt'|by apply Hor].
    + rewrite H6. exists z, x. by split_and!.
  - exists p0. split_and!; try done.
    destruct (Hlk x eq_refl) as (z & Hz & Hst).
    destruct (cond_real (orig n) p0 x (proj1 Hr) H1 H8) as [HtD (pt0 & Hpt0 & Hjt)].
    pose proof (real_land x pt0 Hpt0 Hjt) as Hlx.
    unfold next, two_way. rewrite H6, H8.
    destruct H3 as [[-> ->]|[-> ->]]; cbn; destruct d; cbn; rewrite ?H4, ?Hz, ?H6;
      first [exists z, x; by split_and!|exists c, y; by split_and!].
Qed.

Lemma trace_laid ds n p :
  n ∈ L -> m !! n = Some p -> is_jump p = false -> trace m n ds = trace m0 (orig n) ds.
Proof.
  revert n p. induction ds as [|d ds IH]; intros n p Hn Hp Hj;
    destruct (next_laid n p true Hn Hp Hj) as (p0 & H0 & Hop & [HoD (q0 & Hq0 & Hj0)] & _);
    rewrite H0 in Hq0; injection Hq0 as <-;
    assert (land m n = Some n) as Hl by (unfold land; rewrite Hp; simpl; by rewrite Hj);
    pose proof (real_land _ p0 H0 Hj0) as Hl0.
  - simpl. rewrite Hl, Hl0. simpl. rewrite Hp, H0. by rewrite Hop.
  - destruct (next_laid n p d Hn Hp Hj) as (p0' & H0' & _ & _ & Hnx).
    rewrite H0 in H0'. injection H0' as <-.
    cbn [trace]. rewrite Hl, Hl0. cbn [mbind option_bind]. rewrite Hp, H0, Hop. f_equal.
    destruct (next d p0) as [x|]; [|by rewrite Hnx].
    destruct Hnx as (z & y & -> & Hx & (HzL & t & pt & Ht & HtL & Hpt & Hjt & Eo)).
    assert (land m t = Some t) as Hlt by (unfold land; rewrite Hpt; simpl; by rewrite Hjt).
    rewrite (trace_land m m z t) by congruence. rewrite (IH t pt HtL Hpt Hjt), Eo.
    apply trace_land; [|done]. rewrite Hx. rewrite <- Eo.
    destruct (next_laid t pt d HtL Hpt Hjt) as (pq & Hpq & _ & [_ (? & ? & ?)] & _). simplify_eq.
    by eapply real_land.
Qed.
End Traces.
End Follow.

(** ** follow *)

(** What [follow] expects: the instructions of [D] are those of the program, which starts at
    [t]; none is laid out yet, no branch goes to a jump, and none but jumps and returns ends it. *)
Record followable (s : vl) (D : list Z) (t : Z) : Prop := {
  fo_start : textp s = Some t /\ t ∈ D;
  fo_node : forall x, x ∈ D -> exists p, node0 (progs s) D x p;
  fo_range : forall x, x ∈ D -> 0 <= x < nextp s }.

Lemma inv_start s D t : followable s D t ->
  let f := nextp s in
  let s1 := lset_lastp (Some f) (lset_firstp (Some f)
              (lset_nextp (f + 1) (lset_progs (<[f := zprg]> (progs s)) s))) in
  inv (progs s) D t f s1 [] (fun x => x) [] (land (progs s) t).
Proof.
  intros [[_ HtD] Hn Hr] f s1.
  assert (forall x, x ∈ D -> x <> f) as Hf by (intros x Hx; specialize (Hr x Hx); unfold f; lia).
  split; [done|done| | |].
  - intros x [->%list_elem_of_singleton|Hx].
    + specialize (Hr t HtD). unfold f. simpl. lia.
    + specialize (Hr x Hx). simpl. unfold f. lia.
  - split; [apply NoDup_singleton|]. intros [|i] n Hi; [|done]. injection Hi as <-.
    exists zprg, (land (progs s) t). split_and!; try done. unfold s1. simpl. by rewrite lookup_insert_eq.
  - split; [done|]. intros x Hx. destruct (Hn x Hx) as (p & [Hp Hfo Hns _ _ _]). exists p, p.
    unfold s1. simpl. rewrite lookup_insert_ne by (by apply not_eq_sym, Hf).
    split_and!; try done; [congruence|by intros ?%elem_of_nil].
Qed.

Lemma left_length s D : (left D s <= length D)%nat.
Proof. unfold left. induction D as [|x D IH]; simpl; [lia|]. destruct (unmarked _ _); simpl; lia. Qed.

(** The list of what is laid out. *)
Lemma laid_linked m0 D t f m L orig pend wait :
  laid_out m0 D t f m L orig pend wait ->
  (forall k p, list.last (f :: L) = Some k -> m !! k = Some p -> link p = None) ->
  linked m (Some f) (f :: L).
Proof.
  intros [_ Hpl] Hlast.
  assert (forall l i n, (f :: L) !! i = Some n -> drop (S i) (f :: L) = l ->
    linked m (Some n) (n :: l)) as H.
  { induction l as [|y l IH]; intros i n Hn Hd; destruct (Hpl i n Hn) as (p & w & Hp & _ & _ & Hs).
    - split; [done|]. exists p. split; [done|]. simpl. apply (Hlast n); [|done].
      assert (length (f :: L) <= S i)%nat by (apply (f_equal length) in Hd; rewrite length_drop in Hd; simpl in *; lia).
      rewrite last_lookup. rewrite <- Hn. f_equal. apply lookup_lt_Some in Hn. lia.
    - assert ((f :: L) !! S i = Some y) as Hy.
      { rewrite <- (Nat.add_0_r (S i)), <- lookup_drop, Hd. done. }
      rewrite Hy in Hs. destruct Hs as [Hl _]. split; [done|]. exists p. split; [done|]. rewrite Hl.
      apply (IH (S i) y); [done|]. replace (S (S i)) with (S i + 1)%nat by lia. by rewrite <- drop_drop, Hd. }
  by apply (H L 0%nat).
Qed.


(** ** An example *)

(** [0 TEXT; 1 L: BEQ R2, R3, 4; 2 ADD $1, R2; 3 JMP L; 4 RET]: a loop with its test at the top. *)
Definition fins (a : Z) (f t : Adr) (r : Z) (c l : option Z) : Prog := mkProg f t c l None 0 0 0 0 a r.
Definition freg (r : Z) : Adr := mkAdr 0 None D_REG r D_NONE 0.
Definition loop_prog : gmap Z Prog := list_to_map
  [(0, fins ATEXT zadr zadr NREG None (Some 1)); (1, fins ABEQ (freg 2) zadr 3 (Some 4) (Some 2));
   (2, fins AADD (mkAdr 1 None D_CONST NREG D_NONE 0) (freg 2) NREG None (Some 3));
   (3, fins AJMP zadr zadr NREG (Some 1) (Some 4)); (4, fins ARET zadr zadr NREG None None)].
Definition loop_demo : vl :=
  lset_textp (Some 0) (lset_firstp (Some 0) (lset_nextp 5 (lset_progs loop_prog one_symbol))).
Definition loop_list : list Z := seqZ 0 5.

(** The opcodes of a list. *)
Fixpoint opcodes_from (n : nat) (m : gmap Z Prog) (p : option Z) : list Z :=
  match n, p ≫= fun x => m !! x with
  | S n, Some q => p_as q :: opcodes_from n m (link q)
  | _, _ => []
  end.

(** The jump is gone, and the test, turned round, is at the end of the loop. *)
Example loop_demo_runs :
  match follow 12 loop_demo with
  | LOk _ s => opcodes_from 9 (progs s) (firstp s) = [ATEXT; ABEQ; AADD; ABNE; ARET]
  | _ => False
  end.
Proof. vm_compute. reflexivity. Qed.

Lemma loop_demo_ok : followable loop_demo loop_list 0.
Proof.
  split; [split; [done|apply elem_of_seqZ; lia]| |intros x Hx%elem_of_seqZ; simpl; lia].
  intros x Hx%elem_of_seqZ.
  assert (x = 0 \/ x = 1 \/ x = 2 \/ x = 3 \/ x = 4) as [-> | [-> | [-> | [-> | ->]]]] by lia;
    eexists; (split; [reflexivity|reflexivity|reflexivity|..]);
    try (intros q [= <-]; apply elem_of_seqZ; lia); try (intros q H; discriminate H);
    try (intros q [= <-]; split; [apply elem_of_seqZ; lia|eexists; split; [reflexivity|discriminate]]);
    intros H; first [discriminate H|by eexists].
Qed.

