(* ===== verification/VlSched.v ===== *)
(** [sched.c]: within a block, instructions move into the delay slots of loads, branches and
    comparisons; a no-op goes where none can. *)
From S2P Require Import Prelude CInt VlObj VlOptab VlSym VlSpan.

(** ** The resources an instruction uses *)

Definition E_HILO : Z := 1.
Definition E_FCR : Z := 2.
Definition E_MCR : Z := 4.
Definition E_MEM : Z := 8.
Definition E_MEMSP : Z := 16.
Definition E_MEMSB : Z := 32.
Definition ANYMEM : Z := Z.lor E_MEM (Z.lor E_MEMSP E_MEMSB).
Definition DELAY : Z := Z.lor BRANCH (Z.lor LOAD FCMP).
Definition NSCHED : Z := 20.

Record Dep := mkDep { ireg : Z; freg : Z; cc : Z }.

(** The field [p] of the source is [h_p] here; [set] and [used] are [h_set] and [h_used]. *)
Record Sch := mkSch {
  h_p : Prog; h_set : Dep; h_used : Dep; soffset : Z; size : Z; h_nop : Z; comp : bool }.

Definition dep0 : Dep := mkDep 0 0 0.

(** [memset(s, 0, sizeof *s); s->p = *p;] *)
Definition sch0 (p : Prog) : Sch := mkSch p dep0 dep0 0 0 0 false.
#[export] Instance Sch_inhabited : Inhabited Sch := populate (sch0 zprg).

Definition hset_p (p : Prog) (x : Sch) : Sch :=
  mkSch p (h_set x) (h_used x) (soffset x) (size x) (h_nop x) (comp x).
Definition hset_set (d : Dep) (x : Sch) : Sch :=
  mkSch (h_p x) d (h_used x) (soffset x) (size x) (h_nop x) (comp x).
Definition hset_used (d : Dep) (x : Sch) : Sch :=
  mkSch (h_p x) (h_set x) d (soffset x) (size x) (h_nop x) (comp x).
Definition hset_mem (o n : Z) (x : Sch) : Sch :=
  mkSch (h_p x) (h_set x) (h_used x) o n (h_nop x) (comp x).
Definition hset_nop (n : Z) (x : Sch) : Sch :=
  mkSch (h_p x) (h_set x) (h_used x) (soffset x) (size x) n (comp x).
Definition hset_comp (b : bool) (x : Sch) : Sch :=
  mkSch (h_p x) (h_set x) (h_used x) (soffset x) (size x) (h_nop x) b.

(** [1<<c] for a register; for [NREG] the shift is undefined in C, and a machine takes the
    count modulo 32. *)
Definition bit (c : Z) : Z := Z.shiftl 1 (Z.land c 31).

Definition dor_i (m : Z) (d : Dep) : Dep := mkDep (Z.lor (ireg d) m) (freg d) (cc d).
Definition dor_f (m : Z) (d : Dep) : Dep := mkDep (ireg d) (Z.lor (freg d) m) (cc d).
Definition dor_c (m : Z) (d : Dep) : Dep := mkDep (ireg d) (freg d) (Z.lor (cc d) m).

(** [s->set.ireg |= 1<<c], [s->used.ireg |= 1<<c], and the same of [freg], in pairs, and of [cc] *)
Definition set_i (c : Z) (x : Sch) : Sch := hset_set (dor_i (bit c) (h_set x)) x.
Definition use_i (c : Z) (x : Sch) : Sch := hset_used (dor_i (bit c) (h_used x)) x.
Definition set_f (c : Z) (x : Sch) : Sch := hset_set (dor_f (Z.lor (bit c) (bit (Z.lor c 1))) (h_set x)) x.
Definition use_f (c : Z) (x : Sch) : Sch := hset_used (dor_f (Z.lor (bit c) (bit (Z.lor c 1))) (h_used x)) x.
Definition set_c (m : Z) (x : Sch) : Sch := hset_set (dor_c m (h_set x)) x.
Definition use_c (m : Z) (x : Sch) : Sch := hset_used (dor_c m (h_used x)) x.

Definition add_mark (m : Z) (x : Sch) : Sch :=
  hset_p (pset_mark (Z.lor (p_mark (h_p x)) m) (h_p x)) x.

Definition has_mark (m : Z) (x : Sch) : bool := negb (Z.land (p_mark (h_p x)) m =? 0).

(** ** compound *)

(** An array element is an instruction outside the program: a pointer to it, as [oplook]
    takes it, is the address [local]. *)
Definition local : Z := -1.

Definition on_local {A} (m : Z -> L A) (p : Prog) : L (A * Prog) := fun s =>
  match m local (lset_progs (<[local := p]> (progs s)) s) with
  | LOk a s' =>
      match progs s' !! local with
      | Some p' => LOk (a, p') (lset_progs (delete local (progs s')) s')
      | None => LFault
      end
  | LExit s' => LExit s'
  | LFault => LFault
  | LDiverge => LDiverge
  end.

(** The result, and [p] with what [oplook] keeps in it. *)
Definition compound (p : Prog) : L (bool * Prog) :=
  '(o, p) ← on_local oplook p;
  mret (negb (o_size o =? 4) || ((a_type (to p) =? D_REG) && (a_reg (to p) =? REGSB)), p).

(** ** regsused *)

(** What the opcode says: the destination is really a reference, an operand is really an
    address, it is a load, and the size of the load or store. *)
Record Flags := mkFlags { ar : bool; ad : bool; ld : bool; sz : Z }.

(** The cases that fall through to [p->reg == NREG]. *)
Definition is_muldiv (a : Z) : bool := bool_decide (a ∈ [ADIV; ADIVU; AMUL; AMULU; AREM; AREMU]).
Definition is_arith (a : Z) : bool :=
  bool_decide (a ∈ [AADD; AADDU; AAND; ANOR; AOR; ASGT; ASGTU; ASLL; ASRA; ASRL; ASUB; ASUBU; AXOR;
    AADDD; AADDF; AADDW; ASUBD; ASUBF; ASUBW; AMULF; AMULD; AMULW; ADIVF; ADIVD; ADIVW]).
Definition is_fcmp (a : Z) : bool :=
  bool_decide (a ∈ [ACMPEQD; ACMPEQF; ACMPGED; ACMPGEF; ACMPGTD; ACMPGTF]).
Definition is_test (a : Z) : bool := bool_decide (a ∈ [ABEQ; ABGEZ; ABGTZ; ABLEZ; ABLTZ; ABNE]).

(** [if(p->reg == NREG) ...] *)
Definition default_reg (p : Prog) : Prog :=
  if (p_reg p =? NREG) && ((a_type (to p) =? D_REG) || (a_type (to p) =? D_FREG))
  then pset_reg (a_reg (to p)) p else p.

(** [switch(p->as)]; [realp] is where the instruction is in the program. *)
Definition regs_as (realp : Z) (x : Sch) : L (Sch * Flags) :=
  let p := h_p x in let a := p_as p in
  if a =? ATEXT then
    lmodify (lset_curtext (Some realp));;
    lmodify (lset_autosize (s32 (a_offset (to p) + 4)));;
    mret (x, mkFlags false true false 20)
  else if a =? AJAL then
    mret (set_i (if p_reg p =? NREG then REGLINK else p_reg p) x, mkFlags true true false 20)
  else if (a =? ABGEZAL) || (a =? ABLTZAL) then
    mret (set_i REGLINK x, mkFlags true true false 20)
  else if is_test a then mret (x, mkFlags true true false 20)
  else if (a =? ABFPT) || (a =? ABFPF) then mret (use_c E_FCR x, mkFlags false true false 20)
  else if is_fcmp a then mret (add_mark FCMP (set_c E_FCR x), mkFlags true false false 20)
  else if a =? AJMP then mret (x, mkFlags true true false 20)
  else if (a =? AMOVB) || (a =? AMOVBU) then mret (x, mkFlags false false true 1)
  else if (a =? AMOVH) || (a =? AMOVHU) then mret (x, mkFlags false false true 2)
  else if bool_decide (a ∈ [AMOVF; AMOVW; AMOVWL; AMOVWR]) then mret (x, mkFlags false false true 4)
  else if bool_decide (a ∈ [AMOVD; AMOVV; AMOVVL; AMOVVR]) then mret (x, mkFlags false false true 8)
  else if is_muldiv a then
    let x := hset_set (mkDep (ireg (h_set x)) (freg (h_set x)) E_HILO) x in
    mret (hset_p (default_reg p) x, mkFlags false false false 20)
  else if is_arith a then mret (hset_p (default_reg p) x, mkFlags false false false 20)
  else if (a =? ASC) || (a =? ALL) then mret (x, mkFlags false false true 4)
  else mret (x, mkFlags false false false 20).

(** [m = ANYMEM; if(c == REGSB) m = E_MEMSB; if(c == REGSP) m = E_MEMSP;] *)
Definition mem_mask (c : Z) : Z := if c =? REGSP then E_MEMSP else if c =? REGSB then E_MEMSB else ANYMEM.

(** [c = p->to.class; if(c == 0) { c = aclass(&p->to) + 1; p->to.class = c; }] *)
Definition sch_class_to (x : Sch) : L (Z * Sch) :=
  let p := h_p x in
  if a_class (to p) =? 0 then
    c ← aclass (to p);
    mret (c, hset_p (pset_to (aset_class (s8 (c + 1)) (to p)) p) x)
  else mret (a_class (to p) - 1, x).

Definition sch_class_from (x : Sch) : L (Z * Sch) :=
  let p := h_p x in
  if a_class (from p) =? 0 then
    c ← aclass (from p);
    mret (c, hset_p (pset_from (aset_class (s8 (c + 1)) (from p)) p) x)
  else mret (a_class (from p) - 1, x).

(** [s->size = sz; s->soffset = regoff(a);] *)
Definition sch_mem (sz : Z) (a : Adr) (x : Sch) : L Sch :=
  o ← regoff a;
  mret (hset_mem o sz x).

Definition is_oreg (c : Z) : bool := (c =? C_ZOREG) || (c =? C_SOREG) || (c =? C_LOREG).
Definition is_acon (c : Z) : bool := (c =? C_SACON) || (c =? C_LACON).
Definition is_econ (c : Z) : bool := (c =? C_SECON) || (c =? C_LECON).
Definition is_auto (c : Z) : bool := (c =? C_SAUTO) || (c =? C_LAUTO).
Definition is_ext (c : Z) : bool := (c =? C_SEXT) || (c =? C_LEXT).

(** [if(ar) s->used.cc |= m; else s->set.cc |= m;] *)
Definition mem_c (ar : bool) (m : Z) (x : Sch) : Sch := if ar then use_c m x else set_c m x.

(** Flags based on the 'to' field. *)
Definition regs_to (f : Flags) (x : Sch) : L Sch :=
  '(c, x) ← sch_class_to x;
  let p := h_p x in
  if (c =? C_HI) || (c =? C_LO) then mret (set_c E_HILO x)
  else if c =? C_FCREG then mret (set_c E_FCR x)
  else if c =? C_MREG then mret (set_c E_MCR x)
  else if is_oreg c then
    let r := a_reg (to p) in
    let x := use_i r x in
    if ad f then mret x
    else x ← sch_mem (sz f) (to p) x; mret (mem_c (ar f) (mem_mask r) x)
  else if is_acon c then mret (use_i REGSP x)
  else if is_econ c then mret (use_i REGSB x)
  else if c =? C_REG then mret (if ar f then use_i (a_reg (to p)) x else set_i (a_reg (to p)) x)
  else if c =? C_FREG then
    let x := if ar f then use_f (a_reg (to p)) x else set_f (a_reg (to p)) x in
    mret (if ld f && (a_type (from p) =? D_REG) then add_mark LOAD x else x)
  else if is_auto c then
    let x := use_i REGSP x in
    if ad f then mret x
    else x ← sch_mem (sz f) (to p) x; mret (mem_c (ar f) E_MEMSP x)
  else if is_ext c then
    let x := use_i REGSB x in
    if ad f then mret x
    else x ← sch_mem (sz f) (to p) x; mret (mem_c (ar f) E_MEMSB x)
  else mret x.

Definition load_mark (f : Flags) (x : Sch) : Sch := if ld f then add_mark LOAD x else x.

(** Flags based on the 'from' field. *)
Definition regs_from (f : Flags) (x : Sch) : L Sch :=
  '(c, x) ← sch_class_from x;
  let p := h_p x in
  let r := a_reg (from p) in
  if (c =? C_HI) || (c =? C_LO) then mret (use_c E_HILO x)
  else if c =? C_FCREG then mret (use_c E_FCR x)
  else if c =? C_MREG then mret (use_c E_MCR x)
  else if is_oreg c then
    x ← sch_mem (sz f) (from p) (load_mark f (use_i r x));
    mret (use_c (mem_mask r) x)
  else if is_acon c then mret (use_i REGSP x)
  else if is_econ c then mret (use_i REGSB x)
  else if c =? C_REG then mret (use_i r (if p_as p =? ASC then set_i r x else x))
  else if c =? C_FREG then
    let x := use_f r x in
    mret (if ld f && (a_type (to p) =? D_REG) then add_mark LOAD x else x)
  else if is_auto c then
    let x := load_mark f (use_i REGSP x) in
    if ad f then mret x
    else x ← sch_mem (sz f) (from p) x; mret (use_c E_MEMSP x)
  else if is_ext c then
    let x := load_mark f (use_i REGSB x) in
    if ad f then mret x
    else x ← sch_mem (sz f) (from p) x; mret (use_c E_MEMSB x)
  else mret x.

(** [c = p->reg ...; s->set.ireg &= ~(1<<REGZERO);] *)
Definition regs_reg (x : Sch) : Sch :=
  let p := h_p x in
  let x :=
    if p_reg p =? NREG then x
    else if (a_type (from p) =? D_FREG) || (a_type (to p) =? D_FREG) then use_f (p_reg p) x
    else use_i (p_reg p) x in
  hset_set (mkDep (Z.ldiff (ireg (h_set x)) (bit REGZERO)) (freg (h_set x)) (cc (h_set x))) x.

Definition regsused (p : Prog) (realp : Z) : L Sch :=
  '(c, p) ← compound p;
  let x := hset_comp c (sch0 p) in
  let x := if c then use_i REGTMP (set_i REGTMP x) else x in
  '(x, f) ← regs_as realp x;
  x ← regs_to f x;
  x ← regs_from f x;
  mret (regs_reg x).

(** ** depend, conflict *)

Definition meets (a b : Z) : bool := negb (Z.land a b =? 0).

Definition offoverlap (a b : Sch) : bool :=
  if soffset a <? soffset b then soffset b <? s32 (soffset a + size a)
  else soffset a <? s32 (soffset b + size b).

(** Loads from the same address cannot pass. *)
Definition same_address (a b : Sch) : L bool :=
  if meets (Z.land (cc (h_used a)) (cc (h_used b))) E_MEM && (p_reg (h_p a) =? p_reg (h_p b)) then
    u ← regoff (from (h_p a));
    v ← regoff (from (h_p b));
    mret (u =? v)
  else mret false.

Definition cc_meet (a b : Sch) : Z :=
  Z.lor (Z.land (cc (h_set a)) (Z.lor (cc (h_set b)) (cc (h_used b)))) (Z.land (cc (h_set b)) (cc (h_used a))).

Definition cc_depend (a b : Sch) : bool :=
  let x := cc_meet a b in
  if x =? 0 then false
  else if negb (x =? E_MEMSP) && negb (x =? E_MEMSB) then true
  else if meets (Z.lor (Z.lor (cc (h_set a)) (cc (h_set b))) (Z.lor (cc (h_used a)) (cc (h_used b)))) E_MEM
  then true
  else offoverlap a b.

Definition reg_depend (a b : Sch) : bool :=
  meets (ireg (h_set a)) (Z.lor (ireg (h_set b)) (ireg (h_used b)))
  || meets (ireg (h_set b)) (ireg (h_used a))
  || meets (freg (h_set a)) (Z.lor (freg (h_set b)) (freg (h_used b)))
  || meets (freg (h_set b)) (freg (h_used a)).

Definition is_atomic (a : Sch) : bool := (p_as (h_p a) =? ALL) || (p_as (h_p a) =? ASC).

Definition depend (a b : Sch) : L bool :=
  if reg_depend a b then mret true
  else
    q ← same_address a b;
    mret (q || is_atomic a || is_atomic b || cc_depend a b).

Definition conflict (a b : Sch) : bool :=
  meets (ireg (h_set a)) (ireg (h_used b)) || meets (freg (h_set a)) (freg (h_used b))
  || meets (cc (h_set a)) (cc (h_used b)).

(** ** The moves *)

(** [stmp = *t; memmove(s+1, s, t-s); *s = stmp] *)
Definition move_up (l : list Sch) (s t : nat) : list Sch :=
  take s l ++ l !!! t :: drop s (take t l) ++ drop (S t) l.

(** [stmp = *t; memmove(t, t+1, s-t); *s = stmp] *)
Definition move_down (l : list Sch) (t s : nat) : list Sch :=
  take t l ++ drop (S t) (take (S s) l) ++ l !!! t :: drop (S s) l.

(** Does some element of [us] depend: [depend(u, t)], or [depend(t, u)]. *)
Fixpoint some_depend (d : Sch -> L bool) (us : list Sch) : L bool :=
  match us with
  | [] => mret false
  | u :: us => b ← d u; if b : bool then mret true else some_depend d us
  end.

Definition ends_block (x : Sch) : bool := has_mark BRANCH x || meets (ireg (h_set x)) (bit REGSP).

(** The elements from [i] up to [j], without [j]; and from [j-1] down to [i]. *)
Definition between (l : list Sch) (i j : nat) : list Sch := drop i (take j l).
Definition down (l : list Sch) (i j : nat) : list Sch := reverse (between l i j).

(** "put nonconflict loads together": the next load comes right after the load at [s]. [n]
    elements are left, from [t] on. *)
Fixpoint pre_load (n : nat) (l : list Sch) (s t : nat) : L (list Sch) :=
  match n with
  | O => mret l
  | S n =>
      let y := l !!! t in
      if negb (has_mark LOAD y) then pre_load n l s (S t)
      else if ends_block y || conflict (l !!! s) y then mret l
      else
        b ← some_depend (fun u => depend u y) (down l (S s) t);
        mret (if b : bool then l else move_up l (S s) t)
  end.

(** "put schedule fodder above load" *)
Fixpoint pre_fodder (n : nat) (l : list Sch) (s t : nat) : L (list Sch) :=
  match n with
  | O => mret l
  | S n =>
      let y := l !!! t in
      if ends_block y then mret l
      else if (0 <? s)%nat && conflict (l !!! (s - 1)%nat) y then pre_fodder n l s (S t)
      else
        b ← some_depend (fun u => depend y u) (down l s t);
        if b : bool then pre_fodder n l s (S t)
        else
          let l := move_up l s t in
          if negb (has_mark LOAD y) then mret l else pre_fodder n l s (S t)
  end.

(** [for(s=sch; s<=se; s++)] of the prepass; [n] elements are left. *)
Fixpoint prepass (n : nat) (l : list Sch) (s : nat) : L (list Sch) :=
  match n with
  | O => mret l
  | S n =>
      if negb (has_mark LOAD (l !!! s)) then prepass n l (S s)
      else
        l ← pre_load (length l - S s) l s (S s);
        l ← pre_fodder (length l - S s) l s (S s);
        prepass n l (S s)
  end.

(** [for(t=s-1; t>=sch; t--)]: the instruction to go between [s] and [s+1]; [n] is [t+1]. *)
Fixpoint find_slot (l : list Sch) (s n : nat) : L (option nat) :=
  match n with
  | O => mret None
  | S t =>
      let y := l !!! t in
      let x := l !!! s in
      if comp y && has_mark BRANCH x then find_slot l s t
      else if has_mark DELAY y && ((length l <=? S s)%nat || conflict y (l !!! S s)) then find_slot l s t
      else
        b ← some_depend (fun u => depend u y) (between l (S t) (S s));
        if b : bool then find_slot l s t else mret (Some t)
  end.

(** [for(s=se; s>=sch; s--)]; [n] is [s+1]. *)
Fixpoint fill (n : nat) (l : list Sch) : L (list Sch) :=
  match n with
  | O => mret l
  | S s =>
      let x := l !!! s in
      if negb (has_mark DELAY x) then fill s l
      else if (S s <? length l)%nat && negb (conflict x (l !!! S s)) then fill s l
      else
        y ← lgets debug_Y;
        t ← (if (y : bool) then mret None else find_slot l s s);
        match t with
        | Some t =>
            (* [s--] of the move, and of the loop *)
            match s with
            | S s' => fill s' (move_down l t s)
            | O => lfault
            end
        | None => fill s (<[s := hset_nop 1 x]> l)
        end
  end.

(** "Avoid HI/LO use->set", for the elements [s], [s+1] with [s < se-1]; [n] pairs are left. *)
Fixpoint hilo (n : nat) (l : list Sch) (s : nat) : list Sch :=
  match n with
  | O => l
  | S n =>
      let x := l !!! s in
      hilo n
        (if meets (cc (h_used x)) E_HILO && meets (cc (h_set (l !!! S s))) E_HILO
         then <[s := hset_nop 2 x]> l else l) (S s)
  end.

(** ** The side structure *)

(** [for(p=p0;; p=p->link)] up to [pe]; [n] elements of the array are left. *)
Fixpoint build (n : nat) (p pe : Z) : L (list Sch) :=
  match n with
  | O => lfault
  | S n =>
      x ← getp p;
      y ← regsused x p;
      if p =? pe then mret [y]
      else
        match link x with
        | None => lfault
        | Some q => l ← build n q pe; mret (y :: l)
        end
  end.

(** [addnop] of [noop.c], and [while(s->nop--) addnop(p);] *)
Fixpoint addnops (n : nat) (p : Z) : L unit :=
  match n with O => lskip | S n => addnop p;; addnops n p end.

(** "put it all back" *)
Fixpoint put_back (l : list Sch) (p : option Z) : L unit :=
  match l with
  | [] => lskip
  | x :: l =>
      match p with
      | None => lfault
      | Some p =>
          y ← getp p;
          let q := link y in
          (if bool_decide (q = link (h_p x)) then lskip else updp p (fun _ => pset_link q (h_p x)));;
          addnops (Z.to_nat (h_nop x)) p;;
          put_back l q
      end
  end.

(** The three loops over the array. *)
Definition reorder (l : list Sch) : L (list Sch) :=
  l ← prepass (length l) l 0;
  l ← fill (length l) l;
  mret (hilo (length l - 2) l 0).

Definition sched (p0 pe : Z) : L unit :=
  o ← lgets optlevel;
  if o <? 1 then lskip
  else
    l ← build (Z.to_nat NSCHED) p0 pe;
    l ← reorder l;
    put_back l (Some p0).
