(* ===== verification/VlDep.v ===== *)
(** What [depend] means: instructions that do not depend on each other can be exchanged,
    whatever they compute, as long as they read and change only what [regsused] says. *)
From stdpp Require Import relations.
From S2P Require Import Prelude CInt VlObj VlSched.

(** ** Resources *)

(** A machine state gives each resource a value: the registers, the memory of the stack and
    of the static data, and where control goes after the block. *)
Inductive res :=
  | RInt (r : Z) | RFloat (r : Z) | RHilo | RFcr | RMcr | RStack (a : Z) | RData (a : Z) | RNext.

#[export] Instance res_eq_dec : EqDecision res.
Proof. solve_decision. Defined.

Definition St : Type := res -> Z.

(** The offsets of [x] from the base register. *)
Definition in_range (x : Sch) (base a : Z) : bool :=
  (base + soffset x <=? a) && (a <? base + soffset x + size x).

(** The resources of one [Dep] of the instruction [x]. *)
Definition touch (x : Sch) (d : Dep) (st : St) (r : res) : bool :=
  match r with
  | RInt i => Z.testbit (ireg d) i
  | RFloat i => Z.testbit (freg d) i
  | RHilo => meets (cc d) E_HILO
  | RFcr => meets (cc d) E_FCR
  | RMcr => meets (cc d) E_MCR
  | RStack a => meets (cc d) E_MEMSP && (meets (cc d) E_MEM || in_range x (st (RInt REGSP)) a)
  | RData a => meets (cc d) E_MEMSB && (meets (cc d) E_MEM || in_range x (st (RInt REGSB)) a)
  | RNext => false
  end.

Definition reads (x : Sch) (st : St) (r : res) : bool := touch x (h_used x) st r.
Definition writes (x : Sch) (st : St) (r : res) : bool :=
  touch x (h_set x) st r || (match r with RNext => has_mark BRANCH x | _ => false end).

(** [f] changes only what [x] sets, to values that depend only on what [x] uses and sets. *)
Record respects (x : Sch) (f : St -> St) : Prop := {
  r_frame : forall st r, writes x st r = false -> f st r = st r;
  r_local : forall st st', (forall r, reads x st r = true \/ writes x st r = true -> st r = st' r) ->
              forall r, writes x st r = true -> f st r = f st' r }.

(** The bits of [d] for memory at a base register [r] come with the use of [r], unless any
    memory is meant. *)
Definition based (x : Sch) (d : Dep) : Prop :=
  (meets (cc d) E_MEMSP = true -> meets (cc d) E_MEM = false -> Z.testbit (ireg (h_used x)) REGSP = true)
  /\ (meets (cc d) E_MEMSB = true -> meets (cc d) E_MEM = false -> Z.testbit (ireg (h_used x)) REGSB = true).

(** An access relative to a base register uses the register, and its offsets do not wrap
    around. *)
Record sch_ok (x : Sch) : Prop := {
  k_set : based x (h_set x);
  k_used : based x (h_used x);
  k_range : in_s 32 (soffset x + size x) }.

(** ** Independence *)

Definition indep (a b : Sch) : bool :=
  negb (reg_depend a b) && negb (cc_depend a b) && negb (has_mark BRANCH a && has_mark BRANCH b).

Lemma meets_false a b n : meets a b = false -> Z.testbit a n = true -> Z.testbit b n = false.
Proof.
  unfold meets. intros H Ha. apply negb_false_iff, Z.eqb_eq in H.
  apply (f_equal (fun z => Z.testbit z n)) in H. rewrite Z.land_spec, Ha, Z.bits_0 in H. done.
Qed.

Lemma meets_lor a b c : meets a (Z.lor b c) = meets a b || meets a c.
Proof.
  unfold meets. rewrite Z.land_lor_distr_r.
  destruct (Z.eqb_spec (Z.land a b) 0) as [->|H]; [done|]. simpl.
  apply negb_true_iff, Z.eqb_neq. intros [H1 _]%Z.lor_eq_0_iff. done.
Qed.

Lemma meets_sym a b : meets a b = meets b a.
Proof. unfold meets. by rewrite Z.land_comm. Qed.

(** What [reg_depend] leaves. *)
Lemma reg_indep a b :
  reg_depend a b = false ->
  meets (ireg (h_set a)) (ireg (h_set b)) = false /\ meets (ireg (h_set a)) (ireg (h_used b)) = false
  /\ meets (ireg (h_set b)) (ireg (h_used a)) = false
  /\ meets (freg (h_set a)) (freg (h_set b)) = false /\ meets (freg (h_set a)) (freg (h_used b)) = false
  /\ meets (freg (h_set b)) (freg (h_used a)) = false.
Proof.
  unfold reg_depend. rewrite !meets_lor. intros H.
  repeat match goal with H : _ || _ = false |- _ => apply orb_false_iff in H as [? ?] end. by split_and!.
Qed.

Lemma reg_depend_sym a b : reg_depend a b = reg_depend b a.
Proof.
  unfold reg_depend. rewrite !meets_lor, (meets_sym (ireg (h_set b)) (ireg (h_set a))),
    (meets_sym (freg (h_set b)) (freg (h_set a))). btauto.
Qed.

Lemma cc_meet_sym a b : cc_meet a b = cc_meet b a.
Proof.
  unfold cc_meet. rewrite !Z.land_lor_distr_r, (Z.land_comm (cc (h_set b)) (cc (h_set a))).
  rewrite <- !Z.lor_assoc. f_equal. apply Z.lor_comm.
Qed.

(** Bit [m] of the condition codes, where both instructions touch it and one sets it. *)
Lemma cc_meet_bit a b m d :
  m = E_HILO \/ m = E_FCR \/ m = E_MCR \/ m = E_MEM \/ m = E_MEMSP \/ m = E_MEMSB ->
  d = h_set b \/ d = h_used b ->
  meets (cc (h_set a)) m = true -> meets (cc d) m = true -> meets (cc_meet a b) m = true.
Proof.
  intros Hm Hd Ha Hb.
  assert (exists k, 0 <= k /\ m = 2 ^ k) as (k & Hk & ->).
  { destruct Hm as [->|[->|[->|[->|[->| ->]]]]];
      [exists 0|exists 1|exists 2|exists 3|exists 4|exists 5]; split; done. }
  assert (forall x, meets x (2 ^ k) = Z.testbit x k) as E.
  { intros x. unfold meets. destruct (Z.testbit x k) eqn:Ex.
    - apply negb_true_iff, Z.eqb_neq. intros H. apply (f_equal (fun z => Z.testbit z k)) in H.
      rewrite Z.land_spec, Ex, Z.pow2_bits_true, Z.bits_0 in H by done. done.
    - apply negb_false_iff, Z.eqb_eq, Z.bits_inj'. intros n Hn.
      rewrite Z.land_spec, Z.pow2_bits_eqb, Z.bits_0 by done.
      destruct (Z.eqb_spec k n) as [<-|]; [by rewrite Ex|apply andb_false_r]. }
  rewrite E in *. unfold cc_meet. rewrite Z.lor_spec, Z.land_spec, Z.lor_spec, Ha.
  destruct Hd as [-> | ->]; rewrite Hb; simpl; btauto.
Qed.

(** What [indep] leaves, as a symmetric relation. *)
Record apart (a b : Sch) : Prop := {
  a_regs : reg_depend a b = false;
  a_codes : forall m, m = E_HILO \/ m = E_FCR \/ m = E_MCR -> meets (cc_meet a b) m = false;
  a_mem : meets (cc_meet a b) E_MEMSP = true \/ meets (cc_meet a b) E_MEMSB = true ->
    (forall d, d = h_set a \/ d = h_used a \/ d = h_set b \/ d = h_used b -> meets (cc d) E_MEM = false)
    /\ (forall base x, in_range a base x = true -> in_range b base x = false);
  a_next : has_mark BRANCH a && has_mark BRANCH b = false }.

Lemma apart_sym a b : apart a b -> apart b a.
Proof.
  intros [H1 H2 H3 H4]. split.
  - by rewrite reg_depend_sym.
  - intros m Hm. rewrite cc_meet_sym. by apply H2.
  - rewrite cc_meet_sym. intros H. destruct (H3 H) as [Hm Hr]. split.
    + intros d Hd. apply Hm. tauto.
    + intros base x Hb. destruct (in_range a base x) eqn:E; [|done]. by rewrite Hr in Hb.
  - by rewrite andb_comm.
Qed.

Lemma offoverlap_ranges a b base x :
  offoverlap a b = false -> in_s 32 (soffset a + size a) -> in_s 32 (soffset b + size b) ->
  in_range a base x = true -> in_range b base x = false.
Proof.
  unfold offoverlap, in_range. intros H Ha Hb. unfold s32 in H. rewrite !wraps_id in H by done.
  case_match; lia.
Qed.

Lemma indep_apart a b : sch_ok a -> sch_ok b -> indep a b = true -> apart a b.
Proof.
  intros Ha Hb H. unfold indep in H. apply andb_true_iff in H as [[Hr Hc]%andb_true_iff Hn].
  rewrite negb_true_iff in Hr, Hc, Hn. unfold cc_depend in Hc.
  destruct (Z.eqb_spec (cc_meet a b) 0) as [E|_].
  { split; try done.
    - intros m _. by rewrite E.
    - rewrite E. by intros [?|?]. }
  destruct (negb (cc_meet a b =? E_MEMSP) && negb (cc_meet a b =? E_MEMSB)) eqn:E; [done|].
  destruct (meets _ E_MEM) eqn:Em; [done|].
  split; try done.
  - intros m Hm. apply andb_false_iff in E as [E|E]; apply negb_false_iff, Z.eqb_eq in E; rewrite E;
      by destruct Hm as [->|[->| ->]].
  - intros _. split.
    + rewrite meets_sym, !meets_lor, !(meets_sym E_MEM) in Em.
      repeat match goal with H : _ || _ = false |- _ => apply orb_false_iff in H as [? ?] end.
      intros d [->|[->|[->| ->]]]; done.
    + intros base x. apply offoverlap_ranges; [done|by destruct Ha|by destruct Hb].
Qed.

(** What the one sets the other does not touch. *)
Lemma touch_apart a b d st r :
  apart a b -> d = h_set b \/ d = h_used b -> touch a (h_set a) st r = true -> touch b d st r = false.
Proof.
  intros [Hr Hc Hm Hn] Hd H.
  destruct (reg_indep _ _ Hr) as (R1 & R2 & _ & R4 & R5 & _).
  assert (forall m, m = E_HILO \/ m = E_FCR \/ m = E_MCR -> meets (cc (h_set a)) m = true ->
            meets (cc d) m = false) as Hbit.
  { intros m Hm' Ha. destruct (meets (cc d) m) eqn:E; [|done].
    rewrite <- (Hc m Hm'). symmetry. apply (cc_meet_bit a b m d); [tauto|done..]. }
  destruct r as [i|i| | | |x|x|]; simpl in H |- *; try (by apply Hbit; tauto); try done.
  - destruct Hd as [-> | ->]; by eapply meets_false.
  - destruct Hd as [-> | ->]; by eapply meets_false.
  - destruct (meets (cc d) E_MEMSP) eqn:E; [simpl|done]. apply andb_true_iff in H as [Hs H].
    destruct Hm as [Hm Hx]; [left; apply (cc_meet_bit a b _ d); tauto|].
    rewrite Hm in H by tauto. rewrite Hm by tauto. simpl in *. by apply Hx.
  - destruct (meets (cc d) E_MEMSB) eqn:E; [simpl|done]. apply andb_true_iff in H as [Hs H].
    destruct Hm as [Hm Hx]; [right; apply (cc_meet_bit a b _ d); tauto|].
    rewrite Hm in H by tauto. rewrite Hm by tauto. simpl in *. by apply Hx.
Qed.

Lemma writes_apart a b st r : apart a b -> writes a st r = true -> writes b st r = false.
Proof.
  unfold writes. intros Hab [H|H]%orb_true_iff.
  - rewrite (touch_apart a b (h_set b) st r) by (tauto || done). by destruct r.
  - destruct r; try done. simpl. pose proof (a_next _ _ Hab) as Hn. rewrite H in Hn. done.
Qed.

Lemma reads_apart a b st r : apart a b -> writes a st r = true -> reads b st r = false.
Proof.
  unfold writes, reads. intros Hab [H|H]%orb_true_iff; [|by destruct r].
  apply (touch_apart a b _ st r); [done|by right|done].
Qed.

(** An independent instruction leaves the base registers, hence the addresses. *)
Lemma touch_after a b d f st r :
  apart a b -> sch_ok b -> respects a f -> d = h_set b \/ d = h_used b ->
  touch b d (f st) r = touch b d st r.
Proof.
  intros Hab [K1 K2 _] [Hf _] Hd.
  destruct (reg_indep _ _ (a_regs _ _ Hab)) as (_ & R2 & _).
  assert (forall k, Z.testbit (ireg (h_used b)) k = true -> f st (RInt k) = st (RInt k)) as Hk.
  { intros k Hk. apply Hf. unfold writes. simpl. rewrite orb_false_r.
    rewrite meets_sym in R2. by eapply meets_false. }
  assert (based b d) as [Bsp Bsb] by (destruct Hd as [-> | ->]; done).
  destruct r as [| | | | |x|x|]; try done; simpl.
  - destruct (meets (cc d) E_MEMSP) eqn:E1; [|done]. destruct (meets (cc d) E_MEM) eqn:E2; [done|].
    rewrite Hk; [done|]. by apply Bsp.
  - destruct (meets (cc d) E_MEMSB) eqn:E1; [|done]. destruct (meets (cc d) E_MEM) eqn:E2; [done|].
    rewrite Hk; [done|]. by apply Bsb.
Qed.

Lemma writes_after a b f st r :
  apart a b -> sch_ok b -> respects a f -> writes b (f st) r = writes b st r.
Proof. intros. unfold writes. by rewrite (touch_after a b (h_set b) f) by (done || by left). Qed.

Lemma reads_after a b f st r :
  apart a b -> sch_ok b -> respects a f -> reads b (f st) r = reads b st r.
Proof. intros. apply (touch_after a b); [done..|by right]. Qed.

(** Where the one has been, the other does what it would have done. *)
Lemma same_effect a b f g st r :
  apart a b -> sch_ok b -> respects a f -> respects b g -> writes b st r = true ->
  g (f st) r = g st r.
Proof.
  intros Hab Hb Hf Hg Hw. apply (r_local _ _ Hg); [|by rewrite (writes_after a b) by done].
  intros q Hq. apply (r_frame _ _ Hf). destruct (writes a st q) eqn:E; [|done].
  rewrite (reads_after a b), (writes_after a b) in Hq by done.
  destruct Hq as [Hq|Hq].
  - by rewrite <- Hq, <- (reads_apart a b st q).
  - by rewrite <- Hq, <- (writes_apart a b st q).
Qed.

(** Instructions that do not depend on each other commute. *)
Lemma indep_commute a b f g :
  sch_ok a -> sch_ok b -> indep a b = true -> respects a f -> respects b g ->
  forall st r, f (g st) r = g (f st) r.
Proof.
  intros Ha Hb Hi Hf Hg st r. pose proof (indep_apart a b Ha Hb Hi) as Hab.
  pose proof (apart_sym _ _ Hab) as Hba.
  destruct (writes a st r) eqn:Wa.
  - rewrite (same_effect b a g f) by done. symmetry. rewrite (r_frame _ _ Hg); [done|].
    rewrite (writes_after a b) by done. by apply (writes_apart a b).
  - rewrite (r_frame _ _ Hf) by (by rewrite (writes_after b a)).
    destruct (writes b st r) eqn:Wb.
    + by rewrite (same_effect a b f g).
    + rewrite !(r_frame _ _ Hg); [by rewrite (r_frame _ _ Hf)| |done].
      by rewrite (writes_after a b).
Qed.

(** ** Exchanges *)

(** [depend] is asked in one order or the other. *)
Definition free (a b : Sch) : bool := indep a b || indep b a.

(** Two neighbours that do not depend on each other change places. *)
Inductive swap1 : relation (list Sch) :=
  | swap_here l1 a b l2 : free a b = true -> swap1 (l1 ++ a :: b :: l2) (l1 ++ b :: a :: l2).
Abbreviation swaps := (rtc swap1).

Lemma swap1_perm l l' : swap1 l l' -> l ≡ₚ l'.
Proof. intros [l1 a b l2 _]. by rewrite (Permutation_swap b a l2). Qed.

Lemma swaps_perm l l' : swaps l l' -> l ≡ₚ l'.
Proof. induction 1 as [|l1 l2 l3 H _ IH]; [done|]. by rewrite (swap1_perm _ _ H). Qed.

Lemma swaps_cons a l l' : swaps l l' -> swaps (a :: l) (a :: l').
Proof.
  induction 1 as [|l1 l2 l3 [x b c y Hi] _ IH]; [done|].
  eapply rtc_l; [exact (swap_here (a :: x) b c y Hi)|done].
Qed.

Lemma swaps_app l1 l2 l2' : swaps l2 l2' -> swaps (l1 ++ l2) (l1 ++ l2').
Proof. intros H. induction l1 as [|a l1 IH]; [done|]. by apply swaps_cons. Qed.

Lemma swaps_app_r l1 l1' l2 : swaps l1 l1' -> swaps (l1 ++ l2) (l1' ++ l2).
Proof.
  induction 1 as [|a b c [x y z w Hi] _ IH]; [done|].
  eapply rtc_l; [|exact IH]. rewrite <- !app_assoc. by apply swap_here.
Qed.

(** An instruction moves over instructions it does not depend on. *)
Lemma swaps_down y us : Forall (fun u => free y u = true) us -> swaps (y :: us) (us ++ [y]).
Proof.
  induction 1 as [|u us Hu _ IH]; [done|].
  eapply rtc_l; [exact (swap_here [] y u us Hu)|]. by apply swaps_cons.
Qed.

Lemma swaps_up y us : Forall (fun u => free u y = true) us -> swaps (us ++ [y]) (y :: us).
Proof.
  induction 1 as [|u us Hu _ IH]; [done|].
  etrans; [by apply swaps_cons|]. by eapply rtc_l; [exact (swap_here [] u y us Hu)|].
Qed.

(** ** Executions *)

Definition run (fs : list (St -> St)) (st : St) : St := foldl (fun st f => f st) st fs.

Lemma respects_ext x f st st' : respects x f -> (forall r, st r = st' r) -> forall r, f st r = f st' r.
Proof.
  intros [Hf Hl] He r. destruct (writes x st r) eqn:E; [by apply Hl|].
  rewrite !Hf; [done| |done]. rewrite <- E. unfold writes. f_equal. destruct r; simpl; by rewrite ?He.
Qed.

Section Run.
Context (exec : Sch -> St -> St).

Definition lawful (x : Sch) : Prop := sch_ok x /\ respects x (exec x).

Lemma run_ext l st st' :
  Forall lawful l -> (forall r, st r = st' r) -> forall r, run (exec <$> l) st r = run (exec <$> l) st' r.
Proof.
  intros H. revert st st'. induction H as [|x l [_ Hx] _ IH]; intros st st' He r; [done|].
  simpl. apply IH. by apply (respects_ext x).
Qed.

(** Exchanges leave the outcome. *)
Lemma run_swaps l l' :
  swaps l l' -> Forall lawful l -> forall st r, run (exec <$> l) st r = run (exec <$> l') st r.
Proof.
  induction 1 as [|l1 l2 l3 Hs _ IH]; intros Hl st r; [done|].
  rewrite <- IH; [|by rewrite <- (swap1_perm _ _ Hs)].
  destruct Hs as [x a b y Hi]. unfold run. rewrite !fmap_app, !foldl_app. simpl.
  apply list.Forall_app in Hl as [_ Hl]. apply list.Forall_cons in Hl as [[Ka Ra] Hl].
  apply list.Forall_cons in Hl as [[Kb Rb] Hl].
  apply run_ext; [done|]. intros q. apply orb_true_iff in Hi as [Hi|Hi].
  - symmetry. by apply (indep_commute a b).
  - by apply (indep_commute b a).
Qed.
End Run.
