(* ===== verification/VlMoves.v ===== *)
(** The order [sched] gives a block: it comes about by exchanges of neighbours that do not
    depend on each other, and every instruction that needs a delay slot has one. *)
From stdpp Require Import relations.
From S2P Require Import Prelude CInt VlObj VlSym VlWp VlSpan VlAsm VlLib VlSched VlDep.

(** The linker gives up after more than ten errors. *)
Definition errs : vl -> Prop := fun s => 10 < nerrors s.

(** ** [aclass] *)

(** The symbol of an operand is there. *)
Definition adr_ok (s : vl) (a : Adr) : Prop :=
  (forall y, a_sym a = Some y -> is_Some (syms s !! y)) /\ (a_type a = D_OCONST -> is_Some (a_sym a)).

(** The passes add no symbols away, and leave the program. *)
Record still (s s' : vl) : Prop := {
  still_quiet : quiet s s';
  still_syms : forall y, is_Some (syms s !! y) -> is_Some (syms s' !! y);
  still_level : optlevel s' = optlevel s }.

#[export] Instance still_refl : Reflexive still.
Proof. intros s. by split. Qed.
#[export] Instance still_trans : Transitive still.
Proof. intros s1 s2 s3 [? ? E1] [? ? E2]. split; [by etrans|auto|by rewrite E2]. Qed.

Lemma still_adr s s' a : still s s' -> adr_ok s a -> adr_ok s' a.
Proof. intros [_ H _] [H1 H2]. split; [|done]. intros y Hy. by apply H, H1. Qed.

(** A part that leaves the program. *)
Definition calmly {A} (m : L A) (s : vl) : Prop := lwp errs m (fun _ s' => still s s') s.

Lemma calmly_bind {A B} (m : L A) (k : A -> L B) s :
  calmly m s -> (forall a s', still s s' -> calmly (k a) s') -> calmly (x ← m; k x) s.
Proof.
  unfold calmly. intros Hm Hk. apply lwp_bind. eapply lwp_mono; [exact Hm|].
  intros a s' _ H. eapply lwp_mono; [by apply Hk|]. intros b s2 _ H2. exact (still_trans _ _ _ H H2).
Qed.

Lemma calmly_ret {A} (a : A) s : calmly (mret a) s.
Proof. by eapply lwp_ok. Qed.
Lemma calmly_gets {A} (f : vl -> A) s : calmly (lgets f) s.
Proof. by eapply lwp_ok. Qed.
Lemma calmly_skip s : calmly lskip s.
Proof. by eapply lwp_ok. Qed.
Lemma calmly_instoffset v s : calmly (set_instoffset v) s.
Proof. eapply lwp_ok; [done|]. by split. Qed.

Lemma calmly_getsym y s : is_Some (syms s !! y) -> calmly (getsym y) s.
Proof. intros [x Hx]. apply (lwp_ok _ _ _ _ x s); [|done]. unfold getsym. by rewrite Hx. Qed.

Lemma calmly_diag fmt args s : calmly (diag fmt args) s.
Proof.
  unfold calmly, lwp. destruct (diag fmt args s) eqn:E.
  - split; [by eapply diag_quiet| |].
    all: unfold diag, mbind, L_bind, lmodify, lgets in E; cbn in E; destruct (10 <? _); [done|].
    all: by injection E as <- <-.
  - unfold diag, mbind, L_bind, lmodify, lgets in E; cbn in E. destruct (Z.ltb_spec 10 (nerrors s + 1)); [|done].
    by injection E as <-.
  - unfold diag, mbind, L_bind, lmodify, lgets in E; cbn in E. by destruct (10 <? _).
  - unfold diag, mbind, L_bind, lmodify, lgets in E; cbn in E. by destruct (10 <? _).
Qed.

Lemma calmly_updsym y f s : is_Some (syms s !! y) -> calmly (updsym y f) s.
Proof.
  intros [x Hx]. eapply lwp_updsym'; [exact Hx|]. split; [done| |done]. intros z [w Hz]. simpl.
  destruct (decide (z = y)) as [->|Hn]; [by rewrite lookup_insert_eq|].
  rewrite lookup_insert_ne by done. by exists w.
Qed.

Create HintDb calmly.
#[export] Hint Resolve calmly_ret calmly_gets calmly_skip calmly_instoffset calmly_getsym calmly_diag
  calmly_updsym : calmly.

Lemma still_sym s s' y : still s s' -> is_Some (syms s !! y) -> is_Some (syms s' !! y).
Proof. intros [_ H _]. apply H. Qed.

(** One step of a definition: the facts about symbols follow the state. *)
Ltac calm_step :=
  cbv zeta;
  lazymatch goal with
  | |- calmly (mbind _ _) _ => apply calmly_bind; [|let s' := fresh "s" in let H := fresh "Hst" in intros ? s' H;
      repeat match goal with
      | Hy : is_Some (syms ?s !! ?y) |- _ => apply (still_sym _ _ _ H) in Hy
      end; clear H]
  | |- calmly (if ?b then _ else _) _ => destruct b
  | |- calmly (match ?x with _ => _ end) _ => destruct x eqn:?
  | |- _ => solve [auto with calmly]
  end.
Ltac calm := repeat calm_step.

Lemma aclass_calm a s : adr_ok s a -> calmly (aclass a) s.
Proof.
  intros [Hs Ht]. unfold aclass.
  repeat (case_match; [by auto with calmly|]).
  assert (forall y, a_sym a = Some y -> is_Some (syms s !! y)) as Hy by done.
  case_match.
  { unfold aclass_oreg, near, auto_class, undefined_external, near. destruct (a_sym a) as [y|]; [|calm].
    pose proof (Hy y eq_refl). calm. }
  repeat (case_match; [by auto with calmly|]).
  case_match eqn:E.
  { apply Z.eqb_eq in E. destruct (Ht E) as [y E']. unfold aclass_oconst, undefined_external. rewrite E'.
    pose proof (Hy y E'). calm. }
  case_match; [|calm].
  unfold aclass_const, consize, auto_class, undefined_external, near. destruct (a_sym a) as [y|]; [|calm].
  pose proof (Hy y eq_refl). calm.
Qed.

Lemma regoff_calm a s : adr_ok s a -> calmly (regoff a) s.
Proof.
  intros H. apply calmly_bind; [apply calmly_instoffset|]. intros [] s1 H1.
  apply calmly_bind; [apply aclass_calm; by eapply still_adr|]. intros _ s2 _. apply calmly_gets.
Qed.

(** ** [depend] *)

(** Nothing [regsused] knows of is shared. *)
Definition clear (a b : Sch) : bool := negb (reg_depend a b) && negb (cc_depend a b).

(** Element [x] of the array, in state [s]. *)
Definition elem_ok (s : vl) (x : Sch) : Prop := adr_ok s (from (h_p x)).

Lemma still_elem s s' x : still s s' -> elem_ok s x -> elem_ok s' x.
Proof. apply still_adr. Qed.

Lemma still_elems s s' l : still s s' -> Forall (elem_ok s) l -> Forall (elem_ok s') l.
Proof. intros H Hl. eapply list.Forall_impl; [exact Hl|]. intros x. by apply still_elem. Qed.

Lemma lwp_calm {A} (m : L A) s (Q : A -> Prop) :
  calmly m s -> (forall a s', m s = LOk a s' -> Q a) -> lwp errs m (fun a s' => still s s' /\ Q a) s.
Proof. intros H HQ. eapply lwp_mono; [exact H|]. intros a s' E Hs. split; [done|]. by eapply HQ. Qed.

Lemma same_address_calm a b s : elem_ok s a -> elem_ok s b -> calmly (same_address a b) s.
Proof.
  intros Ha Hb. unfold same_address. case_match; [|by apply calmly_ret].
  apply calmly_bind; [by apply regoff_calm|]. intros u s1 H1.
  apply calmly_bind; [apply regoff_calm; by eapply still_elem|]. intros v s2 _. apply calmly_ret.
Qed.

Lemma depend_spec a b s :
  elem_ok s a -> elem_ok s b ->
  lwp errs (depend a b) (fun r s' => still s s' /\ (r = false -> clear a b = true)) s.
Proof.
  intros Ha Hb. unfold depend, clear. destruct (reg_depend a b); [by eapply lwp_ok|].
  apply lwp_bind. eapply lwp_mono; [by apply same_address_calm|]. intros q s' _ H.
  apply lwp_ret. split; [done|]. intros E. apply orb_false_iff in E as [_ ->]. done.
Qed.

Lemma some_depend_spec (d : Sch -> L bool) (Q : Sch -> Prop) us s :
  (forall u t, u ∈ us -> still s t -> lwp errs (d u) (fun r t' => still t t' /\ (r = false -> Q u)) t) ->
  lwp errs (some_depend d us) (fun r t => still s t /\ (r = false -> Forall Q us)) s.
Proof.
  revert s. induction us as [|u us IH]; intros s H; simpl.
  { eapply lwp_ok; [done|]. split; [done|]. by constructor. }
  apply lwp_bind. eapply lwp_mono; [apply H; [by left|done]|]. intros r t _ [Ht Hr].
  destruct r; [by eapply lwp_ok|].
  eapply lwp_mono; [apply IH; intros v t' Hv Ht'; apply H; [by right|by etrans]|].
  intros r t' _ [Ht' Hr']. split; [by etrans|]. intros ->. constructor; auto.
Qed.

Lemma reverse_Forall {A} (Q : A -> Prop) l : Forall Q (reverse l) -> Forall Q l.
Proof. by rewrite reverse_Permutation. Qed.

(** ** Moves *)

Lemma split_at (l : list Sch) s t :
  (s <= t < length l)%nat -> l = take s l ++ between l s t ++ l !!! t :: drop (S t) l.
Proof.
  intros H. unfold between.
  assert (l !! t = Some (l !!! t)) as Hy by (apply list_lookup_lookup_total_lt; lia).
  rewrite <- (drop_S _ _ _ Hy). rewrite app_assoc.
  replace (take s l ++ drop s (take t l)) with (take t l); [by rewrite take_drop|].
  rewrite <- (take_drop s (take t l)) at 1. f_equal. rewrite take_take. f_equal. lia.
Qed.

Lemma move_up_swaps l s t :
  (s <= t < length l)%nat -> Forall (fun u => free u (l !!! t) = true) (between l s t) ->
  swaps l (move_up l s t).
Proof.
  intros H Hu. rewrite (split_at l s t) at 1 by done. unfold move_up. apply swaps_app.
  change (drop s (take t l)) with (between l s t). rewrite cons_middle, app_assoc.
  apply (swaps_app_r _ (l !!! t :: between l s t)). by apply swaps_up.
Qed.

Lemma move_down_swaps l t s :
  (t < s < length l)%nat -> Forall (fun u => free (l !!! t) u = true) (between l (S t) (S s)) ->
  swaps l (move_down l t s).
Proof.
  intros H Hu. unfold move_down. change (drop (S t) (take (S s) l)) with (between l (S t) (S s)).
  assert (l = take t l ++ l !!! t :: between l (S t) (S s) ++ drop (S s) l) as E.
  { rewrite (split_at l t t) at 1 by lia. unfold between at 1. rewrite drop_ge by (rewrite length_take; lia).
    simpl. do 2 f_equal. unfold between. rewrite <- (take_drop (S s - S t) (drop (S t) l)).
    rewrite drop_drop. f_equal; [|f_equal; lia]. by rewrite skipn_firstn_comm. }
  rewrite E at 1. apply swaps_app.
  rewrite cons_middle, app_assoc. apply (swaps_app_r (l !!! t :: between l (S t) (S s))).
  by apply swaps_down.
Qed.

(** A branch ends the block. *)
Definition no_branch (x : Sch) : Prop := has_mark BRANCH x = false.
Definition only_last (l : list Sch) : Prop := forall b z, l = b ++ [z] -> Forall no_branch b.

(** What the prepass does to the array. *)
Record moved (l l' : list Sch) : Prop := {
  mv_swaps : swaps l l';
  mv_last : only_last l -> only_last l' }.

#[export] Instance moved_refl : Reflexive moved.
Proof. by split. Qed.
#[export] Instance moved_trans : Transitive moved.
Proof. intros l1 l2 l3 [? ?] [? ?]. split; [by etrans|auto]. Qed.

Lemma moved_length l l' : moved l l' -> length l' = length l.
Proof. intros [H _]. symmetry. by apply Permutation_length, swaps_perm. Qed.

Lemma moved_ok s l l' : moved l l' -> Forall (elem_ok s) l -> Forall (elem_ok s) l'.
Proof. intros [H _]. by rewrite (swaps_perm _ _ H). Qed.

Lemma only_last_up A B C y :
  no_branch y -> only_last (A ++ B ++ y :: C) -> only_last (A ++ y :: B ++ C).
Proof.
  intros Hy Hl b z E. destruct C as [|w C _] using rev_ind.
  - assert (Forall no_branch (A ++ B)) as H by (apply (Hl _ y); by rewrite app_assoc).
    apply list.Forall_app in H as [HA HB]. rewrite app_nil_r in E.
    assert (Forall no_branch (b ++ [z])) as H by (rewrite <- E; apply list.Forall_app; auto).
    by apply list.Forall_app in H as [H _].
  - assert (b = A ++ y :: B ++ C) as ->.
    { symmetry. apply (app_inj_tail (A ++ y :: B ++ C) b w z). rewrite <- E, <- !app_assoc. simpl. by rewrite <- !app_assoc. }
    rewrite (Permutation_middle B C y).
    apply (Hl _ w). by rewrite <- !app_assoc, <- app_comm_cons.
Qed.

Lemma clear_free a b :
  clear a b = true -> no_branch a \/ no_branch b -> free a b = true /\ free b a = true.
Proof.
  unfold clear, free, indep, no_branch. intros -> [-> | ->]; rewrite ?andb_false_r; by rewrite orb_true_r.
Qed.

Lemma move_up_moved l s t :
  (s <= t < length l)%nat -> no_branch (l !!! t) ->
  Forall (fun u => clear u (l !!! t) = true \/ clear (l !!! t) u = true) (between l s t) ->
  moved l (move_up l s t).
Proof.
  intros Hst Hy Hu. split.
  - apply move_up_swaps; [done|]. eapply list.Forall_impl; [exact Hu|].
    intros u [H|H]; apply clear_free in H as [? ?]; auto.
  - rewrite (split_at l s t) at 1 by done. by apply only_last_up.
Qed.

Lemma elem_lookup s l i : Forall (elem_ok s) l -> (i < length l)%nat -> elem_ok s (l !!! i).
Proof.
  intros H Hi. destruct (lookup_lt_is_Some_2 l i Hi) as [x Hx]. rewrite (list_lookup_total_correct _ _ _ Hx).
  by apply (list.Forall_lookup_1 _ _ _ _ H Hx).
Qed.

Lemma elem_between (l : list Sch) i j u : u ∈ between l i j -> u ∈ l.
Proof.
  unfold between. intros H. rewrite <- (take_drop j l), <- (take_drop i (take j l)), !list.elem_of_app. auto.
Qed.

(** ** The prepass *)

Definition reorders (s : vl) (l : list Sch) (m : L (list Sch)) : Prop :=
  lwp errs m (fun l' s' => still s s' /\ moved l l') s.

Lemma reorders_ret s l l' : moved l l' -> reorders s l (mret l').
Proof. intros H. by eapply lwp_ok. Qed.

Lemma reorders_step s l l1 m : moved l l1 -> reorders s l1 m -> reorders s l m.
Proof.
  intros H Hm. eapply lwp_mono; [exact Hm|]. intros l2 s' _ [Hs H2]. split; [done|by etrans].
Qed.

Lemma reorders_bind s l m k :
  reorders s l m -> (forall l1 s1, still s s1 -> moved l l1 -> reorders s1 l1 (k l1)) ->
  reorders s l (x ← m; k x).
Proof.
  intros Hm Hk. apply lwp_bind. eapply lwp_mono; [exact Hm|]. intros l1 s1 _ [Hs H1].
  eapply lwp_mono; [by apply Hk|]. intros l2 s2 _ [Hs2 H2]. split; by etrans.
Qed.

Lemma ends_block_branch x : ends_block x = false -> no_branch x.
Proof. by intros [H _]%orb_false_iff. Qed.

Lemma pre_load_spec n l s t x :
  Forall (elem_ok x) l -> (s < t)%nat -> (t + n = length l)%nat -> reorders x l (pre_load n l s t).
Proof.
  revert t. induction n as [|n IH]; intros t Hok Hst Hn; simpl; [by apply reorders_ret|].
  case_match; [apply IH; (done || lia)|]. case_match eqn:E; [by apply reorders_ret|].
  apply orb_false_iff in E as [E _]. apply ends_block_branch in E.
  apply lwp_bind. eapply lwp_mono.
  - apply (some_depend_spec _ (fun u => clear u (l !!! t) = true)). intros u s' Hu Hs.
    apply depend_spec; eapply still_elem; try done.
    + apply (proj1 (list.Forall_forall _ _) Hok). eapply elem_between. unfold down in Hu.
      by rewrite reverse_Permutation in Hu.
    + apply elem_lookup; [done|lia].
  - intros b s' _ [Hs Hb]. apply lwp_ret. split; [done|]. destruct b; [done|].
    apply move_up_moved; [lia|done|]. apply reverse_Forall in Hb; [|done].
    eapply list.Forall_impl; [exact Hb|]. auto.
Qed.

Lemma pre_fodder_spec n l s t x :
  Forall (elem_ok x) l -> (s < t)%nat -> (t + n = length l)%nat -> reorders x l (pre_fodder n l s t).
Proof.
  revert l t x. induction n as [|n IH]; intros l t x Hok Hst Hn; simpl; [by apply reorders_ret|].
  case_match eqn:E; [by apply reorders_ret|]. apply ends_block_branch in E.
  case_match; [apply IH; (done || lia)|].
  apply lwp_bind. eapply lwp_mono.
  - apply (some_depend_spec _ (fun u => clear (l !!! t) u = true)). intros u s' Hu Hs.
    apply depend_spec; eapply still_elem; try done.
    + apply elem_lookup; [done|lia].
    + apply (proj1 (list.Forall_forall _ _) Hok). eapply elem_between. unfold down in Hu.
      by rewrite reverse_Permutation in Hu.
  - intros b s' _ [Hs Hb].
    assert (Forall (elem_ok s') l) as Hok' by by eapply still_elems.
    cut (reorders s' l (if b then pre_fodder n l s (S t)
           else if negb (has_mark LOAD (l !!! t)) then mret (move_up l s t)
                else pre_fodder n (move_up l s t) s (S t))).
    { intros Hc. eapply lwp_mono; [exact Hc|]. intros l' s2 _ [H1 H2]. split; [by etrans|done]. }
    destruct b; [apply IH; (done || lia)|].
    assert (moved l (move_up l s t)) as Hm.
    { apply move_up_moved; [lia|done|]. apply reverse_Forall in Hb; [|done].
      eapply list.Forall_impl; [exact Hb|]. auto. }
    case_match; [by apply reorders_ret|]. apply (reorders_step _ _ _ _ Hm). apply IH.
    + by apply (moved_ok _ l).
    + lia.
    + rewrite (moved_length _ _ Hm). lia.
Qed.

Lemma prepass_spec n l s x :
  Forall (elem_ok x) l -> (s + n = length l)%nat -> reorders x l (prepass n l s).
Proof.
  revert l s x. induction n as [|n IH]; intros l s x Hok Hn; simpl; [by apply reorders_ret|].
  case_match; [apply IH; (done || lia)|].
  apply reorders_bind; [apply pre_load_spec; (done || lia)|]. intros l1 x1 H1 M1.
  assert (Forall (elem_ok x1) l1) as Hok1 by (eapply still_elems, moved_ok; done).
  apply reorders_bind; [apply pre_fodder_spec; [done|lia|rewrite (moved_length _ _ M1); lia]|].
  intros l2 x2 H2 M2. apply IH.
  - by eapply still_elems, moved_ok.
  - rewrite (moved_length _ _ M2), (moved_length _ _ M1). lia.
Qed.

(** ** Delay slots *)

(** [b] right after [a] needs what [a] computes: a register, or the flag of a comparison. *)
Definition hazard (a b : Sch) : bool :=
  meets (ireg (h_set a)) (ireg (h_used b)) || meets (freg (h_set a)) (freg (h_used b))
  || meets (Z.land (cc (h_set a)) (Z.lor E_HILO (Z.lor E_FCR E_MCR))) (cc (h_used b)).

(** The element at [i], where it needs a slot, has a no-op there or an instruction that can
    be there, which for a branch is a single word. *)
Definition settled (l : list Sch) (i : nat) : Prop :=
  forall x, l !! i = Some x -> has_mark DELAY x = true ->
    0 < h_nop x \/ exists y, l !! S i = Some y /\ hazard x y = false
                            /\ (has_mark BRANCH x = true -> comp y = false).

Lemma meets_land a m b : meets a b = false -> meets (Z.land a m) b = false.
Proof.
  unfold meets. rewrite !negb_false_iff, !Z.eqb_eq. intros H.
  by rewrite (Z.land_comm a m), <- Z.land_assoc, H, Z.land_0_r.
Qed.

Lemma conflict_hazard a b : conflict a b = false -> hazard a b = false.
Proof.
  unfold conflict, hazard. intros [[-> ->]%orb_false_iff H]%orb_false_iff. simpl. by apply meets_land.
Qed.

Lemma cc_clear a b :
  cc_depend a b = false -> Z.land (cc_meet a b) (Z.lor E_HILO (Z.lor E_FCR E_MCR)) = 0.
Proof.
  unfold cc_depend. destruct (Z.eqb_spec (cc_meet a b) 0) as [->|_]; [done|].
  destruct (negb (cc_meet a b =? E_MEMSP) && negb (cc_meet a b =? E_MEMSB)) eqn:E; [done|]. intros _.
  apply andb_false_iff in E as [E|E]; apply negb_false_iff, Z.eqb_eq in E; by rewrite E.
Qed.

Lemma clear_hazard a b : clear a b = true -> hazard a b = false.
Proof.
  unfold clear, hazard. intros [Hr Hc]%andb_true_iff. rewrite negb_true_iff in Hr, Hc.
  destruct (reg_indep _ _ Hr) as (_ & -> & _ & _ & -> & _). simpl.
  apply cc_clear in Hc. unfold cc_meet in Hc. revert Hc. generalize (Z.lor E_HILO (Z.lor E_FCR E_MCR)).
  intros m Hc. rewrite Z.land_lor_distr_l in Hc.
  apply Z.lor_eq_0_iff in Hc as [Hc _]. rewrite Z.land_lor_distr_r, Z.land_lor_distr_l in Hc.
  apply Z.lor_eq_0_iff in Hc as [_ Hc]. unfold meets. apply negb_false_iff, Z.eqb_eq.
  by rewrite <- Hc, <- !Z.land_assoc, (Z.land_comm (cc (h_used b))).
Qed.

(** *** The search *)

Record found (l : list Sch) (s t : nat) : Prop := {
  f_before : (t < s)%nat;
  f_single : comp (l !!! t) = true -> has_mark BRANCH (l !!! s) = false;
  f_next : has_mark DELAY (l !!! t) = true ->
             (S s < length l)%nat /\ conflict (l !!! t) (l !!! S s) = false;
  f_clear : Forall (fun u => clear u (l !!! t) = true) (between l (S t) (S s)) }.

Lemma find_slot_spec l s n x :
  Forall (elem_ok x) l -> (n <= s)%nat -> (s < length l)%nat ->
  lwp errs (find_slot l s n) (fun r x' => still x x' /\ forall t, r = Some t -> found l s t) x.
Proof.
  revert x. induction n as [|t IH]; intros x Hok Hn Hs; simpl; [by eapply lwp_ok|].
  case_match eqn:E1; [apply IH; (done || lia)|]. case_match eqn:E2; [apply IH; (done || lia)|].
  apply lwp_bind. eapply lwp_mono.
  - apply (some_depend_spec _ (fun u => clear u (l !!! t) = true)). intros u x' Hu Hx.
    apply depend_spec; eapply still_elem; try done.
    + apply (proj1 (list.Forall_forall _ _) Hok). by eapply elem_between.
    + apply elem_lookup; [done|lia].
  - intros b x' _ [Hx Hb]. destruct b.
    + eapply lwp_mono; [apply IH; [by eapply still_elems|lia|done]|].
      intros r x2 _ [H2 Hr]. split; [by etrans|done].
    + eapply lwp_ok; [done|]. split; [done|]. intros t' [= <-]. split; [lia| | |by apply Hb].
      * intros Hc. by rewrite Hc in E1.
      * intros Hd. rewrite Hd in E2. apply orb_false_iff in E2 as [E2 ?].
        apply Nat.leb_gt in E2. done.
Qed.

(** *** The move *)

Section MoveDown.
Context (l : list Sch) (t s : nat) (Hts : (t < s < length l)%nat).

Lemma move_down_length : length (move_down l t s) = length l.
Proof.
  unfold move_down. rewrite !length_app, length_cons, !length_drop, !length_take. lia.
Qed.

Lemma move_down_at : move_down l t s !! s = Some (l !!! t).
Proof.
  unfold move_down. rewrite lookup_app_r; rewrite length_take; [|lia].
  rewrite lookup_app_r; rewrite length_drop, length_take; [|lia].
  replace (s - t `min` length l - (S s `min` length l - S t))%nat with 0%nat by lia. done.
Qed.

Lemma move_down_between i : (t <= i < s)%nat -> move_down l t s !! i = l !! S i.
Proof.
  intros Hi. unfold move_down. rewrite lookup_app_r; rewrite length_take; [|lia].
  rewrite lookup_app_l; [|rewrite length_drop, length_take; lia].
  rewrite lookup_drop, lookup_take_lt by lia. f_equal. lia.
Qed.

Lemma move_down_after i : (s < i)%nat -> move_down l t s !! i = l !! i.
Proof.
  intros Hi. unfold move_down. rewrite lookup_app_r; rewrite length_take; [|lia].
  rewrite lookup_app_r; rewrite length_drop, length_take; [|lia].
  replace (i - t `min` length l - (S s `min` length l - S t))%nat with (S (i - S s)) by lia. simpl.
  rewrite lookup_drop. f_equal. lia.
Qed.

Lemma move_down_before i : (i < t)%nat -> move_down l t s !! i = l !! i.
Proof.
  intros Hi. unfold move_down. rewrite lookup_app_l by (rewrite length_take; lia).
  by rewrite lookup_take_lt by lia.
Qed.
End MoveDown.

(** *** The loop *)

Definition bare (x : Sch) : Sch := hset_nop 0 x.

Lemma swaps_bare l l' : swaps l l' -> swaps (bare <$> l) (bare <$> l').
Proof.
  induction 1 as [|a b c [x y z w Hi] _ IH]; [done|]. eapply rtc_l; [|exact IH].
  rewrite !fmap_app. simpl. by apply swap_here.
Qed.

Lemma bare_insert (l : list Sch) (i : nat) x n : l !! i = Some x -> bare <$> <[i := hset_nop n x]> l = bare <$> l.
Proof.
  intros H. rewrite list_fmap_insert. apply list_insert_id. by rewrite list_lookup_fmap, H.
Qed.

(** A branch is at the end, with a no-op to follow, or has exactly one instruction after it. *)
Definition branch_at (l : list Sch) (i : nat) (x : Sch) : Prop :=
  (0 < h_nop x /\ S i = length l) \/ (h_nop x = 0 /\ S (S i) = length l).

(** Before the step for the element [n-1]: the slots from [n] on are filled, the others are
    untouched, and only the element [n-1], at the end, or one from [n] on is a branch. *)
Record slots (n : nat) (l : list Sch) : Prop := {
  sl_len : (n <= length l)%nat;
  sl_fresh : forall i x, l !! i = Some x -> (i < n)%nat -> h_nop x = 0;
  sl_branch : forall i x, l !! i = Some x -> has_mark BRANCH x = true ->
                ((n <= i)%nat /\ branch_at l i x) \/ (n = length l /\ S i = n);
  sl_settled : forall i, (n <= i)%nat -> settled l i }.

(** The element at [s] is no branch at the end. *)
Lemma slots_step s l :
  slots (S s) l -> settled l s -> (has_mark BRANCH (l !!! s) = true -> S s <> length l) -> slots s l.
Proof.
  intros [H1 Hf H2 H3] Hs He. split; [lia| | |].
  - intros i x Hx Hi. apply (Hf i x Hx). lia.
  - intros i x Hx Hb. destruct (H2 i x Hx Hb) as [[? ?]|[? E]]; [left; split; [lia|done]|].
    assert (i = s) as -> by lia. rewrite (list_lookup_total_correct _ _ _ Hx) in He. by specialize (He Hb).
  - intros i Hi. destruct (Nat.eq_dec i s) as [->|]; [done|]. apply H3. lia.
Qed.

(** The element at [s] gets a no-op. *)
Lemma slots_nop s l x :
  slots (S s) l -> l !! s = Some x -> slots s (<[s := hset_nop 1 x]> l).
Proof.
  intros [H1 Hf H2 H3] Hx. split; [rewrite length_insert; lia| | |].
  - intros i y Hy Hi. rewrite list_lookup_insert_ne in Hy by lia. apply (Hf i y Hy). lia.
  - intros i y Hy Hb. unfold branch_at in *. rewrite length_insert. destruct (Nat.eq_dec i s) as [->|].
    + rewrite list_lookup_insert_eq in Hy by lia. injection Hy as <-. left. split; [lia|].
      destruct (H2 s x Hx Hb); [lia|]. left. simpl. lia.
    + rewrite list_lookup_insert_ne in Hy by done. destruct (H2 i y Hy Hb) as [[? ?]|[? ?]]; [left; split; [lia|done]|lia].
  - intros i Hi. destruct (Nat.eq_dec i s) as [->|Hne].
    + intros y Hy _. rewrite list_lookup_insert_eq in Hy by lia. injection Hy as <-. by left.
    + intros y. rewrite list_lookup_insert_ne by lia. intros Hy Hd.
      destruct (H3 i ltac:(lia) y Hy Hd) as [?|(z & Hz & ?)]; [by left|right].
      exists z. rewrite list_lookup_insert_ne by lia. done.
Qed.

(** The instruction [y] that [find_slot] chose. *)
Lemma found_lookup l s t n :
  slots n l -> found l s t -> (s < n)%nat ->
  l !! t = Some (l !!! t) /\ l !! s = Some (l !!! s) /\ has_mark BRANCH (l !!! t) = false.
Proof.
  intros [H1 _ H2 _] [Ht _ _ _] Hn.
  assert (l !! t = Some (l !!! t)) as Hy by (apply list_lookup_lookup_total_lt; lia).
  split_and!; [done|apply list_lookup_lookup_total_lt; lia|].
  destruct (has_mark BRANCH (l !!! t)) eqn:E; [|done]. destruct (H2 t _ Hy E); lia.
Qed.

(** It does not wait for the element at [s], and needs no slot itself or has one. *)
Lemma found_settled l s t :
  found l s t -> (s < length l)%nat -> has_mark BRANCH (l !!! t) = false ->
  settled (move_down l t s) (s - 1) /\ settled (move_down l t s) s.
Proof.
  intros [Ht Hc Hn Hf] Hs Hyb. split; intros x Hx Hd; right.
  - rewrite move_down_between in Hx by lia. replace (S (s - 1)) with s in * by lia.
    exists (l !!! t). rewrite move_down_at by lia. rewrite <- (list_lookup_total_correct _ _ _ Hx).
    split_and!; [done| |].
    + apply clear_hazard. rewrite list.Forall_forall in Hf. apply Hf. unfold between.
      apply list_elem_of_lookup. exists (s - S t)%nat. rewrite lookup_drop, lookup_take_lt by lia.
      replace (S t + (s - S t))%nat with s by lia. apply list_lookup_lookup_total_lt. lia.
    + intros Hb. destruct (comp (l !!! t)) eqn:E; [|done]. by rewrite Hc in Hb.
  - rewrite move_down_at in Hx by lia. injection Hx as <-. destruct (Hn Hd) as [Hlt Hcf].
    exists (l !!! S s). rewrite move_down_after by lia.
    split_and!; [apply list_lookup_lookup_total_lt; lia|by apply conflict_hazard|congruence].
Qed.

(** The element at [t] moves into the slot of the one at [S s]. *)
Lemma slots_move s l t :
  slots (S (S s)) l -> found l (S s) t -> slots s (move_down l t (S s)).
Proof.
  intros Hsl Hfd. destruct (found_lookup _ _ _ _ Hsl Hfd) as (Hy & Hx & Hyb); [lia|].
  destruct Hsl as [H1 Hf H2 H3].
  destruct (found_settled l (S s) t Hfd) as [S1 S2]; [lia|done|].
  replace (S s - 1)%nat with s in S1 by lia. pose proof (f_before _ _ _ Hfd) as Ht.
  split; [rewrite move_down_length; lia| | |].
  - intros i x Hi Hlt. destruct (Nat.le_gt_cases t i).
    + rewrite move_down_between in Hi by lia. apply (Hf (S i) x Hi). lia.
    + rewrite move_down_before in Hi by lia. apply (Hf i x Hi). lia.
  - intros i x Hi Hb. unfold branch_at in *. rewrite move_down_length by lia. left. destruct (Nat.lt_trichotomy i (S s)) as [Hlt|[->|Hgt]].
    + destruct (Nat.le_gt_cases t i).
      * rewrite move_down_between in Hi by lia. destruct (H2 (S i) x Hi Hb) as [[? ?]|[? ?]]; [lia|].
        split; [lia|]. right. rewrite (Hf (S i) x Hi) by lia. lia.
      * rewrite move_down_before in Hi by lia. destruct (H2 i x Hi Hb); lia.
    + rewrite move_down_at in Hi by lia. injection Hi as <-. congruence.
    + rewrite move_down_after in Hi by lia. destruct (H2 i x Hi Hb) as [[? ?]|[? ?]]; lia.
  - intros i Hi. destruct (Nat.eq_dec i s) as [->|]; [done|].
    destruct (Nat.eq_dec i (S s)) as [->|]; [done|]. intros x Hxi Hd.
    rewrite move_down_after in Hxi by lia.
    destruct (H3 i ltac:(lia) x Hxi Hd) as [?|(z & Hz & ?)]; [by left|right].
    exists z. by rewrite move_down_after by lia.
Qed.

Lemma found_swaps l s t :
  found l s t -> (s < length l)%nat -> has_mark BRANCH (l !!! t) = false -> swaps l (move_down l t s).
Proof.
  intros [Ht _ _ Hf] Hs Hb. apply move_down_swaps; [lia|]. eapply list.Forall_impl; [exact Hf|].
  intros u Hu. apply clear_free in Hu; [apply Hu|by right].
Qed.

(** The array after the loop. *)
Definition fills (x : vl) (l : list Sch) (m : L (list Sch)) : Prop :=
  lwp errs m (fun l' x' => still x x' /\ swaps (bare <$> l) (bare <$> l') /\ slots 0 l') x.

Lemma fills_step x l l1 m : swaps (bare <$> l) (bare <$> l1) -> fills x l1 m -> fills x l m.
Proof.
  intros H Hm. eapply lwp_mono; [exact Hm|]. intros l2 x' _ (H1 & H2 & H3). split_and!; [done|by etrans|done].
Qed.

Lemma fill_spec n l x : Forall (elem_ok x) l -> slots n l -> fills x l (fill n l).
Proof.
  revert l x. induction n as [n IH] using lt_wf_ind. intros l x Hok Hs.
  destruct n as [|s]; simpl; [by eapply lwp_ok|].
  assert (s < length l)%nat as Hlt by (destruct Hs; lia).
  assert (l !! s = Some (l !!! s)) as Hx by by apply list_lookup_lookup_total_lt.
  case_match eqn:Hd.
  { apply IH; [lia|done|]. apply slots_step; [done| |].
    - intros y Hy Hyd. rewrite Hx in Hy. injection Hy as <-. by rewrite Hyd in Hd.
    - unfold has_mark, DELAY in *. intros Hb. rewrite negb_involutive in Hd. apply Z.eqb_eq in Hd.
      rewrite !Z.land_lor_distr_r in Hd. apply Z.lor_eq_0_iff in Hd as [Hd _]. by rewrite Hd in Hb. }
  case_match eqn:Hc.
  { apply andb_true_iff in Hc as [Hc1 Hc2]. apply Nat.ltb_lt in Hc1. apply negb_true_iff in Hc2.
    apply IH; [lia|done|].
    assert (has_mark BRANCH (l !!! s) = false) as Hb.
    { destruct (has_mark BRANCH (l !!! s)) eqn:E; [|done]. destruct (sl_branch _ _ Hs s _ Hx E); lia. }
    apply slots_step; [done| |congruence]. intros y Hy Hyd. rewrite Hx in Hy. injection Hy as <-. right.
    exists (l !!! S s). split_and!; [by apply list_lookup_lookup_total_lt|by apply conflict_hazard|congruence]. }
  apply lwp_get, lwp_bind. eapply lwp_mono.
  - instantiate (1 := fun r x' => still x x' /\ forall t, r = Some t -> found l s t).
    case_match; [by eapply lwp_ok|]. by apply find_slot_spec.
  - intros r x1 _ [H1 Hr].
    assert (Forall (elem_ok x1) l) as Hok1 by by eapply still_elems.
    cut (fills x1 l (match r with Some t => match s with S s' => fill s' (move_down l t s) | O => lfault end
                     | None => fill s (<[s:=hset_nop 1 (l !!! s)]> l) end)).
    { intros H. eapply lwp_mono; [exact H|]. intros l2 x2 _ (?&?&?). split_and!; [by etrans|done|done]. }
    destruct r as [t|].
    + specialize (Hr t eq_refl). destruct s as [|s']; [destruct Hr; lia|].
      destruct (found_lookup _ _ _ _ Hs Hr) as (_ & _ & Hb); [lia|].
      pose proof (found_swaps _ _ _ Hr Hlt Hb) as Hsw.
      eapply fills_step; [by apply swaps_bare|]. apply IH; [lia| |by apply slots_move].
      by rewrite <- (swaps_perm _ _ Hsw).
    + eapply fills_step; [rewrite <- (bare_insert l s (l !!! s) 1) by done; reflexivity|].
      apply IH; [lia| |by apply slots_nop].
      apply list.Forall_insert; [done|]. by apply (list.Forall_lookup_1 _ _ _ _ Hok1 Hx).
Qed.

(** ** The array at the end *)

Lemma slots_insert l s x n :
  slots 0 l -> l !! s = Some x -> 0 < n -> (S (S s) < length l)%nat -> slots 0 (<[s := hset_nop n x]> l).
Proof.
  intros [_ _ H2 H3] Hx Hn Hs. split; [lia|intros; lia| |].
  - intros i y Hy Hb. unfold branch_at in *. rewrite length_insert. destruct (Nat.eq_dec i s) as [->|].
    + rewrite list_lookup_insert_eq in Hy by lia. injection Hy as <-. destruct (H2 s x Hx Hb); lia.
    + rewrite list_lookup_insert_ne in Hy by done. by apply H2.
  - intros i _ y Hy Hd. destruct (Nat.eq_dec i s) as [->|].
    + rewrite list_lookup_insert_eq in Hy by lia. injection Hy as <-. by left.
    + rewrite list_lookup_insert_ne in Hy by done.
      destruct (H3 i ltac:(lia) y Hy Hd) as [?|(z & Hz & Hh & Hc)]; [by left|right].
      destruct (Nat.eq_dec (S i) s) as [<-|].
      * rewrite list_lookup_insert_eq by lia. rewrite Hx in Hz. injection Hz as <-. by eexists.
      * rewrite list_lookup_insert_ne by done. by exists z.
Qed.

Lemma hilo_spec n l s :
  slots 0 l -> (s + n <= length l - 2)%nat -> slots 0 (hilo n l s) /\ bare <$> hilo n l s = bare <$> l.
Proof.
  revert l s. induction n as [|n IH]; intros l s Hl Hn; [done|]. simpl.
  case_match; [|apply IH; [done|lia]].
  assert (l !! s = Some (l !!! s)) as Hx by (apply list_lookup_lookup_total_lt; lia).
  destruct (IH (<[s := hset_nop 2 (l !!! s)]> l) (S s)) as [H1 H2].
  - apply slots_insert; (done || lia).
  - rewrite length_insert. lia.
  - split; [done|]. by rewrite H2, bare_insert.
Qed.

Lemma only_last_slots l : only_last l -> Forall (fun x => h_nop x = 0) l -> slots (length l) l.
Proof.
  intros Hb Hn. split; [done| | |].
  - intros i x Hx _. by apply (list.Forall_lookup_1 _ _ _ _ Hn Hx).
  - intros i x Hx Hm. right. split; [done|]. destruct l as [|z l _] using rev_ind; [done|].
    specialize (Hb l z eq_refl). rewrite length_app. simpl.
    destruct (Nat.eq_dec i (length l)) as [->|]; [lia|]. exfalso.
    apply lookup_lt_Some in Hx as Hi. rewrite length_app in Hi. simpl in Hi.
    rewrite lookup_app_l in Hx by lia. pose proof (list.Forall_lookup_1 _ _ _ _ Hb Hx) as H.
    unfold no_branch in H. congruence.
  - intros i Hi x Hx. apply lookup_lt_Some in Hx. lia.
Qed.

Lemma bare_fresh l : Forall (fun x => h_nop x = 0) l -> bare <$> l = l.
Proof. induction 1 as [|[] l H _ IH]; [done|]. simpl in *. subst. f_equal. exact IH. Qed.

(** [reorder] exchanges neighbours that do not depend on each other, and fills the slots. *)
Lemma reorder_spec l x :
  Forall (elem_ok x) l -> only_last l -> Forall (fun y => h_nop y = 0) l ->
  lwp errs (reorder l) (fun l' x' => still x x' /\ swaps l (bare <$> l') /\ slots 0 l') x.
Proof.
  intros Hok Hl Hn. unfold reorder. apply lwp_bind. eapply lwp_mono; [by apply prepass_spec|].
  intros l1 x1 _ [H1 [Hs1 Hl1]]. apply lwp_bind.
  assert (Forall (fun y => h_nop y = 0) l1) as Hn1 by by rewrite <- (swaps_perm _ _ Hs1).
  eapply lwp_mono.
  - apply fill_spec; [|by apply only_last_slots; auto].
    eapply still_elems; [done|]. by rewrite <- (swaps_perm _ _ Hs1).
  - intros l2 x2 _ (H2 & Hs2 & Hsl). apply lwp_ret.
    destruct (hilo_spec (length l2 - 2) l2 0 Hsl) as [Hh Hb]; [lia|].
    split_and!; [by etrans| |done]. rewrite Hb. rewrite (bare_fresh l1) in Hs2 by done. by etrans.
Qed.
