(* ===== verification/VlRegs.v ===== *)
(** What [regsused] leaves: the instruction itself, and memory accesses that name the register
    they are relative to. *)
From S2P Require Import Prelude CInt VlObj VlOptab VlSym VlWp VlSpan VlTables VlLib VlLook VlSched VlDep VlMoves.

(** ** The instruction proper *)

(** The middle register an arithmetic instruction without one has. *)
Definition norm (p : Prog) : Prog := if is_muldiv (p_as p) || is_arith (p_as p) then default_reg p else p.

(** An instruction without its place and the caches and flags of the linker. *)
Definition insn (p : Prog) : Prog := pset_link None (pset_mark 0 (code (norm p))).

Lemma code_insn p q : code p = code q -> insn p = insn q.
Proof.
  intros H. unfold insn. do 2 f_equal.
  pose proof (f_equal p_as H : p_as p = p_as q) as E1.
  pose proof (f_equal p_reg H : p_reg p = p_reg q) as E2.
  pose proof (f_equal (fun x => a_type (to x)) H : a_type (to p) = a_type (to q)) as E3.
  pose proof (f_equal (fun x => a_reg (to x)) H : a_reg (to p) = a_reg (to q)) as E4.
  unfold norm, default_reg. rewrite E1, E2, E3, E4.
  destruct (_ || _); [|exact H]. destruct (_ && _); [|exact H].
  exact (f_equal (pset_reg (a_reg (to q))) H).
Qed.

Lemma insn_link v p : insn (pset_link v p) = insn p.
Proof. unfold insn, norm, default_reg. simpl. by repeat case_match. Qed.
Lemma insn_mark v p : insn (pset_mark v p) = insn p.
Proof. unfold insn, norm, default_reg. simpl. by repeat case_match. Qed.

Lemma default_reg_as p : p_as (default_reg p) = p_as p.
Proof. unfold default_reg. by case_match. Qed.

Lemma default_reg_twice p : default_reg (default_reg p) = default_reg p.
Proof.
  unfold default_reg at 2 3. destruct ((p_reg p =? NREG) && _) eqn:E; [|by unfold default_reg; rewrite E].
  unfold default_reg. simpl. by case_match.
Qed.

Lemma insn_default p : is_muldiv (p_as p) = true \/ is_arith (p_as p) = true -> insn (default_reg p) = insn p.
Proof.
  intros H. assert (is_muldiv (p_as p) || is_arith (p_as p) = true) as E.
  { by destruct H as [-> | ->]; rewrite ?orb_true_r. }
  unfold insn, norm. by rewrite default_reg_as, default_reg_twice, E.
Qed.

(** What an annotation of [p] keeps. *)
Record anno (p : Prog) (x : Sch) : Prop := {
  an_insn : insn (h_p x) = insn p;
  an_link : link (h_p x) = link p;
  an_branch : Z.land (p_mark (h_p x)) BRANCH = Z.land (p_mark p) BRANCH;
  an_nop : h_nop x = 0;
  an_set : based x (h_set x);
  an_used : based x (h_used x) }.

Lemma based_none x : based x dep0.
Proof. by split. Qed.

Lemma anno_start p q : code q = code p -> p_mark q = p_mark p -> anno p (sch0 q).
Proof.
  intros H Hm. split; try apply based_none; simpl; [by apply code_insn|exact (code_link _ _ H)|by rewrite Hm|done].
Qed.

(** More registers in use. *)
Lemma based_more x y d :
  based x d -> (forall k, Z.testbit (ireg (h_used x)) k = true -> Z.testbit (ireg (h_used y)) k = true) -> based y d.
Proof. intros [H1 H2] Hk. split; auto. Qed.

(** More resources, none of them memory, or any memory. *)
Lemma based_lor x d d' m :
  based x d -> cc d' = Z.lor (cc d) m ->
  (meets m E_MEM = true \/ ((meets m E_MEMSP = true -> Z.testbit (ireg (h_used x)) REGSP = true)
     /\ (meets m E_MEMSB = true -> Z.testbit (ireg (h_used x)) REGSB = true))) -> based x d'.
Proof.
  intros [H1 H2] E Hm. unfold based. rewrite E, !(meets_sym (Z.lor _ _)), !meets_lor, !(meets_sym _ (cc d)), !(meets_sym _ m).
  split; intros [H|H]%orb_true_iff [Hn1 Hn2]%orb_false_iff; auto; destruct Hm as [Hm|[? ?]]; auto; congruence.
Qed.

Lemma used_more x c k : Z.testbit (ireg (h_used x)) k = true -> Z.testbit (ireg (h_used (use_i c x))) k = true.
Proof. intros H. simpl. by rewrite Z.lor_spec, H. Qed.

Lemma use_i_used c x : 0 <= c < 32 -> Z.testbit (ireg (h_used (use_i c x))) c = true.
Proof.
  intros Hc. simpl. rewrite Z.lor_spec. unfold bit. change 31 with (Z.ones 5).
  rewrite Z.land_ones, Z.mod_small, Z.shiftl_1_l, Z.pow2_bits_true by lia. apply orb_true_r.
Qed.

Section Anno.
Context (p : Prog) (x : Sch) (H : anno p x).

Lemma anno_use_i c : anno p (use_i c x).
Proof.
  destruct H as [? ? ? ? Hs Hu]. split; try done.
  - eapply based_more; [exact Hs|]. apply used_more.
  - destruct (based_more x (use_i c x) _ Hu (used_more x c)). by split.
Qed.

Lemma anno_set_i c : anno p (set_i c x).
Proof. destruct H as [? ? ? ? Hs Hu]. by split. Qed.
Lemma anno_set_f c : anno p (set_f c x).
Proof. destruct H as [? ? ? ? Hs Hu]. by split. Qed.
Lemma anno_use_f c : anno p (use_f c x).
Proof. destruct H as [? ? ? ? Hs Hu]. by split. Qed.
Lemma anno_mem o n : anno p (hset_mem o n x).
Proof. destruct H as [? ? ? ? Hs Hu]. by split. Qed.
Lemma anno_comp b : anno p (hset_comp b x).
Proof. destruct H as [? ? ? ? Hs Hu]. by split. Qed.

Lemma anno_hilo d : cc d = E_HILO -> anno p (hset_set d x).
Proof. destruct H as [? ? ? ? Hs Hu]. intros E. split; try done. unfold based. simpl. by rewrite E. Qed.

Lemma anno_cc m :
  meets m E_MEM = true \/ ((meets m E_MEMSP = true -> Z.testbit (ireg (h_used x)) REGSP = true)
    /\ (meets m E_MEMSB = true -> Z.testbit (ireg (h_used x)) REGSB = true)) ->
  anno p (set_c m x) /\ anno p (use_c m x).
Proof.
  destruct H as [? ? ? ? Hs Hu]. intros Hm. split; split; try done.
  - exact (based_lor x _ (dor_c m (h_set x)) m Hs eq_refl Hm).
  - exact (based_lor x _ (dor_c m (h_used x)) m Hu eq_refl Hm).
Qed.

Lemma anno_mark m : Z.land m BRANCH = 0 -> anno p (add_mark m x).
Proof.
  destruct H as [H1 H2 H3 ? Hs Hu]. intros Hm. split; try done; simpl.
  - by rewrite insn_mark.
  - by rewrite Z.land_lor_distr_l, Hm, Z.lor_0_r.
Qed.

Lemma anno_p q :
  insn q = insn (h_p x) -> link q = link (h_p x) -> p_mark q = p_mark (h_p x) -> anno p (hset_p q x).
Proof. destruct H as [H1 H2 H3 ? Hs Hu]. intros E1 E2 E3. split; try done; simpl; congruence. Qed.

Lemma anno_default :
  is_muldiv (p_as (h_p x)) = true \/ is_arith (p_as (h_p x)) = true -> anno p (hset_p (default_reg (h_p x)) x).
Proof.
  intros Ha. apply anno_p; [by apply insn_default|..]; unfold default_reg; by case_match.
Qed.

Lemma anno_reg : anno p (regs_reg x).
Proof.
  unfold regs_reg. cbv zeta.
  match goal with |- anno p (hset_set _ ?z) => assert (anno p z) as [] end; [|by split].
  repeat case_match; [done|by apply anno_use_f|by apply anno_use_i].
Qed.
End Anno.

(** ** The operands *)

Lemma insn_from p : from (insn p) = aset_class 0 (from p).
Proof. unfold insn, norm, default_reg. by repeat case_match. Qed.
Lemma insn_as p : p_as (insn p) = p_as p.
Proof. unfold insn, norm, default_reg. by repeat case_match. Qed.
Lemma insn_to p : to (insn p) = aset_class 0 (to p).
Proof. unfold insn, norm, default_reg. by repeat case_match. Qed.

Lemma adr_class s a b : aset_class 0 a = aset_class 0 b -> adr_ok s b -> adr_ok s a.
Proof.
  intros H [H1 H2]. pose proof (f_equal a_sym H) as E1. pose proof (f_equal a_type H) as E2. simpl in *.
  split; [by rewrite E1|by rewrite E1, E2].
Qed.

(** Both operands of an instruction are in order. *)
Definition opnds_ok (s : vl) (p : Prog) : Prop := adr_ok s (from p) /\ adr_ok s (to p).

Lemma opnds_insn s p q : insn q = insn p -> opnds_ok s p -> opnds_ok s q.
Proof.
  intros H [H1 H2].
  pose proof (f_equal from H) as Ef. pose proof (f_equal to H) as Et. rewrite !insn_from in Ef. rewrite !insn_to in Et.
  split; by eapply adr_class.
Qed.

Lemma still_opnds s s' p : still s s' -> opnds_ok s p -> opnds_ok s' p.
Proof. intros H [H1 H2]. split; by eapply still_adr. Qed.

(** [m] annotates [p] further. *)
Definition annotates (p : Prog) (s : vl) (m : L Sch) : Prop :=
  lwp errs m (fun x s' => still s s' /\ anno p x) s.

Lemma annotates_ret p s x : anno p x -> annotates p s (mret x).
Proof. intros H. by eapply lwp_ok. Qed.

Lemma annotates_calm {A} p s (m : L A) (k : A -> L Sch) :
  calmly m s -> (forall a s', still s s' -> annotates p s' (k a)) -> annotates p s (x ← m; k x).
Proof.
  intros Hm Hk. apply lwp_bind. eapply lwp_mono; [exact Hm|]. intros a s1 _ H1.
  eapply lwp_mono; [apply Hk; exact H1|]. intros b s2 _ [H2 H]. split; [exact (still_trans _ _ _ H1 H2)|done].
Qed.

Lemma annotates_bind p s m (k : Sch -> L Sch) :
  annotates p s m -> (forall x s', still s s' -> anno p x -> annotates p s' (k x)) -> annotates p s (x ← m; k x).
Proof.
  intros Hm Hk. apply lwp_bind. eapply lwp_mono; [exact Hm|]. intros a s1 _ [H1 Ha].
  eapply lwp_mono; [by apply Hk|]. intros b s2 _ [H2 H]. split; [exact (still_trans _ _ _ H1 H2)|done].
Qed.

Lemma annotates_pair {A} p s (m : L A) (f : A -> Sch) (k : A -> L Sch) :
  lwp errs m (fun r s' => still s s' /\ anno p (f r)) s ->
  (forall r s', still s s' -> anno p (f r) -> annotates p s' (k r)) -> annotates p s (x ← m; k x).
Proof.
  intros Hm Hk. apply lwp_bind. eapply lwp_mono; [exact Hm|]. intros a s1 _ [H1 Ha].
  eapply lwp_mono; [by apply Hk|]. intros b s2 _ [H2 H]. split; [exact (still_trans _ _ _ H1 H2)|done].
Qed.

Lemma sch_mem_anno p s sz a x : adr_ok s a -> anno p x -> annotates p s (sch_mem sz a x).
Proof.
  intros Ha Hx. apply annotates_calm; [by apply regoff_calm|]. intros o s' _.
  apply annotates_ret. by apply anno_mem.
Qed.

(** The masks of memory at a register. *)
Lemma mask_base (ireg : Z) (r : Z) :
  Z.testbit ireg r = true \/ (r <> REGSP /\ r <> REGSB) ->
  meets (mem_mask r) E_MEM = true \/ ((meets (mem_mask r) E_MEMSP = true -> Z.testbit ireg REGSP = true)
    /\ (meets (mem_mask r) E_MEMSB = true -> Z.testbit ireg REGSB = true)).
Proof.
  intros H. unfold mem_mask. destruct (Z.eqb_spec r REGSP) as [->|].
  - right. split; [intros _|by vm_compute]. by destruct H as [H|[H _]].
  - destruct (Z.eqb_spec r REGSB) as [->|]; [|left; by vm_compute].
    right. split; [by vm_compute|]. intros _. by destruct H as [H|[_ H]].
Qed.

Lemma anno_mask p x r :
  anno p x -> Z.testbit (ireg (h_used x)) r = true \/ (r <> REGSP /\ r <> REGSB) ->
  anno p (set_c (mem_mask r) x) /\ anno p (use_c (mem_mask r) x).
Proof. intros Hx H. apply anno_cc; [done|]. by apply mask_base. Qed.

(** The used register of a memory operand. *)
Lemma used_or r x : Z.testbit (ireg (h_used (use_i r x))) r = true \/ (r <> REGSP /\ r <> REGSB).
Proof.
  destruct (Z.eq_dec r REGSP) as [->|]; [left; by apply use_i_used|].
  destruct (Z.eq_dec r REGSB) as [->|]; [left; by apply use_i_used|by right].
Qed.

(** An access at the offset [sch_mem] computes, relative to the register [r]. *)
Lemma mem_access_anno p s sz a r (k : Z -> Sch -> Sch) x :
  adr_ok s a -> anno p x -> Z.testbit (ireg (h_used x)) r = true \/ (r <> REGSP /\ r <> REGSB) ->
  k = set_c \/ k = use_c ->
  annotates p s (y ← sch_mem sz a x; mret (k (mem_mask r) y)).
Proof.
  intros Ha Hx Hr Hk. unfold sch_mem. apply lwp_bind, lwp_bind.
  eapply lwp_mono; [by apply regoff_calm|]. intros o s' _ Hs. apply lwp_ret, lwp_ret. split; [done|].
  destruct (anno_mask p (hset_mem o sz x) r) as [H1 H2]; [by apply anno_mem|done|].
  by destruct Hk as [-> | ->].
Qed.

(** ** The parts of [regsused] *)

Lemma curtext_calm v s : calmly (lmodify (lset_curtext v)) s.
Proof. eapply lwp_ok; [done|]. by split. Qed.
Lemma autosize_calm v s : calmly (lmodify (lset_autosize v)) s.
Proof. eapply lwp_ok; [done|]. by split. Qed.

(** Marks and condition codes that are neither branches nor memory. *)
Lemma anno_code p x m : m = E_HILO \/ m = E_FCR \/ m = E_MCR -> anno p x -> anno p (set_c m x) /\ anno p (use_c m x).
Proof.
  intros Hm Hx. apply anno_cc; [done|]. right. by destruct Hm as [->|[->| ->]].
Qed.

Lemma regs_as_anno p s realp x :
  anno p x -> lwp errs (regs_as realp x) (fun r s' => still s s' /\ anno p r.1) s.
Proof.
  intros Hx. unfold regs_as.
  repeat first [ case_match
    | eapply lwp_ok; [reflexivity|split; [reflexivity|]; cbn [fst]] ].
  all: repeat first [ exact Hx | apply anno_set_i
    | by apply anno_code; [tauto|] | apply anno_mark; [|done]
    | apply anno_default; [|auto] | apply anno_hilo; [|done] ].
  - apply lwp_bind. eapply lwp_mono; [apply curtext_calm|]. intros [] s1 _ H1.
    apply lwp_bind. eapply lwp_mono; [apply autosize_calm|]. intros [] s2 _ H2.
    apply lwp_ret. split; [exact (still_trans _ _ _ H1 H2)|done].
  - apply (anno_default p (hset_set _ x)); [by apply anno_hilo|auto].
Qed.

Lemma sch_class_to_anno p s x :
  anno p x -> opnds_ok s p ->
  lwp errs (sch_class_to x) (fun r s' => still s s' /\ anno p r.2) s.
Proof.
  intros Hx Ho. unfold sch_class_to. case_match; [|by eapply lwp_ok].
  apply lwp_bind. eapply lwp_mono; [apply aclass_calm|].
  - by apply (opnds_insn s _ _ (an_insn _ _ Hx)) in Ho as [_ ?].
  - intros c s1 _ H1. apply lwp_ret. split; [done|]. apply anno_p; [done|by apply code_insn|done..].
Qed.

Lemma sch_class_from_anno p s x :
  anno p x -> opnds_ok s p ->
  lwp errs (sch_class_from x) (fun r s' => still s s' /\ anno p r.2) s.
Proof.
  intros Hx Ho. unfold sch_class_from. case_match; [|by eapply lwp_ok].
  apply lwp_bind. eapply lwp_mono; [apply aclass_calm|].
  - by apply (opnds_insn s _ _ (an_insn _ _ Hx)) in Ho as [? _].
  - intros c s1 _ H1. apply lwp_ret. split; [done|]. apply anno_p; [done|by apply code_insn|done..].
Qed.

Lemma load_mark_anno p f x : anno p x -> anno p (load_mark f x).
Proof. intros H. unfold load_mark. case_match; [by apply anno_mark|done]. Qed.

Create HintDb anno.
#[local] Hint Resolve anno_use_i anno_set_i anno_set_f anno_use_f anno_mark load_mark_anno anno_comp : anno.

(** A memory operand at the register [r]. *)
Lemma mem_to_anno p s f r a x :
  adr_ok s a -> anno p x -> Z.testbit (ireg (h_used x)) r = true \/ (r <> REGSP /\ r <> REGSB) ->
  annotates p s (if ad f then mret x else y ← sch_mem (sz f) a x; mret (mem_c (ar f) (mem_mask r) y)).
Proof.
  intros Ha Hx Hr. destruct (ad f); [by apply annotates_ret|]. unfold mem_c. destruct (ar f).
  - apply (mem_access_anno p s (sz f) a r use_c); auto.
  - apply (mem_access_anno p s (sz f) a r set_c); auto.
Qed.

Lemma mem_from_anno p s f r a x :
  adr_ok s a -> anno p x -> Z.testbit (ireg (h_used x)) r = true \/ (r <> REGSP /\ r <> REGSB) ->
  annotates p s (if ad f then mret x else y ← sch_mem (sz f) a x; mret (use_c (mem_mask r) y)).
Proof.
  intros Ha Hx Hr. destruct (ad f); [by apply annotates_ret|].
  apply (mem_access_anno p s (sz f) a r use_c); auto.
Qed.

Lemma marked_used_or f r x :
  Z.testbit (ireg (h_used (load_mark f (use_i r x)))) r = true \/ (r <> REGSP /\ r <> REGSB).
Proof. unfold load_mark. destruct (ld f); apply used_or. Qed.

Lemma regs_to_anno p s f x : anno p x -> opnds_ok s p -> annotates p s (regs_to f x).
Proof.
  intros Hx Ho. unfold regs_to. eapply annotates_pair; [by apply sch_class_to_anno|].
  intros [c x1] s1 H1 Hx1. simpl in Hx1. apply (still_opnds _ _ _ H1) in Ho. clear H1.
  pose proof (opnds_insn _ _ _ (an_insn _ _ Hx1) Ho) as [_ Hto]. cbv zeta.
  case_match; [by apply annotates_ret, anno_code; [tauto|]|].
  case_match; [by apply annotates_ret, anno_code; [tauto|]|].
  case_match; [by apply annotates_ret, anno_code; [tauto|]|].
  case_match; [apply mem_to_anno; auto with anno; apply used_or|].
  case_match; [by apply annotates_ret, anno_use_i|].
  case_match; [by apply annotates_ret, anno_use_i|].
  case_match; [apply annotates_ret; case_match; auto with anno|].
  case_match; [apply annotates_ret; repeat case_match; auto with anno|].
  case_match; [apply (mem_to_anno p s1 f REGSP); auto with anno; apply used_or|].
  case_match; [apply (mem_to_anno p s1 f REGSB); auto with anno; apply used_or|].
  by apply annotates_ret.
Qed.

Lemma regs_from_anno p s f x : anno p x -> opnds_ok s p -> annotates p s (regs_from f x).
Proof.
  intros Hx Ho. unfold regs_from. eapply annotates_pair; [by apply sch_class_from_anno|].
  intros [c x1] s1 H1 Hx1. simpl in Hx1. apply (still_opnds _ _ _ H1) in Ho. clear H1.
  pose proof (opnds_insn _ _ _ (an_insn _ _ Hx1) Ho) as [Hfr _]. cbv zeta.
  case_match; [by apply annotates_ret, anno_code; [tauto|]|].
  case_match; [by apply annotates_ret, anno_code; [tauto|]|].
  case_match; [by apply annotates_ret, anno_code; [tauto|]|].
  case_match.
  { apply (mem_access_anno p s1 (sz f) (from (h_p x1)) _ use_c); auto with anno. apply marked_used_or. }
  case_match; [by apply annotates_ret, anno_use_i|].
  case_match; [by apply annotates_ret, anno_use_i|].
  case_match; [apply annotates_ret; repeat case_match; auto with anno|].
  case_match; [apply annotates_ret; repeat case_match; auto with anno|].
  case_match; [apply (mem_from_anno p s1 f REGSP); auto with anno; apply marked_used_or|].
  case_match; [apply (mem_from_anno p s1 f REGSB); auto with anno; apply marked_used_or|].
  by apply annotates_ret.
Qed.

(** ** [compound] *)

(** [s'] is calm after [s] with another instruction at [pid]. *)
Definition stores (pid : Z) (p : Prog) (s s' : vl) : Prop := still (lset_progs (<[pid := p]> (progs s)) s) s'.

Lemma stores_getp pid p s s' : stores pid p s s' -> progs s' !! pid = Some p.
Proof. intros [[-> _ _] _ _]. simpl. by rewrite lookup_insert_eq. Qed.

Lemma stores_still pid p s s1 s2 : stores pid p s s1 -> still s1 s2 -> stores pid p s s2.
Proof. apply still_trans. Qed.

Lemma stores_updp pid p q s s' :
  stores pid p s s' -> stores pid q s (lset_progs (<[pid := q]> (progs s')) s').
Proof.
  intros [[Hp Hv Hd] Hs Hl]. split; [split|..]; simpl in *; try done.
  by rewrite Hp, insert_insert_eq.
Qed.

Lemma stores_opnds pid p q s s' : stores pid p s s' -> opnds_ok s q -> opnds_ok s' q.
Proof. intros H. apply (still_opnds _ _ _ H). Qed.

Lemma stores_start pid p s : progs s !! pid = Some p -> stores pid p s s.
Proof. intros H. unfold stores. rewrite insert_id by done. by split. Qed.

Lemma code_opnds s p q : code q = code p -> opnds_ok s p -> opnds_ok s q.
Proof. intros H. by apply opnds_insn, code_insn. Qed.

Lemma opt_at_ok k s : tabs s = tables -> (Z.to_nat k < 178)%nat -> exists o, opt_at k s = LOk o s.
Proof.
  intros Ht Hk. unfold opt_at. rewrite Ht.
  destruct (lookup_lt_is_Some_2 (t_optab tables) (Z.to_nat k)) as [o Ho]; [by rewrite tables_length|].
  exists o. by rewrite Ho.
Qed.

Lemma class_from_stores pid s p0 p s0 :
  stores pid p s0 s -> code p = code p0 -> opnds_ok s0 p0 ->
  lwp errs (class_from pid) (fun _ s' => exists p', code p' = code p0 /\ p_optab p' = p_optab p /\ stores pid p' s0 s') s.
Proof.
  intros Hst Hc Ho. unfold class_from. eapply lwp_getp; [by eapply stores_getp|].
  case_match; [|eapply lwp_ok; [done|]; by exists p].
  apply lwp_bind. eapply lwp_mono; [apply aclass_calm|].
  - apply (stores_opnds _ _ _ _ _ Hst), (code_opnds _ _ _ Hc) in Ho as [H1 _]. exact H1.
  - intros c s1 _ H1. pose proof (stores_still _ _ _ _ _ Hst H1) as Hs1.
    eapply lwp_updp; [by eapply stores_getp|]. apply lwp_ret.
    eexists. split_and!; [| |by eapply stores_updp]; [by rewrite <- Hc|done].
Qed.

Lemma class_to_stores pid s p0 p s0 :
  stores pid p s0 s -> code p = code p0 -> opnds_ok s0 p0 ->
  lwp errs (class_to pid) (fun _ s' => exists p', code p' = code p0 /\ p_optab p' = p_optab p /\ stores pid p' s0 s') s.
Proof.
  intros Hst Hc Ho. unfold class_to. eapply lwp_getp; [by eapply stores_getp|].
  case_match; [|eapply lwp_ok; [done|]; by exists p].
  apply lwp_bind. eapply lwp_mono; [apply aclass_calm|].
  - apply (stores_opnds _ _ _ _ _ Hst), (code_opnds _ _ _ Hc) in Ho as [_ H1]. exact H1.
  - intros c s1 _ H1. pose proof (stores_still _ _ _ _ _ Hst H1) as Hs1.
    eapply lwp_updp; [by eapply stores_getp|]. apply lwp_ret.
    eexists. split_and!; [| |by eapply stores_updp]; [by rewrite <- Hc|done].
Qed.

Lemma still_tabs s s' : still s s' -> tabs s' = tabs s.
Proof. intros [[_ Hv _] _ _]. unfold vars in Hv. by injection Hv. Qed.

(** Setting the cache of the entry and reading the entry. *)
Lemma set_optab_stores pid s p s0 k :
  stores pid p s0 s -> tabs s0 = tables -> (Z.to_nat k < 178)%nat ->
  lwp errs (set_optab pid k;; opt_at k) (fun _ s' => exists p', code p' = code p /\ stores pid p' s0 s') s.
Proof.
  intros Hst Ht Hk. unfold set_optab. eapply lwp_updp; [by eapply stores_getp|].
  pose proof (stores_updp _ _ (pset_optab (u8 (k + 1)) p) _ _ Hst) as H.
  destruct (opt_at_ok k (lset_progs (<[pid := pset_optab (u8 (k + 1)) p]> (progs s)) s)) as [o Ho].
  - simpl. by rewrite (still_tabs _ _ Hst).
  - done.
  - eapply lwp_ok; [exact Ho|]. eexists; split; [|exact H]; done.
Qed.

Lemma oplook_stores pid s p :
  progs s !! pid = Some p -> tabs s = tables -> opnds_ok s p -> 0 <= p_optab p <= 178 ->
  lwp errs (oplook pid) (fun _ s' => exists p', code p' = code p /\ stores pid p' s s') s.
Proof.
  intros Hp Ht Ho Hr. unfold oplook. eapply lwp_getp; [done|].
  case_match eqn:E.
  { destruct (opt_at_ok (p_optab p - 1) s Ht) as [o Hopt]; [lia|]. eapply lwp_ok; [done|].
    exists p. split; [done|]. by apply stores_start. }
  apply lwp_bind. eapply lwp_mono; [eapply class_from_stores; [by apply stores_start|done|done]|].
  intros a1 s1 _ (p1 & Hc1 & E1 & H1).
  apply lwp_bind. eapply lwp_mono; [by eapply class_to_stores|]. intros a3 s2 _ (p2 & Hc2 & E2 & H2).
  apply lwp_get. rewrite (still_tabs _ _ H2). simpl. rewrite Ht.
  destruct (ofind tables _ a1 _ a3) as [k|] eqn:Ek.
  - destruct (ofind_range _ _ _ _ _ Ek) as [Hk _].
    eapply lwp_mono; [eapply set_optab_stores; [done|done|lia]|].
    intros o s3 _ (p3 & Hc3 & H3). exists p3. split; [congruence|done].
  - apply lwp_bind. eapply lwp_mono; [apply calmly_diag|]. intros [] s3 _ H3.
    eapply lwp_mono; [eapply set_optab_stores; [by eapply stores_still|done|by vm_compute; lia]|].
    intros o s4 _ (p4 & Hc4 & H4). exists p4. split; [congruence|done].
Qed.

Lemma compound_calm s p :
  progs s !! local = None -> tabs s = tables -> opnds_ok s p -> 0 <= p_optab p <= 178 ->
  lwp errs (compound p) (fun r s' => still s s' /\ code r.2 = code p) s.
Proof.
  intros Hl Ht Ho Hr. unfold compound. apply lwp_bind.
  assert (lwp errs (on_local oplook p) (fun r s' => still s s' /\ code r.2 = code p) s) as H.
  { unfold on_local, lwp at 1. set (t := lset_progs (<[local:=p]> (progs s)) s).
    assert (lwp errs (oplook local) (fun _ s' => exists p', code p' = code p /\ stores local p' t s') t) as H.
    { apply oplook_stores; simpl; [by rewrite lookup_insert_eq|done| |done].
      destruct Ho as [[? ?] [? ?]]. by split; split. }
    unfold lwp in H. destruct (oplook local t) as [o s'|s'| |]; try done.
    destruct H as (p' & Hc & H). rewrite (stores_getp _ _ _ _ H). split; [|done].
    destruct H as [[Hp Hv Hd] Hs Hlv]. subst t. simpl in *. split; [split; simpl; try done|done|done].
    by rewrite Hp, insert_insert_eq, delete_insert_id. }
  eapply lwp_mono; [exact H|]. intros [o q] s' _ [H1 H2]. by eapply lwp_ok.
Qed.

(** ** [regsused] *)

Lemma still_local s s' : still s s' -> progs s' = progs s.
Proof. by intros [[? _ _] _ _]. Qed.

(** [regsused] of an instruction of the program. *)
Lemma regsused_anno s p realp :
  progs s !! local = None -> tabs s = tables -> opnds_ok s p -> 0 <= p_optab p <= 178 ->
  annotates p s (regsused p realp).
Proof.
  intros Hl Ht Ho Hr. unfold regsused. apply lwp_bind. eapply lwp_mono; [by apply compound_calm|].
  intros [c q] s1 _ [H1 Hq]. simpl in Hq.
  assert (anno p (sch0 q)) as Hx by (apply anno_start; [done|exact (f_equal p_mark Hq)]).
  assert (anno p (let x := hset_comp c (sch0 q) in if c then use_i REGTMP (set_i REGTMP x) else x)) as Hx1.
  { cbv zeta. destruct c; auto with anno. }
  revert Hx1. cbv zeta. generalize (if c then use_i REGTMP (set_i REGTMP (hset_comp c (sch0 q))) else hset_comp c (sch0 q)).
  intros x Hx1. apply (still_opnds _ _ _ H1) in Ho.
  enough (annotates p s1 ('(x0, f) ← regs_as realp x; x1 ← regs_to f x0; x2 ← regs_from f x1; mret (regs_reg x2))) as H.
  { eapply lwp_mono; [exact H|]. intros y s2 _ [H2 Hy]. split; [exact (still_trans _ _ _ H1 H2)|done]. }
  eapply annotates_pair; [by apply regs_as_anno|]. intros [x1 f] s2 H2 Hx2. simpl in Hx2.
  apply annotates_bind; [apply regs_to_anno; [done|by eapply still_opnds]|]. intros x3 s3 H3 Hx3.
  apply annotates_bind; [apply regs_from_anno; [done|by eapply still_opnds, still_opnds]|].
  intros x4 s4 _ Hx4. by apply annotates_ret, anno_reg.
Qed.
