(* ===== verification/VlSchedThm.v ===== *)
(** A block that [sched] has reordered does what it did before, and its delay slots are
    filled. *)
From stdpp Require Import relations.
From S2P Require Import Prelude CInt VlObj VlOptab VlSym VlWp VlSpan VlAsm VlTables VlLib VlDemo VlSched VlDep VlMoves VlRegs.

(** ** Blocks in the store *)

(** The instructions from [p] on, up to [e]. *)
Fixpoint lseg (m : gmap Z Prog) (p : option Z) (l : list Z) (e : option Z) : Prop :=
  match l with
  | [] => p = e
  | x :: l' => p = Some x /\ exists q, m !! x = Some q /\ lseg m (link q) l' e
  end.

Definition contents (m : gmap Z Prog) (l : list Z) (cs : list Prog) : Prop :=
  Forall2 (fun i c => m !! i = Some c) l cs.

Lemma lseg_same m m' p l e : same_on l m m' -> lseg m p l e -> lseg m' p l e.
Proof.
  revert p. induction l as [|x l IH]; intros p Hs; [done|]. intros (Hp & q & Hq & Hl).
  split; [done|]. exists q. split; [rewrite Hs; [done|by left]|].
  apply IH; [|done]. intros y Hy. apply Hs. by right.
Qed.

Lemma lseg_app m p l1 x l2 e :
  lseg m p l1 (Some x) -> lseg m (Some x) l2 e -> lseg m p (l1 ++ l2) e.
Proof.
  revert p. induction l1 as [|y l1 IH]; intros p; simpl; [by intros ->|].
  intros (-> & q & Hq & H1) H2. split; [done|]. exists q. auto.
Qed.

Lemma contents_same m m' l cs : same_on l m m' -> contents m l cs -> contents m' l cs.
Proof.
  intros Hs H. unfold contents in *. induction H as [|i c l cs Hi _ IH]; [constructor|].
  constructor; [rewrite Hs; [done|by left]|]. apply IH. intros y Hy. apply Hs. by right.
Qed.

(** The store changes only at [l] and at new instructions. *)
Definition only_on (l : list Z) (s s' : vl) : Prop :=
  nextp s <= nextp s' /\ forall y, y ∉ l -> y < nextp s -> progs s' !! y = progs s !! y.

(** Only the store of instructions changes. *)
Definition prog_only (s s' : vl) : Prop := exists n m, s' = lset_nextp n (lset_progs m s).

#[export] Instance prog_only_refl : Reflexive prog_only.
Proof. intros s. exists (nextp s), (progs s). by destruct s. Qed.
#[export] Instance prog_only_trans : Transitive prog_only.
Proof. intros s1 s2 s3 (n & m & ->) (n' & m' & ->). by exists n', m'. Qed.

(** ** [addnop] *)

Definition is_nop (c : Prog) : Prop :=
  p_as c = ANOR /\ from c = areg0 /\ to c = areg0 /\ p_reg c = NREG /\ cond c = None.

Lemma addnop_run pid c s :
  progs s !! pid = Some c -> pid < nextp s ->
  exists q s', addnop pid s = LOk tt s' /\ is_nop q /\ link q = link c /\ nextp s' = nextp s + 1
    /\ progs s' = <[pid := pset_link (Some (nextp s)) c]> (<[nextp s := q]> (progs s)) /\ prog_only s s'.
Proof.
  intros Hc Hlt. unfold addnop, prg, getp, updp, mbind, L_bind. simpl.
  rewrite !lookup_insert_ne, Hc by lia. simpl. rewrite lookup_insert_eq. simpl.
  rewrite !lookup_insert_ne, Hc by lia. 
  exists (pset_link (link c) (pset_to areg0 (pset_from areg0 (pset_line (p_line c) (pset_as ANOR zprg))))).
  eexists. split; [reflexivity|].
  split; [by repeat split|]. split; [done|]. split; [done|]. simpl.
  split; [by rewrite insert_insert_eq|]. by do 2 eexists.
Qed.

Lemma addnops_run n pid c s :
  progs s !! pid = Some c -> pid < nextp s ->
  exists s' ids ns v, addnops n pid s = LOk tt s'
    /\ progs s' !! pid = Some (pset_link v c) /\ lseg (progs s') v ids (link c)
    /\ contents (progs s') ids ns /\ length ns = n /\ Forall is_nop ns
    /\ Forall (fun i => nextp s <= i < nextp s') ids /\ only_on [pid] s s' /\ prog_only s s'.
Proof.
  revert c s. induction n as [|n IH]; intros c s Hc Hlt; simpl.
  { exists s, [], [], (link c). split_and!; try done; first [by destruct c|apply Forall2_nil_2|by split|reflexivity]. }
  destruct (addnop_run pid c s Hc Hlt) as (q & s1 & H1 & Hq & Hl & En & Ep & Hpo1).
  assert (progs s1 !! pid = Some (pset_link (Some (nextp s)) c)) as Hc1 by (by rewrite Ep, lookup_insert_eq).
  assert (progs s1 !! nextp s = Some q) as Hq1 by (rewrite Ep, lookup_insert_ne, lookup_insert_eq by lia; done).
  destruct (IH _ s1 Hc1) as (s2 & ids & ns & v & H2 & Hc2 & Hs2 & Hk2 & Hn & Hf & Hr & [Ho Hsame] & Hpo2); [lia|].
  assert (progs s2 !! nextp s = Some q) as Hq2.
  { rewrite Hsame; [done| |lia]. rewrite list_elem_of_singleton. lia. }
  exists s2, (ids ++ [nextp s]), (ns ++ [q]), v.
  split; [by unfold mbind, L_bind; rewrite H1|]. split; [done|]. split.
  { eapply lseg_app; [exact Hs2|]. split; [done|]. exists q. split; [done|]. by rewrite <- Hl. }
  split; [apply Forall2_app; [done|by apply Forall2_cons_2; [|apply Forall2_nil_2]]|].
  split; [rewrite length_app; simpl; lia|]. split; [apply list.Forall_app; by split; [done|constructor]|].
  split.
  { apply list.Forall_app. split; [|constructor; [lia|constructor]].
    eapply list.Forall_impl; [exact Hr|]. simpl. lia. }
  split; [|by etrans]. split; [lia|]. intros y Hy Hlty. rewrite list_elem_of_singleton in Hy.
  rewrite Hsame by (rewrite ?list_elem_of_singleton; lia). rewrite Ep, !lookup_insert_ne by lia. done.
Qed.

(** ** [put_back] *)

(** The instructions [cs] are those of the array, each with its no-ops after it. *)
Inductive laid : list Sch -> list Prog -> Prop :=
  | laid_nil : laid [] []
  | laid_cons x c ns b cs :
      insn c = insn (h_p x) -> Forall is_nop ns -> length ns = Z.to_nat (h_nop x) -> laid b cs ->
      laid (x :: b) (c :: ns ++ cs).

(** An array element with the link of an instruction of the block is that instruction. *)
Definition by_link (m : gmap Z Prog) (l : list Z) (b : list Sch) : Prop :=
  forall i q x, i ∈ l -> m !! i = Some q -> x ∈ b -> link q = link (h_p x) -> insn q = insn (h_p x).

Lemma only_on_trans l l1 l2 s s1 s2 :
  only_on l1 s s1 -> only_on l2 s1 s2 -> (forall y, y ∉ l -> (y ∉ l1) /\ (y ∉ l2)) -> only_on l s s2.
Proof.
  intros [H1 S1] [H2 S2] Hl. split; [lia|]. intros y Hy Hlt. destruct (Hl y Hy).
  rewrite S2, S1; (done || lia).
Qed.

Lemma only_on_same l k s s' :
  only_on l s s' -> (forall y, y ∈ k -> (y ∉ l) /\ y < nextp s) -> same_on k (progs s) (progs s').
Proof. intros [_ H] Hk y Hy. destruct (Hk y Hy). by apply H. Qed.

(** The first instruction of the block is put back. *)
Lemma put_one x pid q s :
  progs s !! pid = Some q -> (link q = link (h_p x) -> insn q = insn (h_p x)) ->
  exists s1 c, (if bool_decide (link q = link (h_p x)) then lskip else updp pid (fun _ => pset_link (link q) (h_p x))) s
    = LOk tt s1 /\ progs s1 !! pid = Some c /\ link c = link q /\ insn c = insn (h_p x)
    /\ nextp s1 = nextp s /\ only_on [pid] s s1 /\ prog_only s s1.
Proof.
  intros Hq Hi. case_bool_decide as E.
  - exists s, q. split_and!; try done; first [by apply Hi|reflexivity].
  - exists (lset_progs (<[pid := pset_link (link q) (h_p x)]> (progs s)) s), (pset_link (link q) (h_p x)).
    split; [by unfold updp; rewrite Hq|]. split; [simpl; by rewrite lookup_insert_eq|].
    split; [done|]. split; [apply insn_link|]. split; [done|].
    split; [|by exists (nextp s), (<[pid := pset_link (link q) (h_p x)]> (progs s)); destruct s]. split; [done|].
    intros y Hy _. simpl. rewrite list_elem_of_singleton in Hy. by rewrite lookup_insert_ne.
Qed.

Lemma put_back_run b : forall l p e s,
  lseg (progs s) p l e -> NoDup l -> Forall (fun i => i < nextp s) l -> length l = length b ->
  by_link (progs s) l b ->
  exists s' l2 cs, put_back b p s = LOk tt s' /\ lseg (progs s') p l2 e /\ contents (progs s') l2 cs
    /\ laid b cs /\ only_on l s s' /\ Forall (fun i => i ∈ l \/ nextp s <= i < nextp s') l2 /\ prog_only s s'.
Proof.
  induction b as [|x b IH]; intros l p e s Hl Hd Hf Hlen Hb.
  { destruct l; [|done]. exists s, [], []. simpl in *.
    split_and!; try done; first [apply Forall2_nil_2|constructor|by split|reflexivity]. }
  destruct l as [|pid l]; [done|]. destruct Hl as (-> & q & Hq & Hl).
  apply list.NoDup_cons in Hd as [Hx Hd]. apply list.Forall_cons in Hf as [Hlt Hf].
  destruct (put_one x pid q s Hq) as (s1 & c & E1 & Hc & Elc & Hic & En1 & Ho1 & Hpo1).
  { apply (Hb pid q x); [by left|done|by left]. }
  destruct (addnops_run (Z.to_nat (h_nop x)) pid c s1 Hc) as
    (s2 & ids & ns & v & E2 & Hc2 & Hs2 & Hk2 & Hn & Hnn & Hr & Ho2 & Hpo2); [lia|].
  assert (forall y, y ∈ l -> (y ∉ [pid]) /\ y < nextp s) as Hout.
  { intros y Hy. rewrite list_elem_of_singleton. split; [by intros ->|].
    by apply (proj1 (list.Forall_forall _ _) Hf). }
  assert (only_on [pid] s s2) as Ho by (eapply only_on_trans; [exact Ho1|exact Ho2|tauto]).
  pose proof (only_on_same _ l _ _ Ho Hout) as Hsm.
  destruct (IH l (link q) e s2) as (s3 & l2 & cs & E3 & Hs3 & Hk3 & Hla & Ho3 & Hr3 & Hpo3); try done.
  { by eapply lseg_same. }
  { eapply list.Forall_impl; [exact Hf|]. destruct Ho. simpl. lia. }
  { simpl in Hlen. lia. }
  { intros i r y Hi Hr' Hy. rewrite Hsm in Hr' by done. apply (Hb i); [by right|done|by right]. }
  assert (same_on (pid :: ids) (progs s2) (progs s3)) as Hkeep.
  { apply (only_on_same l); [done|]. intros y [->|Hy]%elem_of_cons; [split; [done|destruct Ho; lia]|].
    apply (proj1 (list.Forall_forall _ _) Hr) in Hy. simpl in Hy. split; [|lia].
    intros Hy'. destruct (Hout y Hy') as [_ ?]. lia. }
  exists s3, (pid :: ids ++ l2), (pset_link v c :: ns ++ cs). split.
  { simpl. unfold mbind, L_bind, getp. rewrite Hq. cbv zeta. rewrite E1, E2. exact E3. }
  split.
  { split; [done|]. exists (pset_link v c). split; [rewrite Hkeep; [done|by left]|].
    destruct l2 as [|z l2]; simpl.
    - rewrite app_nil_r. simpl in Hs3. rewrite <- Hs3, <- Elc. eapply lseg_same; [|exact Hs2].
      intros y Hy. apply Hkeep. by right.
    - destruct Hs3 as [Ez Hs3]. eapply lseg_app; [|split; [done|exact Hs3]]. rewrite <- Ez, <- Elc.
      eapply lseg_same; [|exact Hs2]. intros y Hy. apply Hkeep. by right. }
  split.
  { apply Forall2_cons_2; [rewrite Hkeep; [done|by left]|]. apply Forall2_app; [|done].
    eapply contents_same; [|exact Hk2]. intros y Hy. apply Hkeep. by right. }
  split; [constructor; [by rewrite insn_link|done..]|].
  split; [eapply only_on_trans; [exact Ho|exact Ho3|intros y [? ?]%not_elem_of_cons; by rewrite list_elem_of_singleton]|].
  split; [|by etrans; [exact Hpo1|etrans]].
  constructor; [left; by left|]. apply list.Forall_app. split.
  - eapply list.Forall_impl; [exact Hr|]. destruct Ho, Ho3. simpl. lia.
  - eapply list.Forall_impl; [exact Hr3|]. simpl. intros i [Hi|Hi]; [left; by right|right; destruct Ho; lia].
Qed.

(** ** [build] *)

(** [x] is what [regsused] makes of instruction [i], somewhere in the pass over the block. *)
Definition annotated (s : vl) (i : Z) (x : Sch) : Prop :=
  exists p t t', progs s !! i = Some p /\ still s t /\ regsused p i t = LOk x t' /\ anno p x.

(** The instruction [i] can be annotated. *)
Definition ins_ok (s : vl) (i : Z) : Prop :=
  exists p, progs s !! i = Some p /\ opnds_ok s p /\ 0 <= p_optab p <= 178.

Lemma still_annotated s s' i x : still s s' -> annotated s' i x -> annotated s i x.
Proof.
  intros H (p & t & t' & Hp & Ht & Hr & Ha). rewrite (still_local _ _ H) in Hp.
  exists p, t, t'. split_and!; [done|exact (still_trans _ _ _ H Ht)|done..].
Qed.

Lemma still_ins s s' i : still s s' -> ins_ok s i -> ins_ok s' i.
Proof.
  intros H (p & Hp & Ho & Hr). exists p. rewrite (still_local _ _ H). split_and!; [done|by eapply still_opnds|lia..].
Qed.

Lemma regsused_annotated s i p :
  progs s !! i = Some p -> progs s !! local = None -> tabs s = tables -> ins_ok s i ->
  lwp errs (regsused p i) (fun x s' => still s s' /\ annotated s i x) s.
Proof.
  intros Hp Hl Ht (p' & Hp' & Ho & Hr). rewrite Hp in Hp'. injection Hp' as <-.
  eapply lwp_mono; [by apply regsused_anno|]. intros x s' E [H Ha]. split; [done|].
  exists p, s, s'. by split_and!.
Qed.

Lemma build_run n : forall l p0 pe e s,
  lseg (progs s) (Some p0) l e -> list.last l = Some pe -> NoDup l -> (length l <= n)%nat ->
  progs s !! local = None -> tabs s = tables -> Forall (ins_ok s) l ->
  lwp errs (build n p0 pe) (fun b s' => still s s' /\ Forall2 (annotated s) l b) s.
Proof.
  induction n as [|n IH]; intros l p0 pe e s Hl Hpe Hd Hn Hloc Ht Hok.
  { destruct l; [done|simpl in Hn; lia]. }
  destruct l as [|i l]; [done|]. destruct Hl as ([= <-] & p & Hp & Hl).
  apply list.NoDup_cons in Hd as [Hi Hd]. apply list.Forall_cons in Hok as [Hoi Hok]. simpl.
  eapply lwp_getp; [done|]. apply lwp_bind. eapply lwp_mono; [by apply regsused_annotated|].
  intros x s1 _ [H1 Hx]. destruct l as [|j l].
  - injection Hpe as <-. rewrite Z.eqb_refl. apply lwp_ret. split; [done|].
    by apply Forall2_cons_2; [|apply Forall2_nil_2].
  - assert (list.last (j :: l) = Some pe) as Hpe' by done.
    destruct (Z.eqb_spec p0 pe) as [->|Hne].
    { exfalso. apply Hi. apply list.last_Some in Hpe' as [l' ->]. apply list.elem_of_app. right. by left. }
    destruct Hl as [El Hl]. rewrite El. apply lwp_bind. eapply lwp_mono.
    + apply (IH (j :: l) j pe e s1); [|done|done|simpl in *; lia|by rewrite (still_local _ _ H1)|by rewrite (still_tabs _ _ H1)|].
      * split; [done|]. by rewrite (still_local _ _ H1).
      * eapply list.Forall_impl; [exact Hok|]. intros k. by apply still_ins.
    + intros b s2 _ [H2 Hb]. apply lwp_ret. split; [exact (still_trans _ _ _ H1 H2)|].
      apply Forall2_cons_2; [done|]. eapply list.Forall2_impl; [exact Hb|]. intros k y. by apply still_annotated.
Qed.

(** ** [sched] *)

(** The block from [p0] to [pe], the instructions [l], before the rest [e] of the program. *)
Record block (s : vl) (p0 pe : Z) (l : list Z) (e : option Z) : Prop := {
  b_seg : lseg (progs s) (Some p0) l e;
  b_last : list.last l = Some pe;
  b_nodup : NoDup l;
  b_end : forall x, e = Some x -> x ∉ l;
  b_alloc : Forall (fun i => i < nextp s) l;
  b_local : progs s !! local = None;
  b_tabs : tabs s = tables;
  b_len : (length l <= 20)%nat;
  b_ok : Forall (ins_ok s) l;
  b_branch : forall i p, i ∈ l -> progs s !! i = Some p -> Z.land (p_mark p) BRANCH <> 0 -> i = pe }.

(** Links tell the instructions of a block apart. *)
Lemma lseg_links m l : forall p e i j pi pj,
  lseg m p l e -> NoDup l -> (forall x, e = Some x -> x ∉ l) -> i ∈ l -> j ∈ l ->
  m !! i = Some pi -> m !! j = Some pj -> link pi = link pj -> i = j.
Proof.
  induction l as [|x l IH]; intros p e i j pi pj Hl Hd He Hi Hj Hpi Hpj E; [by apply not_elem_of_nil in Hi|].
  destruct Hl as (-> & q & Hq & Hl). apply list.NoDup_cons in Hd as [Hx Hd].
  assert (forall k pk, k ∈ l -> m !! k = Some pk -> link q = link pk -> False) as Hno.
  { intros k pk Hk Hpk Ek. clear IH Hi Hj. apply list.list_elem_of_split in Hk as (l1 & l2 & ->).
    assert (forall p' l1', lseg m p' (l1' ++ k :: l2) e -> lseg m (link pk) l2 e) as Hsuf.
    { intros p' l1'. revert p'. induction l1' as [|y l1' IH']; intros p'.
      - intros (_ & r & Hr & H). rewrite Hpk in Hr. by injection Hr as <-.
      - intros (_ & r & _ & H). by eapply IH'. }
    pose proof (Hsuf _ _ Hl) as H2. rewrite <- Ek in H2.
    destruct l1 as [|y l1].
    - destruct Hl as [Elq _]. destruct l2 as [|z l2].
      + simpl in H2. rewrite Elq in H2. subst e. apply (He k eq_refl). right. by left.
      + destruct H2 as [Ez _]. rewrite Elq in Ez. injection Ez as <-.
        apply list.NoDup_cons in Hd as [Hk _]. apply Hk. by left.
    - destruct Hl as [Elq _]. destruct l2 as [|z l2].
      + simpl in H2. rewrite Elq in H2. subst e. apply (He y eq_refl). right. by left.
      + destruct H2 as [Ez _]. rewrite Elq in Ez. injection Ez as <-.
        simpl in Hd. apply list.NoDup_cons in Hd as [Hy _]. apply Hy. apply list.elem_of_app. right. right. by left. }
  apply elem_of_cons in Hi as [->|Hi], Hj as [->|Hj]; try done.
  - rewrite Hq in Hpi. injection Hpi as <-. by destruct (Hno j pj).
  - rewrite Hq in Hpj. injection Hpj as <-. by destruct (Hno i pi).
  - apply (IH (link q) e i j pi pj); try done. intros y Hy. intros Hyl. apply (He y Hy). by right.
Qed.

Lemma annotated_elem s l b s' :
  Forall2 (annotated s) l b -> Forall (ins_ok s) l -> still s s' -> Forall (elem_ok s') b.
Proof.
  intros H Hok Hs. revert Hok. induction H as [|i x l b (p & t & t' & Hp & _ & _ & Ha) _ IH]; [by constructor|].
  intros [(q & Hq & Ho & _) Hok]%list.Forall_cons. constructor; [|by apply IH].
  rewrite Hp in Hq. injection Hq as <-. apply (still_opnds _ _ _ Hs) in Ho.
  by destruct (opnds_insn _ _ _ (an_insn _ _ Ha) Ho).
Qed.

Lemma annotated_nop s l b : Forall2 (annotated s) l b -> Forall (fun x => h_nop x = 0) b.
Proof. induction 1 as [|i x l b (p & t & t' & _ & _ & _ & Ha) _ IH]; constructor; [by destruct Ha|done]. Qed.

Lemma annotated_in s l b x :
  Forall2 (annotated s) l b -> x ∈ b -> exists i, i ∈ l /\ annotated s i x.
Proof.
  induction 1 as [|i y l b Hy _ IH]; [by intros ?%not_elem_of_nil|].
  intros [->|Hx]%elem_of_cons; [exists i; split; [by left|done]|].
  destruct (IH Hx) as (j & Hj & ?). exists j. split; [by right|done].
Qed.

Lemma annotated_last s p0 pe l e b : block s p0 pe l e -> Forall2 (annotated s) l b -> only_last b.
Proof.
  intros Hb H b0 z ->. apply Forall2_app_inv_r in H as (l0 & l1 & H0 & H1 & ->).
  apply list.Forall2_cons_inv_r in H1 as (j & l2 & _ & H2 & ->). apply list.Forall2_nil_inv_r in H2 as ->.
  pose proof (b_last _ _ _ _ _ Hb) as Hl. rewrite list.last_snoc in Hl. injection Hl as ->.
  pose proof (b_nodup _ _ _ _ _ Hb) as Hd. apply list.NoDup_app in Hd as (_ & Hd & _).
  apply list.Forall_forall. intros x Hx. destruct (annotated_in _ _ _ _ H0 Hx) as (i & Hi & p & t & t' & Hp & _ & _ & Ha).
  unfold no_branch, has_mark. rewrite (an_branch _ _ Ha).
  destruct (Z.eqb_spec (Z.land (p_mark p) BRANCH) 0) as [|Hne]; [done|]. exfalso.
  apply (Hd i Hi). rewrite list_elem_of_singleton. apply (b_branch _ _ _ _ _ Hb i p); [|done..].
  apply list.elem_of_app. by left.
Qed.

Lemma swaps_by_link s p0 pe l e b b' m :
  block s p0 pe l e -> Forall2 (annotated s) l b -> swaps b (bare <$> b') -> m = progs s -> by_link m l b'.
Proof.
  intros Hb H Hs -> i q x Hi Hq Hx El.
  assert (bare x ∈ b) as Hx'.
  { rewrite (swaps_perm _ _ Hs). apply list_elem_of_fmap. by exists x. }
  destruct (annotated_in _ _ _ _ H Hx') as (j & Hj & p & t & t' & Hp & _ & _ & Ha).
  assert (i = j) as ->.
  { eapply lseg_links; [by apply (b_seg _ _ _ _ _ Hb)|by apply (b_nodup _ _ _ _ _ Hb)|by apply (b_end _ _ _ _ _ Hb)|done..|].
    rewrite El. exact (an_link _ _ Ha). }
  rewrite Hp in Hq. injection Hq as <-. symmetry. exact (an_insn _ _ Ha).
Qed.

(** What [sched] leaves: the block [l2] with the instructions [cs], which are those of the
    array [b'], an order of the annotated block [b] reached by exchanges. *)
Record scheduled (s s' : vl) (p0 : Z) (l : list Z) (e : option Z) (b b' : list Sch) (l2 : list Z)
    (cs : list Prog) : Prop := {
  sc_anno : Forall2 (annotated s) l b;
  sc_swaps : swaps b (bare <$> b');
  sc_slots : slots 0 b';
  sc_seg : lseg (progs s') (Some p0) l2 e;
  sc_cs : contents (progs s') l2 cs;
  sc_laid : laid b' cs;
  sc_only : only_on l s s';
  sc_ids : Forall (fun i => i ∈ l \/ nextp s <= i < nextp s') l2;
  sc_keep : exists t, still s t /\ prog_only t s' }.

Lemma sched_run p0 pe l e s :
  block s p0 pe l e -> 1 <= optlevel s ->
  lwp errs (build (Z.to_nat NSCHED) p0 pe) (fun b _ =>
    lwp errs (sched p0 pe) (fun _ s' => exists b' l2 cs, scheduled s s' p0 l e b b' l2 cs) s) s.
Proof.
  intros Hb Ho. eapply lwp_mono; [apply (build_run _ l p0 pe e s); by destruct Hb|].
  intros b s1 E1 [H1 Ha]. unfold sched. apply lwp_get. destruct (Z.ltb_spec (optlevel s) 1); [lia|].
  eapply lwp_run; [exact E1|]. apply lwp_bind. eapply lwp_mono.
  { apply reorder_spec; [by eapply annotated_elem; [|apply Hb|]|by eapply annotated_last|by eapply annotated_nop]. }
  intros b' s2 _ (H2 & Hsw & Hsl). pose proof (still_trans _ _ _ H1 H2) as H3.
  pose proof (still_local _ _ H3) as Ep.
  assert (nextp s2 = nextp s) as En.
  { destruct H3 as [[_ Hv _] _ _]. unfold vars in Hv. by injection Hv. }
  destruct (put_back_run b' l (Some p0) e s2) as (s' & l2 & cs & E & Hs' & Hc & Hla & Hon & Hids & Hpo).
  - rewrite Ep. by apply Hb.
  - by apply Hb.
  - rewrite En. by apply Hb.
  - rewrite (Forall2_length Ha). by rewrite (Permutation_length (swaps_perm _ _ Hsw)), length_fmap.
  - by eapply swaps_by_link.
  - eapply lwp_ok; [exact E|]. exists b', l2, cs. split; try done.
    2: by rewrite <- En. 2: by exists s2.
    destruct Hon as [H4 H5]. split; [lia|]. intros y Hy Hlt. rewrite H5 by (done || lia). by rewrite Ep.
Qed.

(** ** The effect *)

Lemma run_app fs gs st : run (fs ++ gs) st = run gs (run fs st).
Proof. apply foldl_app. Qed.

Lemma run_cons f fs st : run (f :: fs) st = run fs (f st).
Proof. done. Qed.

Section Effect.
Context (exec : Prog -> St -> St).
Context (exec_insn : forall c c', insn c = insn c' -> exec c = exec c').
Context (exec_nop : forall c st, is_nop c -> exec c st = st).

Lemma run_nops ns st : Forall is_nop ns -> run (exec <$> ns) st = st.
Proof. induction 1 as [|c ns Hc _ IH]; [done|]. simpl. by rewrite exec_nop. Qed.

Lemma run_laid b cs st : laid b cs -> run (exec <$> cs) st = run ((fun x => exec (h_p x)) <$> b) st.
Proof.
  intros H. revert st. induction H as [|x c ns b cs Hc Hn _ _ IH]; intros st; [done|].
  rewrite !fmap_cons, fmap_app, !run_cons, run_app, (run_nops ns) by done. by rewrite IH, (exec_insn _ _ Hc).
Qed.

Lemma run_annotated s l b ps st :
  Forall2 (annotated s) l b -> contents (progs s) l ps ->
  run (exec <$> ps) st = run ((fun x => exec (h_p x)) <$> b) st.
Proof.
  intros H. revert ps st. induction H as [|i x l b (p & t & t' & Hp & _ & _ & Ha) _ IH]; intros ps st Hc.
  - by apply list.Forall2_nil_inv_l in Hc as ->.
  - apply list.Forall2_cons_inv_l in Hc as (q & ps' & Hq & Hc & ->). rewrite Hp in Hq. injection Hq as <-.
    simpl. rewrite (exec_insn _ _ (an_insn _ _ Ha)). by apply IH.
Qed.

Lemma scheduled_effect s s' p0 l e b b' l2 cs ps :
  scheduled s s' p0 l e b b' l2 cs -> contents (progs s) l ps ->
  Forall (fun x => in_s 32 (soffset x + size x) /\ respects x (exec (h_p x))) b ->
  forall st r, run (exec <$> cs) st r = run (exec <$> ps) st r.
Proof.
  intros [Ha Hsw _ _ _ Hla _ _ _] Hps Hlaw st r.
  rewrite (run_laid b' cs) by done. rewrite (run_annotated s l b ps) by done.
  assert (((fun x => exec (h_p x)) <$> b') = ((fun x => exec (h_p x)) <$> (bare <$> b'))) as ->.
  { rewrite <- list_fmap_compose. by apply list_fmap_ext. }
  symmetry. apply run_swaps; [done|]. clear - Ha Hlaw.
  induction Ha as [|i x l b (p & t & t' & _ & _ & _ & Hx) _ IH]; [constructor|].
  apply list.Forall_cons in Hlaw as [[Hr Hl] Hlaw]. constructor; [|by apply IH].
  split; [by destruct Hx|done].
Qed.
End Effect.

(** C4: [sched] keeps what a block does. For every meaning of the instructions in which an
    instruction changes only the registers, condition codes and memory [regsused] says it sets,
    to values that depend only on what it uses and sets, the block in its new order, with its
    no-ops, takes every state to the state the block took it to, and the same instruction is
    taken by its branch. [sched] returns, or stops the linker after more than ten errors, and
    changes nothing outside the block. *)
Theorem sched_keeps_effect p0 pe l e s :
  block s p0 pe l e -> 1 <= optlevel s ->
  lwp errs (build (Z.to_nat NSCHED) p0 pe) (fun b _ => lwp errs (sched p0 pe) (fun _ s' =>
    exists l2 cs, lseg (progs s') (Some p0) l2 e /\ contents (progs s') l2 cs /\ only_on l s s'
      /\ forall (exec : Prog -> St -> St) ps,
           (forall c c', insn c = insn c' -> exec c = exec c') ->
           (forall c st, is_nop c -> exec c st = st) ->
           Forall (fun x => in_s 32 (soffset x + size x) /\ respects x (exec (h_p x))) b ->
           contents (progs s) l ps ->
           forall st r, run (exec <$> cs) st r = run (exec <$> ps) st r) s) s.
Proof.
  intros Hb Ho. eapply lwp_mono; [by apply (sched_run p0 pe l e s)|]. intros b s1 _ H.
  eapply lwp_mono; [exact H|]. intros [] s' _ (b' & l2 & cs & Hs). exists l2, cs.
  pose proof Hs as [_ _ _ H1 H2 _ H3 _ _]. split_and!; [done..|].
  intros exec ps E1 E2 Hl Hps. exact (scheduled_effect exec E1 E2 _ _ _ _ _ _ _ _ _ _ Hs Hps Hl).
Qed.


(** ** An example *)

(** [ADD $1, R4; MOVW 4(SP), R2; ADD R2, R3; ADD $1, R5; BEQ R3, L] *)
Definition block_prog : gmap Z Prog :=
  list_to_map
    [(0, ins AADD (acon 1) (areg 4) NREG None (Some 1));
     (1, ins AMOVW (amem 4 29) (areg 2) NREG None (Some 2));
     (2, ins AADD (areg 2) (areg 3) NREG None (Some 3));
     (3, ins AADD (acon 1) (areg 5) NREG None (Some 4));
     (4, pset_mark BRANCH (ins ABEQ (areg 3) abranch NREG (Some 0) None))].

Definition block_demo : vl := linker block_prog 5.

Lemma block_demo_ok : block block_demo 0 4 [0; 1; 2; 3; 4] None.
Proof.
  split; try done.
  - repeat (split; [done|eexists; split; [reflexivity|]]). done.
  - by apply (bool_decide_unpack _); vm_compute.
  - by apply (bool_decide_unpack _); vm_compute.
  - simpl. lia.
  - repeat constructor; eexists; (split; [reflexivity|]); (split; [by split; split|done]).
  - intros i p Hi Hp Hm. repeat (apply elem_of_cons in Hi as [->|Hi]); try done;
      try (injection Hp as <-; by destruct Hm). by apply not_elem_of_nil in Hi.
Qed.

(** A meaning of the instructions of the example. *)
Definition set_to (k : res) (v : Z) (st : St) : St := fun r => if bool_decide (r = k) then v else st r.

Definition sem (p : Prog) (st : St) : St :=
  let c := insn p in
  if (p_as c =? AADD) && (a_type (from c) =? D_CONST) then
    set_to (RInt (a_reg (to c))) (st (RInt (p_reg c)) + a_offset (from c)) st
  else if (p_as c =? AADD) && (a_type (from c) =? D_REG) then
    set_to (RInt (a_reg (to c))) (st (RInt (p_reg c)) + st (RInt (a_reg (from c)))) st
  else if p_as c =? AMOVW then
    set_to (RInt (a_reg (to c))) (st (RStack (st (RInt (a_reg (from c))) + a_offset (from c)))) st
  else if p_as c =? ABEQ then set_to RNext (if st (RInt (a_reg (from c))) =? 0 then 1 else 0) st
  else st.

(** An instruction that sets one resource to a value it computes from what it uses. *)
Lemma respects_set x k f :
  (forall st, writes x st k = true) ->
  (forall st st', (forall r, reads x st r = true \/ writes x st r = true -> st r = st' r) -> f st = f st') ->
  respects x (fun st => set_to k (f st) st).
Proof.
  intros Hw Hf. unfold set_to. split.
  - intros st r Hr. case_bool_decide as E; [|done]. subst. by rewrite Hw in Hr.
  - intros st st' H r Hr. case_bool_decide; [by apply Hf|]. apply H. by right.
Qed.

Definition demo_array : list Sch := Eval vm_compute in
  match build 20 0 4 block_demo with LOk b _ => b | _ => [] end.
Definition demo_built : vl := match build 20 0 4 block_demo with LOk _ s => s | _ => block_demo end.
Definition demo_sched : vl := match sched 0 4 block_demo with LOk _ s => s | _ => block_demo end.

(** What a run that returns a value has for its outcome: only the value is computed. *)
Lemma ran {A} (r : lout A) a d :
  match r with LOk b _ => Some b | _ => None end = Some a -> r = LOk a match r with LOk _ s => s | _ => d end.
Proof. destruct r; by intros [= ->]. Qed.

Lemma demo_build : build 20 0 4 block_demo = LOk demo_array demo_built.
Proof. by apply ran; vm_compute. Qed.

Lemma demo_sched_run : sched 0 4 block_demo = LOk tt demo_sched.
Proof. by apply ran; vm_compute. Qed.

(** The instructions in their order. *)
Definition demo_block : list Prog := omap (fun i => block_prog !! i) [0; 1; 2; 3; 4].

Lemma demo_contents : contents (progs block_demo) [0; 1; 2; 3; 4] demo_block.
Proof. repeat (apply Forall2_cons_2; [reflexivity|]). apply Forall2_nil_2. Qed.

Lemma demo_respects : Forall (fun x => in_s 32 (soffset x + size x) /\ respects x (sem (h_p x))) demo_array.
Proof.
  unfold demo_array. repeat (apply list.Forall_cons; split; [split; [by vm_compute|]|]); [..|done].
  all: apply respects_set; [done|]; intros st st' H.
  - f_equal. apply H. by left.
  - change (st (RStack (st (RInt REGSP) + 4)) = st' (RStack (st' (RInt REGSP) + 4))).
    rewrite <- (H (RInt REGSP)) by (by left). apply H. left. unfold reads, touch, in_range. simpl. lia.
  - f_equal; apply H; by left.
  - f_equal. apply H. by left.
  - change ((if st (RInt 3) =? 0 then 1 else 0) = (if st' (RInt 3) =? 0 then 1 else 0)).
    by rewrite <- (H (RInt 3)) by (by left).
Qed.

Lemma sched_keeps_effect_witness :
  exists s' l2 cs, sched 0 4 block_demo = LOk tt s' /\ lseg (progs s') (Some 0) l2 None
    /\ contents (progs s') l2 cs
    /\ forall st r, run (sem <$> cs) st r = run (sem <$> demo_block) st r.
Proof.
  pose proof (sched_keeps_effect 0 4 _ None _ block_demo_ok ltac:(by vm_compute)) as H.
  unfold lwp in H at 1. change (Z.to_nat NSCHED) with 20%nat in H. rewrite demo_build in H.
  unfold lwp in H. rewrite demo_sched_run in H. destruct H as (l2 & cs & H1 & H2 & _ & H).
  exists demo_sched, l2, cs. split; [exact demo_sched_run|]. split; [exact H1|]. split; [exact H2|].
  apply H; [|by intros c st (E & _); unfold sem; rewrite insn_as, E|exact demo_respects
    |exact demo_contents].
  intros c c' E. unfold sem. by rewrite E.
Defined.


(** The order [sched] chooses: the load comes first, an addition is in the slot of the branch. *)
Example demo_order :
  omap (fun i => p_as <$> progs demo_sched !! i) [0; 1; 2; 3; 4] = [AMOVW; AADD; AADD; ABEQ; AADD].
Proof. by vm_compute. Qed.

(** The loop against a use of HI or LO right before it is set does not look at the last two
    instructions of a block: here [MOVW LO, R1; MUL R2, R3] stay next to each other. *)
Definition hilo_prog : gmap Z Prog :=
  list_to_map
    [(0, ins AMOVW (mkAdr 0 None D_LO NREG D_NONE 0) (areg 1) NREG None (Some 1));
     (1, ins AMUL (areg 2) (areg 3) NREG None None)].

Example hilo_misses_last :
  match sched 0 1 (linker hilo_prog 2) with
  | LOk _ s => nextp s = 2 /\ link <$> progs s !! 0 = Some (Some 1)
  | _ => False
  end.
Proof. by vm_compute. Qed.
