(* ===== verification/VlNoop.v ===== *)
(** [noop.c]: prologues, returns, the labels that part the program into blocks, and the
    blocks themselves. *)
From S2P Require Import Prelude CInt VlObj VlSym VlSpan VlPass VlSched.

(** [p->mark |= m] *)
Definition add_marks (m pid : Z) : L unit := updp pid (fun p => pset_mark (Z.lor (p_mark p) m) p).

Definition add_marks_opt (m : Z) (p : option Z) : L unit :=
  match p with Some p => add_marks m p | None => lskip end.

(** ** The first pass *)

(** [curframe], [curbecome], [maxbecome] and [q], the instruction before. *)
Record Scan := mkScan { curframe : Z; curbecome : Z; maxbecome : Z; prev : option Z }.

(** [if(curtext && curtext->from.sym) ...]: the frame of a function is known at its end. *)
Definition end_text (v : Scan) : L Scan :=
  ct ← lgets curtext;
  match ct with
  | None => mret v
  | Some t =>
      x ← getp t;
      match a_sym (from x) with
      | None => mret v
      | Some y =>
          updsym y (fun z => sset_become (s16 (curbecome v)) (sset_frame (s16 (curframe v)) z));;
          mret (mkScan (curframe v) (curbecome v) (Z.max (maxbecome v) (curbecome v)) (prev v))
      end
  end.

(** [while(q1->as == ANOP) { q1 = q1->link; p->cond = q1; }] *)
Fixpoint skip_nops (fuel : nat) (pid : Z) (q : option Z) : L Z :=
  match fuel with
  | O => ldiverge
  | S f =>
      x ← getpo q;
      if p_as x =? ANOP then updp pid (pset_cond (link x));; skip_nops f pid (link x)
      else match q with Some q => mret q | None => lfault end
  end.

(** The label [dstlab]. *)
Definition dstlab (fuel : nat) (pid : Z) : L unit :=
  p ← getp pid;
  match cond p with
  | Some _ =>
      q ← skip_nops fuel pid (cond p);
      x ← getp q;
      if marked LEAF x then lskip else add_marks LABEL q
  | None => add_marks LABEL pid
  end;;
  p ← getp pid;
  add_marks_opt LABEL (link p).

Definition is_hard (a : Z) : bool :=
  bool_decide (a ∈ [ACASE; ASYSCALL; AWORD; ATLBWR; ATLBWI; ATLBP; ATLBR]).
Definition is_call (a : Z) : bool := bool_decide (a ∈ [ABGEZAL; ABLTZAL; AJAL]).
Definition is_jump (a : Z) : bool :=
  bool_decide (a ∈ [AJMP; ABEQ; ABGEZ; ABGTZ; ABLEZ; ABLTZ; ABNE; ABFPT; ABFPF]).
Definition is_creg (a : Adr) : bool := (a_type a =? D_FCREG) || (a_type a =? D_MREG).

(** One instruction of the first pass. *)
Definition scan_step (fuel : nat) (v : Scan) (pid : Z) : L Scan :=
  p ← getp pid;
  let fr := if (a_type (to p) =? D_OREG) && (a_reg (to p) =? REGSP) && (curframe v <? a_offset (to p))
            then a_offset (to p) else curframe v in
  let v := mkScan fr (curbecome v) (maxbecome v) (prev v) in
  let a := p_as p in
  let next := fun v => mkScan (curframe v) (curbecome v) (maxbecome v) (Some pid) in
  if a =? ATEXT then
    v ← end_text v;
    add_marks (Z.lor LABEL (Z.lor LEAF SYNC)) pid;;
    p ← getp pid;
    add_marks_opt LABEL (link p);;
    lmodify (lset_curtext (Some pid));;
    mret (next (mkScan 0 0 (maxbecome v) (prev v)))
  else if a =? AMOVW then
    if is_creg (to p) then add_marks (Z.lor LABEL SYNC) pid;; mret (next v)
    else if is_creg (from p) then
      add_marks (Z.lor LABEL SYNC) pid;; addnop pid;; addnop pid;; mret (next v)
    else mret (next v)
  else if is_hard a then add_marks (Z.lor LABEL SYNC) pid;; mret (next v)
  else if a =? ANOR then
    (if (a_type (to p) =? D_REG) && (a_reg (to p) =? REGZERO) then add_marks (Z.lor LABEL SYNC) pid
     else lskip);;
    mret (next v)
  else if a =? ARET then
    add_marks_opt LABEL (link p);;
    mret (next (if (a_type (from p) =? D_CONST) && (curbecome v <? a_offset (from p))
                then mkScan (curframe v) (a_offset (from p)) (maxbecome v) (prev v) else v))
  else if a =? ANOP then
    match prev v, link p with
    | Some q, Some q1 =>
        updp q (pset_link (Some q1));;
        add_marks (p_mark p) q1;;
        mret v
    | _, _ => lfault
    end
  else if a =? ABCASE then
    add_marks (Z.lor LABEL SYNC) pid;; dstlab fuel pid;; mret (next v)
  else if is_call a then
    ct ← lgets curtext;
    match ct with
    | Some t => updp t (fun x => pset_mark (Z.ldiff (p_mark x) LEAF) x)
    | None => lskip
    end;;
    add_marks BRANCH pid;; dstlab fuel pid;; mret (next v)
  else if is_jump a then
    add_marks BRANCH pid;; dstlab fuel pid;; mret (next v)
  else mret (next v).

Fixpoint scan_loop (fuel : nat) (v : Scan) (p : option Z) : L Scan :=
  match p with
  | None => mret v
  | Some pid =>
      match fuel with
      | O => ldiverge
      | S f => v ← scan_step fuel v pid; x ← getp pid; scan_loop f v (link x)
      end
  end.

Definition name_become : list Z := [65; 76; 69; 70; 98; 101; 99; 111; 109; 101].

Definition noops_scan (fuel : nat) : L Z :=
  lmodify (lset_curtext None);;
  p ← lgets firstp;
  v ← scan_loop fuel (mkScan 0 0 0 None) p;
  v ← end_text v;
  xdefine name_become STEXT (maxbecome v);;
  mret (maxbecome v).

(** ** The second pass: room for what a callee becomes *)

Definition become_step (maxb pid : Z) : L unit :=
  p ← getp pid;
  if p_as p =? ATEXT then lmodify (lset_curtext (Some pid))
  else if p_as p =? AJAL then
    ct ← lgets curtext;
    match ct with
    | None => lskip
    | Some t =>
        x ← getp t;
        match a_sym (from x) with
        | None => lskip
        | Some y =>
            if a_offset (to x) <? 0 then lskip
            else
              z ← getsym y;
              let o := maxb - s_frame z in
              if o <=? 0 then lskip
              else
                b ← (match a_sym (to p) with
                     | None => mret true
                     | Some w => c ← getsym w; mret (negb (s_become c =? 0))
                     end);
                if b : bool then
                  updp t (fun x => pset_to (aset_offset (s32 (a_offset (to x) + o)) (to x)) x)
                else lskip
        end
    end
  else lskip.

Definition noops_become (fuel : nat) (maxb : Z) : L unit :=
  lmodify (lset_curtext None);;
  p ← lgets firstp;
  each_prog fuel (become_step maxb) p.

(** ** The third pass: prologues and returns *)

Definition nocache (pid : Z) : L unit :=
  updp pid (fun p => pset_optab 0 (pset_from (aset_class 0 (from p)) (pset_to (aset_class 0 (to p)) p))).

(** A new instruction, filled in by [f], goes after [q]. *)
Definition insert_after (q : Z) (f : Prog -> Prog) : L Z :=
  n ← prg;
  x ← getp q;
  updp n (fun p => pset_link (link x) (f p));;
  updp q (pset_link (Some n));;
  mret n.

(** [from.type = D_CONST; from.offset = v;], and the register [r] as an operand. *)
Definition con_adr (v : Z) (a : Adr) : Adr := aset_offset v (aset_type D_CONST a).
Definition reg_adr (r : Z) (a : Adr) : Adr := aset_reg r (aset_type D_REG a).
(** [type = D_OREG; offset = 0; reg = r;] *)
Definition ind_adr (r : Z) (a : Adr) : Adr := aset_reg r (aset_offset 0 (aset_type D_OREG a)).

Definition with_adr (f t : Adr -> Adr) (p : Prog) : Prog := pset_from (f (from p)) (pset_to (t (to p)) p).

(** [ADD $v, SP] *)
Definition add_sp (v line : Z) (p : Prog) : Prog :=
  pset_line line (pset_as AADD (with_adr (con_adr v) (reg_adr REGSP) p)).
(** [JMP 0(r)] *)
Definition jmp_reg (r line : Z) (p : Prog) : Prog :=
  pset_mark (Z.lor (p_mark p) BRANCH) (pset_line line (pset_as AJMP (pset_to (ind_adr r (to p)) p))).

Definition text_step (pid : Z) : L unit :=
  lmodify (lset_curtext (Some pid));;
  p ← getp pid;
  lmodify (lset_autosize (s32 (a_offset (to p) + 4)));;
  sz ← lgets autosize;
  (if (sz <=? 4) && marked LEAF p then
     updp pid (fun p => pset_to (aset_offset (-4) (to p)) p);;
     lmodify (lset_autosize 0)
   else lskip);;
  sz ← lgets autosize;
  q ← (if negb (sz =? 0) then insert_after pid (add_sp (s32 (- sz)) (p_line p))
       else
         (if marked LEAF p then lskip else add_marks LEAF pid);;
         mret pid);
  p ← getp pid;
  if marked LEAF p then
    match a_sym (from p) with
    | Some y => updsym y (sset_type SLEAF)
    | None => lskip
    end
  else
    insert_after q (fun x =>
      pset_line (p_line p) (pset_as AMOVW
        (with_adr (fun a => aset_offset 0 (reg_adr REGLINK a)) (fun a => aset_reg REGSP (aset_type D_OREG a)) x)));;
    lskip.

(** The label [become]: the return is a jump to another function. *)
Definition become_ret (leaf : bool) (pid sz : Z) : L unit :=
  p ← getp pid;
  insert_after pid (fun q =>
    pset_mark (Z.lor (p_mark q) BRANCH)
      (pset_cond (cond p) (pset_from zadr (pset_to (to p) (pset_line (p_line p) (pset_as AJMP q))))));;
  if leaf then
    updp pid (fun p => pset_as AADD (pset_from (con_adr sz zadr) (pset_to (reg_adr REGSP zadr) p)))
  else
    insert_after pid (add_sp sz (p_line p));;
    updp pid (fun p =>
      pset_as AMOVW (pset_from (ind_adr REGSP zadr) (pset_to (reg_adr REGLINK zadr) p))).

Definition ret_step (pid : Z) : L unit :=
  nocache pid;;
  p ← getp pid;
  ct ← lgets curtext;
  t ← getpo ct;
  sz ← lgets autosize;
  if a_type (from p) =? D_CONST then become_ret (marked LEAF t) pid sz
  else if marked LEAF t then
    if sz =? 0 then
      updp pid (fun p =>
        pset_mark (Z.lor (p_mark p) BRANCH) (pset_as AJMP (pset_from zadr (pset_to (ind_adr REGLINK (to p)) p))))
    else
      updp pid (fun p => pset_as AADD (with_adr (con_adr sz) (reg_adr REGSP) p));;
      insert_after pid (jmp_reg REGLINK (p_line p));;
      lskip
  else
    updp pid (fun p => pset_as AMOVW (with_adr (ind_adr REGSP) (reg_adr 2) p));;
    q ← (if negb (sz =? 0) then insert_after pid (add_sp sz (p_line p)) else mret pid);
    insert_after q (jmp_reg 2 (p_line p));;
    lskip.

Definition expand_step (pid : Z) : L unit :=
  p ← getp pid;
  if p_as p =? ATEXT then text_step pid
  else if p_as p =? ARET then ret_step pid
  else lskip.

Definition noops_expand (fuel : nat) : L unit :=
  p ← lgets firstp;
  each_prog fuel expand_step p.

(** ** The fourth pass: blocks *)

(** [q1], the top of the block, [q], the instruction before, and [o], the length. *)
Record Blk := mkBlk { top : option Z; last : option Z; count : Z }.

(** [sched(q1, q)] *)
Definition sched_opt (q1 q : option Z) : L unit :=
  match q1, q with Some q1, Some q => sched q1 q | _, _ => lfault end.

(** [for(; p != P; p = p->link)] over instructions marked [NOSCHED]: the instruction where it
    ends, and the one before. *)
Fixpoint skip_nosched (fuel : nat) (p q : option Z) : L (option Z * option Z) :=
  match p with
  | None => mret (None, q)
  | Some pid =>
      match fuel with
      | O => ldiverge
      | S f =>
          x ← getp pid;
          if marked NOSCHED x then skip_nosched f (link x) (Some pid) else mret (Some pid, q)
      end
  end.

(** One round of the loop, for an instruction that is not [NOSCHED]; [p1] is [p->link]. *)
Definition block_step (v : Blk) (pid : Z) : L (Blk * option Z) :=
  x ← getp pid;
  let p1 := link x in
  let v := mkBlk (top v) (last v) (count v + 1) in
  v ← (if marked (Z.lor LABEL SYNC) x then
         (if bool_decide (top v = Some pid) then lskip else sched_opt (top v) (last v));;
         mret (mkBlk (Some pid) (last v) 1)
       else mret v);
  v ← (if marked (Z.lor BRANCH SYNC) x then
         sched_opt (top v) (Some pid);;
         mret (mkBlk p1 (last v) 0)
       else mret v);
  v ← (if NSCHED <=? count v then
         sched_opt (top v) (Some pid);;
         mret (mkBlk p1 (last v) 0)
       else mret v);
  mret (mkBlk (top v) (Some pid) (count v), p1).

Fixpoint block_loop (fuel : nat) (v : Blk) (p : option Z) : L unit :=
  match p with
  | None => lskip
  | Some pid =>
      match fuel with
      | O => ldiverge
      | S f =>
          x ← getp pid;
          if marked NOSCHED x then
            (if bool_decide (top v = Some pid) then lskip else sched_opt (top v) (last v));;
            '(p, q) ← skip_nosched fuel (Some pid) (last v);
            block_loop f (mkBlk p q 0) p
          else
            '(v, p1) ← block_step v pid;
            block_loop f v p1
      end
  end.

Definition noops_sched (fuel : nat) : L unit :=
  lmodify (lset_curtext None);;
  p ← lgets firstp;
  block_loop fuel (mkBlk p None 0) p.

Definition noops (fuel : nat) : L unit :=
  m ← noops_scan fuel;
  noops_become fuel m;;
  noops_expand fuel;;
  noops_sched fuel.
