(* ===== verification/VlData.v ===== *)
(** [pass.c]: the layout of the data ([dodata]), undefined symbols ([undef]) and the numbers
    on the command line ([atolwhex]). *)
From S2P Require Import Prelude CInt VlObj VlSym VlSpan VlPass VlNoop.

(** ** Formatted numbers *)

(** The characters of [conv], "0123456789abcdef". *)
Definition conv (i : Z) : Z := if i <? 10 then 48 + i else 87 + i.

(** [while(u) { i = u % base; u /= base; *p-- = conv[i]; }] *)
Fixpoint digits (fuel : nat) (base u : Z) (acc : list Z) : list Z :=
  match fuel with
  | O => acc
  | S f => if u =? 0 then acc else digits f base (u / base) (conv (u mod base) :: acc)
  end.

(** A number without flags, for which 64 digits are enough; zero has one digit. *)
Definition fmt_u (base u : Z) : list Z := if u =? 0 then [48] else digits 64 base u [].

(** [%d], and [%lux] of an [int32], whose value is taken modulo 2^32. *)
Definition fmt_d (v : Z) : list Z := if v <? 0 then 45 :: fmt_u 10 (- v) else fmt_u 10 v.
Definition fmt_lux (v : Z) : list Z := fmt_u 16 (u32 v).

(** ** atolwhex *)

Definition is_blank (c : Z) : bool := (c =? 32) || (c =? 9).

Fixpoint skip_blanks (s : list Z) : list Z :=
  match s with
  | c :: s' => if is_blank c then skip_blanks s' else s
  | [] => []
  end.

(** The value of a digit; [None] ends the number. *)
Definition digit_of (base c : Z) : option Z :=
  if (48 <=? c) && (c <? 48 + Z.min base 10) then Some (c - 48)
  else if base <? 16 then None
  else if (97 <=? c) && (c <=? 102) then Some (c - 97 + 10)
  else if (65 <=? c) && (c <=? 70) then Some (c - 65 + 10)
  else None.

(** [n = n*base + digit] *)
Fixpoint number (base n : Z) (s : list Z) : Z :=
  match s with
  | c :: s' => match digit_of base c with Some d => number base (s32 (n * base + d)) s' | None => n end
  | [] => n
  end.

(** [if(s[0]=='0' && s[1]) ...]: the prefix selects the base. *)
Definition unsigned (s : list Z) : Z :=
  match s with
  | c0 :: c :: s' =>
      if c0 =? 48 then
        if (c =? 120) || (c =? 88) then number 16 0 s' else number 8 0 s
      else number 10 0 s
  | _ => number 10 0 s
  end.

Definition atolwhex (s : list Z) : Z :=
  let s := skip_blanks s in
  let '(f, s) :=
    match s with
    | c :: s' =>
        if (c =? 45) || (c =? 43) then (c =? 45, skip_blanks s') else (false, s)
    | [] => (false, s)
    end in
  let n := unsigned s in
  if f then s32 (- n) else n.

(** ** undef *)

(** [for(i=0; i<NHASH; i++) for(s = hash[i]; s != S; s = s->link)] *)
Fixpoint chains (n : nat) (h : Z) (s : vl) : list Z :=
  match n with O => [] | S n => chain h s ++ chains n (h + 1) s end.

Definition all_syms (s : vl) : list Z := chains (Z.to_nat NHASH) 0 s.

Fixpoint undef_loop (l : list Z) : L unit :=
  match l with
  | [] => lskip
  | y :: l =>
      x ← getsym y;
      (if s_type x =? SXREF then diag "%s: not defined" [y] else lskip);;
      undef_loop l
  end.

Definition undef : L unit := l ← lgets all_syms; undef_loop l.

(** ** dodata *)

(** [while(v & 3) v++;], and up to a multiple of 8 *)
Definition round4 (v : Z) : Z := s32 (Z.land (v + 3) (Z.lnot 3)).
Definition round8 (v : Z) : Z := s32 (Z.land (v + 7) (Z.lnot 7)).

(** The symbol a datum is for. *)
Definition datum_sym (p : Prog) : L Z :=
  match a_sym (from p) with Some y => mret y | None => lfault end.

(** What the data statements say of the symbols. *)
Definition data_step (pid : Z) : L unit :=
  p ← getp pid;
  y ← datum_sym p;
  dt ← lgets dtype;
  getsym y;;
  (if (p_as p =? ADYNT) || (p_as p =? AINIT) then updsym y (sset_value dt) else lskip);;
  x ← getsym y;
  (if s_type x =? SBSS then updsym y (sset_type SDATA) else lskip);;
  x ← getsym y;
  (if negb (s_type x =? SDATA) then diag "initialize non-data (%d): %s\n%P" [s_type x; y; pid] else lskip);;
  x ← getsym y;
  if s_value x <? s32 (a_offset (from p) + p_reg p) then
    diag "initialize bounds (%ld): %s\n%P" [s_value x; y; pid]
  else lskip.

(** "pull out string constants" *)
Definition string_step (pid : Z) : L unit :=
  p ← getp pid;
  y ← datum_sym p;
  if a_type (to p) =? D_SCONST then updsym y (sset_type SSTRING) else lskip.

(** Pass 1: small variables. *)
Fixpoint data_small (l : list Z) (orig : Z) : L Z :=
  match l with
  | [] => mret orig
  | y :: l =>
      x ← getsym y;
      if negb (s_type x =? SDATA) && negb (s_type x =? SBSS) then data_small l orig
      else
        (if s_value x =? 0 then diag "%s: no size" [y] else lskip);;
        let v := round4 (if s_value x =? 0 then 1 else s_value x) in
        updsym y (sset_value v);;
        if MINSIZ <? v then data_small l orig
        else
          updsym y (fun x => sset_type SDATA1 (sset_value orig x));;
          data_small l (s32 (orig + v))
  end.

(** Pass 2: the other initialised variables. *)
Fixpoint data_large (l : list Z) (orig : Z) : L Z :=
  match l with
  | [] => mret orig
  | y :: l =>
      x ← getsym y;
      if negb (s_type x =? SDATA) then
        (if s_type x =? SDATA1 then updsym y (sset_type SDATA) else lskip);;
        data_large l orig
      else
        updsym y (fun z => sset_type SDATA1 (sset_value orig z));;
        data_large l (s32 (orig + s_value x))
  end.

(** Pass 3: everything else. *)
Fixpoint data_bss (l : list Z) (orig : Z) : L Z :=
  match l with
  | [] => mret orig
  | y :: l =>
      x ← getsym y;
      if negb (s_type x =? SBSS) then data_bss l orig
      else
        updsym y (sset_value orig);;
        data_bss l (s32 (orig + s_value x))
  end.

(** Pass 5: the literals make room for themselves. *)
Fixpoint data_adjust (l : list Z) (orig : Z) : L unit :=
  match l with
  | [] => lskip
  | y :: l =>
      x ← getsym y;
      (if s_type x =? SBSS then updsym y (sset_value (s32 (s_value x + orig)))
       else if s_type x =? SDATA1 then
         updsym y (fun z => sset_value (s32 (s_value z + orig)) (sset_type SDATA z))
       else lskip);;
      data_adjust l orig
  end.

Definition name_setR30 : list Z := [115; 101; 116; 82; 51; 48].
Definition name_bdata : list Z := [98; 100; 97; 116; 97].
Definition name_edata : list Z := [101; 100; 97; 116; 97].
Definition name_end : list Z := [101; 110; 100].

(** The names of literals. A symbol's number stands for its address, which [%p] prints. *)
Definition literal_addr (y : Z) (x : Sym) (o : Z) : list Z :=
  if (10 <=? Z.of_nat (length (s_name x))) then 36 :: fmt_u 16 y ++ 46 :: fmt_lux o
  else 36 :: s_name x ++ 46 :: fmt_d (s_version x) ++ 46 :: fmt_lux o.
Definition literal_const (v : Z) : list Z := 36 :: fmt_lux v.

(** The literal an instruction needs, if it needs one. *)
Definition needs_literal (p : Prog) : L (option (list Z)) :=
  if negb (p_as p =? AMOVW) then mret None
  else if negb (a_type (from p) =? D_CONST) then mret None
  else
    let o := a_offset (from p) in
    match a_sym (from p) with
    | Some y =>
        x ← getsym y;
        let t := s_type x in
        if negb (t =? SDATA) && negb (t =? SDATA1) && negb (t =? SBSS) then mret None
        else if negb (a_name (from p) =? D_EXTERN) && negb (a_name (from p) =? D_STATIC) then mret None
        else
          let v := s32 (s_value x + o) in
          if (0 <=? v) && (v <=? 0xffff) then mret None
          else if bool_decide (s_name x = name_setR30) then mret None
          else mret (Some (literal_addr y x o))
    | None =>
        if negb (a_name (from p) =? D_NONE) then mret None
        else if negb (a_reg (from p) =? NREG) then mret None
        else if (-0x7fff <=? o) && (o <=? 0xffff) then mret None
        else if Z.land o 0xffff =? 0 then mret None
        else mret (Some (literal_const o))
    end.

(** A new literal [y] with the operand [a] of the instruction as its value. *)
Definition new_literal (y line : Z) (a : Adr) (value : Z) : L unit :=
  updsym y (fun x => sset_value value (sset_type SDATA x));;
  d ← lgets datap;
  q ← prg;
  updp q (fun p =>
    pset_link d (pset_to a (pset_reg 4
      (pset_from (aset_name D_EXTERN (aset_sym (Some y) (aset_type D_OREG (from p))))
        (pset_as ADATA (pset_line line p))))));;
  lmodify (lset_datap (Some q)).

(** Pass 4, at one instruction: literals for large values. *)
Definition data_literal (orig1 orig pid : Z) : L Z :=
  p ← getp pid;
  n ← needs_literal p;
  match n with
  | None => mret orig
  | Some literal =>
      y ← lookup literal 0;
      x ← getsym y;
      orig' ← (if s_type x =? 0 then
                 new_literal y (p_line p) (from p) (s32 (orig1 + orig));;
                 mret (s32 (orig + 4))
               else mret orig);
      x ← getsym y;
      (if negb (s_type x =? SDATA) then diag "literal not data: %s" [y] else lskip);;
      updp pid (fun p => pset_from (aset_offset 0 (aset_name D_EXTERN
        (aset_sym (Some y) (aset_type D_OREG (from p))))) p);;
      nocache pid;;
      mret orig'
  end.

Fixpoint data_literals (fuel : nat) (orig1 orig : Z) (p : option Z) : L Z :=
  match p with
  | None => mret orig
  | Some pid =>
      match fuel with
      | O => ldiverge
      | S f =>
          orig ← data_literal orig1 orig pid;
          x ← getp pid;
          data_literals f orig1 orig (link x)
      end
  end.

(** [n] bounds the data statements and the instructions. *)
Definition dodata (n : nat) : L unit :=
  d ← lgets datap;
  each_prog n data_step d;;
  dt ← lgets debug_t;
  (if dt : bool then each_prog n string_step d else lskip);;
  l ← lgets all_syms;
  orig1 ← data_small l 0;
  l ← lgets all_syms;
  orig ← data_large l orig1;
  let size := round8 orig in
  lmodify (lset_datsize size);;
  l ← lgets all_syms;
  orig ← data_bss l size;
  lmodify (lset_bsssize (s32 (round8 orig - size)));;
  p ← lgets firstp;
  orig ← data_literals n orig1 0 p;
  let orig := round8 orig in
  l ← lgets all_syms;
  data_adjust l orig;;
  lmodify (fun s => lset_datsize (s32 (datsize s + orig)) s);;
  xdefine name_setR30 SDATA BIG;;
  xdefine name_bdata SDATA 0;;
  v ← lgets datsize;
  xdefine name_edata SDATA v;;
  v ← lgets (fun s => s32 (datsize s + bsssize s));
  xdefine name_end SBSS v;;
  xdefine etext_name STEXT 0.
