(* ===== verification/VlNumber.v ===== *)
(** [atolwhex] reads the numbers that formatted output writes. *)
From S2P Require Import Prelude CInt VlObj VlData.

(** ** Digits *)

(** The bases of [atolwhex]. *)
Definition is_base (b : Z) : Prop := b = 8 \/ b = 10 \/ b = 16.

Lemma digit_of_conv b d : is_base b -> 0 <= d < b -> digit_of b (conv d) = Some d.
Proof.
  unfold digit_of, conv. intros Hb Hd. destruct (Z.ltb_spec d 10).
  - rewrite (proj2 (Z.leb_le 48 _)), (proj2 (Z.ltb_lt (48 + d) _)) by (destruct Hb as [->|[->| ->]]; lia).
    cbn [andb]. f_equal. lia.
  - destruct Hb as [->|[->| ->]]; [lia..|].
    rewrite (proj2 (Z.leb_le 48 _)), (proj2 (Z.ltb_ge _ (48 + Z.min 16 10))) by lia.
    cbn [andb]. change (16 <? 16) with false. cbn iota.
    rewrite (proj2 (Z.leb_le 97 _)), (proj2 (Z.leb_le _ 102)) by lia. cbn [andb]. f_equal. lia.
Qed.

Lemma conv_range d : 0 <= d < 16 -> 48 <= conv d <= 102 /\ (conv d = 48 -> d = 0).
Proof. unfold conv. destruct (Z.ltb_spec d 10); lia. Qed.

Lemma digits_app f b u acc : digits f b u acc = digits f b u [] ++ acc.
Proof.
  revert u acc. induction f as [|f IH]; intros u acc; [done|]. cbn [digits].
  destruct (u =? 0); [done|]. by rewrite IH, (IH _ [_]), <- app_assoc.
Qed.

(** What [number] makes of a list of digits. *)
Definition shows (b : Z) (l : list Z) : Prop := Forall (fun c => exists d, 0 <= d < b /\ c = conv d) l.

Lemma number_app b n l r : is_base b -> shows b l -> number b n (l ++ r) = number b (number b n l) r.
Proof.
  intros Hb Hl. revert n. induction Hl as [|c l (d & Hd & ->) Hl IH]; intros n; [done|].
  cbn [app number]. by rewrite digit_of_conv.
Qed.

Lemma digits_shows f b u : 0 < b <= 16 -> shows b (digits f b u []).
Proof.
  revert u. induction f as [|f IH]; intros u Hb; [constructor|]. cbn [digits].
  destruct (u =? 0); [constructor|]. rewrite digits_app. apply list.Forall_app. split; [by apply IH|].
  repeat constructor. exists (u mod b). split; [by apply Z.mod_pos_bound; lia|done].
Qed.

Lemma number_digits f b u : is_base b -> 0 <= u < b ^ Z.of_nat f -> number b 0 (digits f b u []) = s32 u.
Proof.
  intros Hb. assert (0 < b) by (destruct Hb as [->|[->| ->]]; lia).
  revert u. induction f as [|f IH]; intros u Hu.
  { simpl in Hu. assert (u = 0) as -> by lia. done. }
  cbn [digits]. destruct (Z.eqb_spec u 0) as [->|]; [done|].
  rewrite digits_app, number_app; [|done|apply digits_shows; destruct Hb as [->|[->| ->]]; lia].
  rewrite Nat2Z.inj_succ, Z.pow_succ_r in Hu by lia.
  rewrite IH by (split; [by apply Z.div_pos; lia|apply Z.div_lt_upper_bound; lia]).
  cbn [number]. rewrite digit_of_conv by (try done; by apply Z.mod_pos_bound).
  transitivity (s32 (u / b * b + u mod b)); [|f_equal; pose proof (Z.div_mod u b); lia].
  apply wraps_congr. rewrite <- Zplus_mod_idemp_l, <- Zmult_mod_idemp_l. unfold s32.
  by rewrite wraps_mod, Zmult_mod_idemp_l, Zplus_mod_idemp_l by lia.
Qed.

(** The first digit is not zero. *)
Lemma digits_head f b u : 0 < b <= 16 -> 0 < u < b ^ Z.of_nat f ->
  exists d l, 0 < d < 16 /\ digits f b u [] = conv d :: l.
Proof.
  intros Hb. revert u. induction f as [|f IH]; intros u Hu; [simpl in Hu; lia|].
  cbn [digits]. rewrite (proj2 (Z.eqb_neq u 0)), digits_app by lia.
  rewrite Nat2Z.inj_succ, Z.pow_succ_r in Hu by lia.
  destruct (Z.eq_dec (u / b) 0) as [E|E].
  - rewrite E. exists (u mod b), []. split; [|by destruct f].
    pose proof (Z.div_mod u b ltac:(lia)). pose proof (Z.mod_pos_bound u b ltac:(lia)). rewrite E in *. lia.
  - destruct (IH (u / b)) as (d & l & Hd & ->).
    + split; [|by apply Z.div_lt_upper_bound; lia]. assert (0 <= u / b) by (apply Z.div_pos; lia). lia.
    + by exists d, (l ++ [conv (u mod b)]).
Qed.

Lemma fmt_u_head b u : 0 < b <= 16 -> 0 < u < b ^ 64 -> exists d l, 0 < d < 16 /\ fmt_u b u = conv d :: l.
Proof. intros Hb Hu. unfold fmt_u. rewrite (proj2 (Z.eqb_neq u 0)) by lia. by apply digits_head. Qed.

Lemma number_fmt b u : is_base b -> 0 <= u < b ^ 64 -> number b 0 (fmt_u b u) = s32 u.
Proof.
  intros Hb Hu. unfold fmt_u. destruct (Z.eqb_spec u 0) as [->|]; [by destruct Hb as [->|[->| ->]]|].
  by apply number_digits.
Qed.

(** ** The number on its own *)

Lemma digit_not_blank d : 0 <= d < 16 -> is_blank (conv d) = false.
Proof.
  intros H. apply conv_range in H as [H _]. unfold is_blank.
  by rewrite (proj2 (Z.eqb_neq _ 32)), (proj2 (Z.eqb_neq _ 9)) by lia.
Qed.

(** A positive decimal number, after any sign. *)
Lemma decimal_tail u : 0 < u < 2 ^ 33 ->
  exists d l, 0 < d < 16 /\ fmt_u 10 u = conv d :: l /\ number 10 0 (conv d :: l) = s32 u.
Proof.
  intros Hu. destruct (fmt_u_head 10 u) as (d & l & Hd & E); [lia|lia|].
  exists d, l. split; [done|]. split; [done|]. rewrite <- E. apply number_fmt; [by right; left|lia].
Qed.

Lemma unsigned_digits d l : 0 < d < 16 -> unsigned (conv d :: l) = number 10 0 (conv d :: l).
Proof.
  intros Hd. destruct (conv_range d ltac:(lia)) as [_ H]. unfold unsigned. destruct l; [done|].
  by rewrite (proj2 (Z.eqb_neq _ 48)) by lia.
Qed.

Lemma atolwhex_plain d l : 0 <= d < 16 -> atolwhex (conv d :: l) = unsigned (conv d :: l).
Proof.
  intros Hd. destruct (conv_range d Hd) as [H _]. unfold atolwhex. cbn [skip_blanks].
  rewrite digit_not_blank by done. by rewrite (proj2 (Z.eqb_neq _ 45)), (proj2 (Z.eqb_neq _ 43)) by lia.
Qed.

Lemma atolwhex_minus d l : 0 <= d < 16 -> atolwhex (45 :: conv d :: l) = s32 (- unsigned (conv d :: l)).
Proof. intros Hd. unfold atolwhex. cbn. by rewrite digit_not_blank. Qed.

Lemma s32_opp v : in_s 32 v -> s32 (- s32 (- v)) = v.
Proof.
  intros H. assert (- 2 ^ 31 <= v < 2 ^ 31) as Hv by apply H. unfold s32, wraps.
  change (32 - 1) with 31. Z.div_mod_to_equations. lia.
Qed.

(** C33: [atolwhex] reads back what formatted output writes of an [int32]: with [%d], and after
    the prefixes that select them, with [%lux] and in octal. *)
Theorem atolwhex_reads v :
  in_s 32 v ->
  atolwhex (fmt_d v) = v
  /\ atolwhex (48 :: 120 :: fmt_lux v) = v
  /\ atolwhex (48 :: fmt_u 8 (u32 v)) = v.
Proof.
  intros Hv. assert (0 <= u32 v < 2 ^ 32) as Hu by by apply wrapu_range.
  assert (s32 (u32 v) = v) as Esu by (unfold s32, u32; rewrite wraps_wrapu by lia; by apply wraps_id).
  assert (- 2 ^ 31 <= v < 2 ^ 31) as Hv' by apply Hv. split_and!.
  - unfold fmt_d. destruct (Z.ltb_spec v 0).
    + destruct (decimal_tail (- v)) as (d & l & Hd & -> & E); [lia|].
      rewrite atolwhex_minus, unsigned_digits, E by lia. by apply s32_opp.
    + destruct (Z.eq_dec v 0) as [->|]; [done|].
      destruct (decimal_tail v) as (d & l & Hd & -> & E); [lia|].
      rewrite atolwhex_plain, unsigned_digits, E by lia. by apply wraps_id.
  - rewrite (atolwhex_plain 0) by lia. change (number 16 0 (fmt_lux v) = v). unfold fmt_lux.
    rewrite number_fmt; [done|by right; right|lia].
  - rewrite (atolwhex_plain 0) by lia. unfold unsigned. destruct (Z.eq_dec (u32 v) 0) as [E|E].
    + rewrite E in *. cbn. by rewrite <- Esu.
    + destruct (fmt_u_head 8 (u32 v)) as (d & l & Hd & El); [lia|lia|]. rewrite El.
      assert (conv d <> 120 /\ conv d <> 88) as [H1 H2] by (unfold conv; destruct (Z.ltb_spec d 10); lia).
      rewrite (proj2 (Z.eqb_neq _ 120)), (proj2 (Z.eqb_neq _ 88)) by done.
      change (number 8 0 ([conv 0] ++ conv d :: l) = v).
      rewrite number_app; [|by left|repeat constructor; by exists 0]. change (number 8 0 [conv 0]) with 0.
      rewrite <- El, number_fmt; [done|by left|lia].
Qed.

Lemma atolwhex_reads_witness : atolwhex (fmt_d (-70000)) = -70000.
Proof. apply (atolwhex_reads (-70000)). unfold in_s. lia. Defined.
