(* ===== verification/VlLd.v ===== *)
(** The reading of object files by the linker: [zaddr], [ldobj] and their helpers of [obj.c]. *)
From S2P Require Import Prelude CInt VlObj VlSym VlSpan VlData.

Definition NSYM : Z := 50.
Definition NSNAME : Z := 8.
Definition MAXHIST : Z := 20.
Definition DUPOK : Z := 2.

(** ** The stores *)

Definition geta (u : Z) : L Auto := fun s =>
  match autos s !! u with Some x => LOk x s | None => LFault end.
Definition upda (u : Z) (f : Auto -> Auto) : L unit := fun s =>
  match autos s !! u with
  | Some x => LOk tt (lset_autos (<[u := f x]> (autos s)) s)
  | None => LFault
  end.

(** [u = malloc(sizeof(Auto)); ...] *)
Definition new_auto (x : Auto) : L Z := fun s =>
  LOk (nexta s) (lset_nexta (nexta s + 1) (lset_autos (<[nexta s := x]> (autos s)) s)).

(** [NSNAME] or [sizeof(Ieee)] bytes of the hunk, with what is put there. *)
Definition new_block (bs : list Z) : L Z := fun s =>
  LOk (nextb s) (lset_nextb (nextb s + 1) (lset_heap (<[nextb s := bs]> (heap s)) s)).

Definition get_block (b : Z) : L (list Z) := fun s =>
  match heap s !! b with Some x => LOk x s | None => LFault end.

(** [s = malloc(sizeof(Sym))], a symbol outside the table; [malloc] of compat.c takes zeroed
    memory. *)
Definition new_sym (x : Sym) : L Z := fun s =>
  LOk (nexts s) (lset_nexts (nexts s + 1) (lset_syms (<[nexts s := x]> (syms s)) s)).

(** A [Prog] as the hunk has it: zero. *)
Definition adr0 : Adr := mkAdr 0 None 0 0 0 0.
Definition prog0 : Prog := mkProg adr0 adr0 None None None 0 0 0 0 0 0.
Definition new_prog (x : Prog) : L Z := fun s =>
  LOk (nextp s) (lset_nextp (nextp s + 1) (lset_progs (<[nextp s := x]> (progs s)) s)).

(** ** zaddr *)

(** [p[0] | (p[1]<<8) | (p[2]<<16) | (p[3]<<24)] *)
Definition le_int (b0 b1 b2 b3 : Z) : Z :=
  s32 (Z.lor (Z.lor (Z.lor b0 (Z.shiftl b1 8)) (Z.shiftl b2 16)) (Z.shiftl b3 24)).

(** [for(u=curauto; u; u=u->link)] up to the local [s] of kind [i]. *)
Fixpoint find_auto (fuel : nat) (u : option Z) (s i : Z) : L (option Z) :=
  match u with
  | None => mret None
  | Some u =>
      match fuel with
      | O => ldiverge
      | S f =>
          x ← geta u;
          if (asym x =? s) && (au_type x =? i) then mret (Some u) else find_auto f (au_link x) s i
      end
  end.

(** The local [s] is used at offset [l]. *)
Definition note_auto (s i l : Z) : L unit :=
  u ← lgets curauto;
  n ← lgets nexta;
  r ← find_auto (S (Z.to_nat n)) u s i;
  match r with
  | Some u => x ← geta u; if l <? aoffset x then upda u (uset_aoffset l) else lskip
  | None => a ← new_auto (mkAuto s u l i); lmodify (lset_curauto (Some a))
  end.

(** The bytes of the operand's value; [None]: an unknown type. A read beyond what is there is
    [LFault]. *)
Definition zaddr_value (t : Z) (p : list Z) (a : Adr) : option (L (Z * Adr)) :=
  if bool_decide (t ∈ [D_NONE; D_REG; D_FREG; D_MREG; D_FCREG; D_LO; D_HI]) then Some (mret (4, a))
  else if bool_decide (t ∈ [D_BRANCH; D_OREG; D_CONST; D_OCONST]) then
    Some match p with
         | b0 :: b1 :: b2 :: b3 :: _ => mret (8, aset_offset (le_int b0 b1 b2 b3) a)
         | _ => lfault
         end
  else if (t =? D_SCONST) || (t =? D_FCONST) then
    (* both are eight bytes *)
    Some (if Z.of_nat (length p) <? NSNAME then lfault
          else b ← new_block (take 8 p); mret (12, aset_offset b a))
  else None.

(** The number of bytes of the operand at [p], and the operand; the bytes from [p] on, of which
    the first changes when the operand is bad. *)
Definition zaddr (p : list Z) (a : Adr) (h : list (option Z)) : L (Z * list Z * Adr) :=
  match p with
  | t :: r :: c :: n :: p' =>
      let bad a := mret (0, ALAST + 1 :: r :: c :: n :: p', a) in
      if NSYM <? c then bad a
      else
        match h !! Z.to_nat c with
        | None => lfault
        | Some sym =>
            let a := aset_name (s8 n) (aset_sym sym (aset_reg (s8 r) (aset_type (s8 t) a))) in
            if (a_reg a <? 0) || (NREG <? a_reg a) then bad a
            else
              match zaddr_value (a_type a) p' a with
              | None => bad a
              | Some m =>
                  '(k, a) ← m;
                  match sym with
                  | Some s =>
                      let i := a_name a in
                      if (i =? D_AUTO) || (i =? D_PARAM) then
                        note_auto s i (a_offset a);; mret (k, p, a)
                      else mret (k, p, a)
                  | None => mret (k, p, a)
                  end
              end
        end
  | _ => lfault
  end.

(** ** Source files *)

(** [histfrog[i]->value] as two bytes. *)
Fixpoint frog_bytes (l : list Z) : L (list Z) :=
  match l with
  | [] => mret []
  | y :: l =>
      x ← getsym y;
      bs ← frog_bytes l;
      mret (s8 (Z.shiftr (s_value x) 8) :: s8 (s_value x) :: bs)
  end.

(** The name has zeros inside: it starts with one, and two end it. *)
Definition addhist (line type : Z) : L unit :=
  fs ← lgets histfrog;
  bs ← frog_bytes fs;
  y ← new_sym (mkSym (0 :: bs) 0 0 0 0 0);
  u ← lgets curhist;
  a ← new_auto (mkAuto y u line type);
  lmodify (lset_curhist (Some a)).

(** [while(l = curhist)] *)
Fixpoint histtoauto_loop (fuel : nat) : L unit :=
  l ← lgets curhist;
  match l with
  | None => lskip
  | Some u =>
      match fuel with
      | O => ldiverge
      | S f =>
          x ← geta u;
          lmodify (lset_curhist (au_link x));;
          c ← lgets curauto;
          upda u (uset_au_link c);;
          lmodify (lset_curauto (Some u));;
          histtoauto_loop f
      end
  end.

Definition histtoauto : L unit := n ← lgets nexta; histtoauto_loop (S (Z.to_nat n)).

(** The first of [l], from the index [i] on, whose name is [w] after the first character. *)
Fixpoint find_frog (w : list Z) (l : list Z) (i : nat) : L (option nat) :=
  match l with
  | [] => mret None
  | y :: l =>
      x ← getsym y;
      if bool_decide (drop 1 (s_name x) = w) then mret (Some i) else find_frog w l (S i)
  end.

Definition collapsefrog (s : Z) : L unit :=
  l ← lgets histfrog;
  r ← find_frog [46; 46] (drop 1 l) 1;
  match r with
  | Some i => lmodify (lset_histfrog (take (i - 1) l ++ drop (S i) l ++ [s]))
  | None =>
      r ← find_frog [46] l 0;
      match r with
      | Some i => lmodify (lset_histfrog (take i l ++ drop (S i) l ++ [s]))
      | None => lmodify (lset_histfrog (drop 1 l ++ [s]))
      end
  end.

Definition nopout (pid : Z) : L unit :=
  updp pid (fun p => pset_as ANOP (pset_from (aset_type D_NONE (from p)) (pset_to (aset_type D_NONE (to p)) p))).

(** ** Floating-point constants *)

(** The two words of an [Ieee]. *)
Definition ieee_words (bs : list Z) : option (Z * Z) :=
  match bs with
  | [b0; b1; b2; b3; b4; b5; b6; b7] => Some (le_int b0 b1 b2 b3, le_int b4 b5 b6 b7)
  | _ => None
  end.

Definition ieeedtof (l h : Z) : L Z :=
  if h =? 0 then mret 0
  else
    let exp := Z.land (Z.shiftr h 20) (Z.shiftl 1 11 - 1) - (Z.shiftl 1 10 - 2) in
    let v := Z.lor (Z.shiftl (Z.land h 0xfffff) 3) (Z.land (Z.shiftr l 29) 7) in
    let '(v, exp) :=
      if Z.land (Z.shiftr l 28) 1 =? 0 then (v, exp)
      else if Z.land (v + 1) 0x800000 =? 0 then (v + 1, exp)
      else (Z.shiftr (Z.land (v + 1) 0x7fffff) 1, exp + 1) in
    (if (exp <=? -126) || (130 <=? exp) then diag "double fp to single fp overflow" [] else lskip);;
    mret (s32 (Z.lor (Z.lor v (Z.shiftl (Z.land (exp + 126) 0xff) 23)) (Z.land h 0x80000000))).

(** ** ldobj *)

(** What has been read: [bloc], the bytes read and not yet used; what of the file is not read yet;
    [c], how many bytes the object still has; the symbols [h]. *)
Record Rd := mkRd { bloc : list Z; unread : list Z; left_ : Z; hs : list (option Z) }.

(** The variables [di], [ipc] and [skip]. *)
Record Ld := mkLd { di : option Z; ipc : Z; skip : bool }.

(** What the code does next: it goes on, starts a new object, returns, or finds the end of the
    file. *)
Inductive Next := Loop (d : Ld) | Newloop (d : Ld) | Return | Eof.

(** [readsome(f, buf.xbuf, bloc, bsize, c)]: the buffer is filled up, but by no more than [max]
    bytes; a file gives what is asked for while it lasts. *)
Definition readsome (r : Rd) : option Rd :=
  let n := Z.min (MAXIO - Z.of_nat (length (bloc r))) (left_ r) in
  match take (Z.to_nat n) (unread r) with
  | [] => None
  | bs => Some (mkRd (bloc r ++ bs) (drop (Z.to_nat n) (unread r)) (left_ r) (hs r))
  end.

(** [memchr(p, 0, n)]: the bytes before the zero, and those after it. *)
Fixpoint split_zero (l : list Z) : option (list Z * list Z) :=
  match l with
  | [] => None
  | b :: l => if b =? 0 then Some ([], l) else
      match split_zero l with Some (n, r) => Some (b :: n, r) | None => None end
  end.

(** The symbol of a name of the kind [v]. *)
Definition ld_symbol (v : Z) (name : list Z) : L Z :=
  ver ← lgets version;
  s ← lookup name (if v =? D_STATIC then ver else 0);
  x ← getsym s;
  (if ((v =? D_EXTERN) || (v =? D_STATIC)) && (s_type x =? 0) then updsym s (sset_type SXREF) else lskip);;
  mret s.

(** [if(v == D_FILE) ...]: a component of the path of a source file. *)
Definition ld_file (s : Z) : L unit :=
  x ← getsym s;
  (if negb (s_type x =? SFILE) then
     lmodify (fun st => lset_histgen (s32 (histgen st + 1)) st);;
     g ← lgets histgen;
     updsym s (fun z => sset_value g (sset_type SFILE z))
   else lskip);;
  l ← lgets histfrog;
  if Z.of_nat (length l) <? MAXHIST then lmodify (lset_histfrog (l ++ [s])) else collapsefrog s.

(** A name, for the number [o] and of the kind [v]. *)
Definition ld_name (v o : Z) (name : list Z) (h : list (option Z)) : L (list (option Z)) :=
  s ← ld_symbol v (map s8 name);
  (if v =? D_FILE then ld_file s else lskip);;
  match h !! Z.to_nat o with
  | None => lfault
  | Some _ => mret (<[Z.to_nat o := Some s]> h)
  end.

(** [o == ANAME || o == ASIGNAME]; a name that the buffer does not hold whole makes it read
    once more. [None]: the end of the file. *)
Definition ld_names (o : Z) (r : Rd) : L (option Rd) :=
  let r := if o =? ASIGNAME then mkRd (drop 4 (bloc r)) (unread r) (left_ r - 4) (hs r) else r in
  if (length (bloc r) <? 3)%nat then lfault
  else
    let enter r n rest :=
      match bloc r with
      | _ :: v :: y :: _ =>
          h ← ld_name v y n (hs r);
          mret (Some (mkRd rest (unread r) (left_ r - 3 - (Z.of_nat (length n) + 1)) h))
      | _ => lfault
      end in
    match split_zero (drop 3 (bloc r)) with
    | Some (n, rest) => enter r n rest
    | None =>
        match readsome r with
        | None => mret None
        | Some r =>
            match split_zero (drop 3 (bloc r)) with
            | Some (n, rest) => enter r n rest
            | None => lexit
            end
        end
    end.

(** [lastp->link = p; lastp = p; p->pc = pc; pc++;] *)
Definition append_prog (pid : Z) : L unit :=
  l ← lgets lastp;
  match l with
  | None => lfault
  | Some l => updp l (pset_link (Some pid))
  end;;
  lmodify (lset_lastp (Some pid));;
  c ← lgets pc;
  updp pid (pset_pc c);;
  lmodify (fun s => lset_pc (s32 (pc s + 1)) s).

(** [p->link = datap; datap = p;] *)
Definition append_data (pid : Z) : L unit :=
  d ← lgets datap;
  updp pid (pset_link d);;
  lmodify (lset_datap (Some pid)).

(** The label [casedef]. *)
Definition casedef (d : Ld) (pid : Z) : L unit :=
  (if skip d then nopout pid else lskip);;
  p ← getp pid;
  (if a_type (to p) =? D_BRANCH then
     updp pid (fun p => pset_to (aset_offset (s32 (a_offset (to p) + ipc d)) (to p)) p)
   else lskip);;
  append_prog pid.

(** The locals and the source files of the function that ends. *)
Definition end_autos : L unit :=
  ct ← lgets curtext;
  match ct with
  | None => lskip
  | Some t => c ← lgets curauto; updp t (fun p => pset_to (aset_sym c (to p)) p)
  end;;
  lmodify (lset_curauto None).

(** A floating-point constant of [n] bytes becomes a literal in memory. *)
Definition float_literal (pid n : Z) (literal : list Z) : L unit :=
  s ← lookup literal 0;
  x ← getsym s;
  p ← getp pid;
  (if s_type x =? 0 then
     updsym s (fun x => sset_value n (sset_type SBSS x));;
     t ← prg;
     updp t (fun q =>
       pset_to (from p) (pset_reg n
         (pset_from (aset_name D_EXTERN (aset_sym (Some s) (aset_type D_OREG (from q))))
           (pset_line (p_line p) (pset_as ADATA q)))));;
     append_data t
   else lskip);;
  updp pid (fun p => pset_from (aset_offset 0 (aset_name D_EXTERN
    (aset_sym (Some s) (aset_type D_OREG (from p))))) p).

(** The words of the constant of an instruction. *)
Definition get_ieee (p : Prog) : L (Z * Z) :=
  b ← get_block (a_offset (from p));
  match ieee_words b with Some w => mret w | None => lfault end.

Definition ld_globl (pid : Z) : L unit :=
  p ← getp pid;
  match a_sym (from p) with
  | None => diag "GLOBL must have a name\n%P" [pid];; lexit
  | Some s =>
      x ← getsym s;
      (if (s_type x =? 0) || (s_type x =? SXREF) then updsym s (fun x => sset_value 0 (sset_type SBSS x)) else lskip);;
      x ← getsym s;
      (if negb (s_type x =? SBSS) then
         diag "redefinition: %s\n%P" [s; pid];; updsym s (fun x => sset_value 0 (sset_type SBSS x))
       else lskip);;
      x ← getsym s;
      if s_value x <? a_offset (to p) then updsym s (sset_value (a_offset (to p))) else lskip
  end.

(** The datum [pid] initialises dynamic storage at the place of [y]. *)
Definition init_at (pid y z : Z) : L unit :=
  x ← getsym y;
  updp pid (fun p => pset_from (aset_offset (s_value x) (from p)) p);;
  updsym z (sset_type SDATA).

Definition ld_dynt (d : Ld) (pid : Z) : L Ld :=
  p ← getp pid;
  match a_sym (to p) with
  | None => diag "DYNT without a sym\n%P" [pid];; mret d
  | Some y =>
      let d := mkLd (Some y) (ipc d) (skip d) in
      updp pid (pset_reg 4);;
      x ← getsym y;
      (if s_type x =? SXREF then
         t ← lgets dtype;
         updsym y (fun x => sset_value t (sset_type SCONST x));;
         lmodify (lset_dtype (s32 (t + 4)))
       else lskip);;
      match a_sym (from p) with
      | None => lskip
      | Some z =>
          init_at pid y z;;
          ct ← lgets curtext;
          match ct with
          | None => diag "DYNT not in text: %P" [pid]
          | Some t =>
              c ← getp t;
              updp pid (fun p => pset_to (aset_type D_CONST (aset_sym (a_sym (from c)) (to p))) p);;
              append_data pid
          end
      end;;
      mret d
  end.

Definition ld_init (d : Ld) (pid : Z) : L unit :=
  p ← getp pid;
  match a_sym (from p), di d with
  | None, _ => diag "INIT without a sym\n%P" [pid]
  | _, None => diag "INIT without previous DYNT\n%P" [pid]
  | Some z, Some y => init_at pid y z;; append_data pid
  end.

Definition ld_text (d : Ld) (pid : Z) : L Ld :=
  ct ← lgets curtext;
  match ct with
  | None => lskip
  | Some _ => histtoauto;; end_autos
  end;;
  let d := mkLd (di d) (ipc d) false in
  lmodify (lset_curtext (Some pid));;
  p ← getp pid;
  let sz := Z.land (s32 (a_offset (to p) + 3)) (Z.lnot 3) in
  updp pid (fun p => pset_to (aset_offset sz (to p)) p);;
  lmodify (lset_autosize (s32 (sz + 4)));;
  match a_sym (from p) with
  | None => diag "TEXT must have a name\n%P" [pid];; lexit
  | Some s =>
      x ← getsym s;
      let known := negb (s_type x =? 0) && negb (s_type x =? SXREF) in
      if known && negb (Z.land (p_reg p) DUPOK =? 0) then
        let d := mkLd (di d) (ipc d) true in
        casedef d pid;; mret d
      else
        (if known then diag "redefinition: %s\n%P" [s; pid] else lskip);;
        c ← lgets pc;
        updsym s (fun x => sset_value c (sset_type STEXT x));;
        append_prog pid;;
        t ← lgets textp;
        match t with
        | None => lmodify (lset_textp (Some pid));; lmodify (lset_etextp (Some pid))
        | Some _ =>
            e ← lgets etextp;
            match e with None => lfault | Some e => updp e (pset_cond (Some pid)) end;;
            lmodify (lset_etextp (Some pid))
        end;;
        mret d
  end.

(** [switch(o)] after an instruction other than [HISTORY]; [c] bytes are left behind it. *)
Definition ld_cases (c : Z) (d : Ld) (pid : Z) (p : Prog) : L Next :=
  let o := p_as p in
  let go m := m;; mret (Loop d) in
  if o =? AEND then
    histtoauto;; end_autos;;
    lmodify (lset_curtext None);;
    mret (if c =? 0 then Return else Newloop d)
  else if o =? AGLOBL then go (ld_globl pid)
  else if o =? ADYNT then d ← ld_dynt d pid; mret (Loop d)
  else if o =? AINIT then go (ld_init d pid)
  else if o =? ADATA then
    go (match a_sym (from p) with
        | None => diag "DATA without a sym\n%P" [pid]
        | Some _ => append_data pid
        end)
  else if o =? AGOK then
    diag "unknown opcode\n%P" [pid];;
    c ← lgets pc;
    updp pid (pset_pc c);;
    go (lmodify (fun s => lset_pc (s32 (pc s + 1)) s))
  else if o =? ATEXT then d ← ld_text d pid; mret (Loop d)
  else if (o =? ASUB) || (o =? ASUBU) then
    (if (a_type (from p) =? D_CONST) && (a_name (from p) =? D_NONE) then
       updp pid (fun p => pset_as (if o =? ASUB then AADD else AADDU)
                           (pset_from (aset_offset (s32 (- a_offset (from p))) (from p)) p))
     else lskip);;
    go (casedef d pid)
  else if (o =? AMOVF) && negb (skip d) && (a_type (from p) =? D_FCONST) then
    '(l, h) ← get_ieee p;
    v ← ieeedtof l h;
    float_literal pid 4 (literal_const v);;
    go (casedef d pid)
  else if (o =? AMOVD) && negb (skip d) && (a_type (from p) =? D_FCONST) then
    '(l, h) ← get_ieee p;
    float_literal pid 8 (36 :: fmt_lux l ++ 46 :: fmt_lux h);;
    go (casedef d pid)
  else go (casedef d pid).

Section Ldobj.
(** [addlib(pn)] looks for the library that the path components in [histfrog] name, and adds it
    to those still to be loaded. *)
Context (addlib : L unit).

Definition ld_history (p : Prog) : L unit :=
  (if a_offset (to p) =? -1 then addlib
   else
     addhist (p_line p) D_FILE;;
     if a_offset (to p) =? 0 then lskip else addhist (a_offset (to p)) D_FILE1);;
  lmodify (lset_histfrog []).

(** [switch(o)] *)
Definition ld_switch (c : Z) (d : Ld) (pid : Z) : L Next :=
  p ← getp pid;
  if p_as p =? AHISTORY then ld_history p;; mret (Loop d) else ld_cases c d pid p.

(** The instruction [p], apart from its operands. *)
Definition ld_take (c : Z) (d : Ld) (p : Prog) : L Next :=
  pid ← new_prog p;
  (if (p_reg p <? 0) || (NREG <? p_reg p) then diag "register out of range %d" [p_reg p] else lskip);;
  ld_switch c d pid.

(** An instruction, whose opcode is [o]. *)
Definition ld_prog (o : Z) (r : Rd) (d : Ld) : L (Rd * Next) :=
  match bloc r with
  | _ :: b :: b0 :: b1 :: b2 :: b3 :: q =>
      let p := pset_as o (pset_reg (Z.land b 0x7f)
                 (pset_mark (if Z.land b 0x80 =? 0 then 0 else NOSCHED)
                    (pset_line (le_int b0 b1 b2 b3) prog0))) in
      '(k1, q, f) ← zaddr q (from p) (hs r);
      '(k2, q, t) ← zaddr (drop (Z.to_nat k1) q) (to p) (hs r);
      let c := left_ r - (6 + k1 + k2) in
      n ← ld_take c d (pset_from f (pset_to t p));
      mret (mkRd (drop (Z.to_nat k2) q) (unread r) c (hs r), n)
  | _ => lfault
  end.

(** One round of [loop]. *)
Definition ld_round (r : Rd) (d : Ld) : L (Rd * Next) :=
  if left_ r <=? 0 then mret (r, Eof)
  else
    let n := Z.of_nat (length (bloc r)) in
    if (n <? 100) && (n <? left_ r) then
      mret (match readsome r with None => (r, Eof) | Some r => (r, Loop d) end)
    else
      match bloc r with
      | [] => lfault
      | o :: _ =>
          if (o <=? AXXX) || (ALAST <=? o) then
            c ← lgets pc;
            diag "%s: line %ld: opcode out of range %d" [c - ipc d; o];;
            lexit
          else if (o =? ANAME) || (o =? ASIGNAME) then
            r' ← ld_names o r;
            mret (match r' with Some r => (r, Loop d) | None => (r, Eof) end)
          else ld_prog o r d
      end.

(** [newloop] *)
Definition ld_new (d : Ld) : L Ld :=
  lmodify (fun s => lset_version (s32 (version s + 1)) s);;
  lmodify (lset_histfrog []);;
  c ← lgets pc;
  mret (mkLd (di d) c false).

Definition no_names : list (option Z) := replicate (Z.to_nat NSYM) None.

Fixpoint ld_loop (fuel : nat) (r : Rd) (d : Ld) : L unit :=
  match fuel with
  | O => ldiverge
  | S f =>
      '(r, n) ← ld_round r d;
      match n with
      | Loop d => ld_loop f r d
      | Newloop d => d ← ld_new d; ld_loop f (mkRd (bloc r) (unread r) (left_ r) no_names) d
      | Return => lskip
      | Eof => diag "truncated object file: %s" []
      end
  end.

(** [ldobj(f, c, pn)], where the file [f] has the bytes [file] from where it stands. *)
Definition ldobj (fuel : nat) (file : list Z) (c : Z) : L unit :=
  d ← ld_new (mkLd None 0 false);
  ld_loop fuel (mkRd [] file c no_names) d.
End Ldobj.
