(* ===== verification/VlLdLib.v ===== *)
(** What the reading of an object file leaves alone: a symbol that a name stands for stays the
    one, and what has been seen of it is not forgotten. *)
From S2P Require Import Prelude CInt VlObj VlSym VlSpan VlLib VlData VlLd.

(** ** The names of the symbols *)

(** The chains hold allocated symbols, and the number of the object file is a [short]. *)
Record tab_ok (s : vl) : Prop := {
  t_chain : forall h y, y ∈ chain h s -> is_Some (syms s !! y);
  t_next : forall y, is_Some (syms s !! y) -> y < nexts s;
  t_version : in_s 16 (version s) }.

(** [y] is the symbol that [lookup] finds. *)
Definition found (s : vl) (symb : list Z) (v y : Z) : Prop :=
  chain_find symb v (chain (symhash symb v) s) s = LOk (Some y) s.

(** The symbols of [s] are symbols of [s'], of the same names, and of a type if they had one. *)
Definition kept (s s' : vl) : Prop :=
  forall y x, syms s !! y = Some x ->
    exists x', syms s' !! y = Some x' /\ s_name x' = s_name x /\ s_version x' = s_version x
               /\ (s_type x <> 0 -> s_type x' <> 0).

Record safe (s s' : vl) : Prop := {
  k_tab : tab_ok s';
  k_version : version s' = version s;
  k_kept : kept s s';
  k_found : forall symb v y, found s symb v y -> found s' symb v y }.

Definition keeps (s s' : vl) : Prop := tab_ok s -> safe s s'.

#[export] Instance kept_refl : Reflexive kept.
Proof. intros s y x H. by exists x. Qed.

#[export] Instance kept_trans : Transitive kept.
Proof.
  intros s1 s2 s3 H1 H2 y x H. destruct (H1 y x H) as (x' & H' & E1 & E2 & E3).
  destruct (H2 y x' H') as (x'' & H'' & F1 & F2 & F3). exists x''. split_and!; [done|congruence..|auto].
Qed.

#[export] Instance keeps_refl : Reflexive keeps.
Proof. intros s H. split; auto. reflexivity. Qed.

#[export] Instance keeps_trans : Transitive keeps.
Proof.
  intros s1 s2 s3 H1 H2 H. destruct (H1 H) as [A1 A2 A3 A4]. destruct (H2 A1) as [B1 B2 B3 B4].
  split; [done|congruence|by etrans|auto].
Qed.

Lemma chain_find_kept symb v l s s' r :
  kept s s' -> chain_find symb v l s = LOk r s -> chain_find symb v l s' = LOk r s'.
Proof.
  intros Hk. induction l as [|y l IH]; [by intros [= <-]|]. cbn [chain_find].
  unfold mbind, L_bind, getsym. destruct (syms s !! y) as [x|] eqn:E; [|done].
  destruct (Hk y x E) as (x' & -> & E1 & E2 & _). rewrite E1, E2.
  case_bool_decide; [by intros [= <-]|]. apply IH.
Qed.

(** A change of symbols in place. *)
Lemma keeps_syms s s' :
  kept s s' -> hash s' = hash s -> version s' = version s ->
  (forall y, is_Some (syms s' !! y) -> is_Some (syms s !! y) \/ nexts s <= y < nexts s') -> nexts s <= nexts s' ->
  keeps s s'.
Proof.
  intros Hk Hh Hv Hd Hn [H1 H2 H3]. assert (forall h, chain h s' = chain h s) as Hc by (intros h; unfold chain; by rewrite Hh).
  split; [split|done|done|].
  - intros h y. rewrite Hc. intros Hy. destruct (H1 h y Hy) as [x Hx].
    destruct (Hk y x Hx) as (x' & Hx' & _). by exists x'.
  - intros y Hy. destruct (Hd y Hy) as [Hy'|?]; [|lia]. specialize (H2 y Hy'). lia.
  - by rewrite Hv.
  - intros symb v y. unfold found. rewrite Hc. by apply chain_find_kept.
Qed.

Lemma keeps_same s s' :
  syms s' = syms s -> hash s' = hash s -> nexts s' = nexts s -> version s' = version s -> keeps s s'.
Proof.
  intros H1 H2 H3 H4. apply keeps_syms; try done; [|intros y; rewrite H1; by left|lia].
  intros y x H. exists x. by rewrite H1.
Qed.

(** ** The operations *)

Lemma modify_keeps f :
  (forall s, syms (f s) = syms s /\ hash (f s) = hash s /\ nexts (f s) = nexts s /\ version (f s) = version s) ->
  lrel keeps (lmodify f).
Proof. intros H s a s' [= <- <-]. destruct (H s) as (H1 & H2 & H3 & H4). by apply keeps_same. Qed.

Lemma updp_keeps p f : lrel keeps (updp p f).
Proof. intros s a s'. unfold updp. case_match; [|done]. intros [= <- <-]. by apply keeps_same. Qed.

Lemma updsym_keeps y f :
  (forall x, s_name (f x) = s_name x /\ s_version (f x) = s_version x /\ (s_type x <> 0 -> s_type (f x) <> 0)) ->
  lrel keeps (updsym y f).
Proof.
  intros Hf s a s'. unfold updsym. destruct (syms s !! y) as [x|] eqn:E; [|done]. intros [= <- <-].
  apply keeps_syms; try done; [|intros z; simpl; rewrite lookup_insert_is_Some; intros [->|[_ ?]]; left; [by exists x|done]].
  intros z w Hz. simpl. destruct (decide (y = z)) as [<-|].
  - rewrite lookup_insert_eq. rewrite E in Hz. injection Hz as <-. exists (f x). by split.
  - rewrite lookup_insert_ne by done. by exists w.
Qed.

Lemma geta_keeps u : lrel keeps (geta u).
Proof. intros s a s'. unfold geta. case_match; [|done]. by intros [= <- <-]. Qed.
Lemma upda_keeps u f : lrel keeps (upda u f).
Proof. intros s a s'. unfold upda. case_match; [|done]. intros [= <- <-]. by apply keeps_same. Qed.
Lemma get_block_keeps b : lrel keeps (get_block b).
Proof. intros s a s'. unfold get_block. case_match; [|done]. by intros [= <- <-]. Qed.
Lemma new_auto_keeps x : lrel keeps (new_auto x).
Proof. intros s a s' [= <- <-]. by apply keeps_same. Qed.
Lemma new_block_keeps x : lrel keeps (new_block x).
Proof. intros s a s' [= <- <-]. by apply keeps_same. Qed.
Lemma new_prog_keeps x : lrel keeps (new_prog x).
Proof. intros s a s' [= <- <-]. by apply keeps_same. Qed.
Lemma prg_keeps : lrel keeps prg.
Proof. intros s a s' [= <- <-]. by apply keeps_same. Qed.

Lemma diag_keeps fmt args : lrel keeps (diag fmt args).
Proof.
  unfold diag. apply lrel_bind; [apply _|by apply modify_keeps|]. intros _.
  apply lrel_bind; [apply _|apply lrel_gets, _|]. intros n. destruct (10 <? n); [apply lrel_exit|apply lrel_ret, _].
Qed.

Lemma chain_find_state symb v l s r s' : chain_find symb v l s = LOk r s' -> s' = s.
Proof.
  induction l as [|y l IH]; [by intros [= <- <-]|]. cbn [chain_find]. unfold mbind, L_bind, getsym.
  destruct (syms s !! y); [|done]. case_bool_decide; [by intros [= <- <-]|done].
Qed.

Lemma new_sym_keeps x : lrel keeps (new_sym x).
Proof.
  intros s a s' [= <- <-] Ht. apply keeps_syms; try done; [| |simpl; lia].
  - intros z w Hz. assert (z < nexts s) by (apply Ht; by exists w). simpl.
    rewrite lookup_insert_ne by lia. by exists w.
  - intros z. simpl. rewrite lookup_insert_is_Some'. intros [<-|?]; [right; lia|by left].
Qed.

(** What [lookup] does where it finds nothing. *)
Lemma chain_find_new symb v s h k :
  let s' := lset_nexts (nexts s + 1) (lset_hash (<[h := nexts s :: chain h s]> (hash s))
              (lset_syms (<[nexts s := newsym symb v]> (syms s)) s)) in
  chain k s' = if decide (k = h) then nexts s :: chain h s else chain k s.
Proof.
  cbv zeta. unfold chain at 1. simpl. destruct (decide (k = h)) as [->|]; [by rewrite lookup_insert_eq|].
  by rewrite lookup_insert_ne.
Qed.

Lemma lookup_keeps symb v : in_s 16 v -> lrel keeps (lookup symb v).
Proof.
  intros Hv s y s' H [H1 H2 H3]. unfold lookup in H. set (h := symhash symb v) in *. unfold mbind, L_bind, lgets in H.
  destruct (chain_find symb v (chain h s) s) as [r s1| | |] eqn:E; [|done..].
  pose proof (chain_find_state _ _ _ _ _ _ E) as ->. destruct r as [z|]; [injection H as <- <-; by apply keeps_refl|].
  injection H as <- <-. match goal with |- safe s ?t => set (s' := t) end.
  pose proof (fun k => chain_find_new symb v s h k) as Hc. cbv zeta in Hc. fold s' in Hc.
  assert (kept s s') as Hk.
  { intros z x Hz. assert (z < nexts s) by (apply H2; by exists x). simpl. rewrite lookup_insert_ne by lia. by exists x. }
  split; [split|done|done|].
  - intros k z. rewrite Hc. simpl. rewrite lookup_insert_is_Some'. intros Hz.
    destruct (decide (k = h)) as [->|]; [|right; by eapply H1].
    apply elem_of_cons in Hz as [->|Hz]; [by left|right; by eapply H1].
  - intros z. simpl. rewrite lookup_insert_is_Some'. intros [<-|Hz]; [lia|]. apply H2 in Hz. lia.
  - done.
  - intros symb' v' z Hf. unfold found in *. rewrite Hc. destruct (decide _) as [Eh|]; [|by apply (chain_find_kept _ _ _ s)].
    cbn [chain_find]. unfold mbind, L_bind, getsym. simpl. rewrite lookup_insert_eq.
    rewrite bool_decide_false; [rewrite Eh in Hf; by apply (chain_find_kept _ _ _ s)|]. simpl.
    unfold s16. rewrite wraps_id by done. intros [<- <-]. fold h in Hf. by rewrite E in Hf.
Qed.

(** The symbol that [lookup] yields is the one it finds from then on. *)
Lemma lookup_finds symb v s : tab_ok s -> in_s 16 v ->
  exists y s', lookup symb v s = LOk y s' /\ found s' symb v y /\ (found s symb v y -> s' = s).
Proof.
  intros [H1 H2 H3] Hv. unfold lookup. set (h := symhash symb v). unfold mbind, L_bind, lgets.
  assert (exists r, chain_find symb v (chain h s) s = LOk r s) as [r E].
  { pose proof (H1 h) as H. induction (chain h s) as [|z l IH]; [by eexists|]. cbn [chain_find].
    destruct (H z ltac:(by left)) as [x Hx]. unfold mbind, L_bind, getsym. rewrite Hx.
    case_bool_decide; [by eexists|]. apply IH. intros w Hw. apply H. by right. }
  rewrite E. destruct r as [z|].
  - exists z, s. by split_and!.
  - eexists _, _. split; [reflexivity|]. split.
    + unfold found. fold h. rewrite (chain_find_new symb v s h h), decide_True by done.
      cbn [chain_find]. unfold mbind, L_bind, getsym. simpl. rewrite lookup_insert_eq.
      rewrite bool_decide_true; [done|]. simpl. unfold s16. by rewrite wraps_id.
    + unfold found. fold h. by rewrite E.
Qed.

Lemma lookup_found symb v s y : found s symb v y -> lookup symb v s = LOk y s.
Proof. unfold found, lookup. intros H. unfold mbind, L_bind, lgets. by rewrite H. Qed.

Lemma version_keeps {A} (k : Z -> L A) :
  (forall v, in_s 16 v -> lrel keeps (k v)) -> lrel keeps (v ← lgets version; k v).
Proof. intros H s a s' E Ht. exact (H (version s) (t_version _ Ht) s a s' E Ht). Qed.

Lemma zero_short : in_s 16 0.
Proof. unfold in_s. lia. Qed.

(** ** Preservation, by the structure of the code *)

#[export] Hint Resolve updp_keeps geta_keeps upda_keeps get_block_keeps new_auto_keeps new_block_keeps
  new_prog_keeps prg_keeps diag_keeps new_sym_keeps zero_short lookup_keeps : vl.

Ltac kstep :=
  cbv zeta;
  lazymatch goal with
  | |- forall _, _ => intros
  | |- lrel _ (mbind _ (lgets version)) => apply version_keeps
  | |- lrel _ (mbind _ _) => apply lrel_bind; [apply _|..]
  | |- lrel _ lskip => apply lrel_ret; apply _
  | |- lrel _ (updsym _ _) => apply updsym_keeps; done
  | |- lrel _ (lmodify _) => by apply modify_keeps
  | |- lrel _ (match ?x with _ => _ end) => destruct x
  | |- lrel _ (let '(_, _) := ?x in _) => destruct x
  | |- lrel _ _ => solve [eauto 3 with vl typeclass_instances]
  end.
Ltac kgo := repeat kstep.

Lemma ld_symbol_keeps v name : lrel keeps (ld_symbol v name).
Proof. unfold ld_symbol. apply version_keeps. intros w Hw. destruct (v =? D_STATIC); kgo. Qed.

Lemma find_auto_keeps f u s i : lrel keeps (find_auto f u s i).
Proof. revert u. induction f as [|f IH]; intros u; cbn [find_auto]; destruct u; kgo. Qed.

Lemma note_auto_keeps s i l : lrel keeps (note_auto s i l).
Proof. unfold note_auto. kgo; apply find_auto_keeps. Qed.

Lemma histtoauto_loop_keeps f : lrel keeps (histtoauto_loop f).
Proof. induction f as [|f IH]; cbn [histtoauto_loop]; kgo. Qed.

Lemma histtoauto_keeps : lrel keeps histtoauto.
Proof. unfold histtoauto. kgo; apply histtoauto_loop_keeps. Qed.

Lemma nopout_keeps p : lrel keeps (nopout p).
Proof. apply updp_keeps. Qed.

Lemma append_prog_keeps p : lrel keeps (append_prog p).
Proof. unfold append_prog. kgo. Qed.

Lemma append_data_keeps p : lrel keeps (append_data p).
Proof. unfold append_data. kgo. Qed.
#[export] Hint Resolve ld_symbol_keeps note_auto_keeps histtoauto_keeps nopout_keeps append_prog_keeps
  append_data_keeps : vl.

Lemma casedef_keeps d p : lrel keeps (casedef d p).
Proof. unfold casedef. kgo. Qed.

Lemma end_autos_keeps : lrel keeps end_autos.
Proof. unfold end_autos. kgo. Qed.

Lemma float_literal_keeps p n l : lrel keeps (float_literal p n l).
Proof. unfold float_literal. kgo. Qed.

Lemma get_ieee_keeps p : lrel keeps (get_ieee p).
Proof. unfold get_ieee. kgo. Qed.

Lemma ieeedtof_keeps l h : lrel keeps (ieeedtof l h).
Proof. unfold ieeedtof. kgo. Qed.

Lemma ld_globl_keeps p : lrel keeps (ld_globl p).
Proof. unfold ld_globl. kgo. Qed.

Lemma init_at_keeps p y z : lrel keeps (init_at p y z).
Proof. unfold init_at. kgo. Qed.
#[export] Hint Resolve casedef_keeps end_autos_keeps float_literal_keeps get_ieee_keeps ieeedtof_keeps
  ld_globl_keeps init_at_keeps : vl.

Lemma ld_dynt_keeps d p : lrel keeps (ld_dynt d p).
Proof. unfold ld_dynt. kgo. Qed.

Lemma ld_init_keeps d p : lrel keeps (ld_init d p).
Proof. unfold ld_init. kgo. Qed.

Lemma ld_text_keeps d p : lrel keeps (ld_text d p).
Proof. unfold ld_text. kgo. Qed.
#[export] Hint Resolve ld_dynt_keeps ld_init_keeps ld_text_keeps : vl.

Lemma ld_cases_keeps c d pid p : lrel keeps (ld_cases c d pid p).
Proof. unfold ld_cases. kgo. Qed.
