(* ===== verification/VlDat.v ===== *)
(** The data segment: [nuxiinit] and [find1] of [obj.c], [datblk] of [asm.c], and the loops of
    [asmb] that write the segment block by block. *)
From S2P Require Import Prelude CInt VlObj VlOptab VlSym VlSpan VlAsm VlPass VlData VlLd.

(** ** The order of bytes *)

(** The tables that say which byte of a number of the host comes first, second and so on in
    the output. *)
Record Nuxi := mkNuxi { inuxi1 : list Z; inuxi2 : list Z; inuxi4 : list Z; fnuxi4 : list Z; fnuxi8 : list Z }.

Definition nuxi0 : Nuxi := mkNuxi [0] [0; 0] [0; 0; 0; 0] [0; 0; 0; 0] [0; 0; 0; 0; 0; 0; 0; 0].

Section Host.
(** The order of bytes of the machine the linker runs on. *)
Context (host_le : bool).

(** The memory of an [int32]. *)
Definition host_int (v : Z) : list Z := if host_le then le_bytes v else be_bytes v.

(** The loop of [find1], and 0 where there is no such byte. *)
Fixpoint index (l : list Z) (c i : Z) : Z :=
  match l with [] => 0 | b :: l => if b =? c then i else index l c (i + 1) end.

Definition find1 (l c : Z) : Z := index (map s8 (host_int l)) c 0.

(** [a[i] = c] for an index of the array *)
Definition put_at (i c : Z) (a : list Z) : list Z := <[Z.to_nat i := c]> a.

Definition nuxi_step (little : bool) (n : Nuxi) (i : Z) : Nuxi :=
  if little then
    let c := find1 0x04030201 (i + 1) in
    mkNuxi (if i <? 1 then put_at i c (inuxi1 n) else inuxi1 n)
      (if i <? 2 then put_at i c (inuxi2 n) else inuxi2 n)
      (put_at i c (inuxi4 n)) (put_at i c (fnuxi4 n))
      (put_at (i + 4) (c + 4) (put_at i c (fnuxi8 n)))
  else
    let c := find1 0x01020304 (i + 1) in
    mkNuxi (if 3 <=? i then put_at (i - 3) c (inuxi1 n) else inuxi1 n)
      (if 2 <=? i then put_at (i - 2) c (inuxi2 n) else inuxi2 n)
      (put_at i c (inuxi4 n)) (fnuxi4 n)
      (put_at (i + 4) c (put_at i (c + 4) (fnuxi8 n))).

Definition nuxiinit (little : bool) : Nuxi := fold_left (nuxi_step little) [0; 1; 2; 3] nuxi0.

(** ** One datum *)

(** [cast[nuxi[i]]], where [cast] points to an object of the bytes [x]. *)
Definition cast (x nuxi : list Z) (i : Z) : option Z :=
  j ← nuxi !! Z.to_nat i; x !! Z.to_nat j.

(** [d]: the constant, at the address of its symbol. *)
Definition datum_const (a : Adr) : L Z :=
  match a_sym a with
  | None => mret (a_offset a)
  | Some y =>
      x ← getsym y;
      let t := s_type x in
      if (t =? STEXT) || (t =? SLEAF) || (t =? SSTRING) then mret (s32 (a_offset a + s_value x))
      else if (t =? SDATA) || (t =? SBSS) then
        b ← lgets INITDAT; mret (s32 (a_offset a + (s_value x + b)))
      else mret (a_offset a)
  end.

(** [switch(p->to.type)]: the bytes of the datum, of [c] bytes, by their index. *)
Definition datum_value (nx : Nuxi) (p : Prog) (c i : Z) : L (option (Z -> option Z)) :=
  let t := a_type (to p) in
  if t =? D_FCONST then
    bs ← get_block (a_offset (to p));
    match ieee_words bs with
    | None => lfault
    | Some (l, h) =>
        if c =? 8 then mret (Some (cast (host_int l ++ host_int h) (fnuxi8 nx)))
        else fl ← ieeedtof l h; mret (Some (cast (host_int fl) (fnuxi8 nx)))
    end
  else if t =? D_SCONST then
    bs ← get_block (a_offset (to p)); mret (Some (fun i => bs !! Z.to_nat i))
  else if t =? D_CONST then
    d ← datum_const (to p);
    if c =? 1 then mret (Some (cast (host_int d) (inuxi1 nx)))
    else if c =? 2 then mret (Some (cast (host_int d) (inuxi2 nx)))
    else if c =? 4 then mret (Some (cast (host_int d) (inuxi4 nx)))
    else
      q ← lgets curp;
      diag "bad nuxi %d %d\n%P" [c; i; default 0 q];;
      mret None
  else diag "unknown mode in initialization\n%P" [];; mret None.

(** [for(; i<c; i++) { buf.dbuf[l] = ...; l++; }], [k] times; [None]: outside of an object. *)
Fixpoint fill (k : nat) (byte : Z -> option Z) (i l : Z) (dbuf : list Z) : option (list Z) :=
  match k with
  | O => Some dbuf
  | S k =>
      match byte i, dbuf !! Z.to_nat l with
      | Some b, Some _ => fill k byte (i + 1) (l + 1) (<[Z.to_nat l := b]> dbuf)
      | _, _ => None
      end
  end.

(** [for(j=l+(c-i)-1; j>=l; j--) if(buf.dbuf[j])] *)
Definition occupied (l k : Z) (dbuf : list Z) : bool :=
  existsb (fun b => negb (b =? 0)) (take (Z.to_nat k) (drop (Z.to_nat l) dbuf)).

Section Block.
Context (nx : Nuxi) (s n : Z) (str : bool).

(** The datum [pid], into the block of the [n] bytes from [s] on; of a datum that starts in it
    and ends behind it, the memory behind the block takes up to 100 bytes. *)
Definition dat_step (pid : Z) (dbuf : list Z) : L (list Z) :=
  lmodify (lset_curp (Some pid));;
  p ← getp pid;
  y ← datum_sym p;
  x ← getsym y;
  if negb (Bool.eqb str (s_type x =? SSTRING)) then mret dbuf
  else
    let l := s32 (s32 (s_value x + a_offset (from p)) - s) in
    let c := p_reg p in
    if (l <? 0) && (l + c <=? 0) then mret dbuf
    else
      let i := if l <? 0 then - l else 0 in
      let l := if l <? 0 then 0 else l in
      if n <=? l then mret dbuf
      else
        (if negb (p_as p =? AINIT) && negb (p_as p =? ADYNT) && occupied l (c - i) dbuf then
           diag "multiple initialization" []
         else lskip);;
        v ← datum_value nx p c i;
        match v with
        | None => mret dbuf
        | Some byte =>
            match fill (Z.to_nat (c - i)) byte i l dbuf with
            | Some dbuf => mret dbuf
            | None => lfault
            end
        end.

Fixpoint dat_loop (fuel : nat) (p : option Z) (dbuf : list Z) : L (list Z) :=
  match p with
  | None => mret dbuf
  | Some pid =>
      match fuel with
      | O => ldiverge
      | S f => dbuf ← dat_step pid dbuf; x ← getp pid; dat_loop f (link x) dbuf
      end
  end.

(** The block is written past the output buffer, whose memory it shares. *)
Definition datblk (fuel : nat) : L unit :=
  d ← lgets datap;
  dbuf ← dat_loop fuel d (replicate (Z.to_nat (n + 100)) 0);
  lmodify (fun st => lset_cbuf (take (length (cbuf st)) dbuf)
                       (lset_written (written st ++ take (Z.to_nat n) dbuf) st)).
End Block.

(** ** The loops of asmb *)

(** [sizeof(buf)-100] *)
Definition DATBLK : Z := 2 * MAXIO - 100.

(** [for(; t < end; t += sizeof(buf)-100)], the block at [t] being that of the address [t]. *)
Fixpoint datblks (rounds : nat) (nx : Nuxi) (str : bool) (fuel : nat) (t e : Z) : L unit :=
  if e <=? t then lskip
  else
    match rounds with
    | O => ldiverge
    | S r =>
        datblk nx t (if DATBLK <? e - t then DATBLK else e - t) str fuel;;
        datblks r nx str fuel (s32 (t + DATBLK)) e
    end.
End Host.
