(* ===== verification/VlDatThm.v ===== *)
(** The data segment in the output: the data statements, each at its address and in the order
    of bytes of the target, whatever blocks the segment is written in and whatever machine the
    linker runs on. *)
From S2P Require Import Prelude CInt VlObj VlOptab VlSym VlSpan VlAsm VlPass VlData VlLd VlDat VlLib VlWp VlDemo.

(** ** What the segment holds *)

(** A datum: whether it goes to the text segment, its address and its bytes. *)
Record Datum := mkDatum { d_str : bool; d_at : Z; d_bytes : list Z }.

Definition d_len (d : Datum) : Z := Z.of_nat (length (d_bytes d)).
Definition covers (a : Z) (d : Datum) : bool := (d_at d <=? a) && (a <? d_at d + d_len d).
Definition d_byte (a : Z) (d : Datum) : Z := nth (Z.to_nat (a - d_at d)) (d_bytes d) 0.

(** The byte at [a]: that of the datum there, or else zero. *)
Definition over (ds : list Datum) (f : Z -> Z) (a : Z) : Z :=
  match find (covers a) ds with Some d => d_byte a d | None => f a end.
Definition image (ds : list Datum) : Z -> Z := over ds (fun _ => 0).

(** No byte is given twice. *)
Definition apart (d e : Datum) : Prop := d_at d + d_len d <= d_at e \/ d_at e + d_len e <= d_at d.
Fixpoint disjoint (ds : list Datum) : Prop :=
  match ds with [] => True | d :: ds => Forall (apart d) ds /\ disjoint ds end.

(** An integer of [c] bytes, in the order of the target. *)
Definition int_bytes (le : bool) (c : nat) (v : Z) : list Z :=
  if le then take c (le_bytes v) else drop (4 - c) (be_bytes v).

(** The value of a datum of [c] bytes: a number, or the address of a symbol; a string; the words of
    a floating-point number. *)
Inductive value_of (s : vl) (a : Adr) : Z -> list Z -> Prop :=
  | value_const c d s' :
      a_type a = D_CONST -> c = 1 \/ c = 2 \/ c = 4 -> datum_const a s = LOk d s' ->
      value_of s a c (int_bytes (little s) (Z.to_nat c) d)
  | value_string c bs :
      a_type a = D_SCONST -> heap s !! a_offset a = Some bs -> 0 <= c <= Z.of_nat (length bs) ->
      value_of s a c (take (Z.to_nat c) bs)
  | value_double bs l h :
      a_type a = D_FCONST -> heap s !! a_offset a = Some bs -> ieee_words bs = Some (l, h) ->
      value_of s a 8 (if little s then le_bytes l ++ le_bytes h else be_bytes h ++ be_bytes l)
  | value_float bs l h v :
      a_type a = D_FCONST -> heap s !! a_offset a = Some bs -> ieee_words bs = Some (l, h) ->
      little s = true -> (forall s, ieeedtof l h s = LOk v s) -> value_of s a 4 (le_bytes v).

(** The data statement [p] stands for the datum [d]. *)
Record datum_of (s : vl) (p : Prog) (d : Datum) : Prop := {
  do_sym : exists y x, a_sym (from p) = Some y /\ syms s !! y = Some x
             /\ d_str d = (s_type x =? SSTRING) /\ d_at d = s_value x + a_offset (from p);
  do_at : 0 <= d_at d /\ d_at d + d_len d < 2 ^ 31;
  do_len : p_reg p = d_len d /\ 0 < d_len d <= 100;
  do_value : value_of s (to p) (d_len d) (d_bytes d) }.

(** ** The order of bytes *)

Lemma nuxi_little host : nuxiinit host true
  = if host then mkNuxi [0] [0; 1] [0; 1; 2; 3] [0; 1; 2; 3] [0; 1; 2; 3; 4; 5; 6; 7]
    else mkNuxi [3] [3; 2] [3; 2; 1; 0] [3; 2; 1; 0] [3; 2; 1; 0; 7; 6; 5; 4].
Proof. by destruct host; vm_compute. Qed.

Lemma nuxi_big host : nuxiinit host false
  = if host then mkNuxi [0] [1; 0] [3; 2; 1; 0] [0; 0; 0; 0] [7; 6; 5; 4; 3; 2; 1; 0]
    else mkNuxi [3] [2; 3] [0; 1; 2; 3] [0; 0; 0; 0] [4; 5; 6; 7; 0; 1; 2; 3].
Proof. by destruct host; vm_compute. Qed.

Definition nuxi_of (c : Z) (n : Nuxi) : list Z := if c =? 1 then inuxi1 n else if c =? 2 then inuxi2 n else inuxi4 n.

(** Whatever machine the linker runs on, the bytes are those of the target. *)
Lemma cast_int host le c d i : c = 1 \/ c = 2 \/ c = 4 -> 0 <= i < c ->
  cast (host_int host d) (nuxi_of c (nuxiinit host le)) i = int_bytes le (Z.to_nat c) d !! Z.to_nat i.
Proof.
  intros Hc Hi. destruct le; [rewrite nuxi_little|rewrite nuxi_big];
    (destruct Hc as [->|[->| ->]]; [assert (i = 0) as -> by lia; by destruct host|..]).
  1,3: assert (i = 0 \/ i = 1) as [->| ->] by lia; by destruct host.
  all: assert (i = 0 \/ i = 1 \/ i = 2 \/ i = 3) as [->|[->|[->| ->]]] by lia; by destruct host.
Qed.

Lemma cast_double host le l h i : 0 <= i < 8 ->
  cast (host_int host l ++ host_int host h) (fnuxi8 (nuxiinit host le)) i
  = (if le then le_bytes l ++ le_bytes h else be_bytes h ++ be_bytes l) !! Z.to_nat i.
Proof.
  intros Hi. assert (i ∈ seqZ 0 8) as H by (apply elem_of_seqZ; lia). cbn in H.
  destruct le; [rewrite nuxi_little|rewrite nuxi_big]; repeat (apply elem_of_cons in H as [->|H]; [by destruct host|]);
    by apply not_elem_of_nil in H.
Qed.

Lemma cast_float host v i : 0 <= i < 4 ->
  cast (host_int host v) (fnuxi8 (nuxiinit host true)) i = le_bytes v !! Z.to_nat i.
Proof.
  intros Hi. rewrite nuxi_little. assert (i = 0 \/ i = 1 \/ i = 2 \/ i = 3) as [->|[->|[->| ->]]] by lia; by destruct host.
Qed.

(** In the order of a big-endian target the bytes of a [float] are looked for behind it. *)
Lemma cast_float_big host v i : 0 <= i < 4 -> cast (host_int host v) (fnuxi8 (nuxiinit host false)) i = None.
Proof.
  intros Hi. rewrite nuxi_big. assert (i = 0 \/ i = 1 \/ i = 2 \/ i = 3) as [->|[->|[->| ->]]] by lia; by destruct host.
Qed.

(** ** One block *)

(** The memory of a block is the function [f]. *)
Definition holds (N : Z) (dbuf : list Z) (f : Z -> Z) : Prop :=
  Z.of_nat (length dbuf) = N /\ forall j, 0 <= j < N -> dbuf !! Z.to_nat j = Some (f j).

Lemma holds_ext N dbuf f g : (forall j, 0 <= j < N -> f j = g j) -> holds N dbuf f -> holds N dbuf g.
Proof. intros H [Hl Hf]. split; [done|]. intros j Hj. by rewrite Hf, H. Qed.

Lemma holds_zero N : 0 <= N -> holds N (replicate (Z.to_nat N) 0) (fun _ => 0).
Proof. intros H. split; [rewrite length_replicate; lia|]. intros j Hj. apply lookup_replicate_2. lia. Qed.

Lemma holds_put N dbuf f l b : 0 <= l < N -> holds N dbuf f ->
  holds N (<[Z.to_nat l := b]> dbuf) (fun j => if j =? l then b else f j).
Proof.
  intros Hl [Hn Hf]. split; [by rewrite length_insert|]. intros j Hj. destruct (Z.eqb_spec j l) as [->|Hne].
  - apply list_lookup_insert_eq. lia.
  - rewrite list_lookup_insert_ne by lia. by apply Hf.
Qed.

Lemma fill_holds N k byte b i l dbuf f :
  (forall j, i <= j < i + Z.of_nat k -> byte j = Some (b j)) -> 0 <= l -> l + Z.of_nat k <= N -> holds N dbuf f ->
  exists dbuf', fill k byte i l dbuf = Some dbuf'
    /\ holds N dbuf' (fun j => if (l <=? j) && (j <? l + Z.of_nat k) then b (i + (j - l)) else f j).
Proof.
  revert i l dbuf f. induction k as [|k IH]; intros i l dbuf f Hb Hl HN Hh; cbn [fill].
  { exists dbuf. split; [done|]. eapply holds_ext; [|exact Hh]. intros j Hj.
    destruct (Z.leb_spec l j); cbn [andb]; [|done]. rewrite (proj2 (Z.ltb_ge _ _)) by lia. done. }
  rewrite Hb by lia. rewrite (proj2 Hh l) by lia.
  destruct (IH (i + 1) (l + 1) (<[Z.to_nat l := b i]> dbuf) (fun j => if j =? l then b i else f j)) as (d' & E & H').
  { intros j Hj. apply Hb. lia. }
  { lia. }
  { lia. }
  { apply holds_put; [lia|done]. }
  exists d'. split; [done|]. eapply holds_ext; [|exact H']. intros j Hj. cbv beta.
  destruct (Z.leb_spec (l + 1) j), (Z.leb_spec l j), (Z.ltb_spec j (l + 1 + Z.of_nat k)), (Z.ltb_spec j (l + Z.of_nat (S k)));
    cbn [andb]; try lia; try (f_equal; lia); destruct (Z.eqb_spec j l); try lia; try done; subst; f_equal; lia.
Qed.

Lemma occupied_false N l k dbuf f : 0 <= l -> 0 <= k -> l + k <= N -> holds N dbuf f ->
  (forall j, l <= j < l + k -> f j = 0) -> occupied l k dbuf = false.
Proof.
  intros Hl Hk HN [Hn Hf] Hz. unfold occupied. apply not_true_iff_false. rewrite existsb_exists.
  intros (b & Hb & Hne). apply list_elem_of_In, list_elem_of_lookup in Hb as [j Hj].
  apply lookup_take_Some in Hj as [Hj Hlt]. rewrite lookup_drop in Hj.
  specialize (Hf (l + Z.of_nat j) ltac:(lia)). replace (Z.to_nat (l + Z.of_nat j)) with (Z.to_nat l + j)%nat in Hf by lia.
  rewrite Hj in Hf. injection Hf as ->. rewrite Hz in Hne by lia. done.
Qed.

(** The value, however far the list has been gone through. *)
Lemma datum_const_curp a s d s' q : datum_const a s = LOk d s' ->
  datum_const a (lset_curp q s) = LOk d (lset_curp q s).
Proof.
  unfold datum_const, mbind, L_bind, getsym, lgets. destruct (a_sym a); [|by intros [= <- <-]]. simpl.
  destruct (syms s !! _); [|done]. destruct (_ || _); [by intros [= <- <-]|]. destruct (_ || _); by intros [= <- <-].
Qed.

Lemma datum_value_ok host s p d q i : datum_of s p d ->
  exists byte, datum_value host (nuxiinit host (little s)) p (p_reg p) i (lset_curp q s) = LOk (Some byte) (lset_curp q s)
    /\ forall j, 0 <= j < d_len d -> byte j = d_bytes d !! Z.to_nat j.
Proof.
  intros [_ _ [-> Hlen] Hv]. unfold datum_value, mbind, L_bind, get_block.
  inversion Hv as [c v s' Ht Hc Hd Ec Eb|c bs Ht Hbs Hc Ec Eb|bs l h Ht Hbs Hw Ec Eb|bs l h v Ht Hbs Hw Hle Hfl Ec Eb].
  - rewrite Ht. change (D_CONST =? D_FCONST) with false. change (D_CONST =? D_SCONST) with false.
    change (D_CONST =? D_CONST) with true. cbv beta iota. rewrite (datum_const_curp _ _ _ _ q Hd).
    exists (cast (host_int host v) (nuxi_of (d_len d) (nuxiinit host (little s)))). split.
    + by destruct Hc as [->|[->| ->]].
    + intros j Hj. by apply cast_int.
  - rewrite Ht. change (D_SCONST =? D_FCONST) with false. change (D_SCONST =? D_SCONST) with true. cbv beta iota.
    change (heap (lset_curp q s)) with (heap s). rewrite Hbs.
    eexists. split; [reflexivity|]. intros j Hj. cbv beta. rewrite lookup_take_lt by lia. done.
  - rewrite Ht. change (D_FCONST =? D_FCONST) with true. cbv beta iota.
    change (heap (lset_curp q s)) with (heap s). rewrite Hbs, Hw.
    eexists. split; [reflexivity|]. intros j Hj. apply cast_double. lia.
  - rewrite Ht. change (D_FCONST =? D_FCONST) with true. cbv beta iota.
    change (heap (lset_curp q s)) with (heap s). rewrite Hbs, Hw, Hle.
    change (4 =? 8) with false. cbv beta iota. rewrite Hfl.
    eexists. split; [reflexivity|]. intros j Hj. apply cast_float. lia.
Qed.

Lemma nth_lookup_Some' (l : list Z) n : (n < length l)%nat -> l !! n = Some (nth n l 0).
Proof.
  intros H. destruct (lookup_lt_is_Some_2 l n H) as [x Hx]. rewrite Hx. f_equal.
  symmetry. by apply nth_lookup_Some.
Qed.

Section Block.
Context (host : bool) (s : vl) (t n : Z) (str : bool).

(** The datum has to do with the block. *)
Definition hits (d : Datum) : bool := Bool.eqb str (d_str d) && (t <? d_at d + d_len d) && (d_at d <? t + n).

Lemma find_hits ds f a : t <= a < t + n ->
  over (List.filter hits ds) f a = over (List.filter (fun d => Bool.eqb str (d_str d)) ds) f a.
Proof.
  intros Ha. unfold over. induction ds as [|d ds IH]; [done|]. cbn [List.filter].
  unfold hits at 1. destruct (Bool.eqb str (d_str d)); [|exact IH]. cbn [andb].
  destruct (covers a d) eqn:E.
  - pose proof E as E'. unfold covers in E'. rewrite andb_true_iff, Z.leb_le, Z.ltb_lt in E'.
    rewrite (proj2 (Z.ltb_lt _ _)), (proj2 (Z.ltb_lt _ _)) by lia. cbn. by rewrite E.
  - destruct (_ && _); cbn; rewrite ?E; exact IH.
Qed.

(** One datum, in memory that is still empty where it goes. *)
Lemma dat_step_holds pid p d dbuf f q :
  progs s !! pid = Some p -> datum_of s p d -> 0 <= t -> 0 < n -> t + n < 2 ^ 31 -> holds (n + 100) dbuf f ->
  (hits d = true -> forall a, 0 <= a -> covers (t + a) d = true -> f a = 0) ->
  exists dbuf', dat_step host (nuxiinit host (little s)) t n str pid dbuf (lset_curp q s) = LOk dbuf' (lset_curp (Some pid) s)
    /\ holds (n + 100) dbuf' (fun a => if hits d && covers (t + a) d then d_byte (t + a) d else f a).
Proof.
  intros Hp Hd Ht Hn Htn Hh Hz. pose proof Hd as [(y & x & Hy & Hx & Hstr & Hat) [Ha1 Ha2] [Hreg Hlen] _].
  unfold dat_step, datum_sym. unfold mbind at 1, L_bind at 1, lmodify.
  assert (getp pid (lset_curp (Some pid) (lset_curp q s)) = LOk p (lset_curp (Some pid) s)) as Ep by (unfold getp; simpl; by rewrite Hp).
  rewrite (bind_to _ _ _ _ _ Ep), Hy. unfold mbind at 1, L_bind at 1, mret at 1, L_ret at 1.
  assert (getsym y (lset_curp (Some pid) s) = LOk x (lset_curp (Some pid) s)) as Ex by (unfold getsym; simpl; by rewrite Hx).
  rewrite (bind_to _ _ _ _ _ Ex). rewrite <- Hstr, <- Hat, Hreg.
  unfold hits in *. destruct (Bool.eqb str (d_str d)); cbn [negb andb] in *; [|by exists dbuf].
  assert (s32 (s32 (d_at d) - t) = d_at d - t) as ->.
  { unfold s32. rewrite (wraps_id 32 (d_at d)) by (unfold in_s; lia). apply wraps_id; unfold in_s; lia. }
  destruct (Z.ltb_spec t (d_at d + d_len d)).
  2:{ rewrite (proj2 (Z.ltb_lt _ 0)), (proj2 (Z.leb_le _ 0)) by lia. cbn [andb]. by exists dbuf. }
  rewrite (proj2 (Z.leb_gt (d_at d - t + d_len d) 0)) by lia. rewrite andb_false_r. cbn iota.
  set (i := if d_at d - t <? 0 then _ else 0). set (l := if d_at d - t <? 0 then _ else _).
  assert (0 <= i < d_len d /\ l = Z.max 0 (d_at d - t) /\ i = l - (d_at d - t)) as (Hi & Hl & Hil)
    by (subst i l; destruct (Z.ltb_spec (d_at d - t) 0); lia).
  clearbody i l. cbn [andb] in *. destruct (Z.ltb_spec (d_at d) (t + n)) as [Hhit|Hhit].
  2:{ rewrite (proj2 (Z.leb_le n l)) by lia. by exists dbuf. }
  destruct (Z.leb_spec n l) as [Hn0|Hnl].
  { lia. }
  assert (forall a, l <= a < l + (d_len d - i) <-> 0 <= a /\ covers (t + a) d = true) as Hcov.
  { intros a. unfold covers. rewrite andb_true_iff, Z.leb_le, Z.ltb_lt. lia. }
  rewrite (occupied_false (n + 100) l (d_len d - i) dbuf f); [|lia..|done|].
  2:{ intros j Hj. apply Hcov in Hj as [? ?]. by apply Hz. }
  rewrite andb_false_r. unfold lskip. unfold mbind at 1, L_bind at 1, mret at 1, L_ret at 1.
  destruct (datum_value_ok host s p d (Some pid) i Hd) as (byte & Ev & Hb). rewrite Hreg in Ev.
  rewrite (bind_to _ _ _ _ _ Ev).
  destruct (fill_holds (n + 100) (Z.to_nat (d_len d - i)) byte (fun j => nth (Z.to_nat j) (d_bytes d) 0) i l dbuf f)
    as (dbuf' & Ef & Hf); [|lia..|done|].
  { intros j Hj. rewrite Hb by lia. apply nth_lookup_Some'. unfold d_len in *. lia. }
  rewrite Ef. exists dbuf'. split; [done|]. eapply holds_ext; [|exact Hf]. intros j Hj. cbv beta. cbn [andb].
  destruct (covers (t + j) d) eqn:Ec.
  - assert (l <= j < l + (d_len d - i)) as Hj' by (apply Hcov; split; [lia|done]).
    rewrite (proj2 (Z.leb_le _ _)), (proj2 (Z.ltb_lt _ _)) by lia. unfold d_byte. cbn [andb]. f_equal. f_equal. lia.
  - destruct ((l <=? j) && (j <? l + Z.of_nat (Z.to_nat (d_len d - i)))) eqn:E; [|done].
    rewrite andb_true_iff, Z.leb_le, Z.ltb_lt in E.
    assert (l <= j < l + (d_len d - i)) as Hj' by lia. apply Hcov in Hj' as [_ Hj']. congruence.
Qed.

Lemma disjoint_hits ds : disjoint (List.filter (fun d => Bool.eqb str (d_str d)) ds) -> disjoint (List.filter hits ds).
Proof.
  induction ds as [|d ds IH]; [done|]. cbn [List.filter]. unfold hits at 1.
  destruct (Bool.eqb str (d_str d)); [|exact IH]. cbn [andb]. intros [Hd H].
  destruct (_ && _); [|by apply IH]. split; [|by apply IH].
  rewrite list.Forall_forall in Hd |- *. intros e He. apply Hd. apply list_elem_of_In, filter_In in He as [He Hh].
  apply list_elem_of_In, filter_In. split; [done|]. unfold hits in Hh. by rewrite !andb_true_iff in Hh; destruct Hh as [[? _] _].
Qed.

(** The data statement number [pid] of the program. *)
Definition stated (pid : Z) (d : Datum) : Prop := exists p, progs s !! pid = Some p /\ datum_of s p d.

Lemma dat_loop_holds fuel p l ds dbuf f q :
  linked (progs s) p l -> Forall2 stated l ds -> (length l <= fuel)%nat ->
  0 <= t -> 0 < n -> t + n < 2 ^ 31 -> disjoint (List.filter hits ds) -> holds (n + 100) dbuf f ->
  Forall (fun d => forall a, 0 <= a -> covers (t + a) d = true -> f a = 0) (List.filter hits ds) ->
  exists dbuf' q', dat_loop host (nuxiinit host (little s)) t n str fuel p dbuf (lset_curp q s) = LOk dbuf' (lset_curp q' s)
    /\ holds (n + 100) dbuf' (fun a => over (List.filter hits ds) (fun b => f (b - t)) (t + a)).
Proof.
  intros Hl Hs Hf Ht Hn Htn. revert p l ds dbuf f q Hl Hs Hf.
  induction fuel as [|fuel IH]; intros p l ds dbuf f q Hl Hs Hf Hd Hh Hz.
  1: { destruct l; [|simpl in Hf; lia]. inversion Hs; subst. simpl in Hl. subst p.
       exists dbuf, q. split; [done|]. eapply holds_ext; [|exact Hh]. intros j _. unfold over. cbn. f_equal. lia. }
  destruct l as [|pid l]; inversion Hs as [|? d ? ds' Hpd Hs']; subst.
  { simpl in Hl. subst p. exists dbuf, q. split; [done|]. eapply holds_ext; [|exact Hh]. intros j _. unfold over. cbn. f_equal. lia. }
  destruct Hl as (-> & pr & Hpr & Hl). destruct Hpd as (pr' & Hpr' & Hdat). rewrite Hpr in Hpr'. injection Hpr' as <-.
  destruct (dat_step_holds pid pr d dbuf f q Hpr Hdat Ht Hn Htn Hh) as (dbuf1 & E1 & H1).
  { intros Hhit. cbn [List.filter] in Hz. rewrite Hhit in Hz. by apply list.Forall_cons in Hz as [Hz _]. }
  set (f1 := fun a => if hits d && covers (t + a) d then d_byte (t + a) d else f a) in *.
  destruct (IH (link pr) l ds' dbuf1 f1 (Some pid) Hl Hs') as (dbuf' & q' & E & H); [simpl in Hf; lia| |done| |].
  { cbn [List.filter] in Hd. destruct (hits d); [apply Hd|exact Hd]. }
  { cbn [List.filter] in Hd, Hz. apply list.Forall_forall. intros e He a Ha Hc. unfold f1.
    destruct (hits d); cbn [andb].
    - destruct Hd as [Hap _]. rewrite list.Forall_forall in Hap. specialize (Hap e He).
      apply list.Forall_cons in Hz as [_ Hz]. rewrite list.Forall_forall in Hz.
      destruct (covers (t + a) d) eqn:Ec; [|by apply (Hz e He)].
      exfalso. unfold covers, apart in *. rewrite andb_true_iff, Z.leb_le, Z.ltb_lt in *. lia.
    - rewrite list.Forall_forall in Hz. by apply (Hz e He). }
  exists dbuf', q'. split.
  - cbn [dat_loop]. rewrite (bind_to _ _ _ _ _ E1).
    assert (getp pid (lset_curp (Some pid) s) = LOk pr (lset_curp (Some pid) s)) as Ep by (unfold getp; simpl; by rewrite Hpr).
    by rewrite (bind_to _ _ _ _ _ Ep).
  - eapply holds_ext; [|exact H]. intros j Hj. cbv beta. cbn [List.filter]. unfold over at 1, f1.
    replace (t + (t + j - t)) with (t + j) by lia. destruct (hits d) eqn:Hhit; cbn [andb]; [|done].
    unfold over at 1. cbn [find]. destruct (covers (t + j) d) eqn:Ec; [|done].
    destruct (find (covers (t + j)) (List.filter hits ds')) as [e|] eqn:Ee; [|done].
    exfalso. cbn [List.filter] in Hd. rewrite Hhit in Hd. destruct Hd as [Hap _]. rewrite list.Forall_forall in Hap.
    apply find_some in Ee as [He Hc]. apply list_elem_of_In in He. specialize (Hap e He).
    unfold covers, apart in *. rewrite andb_true_iff, Z.leb_le, Z.ltb_lt in *. lia.
Qed.
End Block.

(** ** The segment *)

(** The bytes are written; of the rest only [curp] changes. *)
Definition wrote_data (bs : list Z) (s s' : vl) : Prop := exists q, s' = lset_written (written s ++ bs) (lset_curp q s).

Lemma wrote_data_trans bs bs' s1 s2 s3 : wrote_data bs s1 s2 -> wrote_data bs' s2 s3 -> wrote_data (bs ++ bs') s1 s3.
Proof. intros [q ->] [q' ->]. exists q'. simpl. by rewrite app_assoc. Qed.

Lemma value_of_wrote bs s s' a c v : wrote_data bs s s' -> value_of s a c v -> value_of s' a c v.
Proof.
  intros [q ->] H. inversion H as [? ? s0 Ht Hc Hd|? ? Ht Hb|? ? ? Ht Hb Hw|? ? ? ? Ht Hb Hw Hle]; subst.
  - apply (value_const (lset_written _ (lset_curp q s)) a c d (lset_written (written s ++ bs) (lset_curp q s))); [done|done|].
    revert Hd. unfold datum_const, mbind, L_bind, getsym, lgets. destruct (a_sym a); [|by intros [= <- <-]]. simpl.
    destruct (syms s !! _); [|done]. destruct (_ || _); [by intros [= <- <-]|]. destruct (_ || _); by intros [= <- <-].
  - by apply value_string.
  - by apply (value_double (lset_written _ (lset_curp q s)) a bs0).
  - by apply (value_float (lset_written _ (lset_curp q s)) a bs0 l h).
Qed.

Lemma stated_wrote bs s s' pid d : wrote_data bs s s' -> stated s pid d -> stated s' pid d.
Proof.
  intros Hw (p & Hp & [H1 H2 H3 H4]). exists p. pose proof (value_of_wrote _ _ _ _ _ _ Hw H4) as H4'.
  destruct Hw as [q ->]. by split; [|split].
Qed.

(** The data statements of the program, of the text segment or not. *)
Record data_ok (str : bool) (s : vl) (l : list Z) (ds : list Datum) : Prop := {
  da_linked : linked (progs s) (datap s) l;
  da_stated : Forall2 (stated s) l ds;
  da_disjoint : disjoint (List.filter (fun d => Bool.eqb str (d_str d)) ds);
  da_flushed : cbuf s = [] }.

Lemma data_ok_wrote bs str s s' l ds : wrote_data bs s s' -> data_ok str s l ds -> data_ok str s' l ds.
Proof.
  intros Hw [H1 H2 H3 H4]. split; [by destruct Hw as [q ->]| |done|by destruct Hw as [q ->]].
  clear - Hw H2. induction H2; constructor; [by eapply stated_wrote|done].
Qed.

(** The bytes from [t] on. *)
Definition image_at (str : bool) (ds : list Datum) (t n : Z) : list Z :=
  map (image (List.filter (fun d => Bool.eqb str (d_str d)) ds)) (seqZ t n).

Lemma datblk_writes host t n str fuel s l ds :
  data_ok str s l ds -> (length l <= fuel)%nat -> 0 <= t -> 0 < n -> t + n < 2 ^ 31 ->
  exists s', datblk host (nuxiinit host (little s)) t n str fuel s = LOk tt s' /\ wrote_data (image_at str ds t n) s s'.
Proof.
  intros [Hl Hs Hd Hc] Hf Ht Hn Htn.
  destruct (dat_loop_holds host s t n str fuel (datap s) l ds (replicate (Z.to_nat (n + 100)) 0) (fun _ => 0) (curp s))
    as (dbuf & q & E & [Hlen H]); try done.
  { by apply disjoint_hits. }
  { apply holds_zero. lia. }
  { by apply list.Forall_forall. }
  assert (lset_curp (curp s) s = s) as Es by (by destruct s). rewrite Es in E.
  unfold datblk. unfold mbind at 1, L_bind at 1, lgets at 1. rewrite (bind_to _ _ _ _ _ E).
  eexists. split; [reflexivity|]. exists q. simpl. rewrite Hc. cbn [length take].
  replace (take (Z.to_nat n) dbuf) with (image_at str ds t n); [destruct s; simpl in *; by subst|].
  apply list_eq. intros i. unfold image_at. rewrite list_lookup_fmap.
  destruct (decide (i < Z.to_nat n)%nat) as [Hi|Hi].
  - rewrite lookup_take_lt by done. rewrite lookup_seqZ_lt by lia. specialize (H (Z.of_nat i) ltac:(lia)).
    rewrite Nat2Z.id in H. rewrite H. simpl. f_equal. symmetry. apply find_hits. lia.
  - rewrite lookup_take_ge by lia. by rewrite lookup_seqZ_ge by lia.
Qed.

Lemma image_at_app str ds t n m : 0 <= n -> 0 <= m -> image_at str ds t (n + m) = image_at str ds t n ++ image_at str ds (t + n) m.
Proof. intros Hn Hm. unfold image_at. by rewrite seqZ_app, map_app by lia. Qed.


(** A [float] of a big-endian target: what is written is read from behind the variable that
    holds it. *)
Lemma datum_float_faults host nx_little t n str p y x bs l h v q s dbuf :
  nx_little = false -> progs s !! q = Some p -> a_sym (from p) = Some y -> syms s !! y = Some x ->
  str = (s_type x =? SSTRING) -> p_reg p = 4 ->
  occupied (s_value x + a_offset (from p) - t) 4 dbuf = false ->
  0 <= s_value x + a_offset (from p) - t < n -> in_s 32 (s_value x + a_offset (from p)) -> n < 2 ^ 31 ->
  a_type (to p) = D_FCONST -> heap s !! a_offset (to p) = Some bs -> ieee_words bs = Some (l, h) ->
  (forall s, ieeedtof l h s = LOk v s) ->
  dat_step host (nuxiinit host nx_little) t n str q dbuf s = LFault.
Proof.
  intros -> Hp Hy Hx -> Hc Hocc Hl H32 Hn Ht Hbs Hw Hfl. pose proof (cast_float_big host v 0 ltac:(lia)) as Hnone.
  set (nx := nuxiinit host false) in *. clearbody nx. unfold dat_step, datum_sym, datum_value, get_block, getp, getsym, mbind, L_bind, lmodify.
  simpl. rewrite Hp, Hy. simpl. rewrite Hx, eqb_reflx, Hc. cbn [negb].
  unfold s32. rewrite (wraps_id 32 (s_value x + a_offset (from p))) by done. rewrite wraps_id by (unfold in_s; lia).
  rewrite (proj2 (Z.ltb_ge _ 0)), (proj2 (Z.leb_gt n _)) by lia. cbn [andb].
  rewrite Z.sub_0_r, Hocc, andb_false_r, Ht. change (D_FCONST =? D_FCONST) with true. cbv beta iota.
  cbn [lskip mret L_ret]. cbv beta iota. change (4 =? 8) with false. cbv beta iota. cbn [heap lset_curp].
  rewrite Hbs, Hw, Hfl. change (Z.to_nat 4) with 4%nat. cbn [fill]. unfold mret, L_ret. cbv beta iota. by rewrite Hnone.
Qed.

(** ** A data segment *)

(** [DATA x+4(SB)/4, $0x01020304; DATA y(SB)/2, $7; DATA x(SB)/4, $y+1(SB)], with [x] at 0 and
    [y] at 16382, in the list last things first. *)
Definition data_ext (y o : Z) : Adr := mkAdr o (Some y) D_OREG NREG D_EXTERN 0.

Definition data_demo : vl :=
  lset_syms {[0 := mkSym [120] SDATA 0 0 0 0; 1 := mkSym [121] SDATA 0 0 0 16382]}
    (lset_datap (Some 2)
      (linker
        {[2 := ins ADATA (data_ext 0 0) (mkAdr 1 (Some 1) D_CONST NREG D_EXTERN 0) 4 None (Some 1);
          1 := ins ADATA (data_ext 1 0) (acon 7) 2 None (Some 0);
          0 := ins ADATA (data_ext 0 4) (acon 0x01020304) 4 None None]} 3)).

Definition data_demo_list : list Datum :=
  [mkDatum false 0 (be_bytes (1 + (16382 + INITDAT data_demo))); mkDatum false 16382 [0; 7]; mkDatum false 4 [1; 2; 3; 4]].

Lemma data_demo_stated pid p d :
  progs data_demo !! pid = Some p ->
  (exists y x, a_sym (from p) = Some y /\ syms data_demo !! y = Some x
     /\ d_str d = (s_type x =? SSTRING) /\ d_at d = s_value x + a_offset (from p)) ->
  (0 <= d_at d /\ d_at d + d_len d < 2 ^ 31) -> (p_reg p = d_len d /\ 0 < d_len d <= 100) ->
  a_type (to p) = D_CONST /\ (d_len d = 1 \/ d_len d = 2 \/ d_len d = 4) ->
  match datum_const (to p) data_demo with
  | LOk v _ => int_bytes (little data_demo) (Z.to_nat (d_len d)) v = d_bytes d
  | _ => False
  end -> stated data_demo pid d.
Proof.
  intros Hp H1 H2 H3 [Ht Hc] Hv. destruct (datum_const (to p) data_demo) as [v s'| | |] eqn:E; [|done..]. exists p. split; [done|]. split; try done.
  rewrite <- Hv. by apply (value_const data_demo (to p) (d_len d) v s').
Qed.

Lemma data_demo_ok : data_ok false data_demo [2; 1; 0] data_demo_list.
Proof.
  split; [| | |done].
  - repeat (split; [done|]; eexists; split; [reflexivity|]). done.
  - constructor; [|constructor; [|constructor; [|constructor]]]; (eapply data_demo_stated; [reflexivity|..]).
    all: try (do 2 eexists; split_and!; reflexivity); try done; try (split; [done|first [by left|right; by left|right; by right]]); vm_compute; reflexivity.
  - assert (forall d e, (d_at d + d_len d <=? d_at e) = true -> apart d e) as Hl by (unfold apart; intros; left; by apply Z.leb_le).
    assert (forall d e, (d_at e + d_len e <=? d_at d) = true -> apart d e) as Hr by (unfold apart; intros; right; by apply Z.leb_le).
    unfold data_demo_list. cbn [List.filter Bool.eqb d_str disjoint].
    repeat first [apply Forall_nil_2|apply Forall_cons_2; [first [by apply Hl|by apply Hr]|]|split]; done.
Qed.


Example data_demo_bytes :
  map (image (List.filter (fun d => Bool.eqb false (d_str d)) data_demo_list)) [0; 1; 2; 3; 4; 7; 8; 16383]
  = [0; 0; 0x3f; 0xff; 1; 4; 0; 7].
Proof. vm_compute. reflexivity. Qed.
