(* ===== verification/VaOut.v ===== *)
(** The output of the assembler [va]: [zname], [zaddr] and [outcode] of [lex.c], with
    [ieeedtod] of [cck/lexbody]. *)
From S2P Require Import Prelude CInt VlObj VlLd.

(** ** Data of the assembler *)

(** An operand. [dval] is the 64 bits of a [double] of the host. *)
Record Gen := mkGen {
  g_sym : option Z; g_offset : Z; g_type : Z; g_reg : Z; g_name : Z; g_dval : Z; g_sval : list Z }.

Definition nullgen : Gen := mkGen None 0 D_NONE NREG D_NONE 0 (replicate 8 0).

(** A symbol, of which the output uses the name and [sym], the number it has in the object file. *)
Record VSym := mkVSym { v_name : list Z; v_sym : Z }.

(** The symbols, the numbers given out ([h]), the next number ([sym]), the bytes written, and
    [lineno], [nosched], [pc] and [pass]. *)
Record va := mkva {
  vsyms : gmap Z VSym; vh : list (option Z * Z); sym : Z; obuf : list Z; lineno : Z; nosched : Z;
  vpc : Z; pass : Z }.

Definition vset_obuf (v : list Z) (x : va) : va := mkva (vsyms x) (vh x) (sym x) v (lineno x) (nosched x) (vpc x) (pass x).
Definition vset_pc (v : Z) (x : va) : va := mkva (vsyms x) (vh x) (sym x) (obuf x) (lineno x) (nosched x) v (pass x).
Definition vset_src (l n : Z) (x : va) : va := mkva (vsyms x) (vh x) (sym x) (obuf x) l n (vpc x) (pass x).

(** [pinit]: no symbol has a number. *)
Definition pinit_syms (x : va) : va :=
  mkva (vsyms x) (replicate (Z.to_nat NSYM) (None, 0)) 1 (obuf x) 1 (nosched x) 0 (pass x).

(** [Bputc], for each *)
Definition puts (bs : list Z) (x : va) : va := vset_obuf (obuf x ++ map u8 bs) x.

(** [Bputc(l); Bputc(l>>8); Bputc(l>>16); Bputc(l>>24)] *)
Definition le4 (l : Z) : list Z := [l; Z.shiftr l 8; Z.shiftr l 16; Z.shiftr l 24].

(** ** ieeedtod *)

(** [frexp] of a finite number that is not zero, given by its 63 bits: the 53 bits of the
    fraction, as an integer, and the exponent. *)
Definition frexp (b : Z) : Z * Z :=
  let e := Z.shiftr b 52 in
  let m := Z.land b (2 ^ 52 - 1) in
  if e =? 0 then
    let k := Z.log2 m in (Z.shiftl m (52 - k), k - 1073)
  else (2 ^ 52 + m, e - 1022).

(** The fraction is [m / 2^53]: the two calls of [modf] cut off 21 and 16 bits. *)
Definition ieee_parts (m exp : Z) : Z * Z :=
  let ho := Z.shiftr m 32 in
  let h := s32 (Z.lor (Z.land ho 0xfffff) (Z.shiftl (exp + 1022) 20)) in
  let m := Z.land m (2 ^ 32 - 1) in
  let l := s32 (Z.shiftl (Z.shiftr m 16) 16) in
  let m := Z.land m (2 ^ 16 - 1) in
  (s32 (Z.lor l m), h).

(** The words [l] and [h]; [None] for an infinity or a NaN, whose [frexp] is not specified. *)
Definition ieeedtod (native : Z) : option (Z * Z) :=
  let b := Z.land native (2 ^ 63 - 1) in
  if 2047 <=? Z.shiftr b 52 then None
  else if b =? 0 then Some (0, 0)
  else
    let '(m, exp) := frexp b in
    let '(l, h) := ieee_parts m exp in
    Some (l, if Z.testbit native 63 then s32 (Z.lor h 0x80000000) else h).

(** ** zname, zaddr *)

Definition zname (n : list Z) (t s : Z) (x : va) : va := puts (ANAME :: t :: s :: n ++ [0]) x.

(** The bytes after the first four; [None]: an unknown type, and the assembler exits. *)
Definition gen_value (a : Gen) : option (list Z) :=
  let t := g_type a in
  if bool_decide (t ∈ [D_NONE; D_REG; D_FREG; D_MREG; D_FCREG; D_LO; D_HI]) then Some []
  else if bool_decide (t ∈ [D_OREG; D_CONST; D_OCONST; D_BRANCH]) then Some (le4 (g_offset a))
  else if t =? D_SCONST then Some (take (Z.to_nat NSNAME) (g_sval a))
  else if t =? D_FCONST then
    match ieeedtod (g_dval a) with Some (l, h) => Some (le4 l ++ le4 h) | None => None end
  else None.

Definition zaddr (a : Gen) (s : Z) (x : va) : option va :=
  match gen_value a with
  | Some bs => Some (puts (g_type a :: g_reg a :: s :: g_name a :: bs) x)
  | None => None
  end.

(** ** outcode *)

(** [while(s != S)]: the number of the operand's symbol, and whether it is a new one. *)
Definition out_sym (g : Gen) (x : va) : option (va * Z * bool) :=
  match g_sym g with
  | None => Some (x, 0, false)
  | Some s =>
      match vsyms x !! s with
      | None => None
      | Some y =>
          let sf := if (v_sym y <? 0) || (NSYM <=? v_sym y) then 0 else v_sym y in
          if bool_decide (vh x !! Z.to_nat sf = Some (Some s, g_name g)) then Some (x, sf, false)
          else
            let n := sym x in
            let x := zname (v_name y) (g_name g) n x in
            Some (mkva (<[s := mkVSym (v_name y) (s8 n)]> (vsyms x)) (<[Z.to_nat n := (Some s, g_name g)]> (vh x))
                    (if NSYM <=? n + 1 then 1 else n + 1) (obuf x) (lineno x) (nosched x) (vpc x) (pass x), n, true)
      end
  end.

(** The label [jackpot]: the numbers of both operands' symbols. *)
Fixpoint out_syms (fuel : nat) (g1 g2 : Gen) (x : va) : option (va * Z * Z) :=
  match fuel with
  | O => None
  | S f =>
      match out_sym g1 x with
      | None => None
      | Some (x, sf, _) =>
          match out_sym g2 x with
          | None => None
          | Some (x, st, new) => if new && (st =? sf) then out_syms f g1 g2 x else Some (x, sf, st)
          end
      end
  end.

Definition outcode (a : Z) (g1 : Gen) (reg : Z) (g2 : Gen) (x : va) : option va :=
  let count x := if negb (a =? AGLOBL) && negb (a =? ADATA) then vset_pc (s32 (vpc x + 1)) x else x in
  if pass x =? 1 then Some (count x)
  else
    match out_syms 3 g1 g2 x with
    | None => None
    | Some (x, sf, st) =>
        match zaddr g1 sf (puts (a :: Z.lor reg (nosched x) :: le4 (lineno x)) x) with
        | None => None
        | Some x =>
            match zaddr g2 st x with
            | None => None
            | Some x => Some (count x)
            end
        end
    end.
