(* ===== verification/VaLd.v ===== *)
(** The object file between the assembler and the linker: reading what [outcode] wrote has the
    effect of loading the instructions themselves. *)
From S2P Require Import Prelude CInt VlObj VlSym VlSpan VlLib VlEmit VlLayout VlData VlLd VlLdLib VaOut VlDemo.

(** ** The instructions, and what loading them means *)

(** An instruction as [outcode] takes it, with the line and the mode it is written in. *)
Record Instr := mkInstr {
  i_as : Z; i_from : Gen; i_reg : Z; i_to : Gen; i_line : Z; i_nosched : Z }.

Definition emit (i : Instr) (x : va) : option va :=
  outcode (i_as i) (i_from i) (i_reg i) (i_to i) (vset_src (i_line i) (i_nosched i) x).

Fixpoint assemble (l : list Instr) (x : va) : option va :=
  match l with
  | [] => Some x
  | i :: l => match emit i x with Some x => assemble l x | None => None end
  end.

(** [cclean]: the end of the object, in the last line. *)
Definition end_instr (line nosched : Z) : Instr := mkInstr AEND nullgen NREG nullgen line nosched.

Section Load.
Context (names : Z -> list Z) (addlib : L unit).

(** The linker's symbol for the operand. *)
Definition load_sym (g : Gen) : L (option Z) :=
  match g_sym g with
  | None => mret None
  | Some y => s ← ld_symbol (g_name g) (names y); mret (Some s)
  end.

(** The bytes of a string or of a floating-point number, in a block of their own. *)
Definition block_bytes (g : Gen) : list Z :=
  if g_type g =? D_SCONST then map u8 (take (Z.to_nat NSNAME) (g_sval g))
  else match ieeedtod (g_dval g) with Some (l, h) => map u8 (le4 l ++ le4 h) | None => [] end.

Definition load_value (g : Gen) : L Z :=
  let t := g_type g in
  if bool_decide (t ∈ [D_NONE; D_REG; D_FREG; D_MREG; D_FCREG; D_LO; D_HI]) then mret 0
  else if bool_decide (t ∈ [D_BRANCH; D_OREG; D_CONST; D_OCONST]) then mret (g_offset g)
  else new_block (block_bytes g).

(** The operand, and the local variable it names. *)
Definition load_adr (g : Gen) (y : option Z) : L Adr :=
  o ← load_value g;
  let a := mkAdr o y (g_type g) (g_reg g) (g_name g) 0 in
  match y with
  | Some s => if (g_name g =? D_AUTO) || (g_name g =? D_PARAM) then note_auto s (g_name g) o;; mret a else mret a
  | None => mret a
  end.

Definition instr_prog (i : Instr) (f t : Adr) : Prog :=
  mkProg f t None None None 0 (i_line i) (if i_nosched i =? 0 then 0 else NOSCHED) 0 (i_as i) (i_reg i).

(** The instruction, with [c] bytes of the object left. *)
Definition load (c : Z) (d : Ld) (i : Instr) : L Next :=
  y1 ← load_sym (i_from i);
  y2 ← load_sym (i_to i);
  f ← load_adr (i_from i) y1;
  t ← load_adr (i_to i) y2;
  ld_take addlib c d (instr_prog i f t).

(** The instructions one after the other, and the end of the object. *)
Fixpoint load_all (l : list Instr) (e : Instr) (d : Ld) : L unit :=
  match l with
  | [] => load 0 d e;; lskip
  | i :: l => n ← load 0 d i; match n with Loop d => load_all l e d | _ => lskip end
  end.
End Load.

(** ** What can be written *)

Definition is_nothing (t : Z) : Prop := t ∈ [D_NONE; D_REG; D_FREG; D_MREG; D_FCREG; D_LO; D_HI].
Definition is_number (t : Z) : Prop := t ∈ [D_BRANCH; D_OREG; D_CONST; D_OCONST].

Record gen_ok (g : Gen) : Prop := {
  ok_type : is_nothing (g_type g) \/ is_number (g_type g) \/ g_type g = D_SCONST \/ g_type g = D_FCONST;
  ok_reg : 0 <= g_reg g <= NREG;
  ok_name : 0 <= g_name g < 128 /\ g_name g <> D_FILE;
  ok_offset : in_s 32 (g_offset g);
  ok_sval : length (g_sval g) = 8%nat }.

(** A name fits the linker's buffer. *)
Definition name_ok (n : list Z) : Prop :=
  Forall (fun c => in_s 8 c /\ c <> 0) n /\ Z.of_nat (length n) + 4 <= MAXIO.

Record instr_ok (i : Instr) : Prop := {
  ok_as : AXXX < i_as i < ALAST /\ i_as i ∉ [ANAME; ASIGNAME; AHISTORY];
  ok_ireg : 0 <= i_reg i <= NREG;
  ok_line : in_s 32 (i_line i);
  ok_nosched : i_nosched i = 0 \/ i_nosched i = 0x80;
  ok_from : gen_ok (i_from i);
  ok_to : gen_ok (i_to i) }.

(** ** Bytes *)

Lemma u8_id c : 0 <= c < 256 -> u8 c = c.
Proof. intros H. by apply wrapu_id. Qed.

Lemma s8_u8 c : in_s 8 c -> s8 (u8 c) = c.
Proof. intros H. unfold s8, u8. rewrite wraps_wrapu by lia. by apply wraps_id. Qed.

Lemma le_int_bytes v : in_s 32 v -> le_int (u8 v) (u8 (Z.shiftr v 8)) (u8 (Z.shiftr v 16)) (u8 (Z.shiftr v 24)) = v.
Proof. intros H. transitivity (s32 v); [|by apply wraps_id]. unfold le_int. cbits. Qed.

Lemma type_range g : gen_ok g -> 0 <= g_type g < 128.
Proof.
  intros [[H|[H|[H|H]]] _ _ _ _]; [| |rewrite H; done..]; unfold is_nothing, is_number in H;
    repeat (apply elem_of_cons in H as [->|H]; [done|]); by apply not_elem_of_nil in H.
Qed.

(** ** One operand *)

Lemma number_types t : t ∈ [D_OREG; D_CONST; D_OCONST; D_BRANCH] <-> is_number t.
Proof. unfold is_number. rewrite !elem_of_cons. tauto. Qed.

(** What [zaddr] makes of the value of an operand. *)
Lemma value_read g bs a tl s :
  gen_ok g -> gen_value g = Some bs -> a_offset a = 0 ->
  exists m, zaddr_value (g_type g) (map u8 bs ++ tl) a = Some m
    /\ m s = (o ← load_value g; mret (4 + Z.of_nat (length bs), aset_offset o a)) s.
Proof.
  intros [Ht _ _ Ho Hv] Hb Ha. unfold gen_value in Hb. unfold zaddr_value, load_value.
  destruct (bool_decide (g_type g ∈ [D_NONE; _; _; _; _; _; _])) eqn:E1.
  { injection Hb as <-. eexists. split; [reflexivity|]. cbn. by destruct a; simpl in Ha; subst. }
  apply bool_decide_eq_false in E1.
  destruct (bool_decide (g_type g ∈ [D_OREG; _; _; _])) eqn:E2.
  { apply bool_decide_eq_true in E2. apply number_types in E2. rewrite bool_decide_true by done. injection Hb as <-.
    eexists. split; [reflexivity|]. cbn. by rewrite le_int_bytes. }
  apply bool_decide_eq_false in E2. rewrite number_types in E2. rewrite bool_decide_false by done.
  assert (length bs = 8%nat /\ (g_type g =? D_SCONST) || (g_type g =? D_FCONST) = true /\ block_bytes g = map u8 bs) as (Hl & -> & Hbb).
  { unfold block_bytes. destruct (g_type g =? D_SCONST).
    - injection Hb as <-. split_and!; [|done|done]. rewrite length_take, Hv. done.
    - destruct (g_type g =? D_FCONST); [|done]. destruct (ieeedtod (g_dval g)) as [[l h]|]; [|done].
      by injection Hb as <-. }
  eexists. split; [reflexivity|]. rewrite length_app, length_map, Hl.
  rewrite (proj2 (Z.ltb_ge _ _)) by (unfold NSNAME; lia). rewrite Hbb.
  replace (take 8 (map u8 bs ++ tl)) with (map u8 bs); [done|].
  rewrite take_app_le, take_ge by (rewrite length_map; lia). done.
Qed.

Lemma value_length g bs : gen_ok g -> gen_value g = Some bs -> (length bs <= 8)%nat.
Proof.
  intros [_ _ _ _ Hv] Hb. unfold gen_value in Hb.
  destruct (bool_decide _); [by injection Hb as <-; simpl; lia|].
  destruct (bool_decide _); [by injection Hb as <-; simpl; lia|].
  destruct (g_type g =? D_SCONST); [injection Hb as <-; rewrite length_take; lia|].
  destruct (g_type g =? D_FCONST); [|done]. destruct (ieeedtod (g_dval g)) as [[l h]|]; [|done].
  by injection Hb as <-; simpl; lia.
Qed.

(** The bytes of an operand. *)
Definition gen_bytes (g : Gen) (n : Z) (bs : list Z) : list Z :=
  map u8 (g_type g :: g_reg g :: n :: g_name g :: bs).

Lemma gen_bytes_eq g n bs : gen_ok g -> 0 <= n < NSYM ->
  gen_bytes g n bs = g_type g :: g_reg g :: n :: g_name g :: map u8 bs.
Proof.
  intros Hg Hn. pose proof (type_range g Hg). destruct Hg as [_ Hr Hm _ _]. unfold gen_bytes, NREG, NSYM in *. cbn [map].
  by rewrite !u8_id by lia.
Qed.

(** Reading it back. *)
Lemma zaddr_read g n bs h y tl s :
  gen_ok g -> gen_value g = Some bs -> 0 <= n < NSYM -> h !! Z.to_nat n = Some y ->
  VlLd.zaddr (gen_bytes g n bs ++ tl) adr0 h s
  = (a ← load_adr g y; mret (4 + Z.of_nat (length bs), gen_bytes g n bs ++ tl, a)) s.
Proof.
  intros Hg Hb Hn Hh. rewrite (gen_bytes_eq g n bs) by done. cbn [app]. unfold VlLd.zaddr.
  rewrite (proj2 (Z.ltb_ge NSYM n)), Hh by lia. cbv zeta.
  pose proof (type_range g Hg) as Ht. pose proof Hg as [_ Hr [Hm _] _ _].
  assert (forall c, 0 <= c < 128 -> s8 c = c) as Hs by (intros c Hc; apply wraps_id; [lia|unfold in_s; lia]).
  unfold NREG in *.
  replace (aset_name (s8 (g_name g)) (aset_sym y (aset_reg (s8 (g_reg g)) (aset_type (s8 (g_type g)) adr0))))
    with (mkAdr 0 y (g_type g) (g_reg g) (g_name g) 0) by (by rewrite !Hs by lia).
  cbn [a_reg a_type].
  rewrite (proj2 (Z.ltb_ge (g_reg g) 0)), (proj2 (Z.ltb_ge 32 (g_reg g))) by lia. cbn [orb].
  destruct (value_read g bs (mkAdr 0 y (g_type g) (g_reg g) (g_name g) 0) tl s Hg Hb eq_refl) as (m & -> & Hms).
  rewrite (bind_same _ _ _ _ Hms). unfold load_adr. rewrite !lbind_assoc. apply bind_ext. intros o s1 _.
  unfold mbind at 1, L_bind at 1, mret at 1, L_ret at 1. cbn [aset_offset a_name a_offset].
  destruct y as [y|]; [|done]. destruct (_ || _); [|done].
  unfold mbind, L_bind. by destruct (note_auto y (g_name g) o s1).
Qed.

(** ** The stream of the file *)

(** What the object still has, read or not. *)
Definition at_stream (r : Rd) (st : list Z) : Prop :=
  bloc r ++ unread r = st /\ left_ r = Z.of_nat (length st) /\ Z.of_nat (length (bloc r)) <= MAXIO.

Lemma split_zero_app n r : Forall (fun c => c <> 0) n -> split_zero (n ++ 0 :: r) = Some (n, r).
Proof.
  induction 1 as [|c n Hc Hn IH]; [done|]. cbn [app split_zero]. by rewrite (proj2 (Z.eqb_neq c 0)), IH.
Qed.

Lemma split_zero_none n : Forall (fun c => c <> 0) n -> split_zero n = None.
Proof. induction 1 as [|c n Hc Hn IH]; [done|]. cbn [split_zero]. by rewrite (proj2 (Z.eqb_neq c 0)), IH. Qed.

(** [readsome] puts more of the stream into the buffer, or all of it. *)
Lemma readsome_stream r st :
  at_stream r st -> unread r <> [] -> Z.of_nat (length (bloc r)) < MAXIO ->
  exists r', readsome r = Some r' /\ at_stream r' st /\ hs r' = hs r
    /\ (Z.of_nat (length (bloc r')) = MAXIO \/ unread r' = []).
Proof.
  intros (Hs & Hl & Hm) Hu Hb. unfold readsome.
  set (n := Z.min _ _). assert (0 < Z.of_nat (length (unread r))) by (destruct (unread r); [done|simpl; lia]).
  rewrite <- Hs, length_app in Hl. assert (0 < n) by (subst n; lia).
  destruct (take (Z.to_nat n) (unread r)) as [|b bs] eqn:E.
  { apply (f_equal length) in E. rewrite length_take in E. simpl in E. lia. }
  rewrite <- E. eexists. split; [reflexivity|]. unfold at_stream. cbn [bloc unread left_ hs].
  rewrite <- app_assoc, take_drop, length_app, length_take. split_and!; [done|rewrite <- Hs, length_app; lia|lia|done|].
  destruct (Z.lt_ge_cases n (Z.of_nat (length (unread r)))).
  - left. subst n. lia.
  - right. apply drop_ge. lia.
Qed.

Section Steps.
Context (addlib : L unit).

(** The loop comes from [r], [d] and [s] to [r'], [d] and [s']. *)
Definition steps (r : Rd) (s : vl) (r' : Rd) (s' : vl) : Prop :=
  exists k, forall f d, ld_loop addlib (k + f) r d s = ld_loop addlib f r' d s'.

Lemma steps_refl r s : steps r s r s.
Proof. by exists O. Qed.

Lemma steps_trans r1 s1 r2 s2 r3 s3 : steps r1 s1 r2 s2 -> steps r2 s2 r3 s3 -> steps r1 s1 r3 s3.
Proof. intros [k Hk] [j Hj]. exists (k + j)%nat. intros f d. by rewrite <- Nat.add_assoc, Hk, Hj. Qed.

Lemma steps_round r s r' s' :
  (forall d, ld_round addlib r d s = LOk (r', Loop d) s') -> steps r s r' s'.
Proof. intros H. exists 1%nat. intros f d. cbn [ld_loop Nat.add]. by rewrite (bind_to _ _ _ _ _ (H d)). Qed.

(** The buffer is filled where it has to be. *)
Lemma refill r st s :
  at_stream r st -> st <> [] ->
  exists r', steps r s r' s /\ at_stream r' st /\ hs r' = hs r
    /\ (100 <= Z.of_nat (length (bloc r')) \/ unread r' = []).
Proof.
  intros Hr Hst. pose proof Hr as (Hs & Hl & Hm).
  assert (0 < Z.of_nat (length st)) by (destruct st; [done|simpl; lia]).
  destruct ((Z.of_nat (length (bloc r)) <? 100) && (Z.of_nat (length (bloc r)) <? left_ r)) eqn:E.
  - apply andb_true_iff in E as [E1%Z.ltb_lt E2%Z.ltb_lt].
    destruct (readsome_stream r st Hr) as (r' & Hr' & Hs' & Hh & Hb).
    + intros Hu. rewrite Hu, app_nil_r in Hs. rewrite Hl, <- Hs in E2. lia.
    + unfold MAXIO. lia.
    + exists r'. split_and!; [|done|done|unfold MAXIO in Hb; destruct Hb; [left; lia|by right]].
      apply steps_round. intros d. unfold ld_round. rewrite (proj2 (Z.leb_gt _ _)) by lia. cbv zeta.
      by rewrite (proj2 (Z.ltb_lt _ _) E1), (proj2 (Z.ltb_lt _ _) E2), Hr'.
  - exists r. split_and!; [apply steps_refl|done|done|].
    apply andb_false_iff in E as [E%Z.ltb_ge|E%Z.ltb_ge]; [by left|right].
    rewrite <- Hs, length_app in Hl. apply length_zero_iff_nil. lia.
Qed.

(** A part at the head of the stream is in the buffer, if it is short. *)
Lemma in_buffer r p st :
  at_stream r (p ++ st) -> (Z.of_nat (length p) <= Z.of_nat (length (bloc r)) \/ unread r = []) ->
  exists b, bloc r = p ++ b /\ b ++ unread r = st.
Proof.
  intros (Hs & _ & _) Hb. assert (length p <= length (bloc r))%nat as Hle.
  { destruct Hb as [Hb|Hb]; [lia|]. rewrite Hb, app_nil_r in Hs. rewrite Hs, length_app. lia. }
  apply app_eq_inv in Hs as [(k & -> & ->)|(k & -> & ->)]; [by exists k|].
  rewrite length_app in Hle. assert (k = []) as -> by (apply length_zero_iff_nil; lia).
  exists []. rewrite !app_nil_r. done.
Qed.

(** A round that is not one of the special cases. *)
Lemma round_at o b r d s :
  bloc r = o :: b -> at_stream r (bloc r ++ unread r) -> (100 <= Z.of_nat (length (bloc r)) \/ unread r = []) ->
  AXXX < o < ALAST ->
  ld_round addlib r d s
  = (if (o =? ANAME) || (o =? ASIGNAME) then
       r' ← ld_names o r; mret (match r' with Some r => (r, Loop d) | None => (r, Eof) end)
     else ld_prog addlib o r d) s.
Proof.
  intros Hb (_ & Hl & _) Hf Ho. unfold ld_round.
  rewrite length_app in Hl. assert (0 < left_ r) by (rewrite Hl, Hb; simpl; lia).
  rewrite (proj2 (Z.leb_gt _ _)) by lia. cbv zeta.
  assert ((Z.of_nat (length (bloc r)) <? 100) && (Z.of_nat (length (bloc r)) <? left_ r) = false) as ->.
  { apply andb_false_iff. destruct Hf as [Hf|Hf]; [left|right]; apply Z.ltb_ge; [done|].
    rewrite Hf in Hl. simpl in Hl. lia. }
  rewrite Hb. rewrite (proj2 (Z.leb_gt o AXXX)), (proj2 (Z.leb_gt ALAST o)) by lia. done.
Qed.

(** A name in the file. *)
Definition name_bytes (nm : list Z) (t n : Z) : list Z := map u8 (ANAME :: t :: n :: nm ++ [0]).

Lemma name_bytes_eq nm t n : 0 <= t < 128 -> 0 <= n < NSYM ->
  name_bytes nm t n = [ANAME; t; n] ++ (map u8 nm ++ [0]).
Proof.
  unfold NSYM. intros Ht Hn. unfold name_bytes. cbn [map]. rewrite map_app. cbn [map].
  rewrite (u8_id t), (u8_id n) by lia. done.
Qed.

Lemma name_chars nm : name_ok nm -> Forall (fun c => c <> 0) (map u8 nm) /\ map s8 (map u8 nm) = nm.
Proof.
  intros [H _]. induction H as [|c nm [Hc Hz] H [IH1 IH2]]; [done|]. cbn [map]. split.
  - constructor; [|done]. intros E. apply Hz. rewrite <- (s8_u8 c Hc), E. done.
  - by rewrite s8_u8, IH2.
Qed.

(** Behind it, the number stands for the symbol. *)
Lemma read_name r st nm t n z s s' :
  name_ok nm -> 0 <= t < 128 -> t <> D_FILE -> 0 <= n < NSYM -> (Z.to_nat n < length (hs r))%nat ->
  at_stream r (name_bytes nm t n ++ st) -> ld_symbol t nm s = LOk z s' ->
  exists r', steps r s r' s' /\ at_stream r' st /\ hs r' = <[Z.to_nat n := Some z]> (hs r).
Proof.
  intros Hnm Ht Htf Hn Hh Hr Hz. destruct (name_chars nm Hnm) as [Hc Hback].
  destruct (refill r _ s Hr) as (r1 & Hs1 & Hr1 & Hh1 & Hb1); [by destruct nm|].
  rewrite name_bytes_eq, <- app_assoc in Hr1 by done.
  destruct (in_buffer r1 [ANAME; t; n] _ Hr1) as (b & Hbl & Hbu); [destruct Hb1; [left; simpl; lia|by right]|].
  assert (forall r2 b', at_stream r2 ([ANAME; t; n] ++ (map u8 nm ++ [0]) ++ st) -> hs r2 = hs r ->
    bloc r2 = [ANAME; t; n] ++ (map u8 nm ++ [0]) ++ b' -> b' ++ unread r2 = st ->
    (h ← ld_name t n (map u8 nm) (hs r2);
      mret (Some (mkRd b' (unread r2) (left_ r2 - 3 - (Z.of_nat (length (map u8 nm)) + 1)) h))) s
    = LOk (Some (mkRd b' (unread r2) (left_ r2 - 3 - (Z.of_nat (length (map u8 nm)) + 1)) (<[Z.to_nat n := Some z]> (hs r)))) s'
    /\ at_stream (mkRd b' (unread r2) (left_ r2 - 3 - (Z.of_nat (length (map u8 nm)) + 1)) (<[Z.to_nat n := Some z]> (hs r))) st)
    as Henter.
  { intros r2 b' (H1 & H2 & H3) Hh2 Hbl2 Hb'. split.
    - unfold ld_name. rewrite Hback, Hh2. rewrite lbind_assoc, (bind_to _ _ _ _ _ Hz).
      rewrite (proj2 (Z.eqb_neq t D_FILE)) by done.
      destruct (lookup_lt_is_Some_2 (hs r) (Z.to_nat n) Hh) as [y Hy]. unfold lskip, mbind, L_bind, mret, L_ret. by rewrite Hy.
    - split; [done|]. cbn [bloc unread left_]. rewrite H2, <- Hb'. rewrite !length_app. cbn [length].
      rewrite Hbl2, !length_app in H3. cbn [length] in H3. split; lia. }
  assert (forall d, ld_round addlib r1 d s = (r' ← ld_names ANAME r1; mret (match r' with Some r => (r, Loop d) | None => (r1, Eof) end)) s) as Hround.
  { intros d. rewrite (round_at ANAME ([t; n] ++ b)); [done|by rewrite Hbl| |done|unfold AXXX, ALAST, ANAME; lia].
    destruct Hr1 as (E & ? & ?). rewrite E. done. }
  assert (exists r2, hs r2 = <[Z.to_nat n := Some z]> (hs r) /\ at_stream r2 st /\ ld_names ANAME r1 s = LOk (Some r2) s') as (r2 & H1 & H2 & H3).
  { unfold ld_names. change (ANAME =? ASIGNAME) with false. cbv zeta. cbn iota.
    rewrite Hbl. rewrite (proj2 (Nat.ltb_ge _ 3)) by (simpl; lia). cbn [app drop]. rewrite drop_0.
    apply app_eq_inv in Hbu as [(k & Eb & Ek)|(k & Eb & Ek)].
    - assert (split_zero b = Some (map u8 nm, k)) as -> by (rewrite Eb, <- app_assoc; by apply split_zero_app).
      destruct (Henter r1 k) as [E1 E2]; [done|done|by rewrite Hbl, Eb|done|].
      eexists. split; [|split; [exact E2|exact E1]]. done.
    - destruct (list_eq_dec Z.eq_dec k []) as [->|Hk].
      + rewrite app_nil_r in Eb. assert (split_zero b = Some (map u8 nm, [])) as -> by (rewrite <- Eb; by apply split_zero_app).
        destruct (Henter r1 []) as [E1 E2]; [done|done|by rewrite Hbl, <- Eb, app_nil_r|done|].
        eexists. split; [|split; [exact E2|exact E1]]. done.
      + destruct (exists_last Hk) as (k' & c & ->). rewrite app_assoc in Eb. apply app_inj_tail in Eb as [Eb <-].
        assert (Forall (fun c => c <> 0) b) as Hb by (rewrite Eb in Hc; by apply list.Forall_app in Hc as [? _]).
        rewrite (split_zero_none b) by done.
        assert (Z.of_nat (length ([ANAME; t; n] ++ (map u8 nm ++ [0]))) <= MAXIO) as Hlen.
        { rewrite !length_app, length_map. destruct Hnm as [_ Hnm]. simpl. lia. }
        destruct (readsome_stream r1 _ Hr1) as (r2 & Er & Hr2 & Hh2 & Hb2).
        { rewrite Ek. by destruct k'. }
        { rewrite Hbl. rewrite Eb, !length_app in Hlen. rewrite !length_app. simpl in *. lia. }
        rewrite Er. rewrite app_assoc in Hr2. destruct (in_buffer r2 _ st Hr2) as (b' & Hbl2 & Hb').
        { destruct Hb2 as [Hb2|Hb2]; [left; lia|by right]. }
        rewrite <- app_assoc in Hr2, Hbl2. rewrite Hbl2. cbn [app drop]. rewrite drop_0.
        assert (split_zero ((map u8 nm ++ [0]) ++ b') = Some (map u8 nm, b')) as -> by (rewrite <- app_assoc; by apply split_zero_app). destruct (Henter r2 b') as [E1 E2]; [done|by rewrite Hh2|done|done|].
        eexists. split; [|split; [exact E2|exact E1]]. done. }
  exists r2. split_and!; [|done|done]. eapply steps_trans; [exact Hs1|]. apply steps_round.
  intros d. rewrite Hround. by rewrite (bind_to _ _ _ _ _ H3).
Qed.
End Steps.

(** ** The numbers of the symbols *)

(** [z] is the linker's symbol of the name [nm] of the kind [t]. *)
Definition resolved (s : vl) (t : Z) (nm : list Z) (z : Z) : Prop :=
  found s nm (if t =? D_STATIC then version s else 0) z
  /\ exists x, syms s !! z = Some x /\ ((t =? D_EXTERN) || (t =? D_STATIC) = true -> s_type x <> 0).

Lemma resolved_run s t nm z : resolved s t nm z -> ld_symbol t nm s = LOk z s.
Proof.
  intros [Hf (x & Hx & Ht)]. unfold ld_symbol. unfold mbind at 1, L_bind at 1, lgets.
  rewrite (bind_to _ _ _ _ _ (lookup_found _ _ _ _ Hf)). unfold mbind, L_bind, getsym. rewrite Hx.
  destruct ((t =? D_EXTERN) || (t =? D_STATIC)); [|done]. cbn [andb].
  by rewrite (proj2 (Z.eqb_neq _ 0)) by auto.
Qed.

Lemma resolved_safe s s' t nm z : safe s s' -> resolved s t nm z -> resolved s' t nm z.
Proof.
  intros [_ Hv Hk Hf] [H1 (x & Hx & Ht)]. split; [rewrite Hv; by apply Hf|].
  destruct (Hk z x Hx) as (x' & Hx' & _ & _ & Ht'). exists x'. auto.
Qed.

Lemma found_syms s nm v z : found s nm v z -> is_Some (syms s !! z).
Proof.
  unfold found. induction (chain (symhash nm v) s) as [|y l IH]; [done|]. cbn [chain_find].
  unfold mbind, L_bind, getsym. destruct (syms s !! y) as [x|] eqn:E; [|done].
  case_bool_decide; [|done]. intros [= <-]. by exists x.
Qed.

Lemma symbol_resolves s t nm : tab_ok s ->
  exists z s', ld_symbol t nm s = LOk z s' /\ safe s s' /\ resolved s' t nm z.
Proof.
  intros Ht. set (v := if t =? D_STATIC then version s else 0).
  assert (in_s 16 v) as Hv by (subst v; destruct (t =? D_STATIC); [apply Ht|apply zero_short]).
  destruct (lookup_finds nm v s Ht Hv) as (z & s1 & E1 & Hf & _).
  pose proof (lookup_keeps nm v Hv s z s1 E1 Ht) as Hk1.
  destruct (found_syms _ _ _ _ Hf) as [x Hx].
  assert (exists s2, ld_symbol t nm s = LOk z s2 /\ safe s1 s2
    /\ exists x', syms s2 !! z = Some x' /\ ((t =? D_EXTERN) || (t =? D_STATIC) = true -> s_type x' <> 0))
    as (s2 & E2 & Hk2 & Hx2).
  { unfold ld_symbol. unfold mbind at 1, L_bind at 1, lgets. fold v. rewrite (bind_to _ _ _ _ _ E1).
    unfold mbind at 1, L_bind at 1, getsym. rewrite Hx.
    destruct (((t =? D_EXTERN) || (t =? D_STATIC)) && (s_type x =? 0)) eqn:E.
    - assert (updsym z (sset_type SXREF) s1 = LOk tt (lset_syms (<[z := sset_type SXREF x]> (syms s1)) s1)) as Eu
        by (unfold updsym; by rewrite Hx).
      rewrite (bind_to _ _ _ _ _ Eu). eexists. split; [reflexivity|]. split.
      + refine (updsym_keeps z (sset_type SXREF) _ s1 tt _ Eu (k_tab _ _ Hk1)). done.
      + exists (sset_type SXREF x). simpl. rewrite lookup_insert_eq. by split.
    - exists s1. split; [done|]. split; [apply keeps_refl, Hk1|]. exists x. split; [done|].
      intros Hm. rewrite Hm in E. by apply Z.eqb_neq in E. }
  exists z, s2. split; [done|].
  assert (safe s s2) as Hs by (apply (keeps_trans s s1 s2); [by intros _|by intros _|done]).
  split; [done|]. split; [|done]. rewrite (k_version _ _ Hs). by apply Hk2.
Qed.

Section Agree.
Context (names : Z -> list Z).

(** A number the assembler has given to a symbol stands for that symbol in the linker. *)
Record agree (x : va) (h : list (option Z)) (s : vl) : Prop := {
  ag_vlen : length (vh x) = Z.to_nat NSYM;
  ag_len : length h = Z.to_nat NSYM;
  ag_zero : vh x !! 0%nat = Some (None, 0) /\ h !! 0%nat = Some None;
  ag_next : 1 <= sym x < NSYM;
  ag_pass : pass x <> 1;
  ag_tab : tab_ok s;
  ag_slots : forall i y t, vh x !! i = Some (Some y, t) -> exists z, h !! i = Some (Some z) /\ resolved s t (names y) z;
  ag_names : forall y v, vsyms x !! y = Some v -> v_name v = names y /\ name_ok (names y) }.

Lemma agree_safe x h s s' : safe s s' -> agree x h s -> agree x h s'.
Proof.
  intros Hk [H1 H2 H3 H4 H5 H6 H7 H8]. split; try done; [apply Hk|].
  intros i y t Hi. destruct (H7 i y t Hi) as (z & Hz & Hr). exists z. split; [done|]. by eapply resolved_safe.
Qed.

Lemma agree_out x x' h s :
  vsyms x' = vsyms x -> vh x' = vh x -> sym x' = sym x -> pass x' = pass x -> agree x h s -> agree x' h s.
Proof. intros E1 E2 E3 E4 [H1 H2 H3 H4 H5 H6 H7 H8]. split; rewrite ?E1, ?E2, ?E3, ?E4; done. Qed.

(** The symbol of the operand stays what it is. *)
Lemma load_sym_ok g s : tab_ok s ->
  exists y s', load_sym names g s = LOk y s' /\ safe s s' /\ (y = None <-> g_sym g = None)
    /\ forall s2, safe s' s2 -> load_sym names g s2 = LOk y s2.
Proof.
  intros Ht. unfold load_sym. destruct (g_sym g) as [w|].
  - destruct (symbol_resolves s (g_name g) (names w) Ht) as (z & s' & E & Hk & Hr).
    exists (Some z), s'. rewrite (bind_to _ _ _ _ _ E). split_and!; [done|done|done|].
    intros s2 Hs2. by rewrite (bind_to _ _ _ _ _ (resolved_run _ _ _ _ (resolved_safe _ _ _ _ _ Hs2 Hr))).
  - exists None, s. split_and!; [done|by apply keeps_refl|done|done].
Qed.
Lemma puts_obuf bs x : obuf (puts bs x) = obuf x ++ map u8 bs.
Proof. done. Qed.

(** [out_sym], and the linker behind what it wrote. *)
Lemma out_sym_read addlib x g x' n new r st s y s1 bs :
  agree x (hs r) s -> gen_ok g -> out_sym g x = Some (x', n, new) -> load_sym names g s = LOk y s1 ->
  obuf x' = obuf x ++ bs -> at_stream r (bs ++ st) ->
  exists r', steps addlib r s r' s1 /\ at_stream r' st /\ agree x' (hs r') s1
    /\ 0 <= n < NSYM /\ hs r' !! Z.to_nat n = Some y
    /\ forall j, (new = true -> j <> Z.to_nat n) -> hs r' !! j = hs r !! j.
Proof.
  intros Ha Hg Ho Hy Hbs Hst. pose proof Ha as [H1 H2 [H3 H3'] H4 H5 H6 H7 H8].
  unfold out_sym in Ho. unfold load_sym in Hy. destruct (g_sym g) as [w|].
  2:{ injection Ho as <- <- <-. injection Hy as <- <-.
      assert (bs = []) as -> by (by apply (app_inv_head (obuf x)); rewrite app_nil_r).
      exists r. split_and!; [apply steps_refl|done|done|unfold NSYM; lia|unfold NSYM; lia|done|done]. }
  destruct (vsyms x !! w) as [v|] eqn:Hv; [|done]. destruct (H8 w v Hv) as [Hnm Hok].
  set (sf := if (v_sym v <? 0) || (NSYM <=? v_sym v) then 0 else v_sym v) in *. cbv zeta in Ho.
  assert (0 <= sf < NSYM) as Hsf.
  { subst sf. destruct ((v_sym v <? 0) || (NSYM <=? v_sym v)) eqn:E; [unfold NSYM; lia|].
    apply orb_false_iff in E as [?%Z.ltb_ge ?%Z.leb_gt]. lia. }
  case_bool_decide as E.
  - injection Ho as <- <- <-. destruct (H7 _ _ _ E) as (z & Hz & Hr).
    rewrite (bind_to _ _ _ _ _ (resolved_run _ _ _ _ Hr)) in Hy. injection Hy as <- <-.
    assert (bs = []) as -> by (by apply (app_inv_head (obuf x)); rewrite app_nil_r).
    exists r. split_and!; [apply steps_refl|done|done|lia|lia|done|done].
  - injection Ho as <- <- <-. destruct (symbol_resolves s (g_name g) (names w) H6) as (z & s' & Ez & Hk & Hr).
    rewrite (bind_to _ _ _ _ _ Ez) in Hy. injection Hy as <- <-.
    assert (bs = name_bytes (names w) (g_name g) (sym x)) as ->.
    { apply (app_inv_head (obuf x)). rewrite <- Hbs, <- Hnm. done. }
    destruct Hg as [_ _ [Hn1 Hn2] _ _].
    destruct (read_name addlib r st (names w) (g_name g) (sym x) z s s') as (r' & G1 & G2 & G3); try done; [lia|rewrite H2; lia|].
    exists r'. split_and!; [done|done| |lia|lia|by rewrite G3, list_lookup_insert_eq by (rewrite H2; lia)|].
    + pose proof (agree_safe _ _ _ _ Hk Ha) as [A1 A2 [A3 A3'] A4 A5 A6 A7 A8].
      split; cbn [vh sym pass vsyms]; try done.
      * by rewrite length_insert.
      * by rewrite G3, length_insert.
      * rewrite G3. rewrite !list_lookup_insert_ne by lia. done.
      * destruct (Z.leb_spec NSYM (sym x + 1)); unfold NSYM in *; lia.
      * intros i y t Hi. rewrite G3. destruct (decide (Z.to_nat (sym x) = i)) as [<-|Hne].
        -- rewrite list_lookup_insert_eq in Hi by lia. injection Hi as <- <-.
           exists z. rewrite list_lookup_insert_eq by lia. done.
        -- rewrite list_lookup_insert_ne in Hi by done. rewrite list_lookup_insert_ne by done. by apply A7.
      * intros y v' Hy. destruct (decide (w = y)) as [<-|Hne].
        -- rewrite lookup_insert_eq in Hy. injection Hy as <-. by split.
        -- rewrite lookup_insert_ne in Hy by done. by apply A8.
    + intros j Hj. rewrite G3, list_lookup_insert_ne; [done|]. intros <-. by apply Hj.
Qed.

Lemma out_sym_obuf g x x' n new : out_sym g x = Some (x', n, new) -> exists bs, obuf x' = obuf x ++ bs.
Proof.
  unfold out_sym. destruct (g_sym g); [|intros [= <- <- <-]; exists []; by rewrite app_nil_r].
  destruct (vsyms x !! _); [|done]. case_bool_decide; intros [= <- <- <-]; [exists []; by rewrite app_nil_r|by eexists].
Qed.

Lemma out_syms_obuf f g1 g2 x x' sf st : out_syms f g1 g2 x = Some (x', sf, st) -> exists bs, obuf x' = obuf x ++ bs.
Proof.
  revert x. induction f as [|f IH]; intros x H; [done|]. cbn [out_syms] in H.
  destruct (out_sym g1 x) as [[[x1 n1] w1]|] eqn:E1; [|done]. destruct (out_sym g2 x1) as [[[x2 n2] w2]|] eqn:E2; [|done].
  destruct (out_sym_obuf _ _ _ _ _ E1) as [b1 B1]. destruct (out_sym_obuf _ _ _ _ _ E2) as [b2 B2].
  destruct (w2 && (n2 =? n1)).
  - destruct (IH _ H) as [b3 B3]. exists (b1 ++ b2 ++ b3). by rewrite B3, B2, B1, !app_assoc.
  - injection H as <- <- <-. exists (b1 ++ b2). by rewrite B2, B1, app_assoc.
Qed.

(** Both operands' symbols, however often [outcode] starts again. *)
Lemma out_syms_read addlib f x g1 g2 x' sf st r str s y1 s1 y2 s2 bs :
  agree x (hs r) s -> gen_ok g1 -> gen_ok g2 -> out_syms f g1 g2 x = Some (x', sf, st) ->
  load_sym names g1 s = LOk y1 s1 -> load_sym names g2 s1 = LOk y2 s2 ->
  obuf x' = obuf x ++ bs -> at_stream r (bs ++ str) ->
  exists r', steps addlib r s r' s2 /\ at_stream r' str /\ agree x' (hs r') s2
    /\ 0 <= sf < NSYM /\ 0 <= st < NSYM /\ hs r' !! Z.to_nat sf = Some y1 /\ hs r' !! Z.to_nat st = Some y2.
Proof.
  revert x r s s1 s2 bs. induction f as [|f IH]; intros x r s s1 s2 bs Ha Hg1 Hg2 Ho Hy1 Hy2 Hbs Hst; [done|].
  cbn [out_syms] in Ho. destruct (out_sym g1 x) as [[[x1 n1] w1]|] eqn:E1; [|done].
  destruct (out_sym g2 x1) as [[[x2 n2] w2]|] eqn:E2; [|done].
  destruct (out_sym_obuf _ _ _ _ _ E1) as [b1 B1]. destruct (out_sym_obuf _ _ _ _ _ E2) as [b2 B2].
  assert (exists b3, obuf x' = obuf x2 ++ b3 /\ bs = b1 ++ b2 ++ b3) as (b3 & B3 & ->).
  { assert (exists b3, obuf x' = obuf x2 ++ b3) as [b3 B3].
    { destruct (w2 && (n2 =? n1)); [by eapply out_syms_obuf|]. injection Ho as <- <- <-. exists []. by rewrite app_nil_r. }
    exists b3. split; [done|]. apply (app_inv_head (obuf x)). by rewrite <- Hbs, B3, B2, B1, !app_assoc. }
  rewrite <- !app_assoc in Hst.
  destruct (out_sym_read addlib x g1 x1 n1 w1 r (b2 ++ b3 ++ str) s y1 s1 b1) as (r1 & S1 & T1 & A1 & R1 & L1 & _); try done.
  destruct (out_sym_read addlib x1 g2 x2 n2 w2 r1 (b3 ++ str) s1 y2 s2 b2) as (r2 & S2 & T2 & A2 & R2 & L2 & K2); try done.
  destruct (w2 && (n2 =? n1)) eqn:E.
  - (* the symbols are known now: loading them has no effect *)
    destruct (load_sym_ok g1 s (ag_tab _ _ _ Ha)) as (y1' & s1' & F1 & Q1 & _ & P1). rewrite Hy1 in F1. injection F1 as <- <-.
    destruct (load_sym_ok g2 s1 (ag_tab _ _ _ A1)) as (y2' & s2' & F2 & Q2 & _ & P2). rewrite Hy2 in F2. injection F2 as <- <-.
    destruct (IH x2 r2 s2 s2 s2 b3 A2 Hg1 Hg2 Ho (P1 _ Q2)) as (r' & S' & T' & A' & G); try done.
    { apply P2. by apply keeps_refl, A2. }
    exists r'. split_and!; try apply G; try done. eapply steps_trans; [exact S1|]. by eapply steps_trans.
  - injection Ho as <- <- <-. assert (b3 = []) as -> by (by apply (app_inv_head (obuf x2)); rewrite app_nil_r).
    exists r2. split_and!; try done; try lia; [by eapply steps_trans|]. rewrite K2; [done|].
    intros -> ?. rewrite andb_true_l in E. apply Z.eqb_neq in E. lia.
Qed.
End Agree.

(** ** One instruction *)

Lemma out_sym_src g x x' n new : out_sym g x = Some (x', n, new) ->
  lineno x' = lineno x /\ nosched x' = nosched x /\ pass x' = pass x.
Proof.
  unfold out_sym. destruct (g_sym g); [|by intros [= <- <- <-]].
  destruct (vsyms x !! _); [|done]. case_bool_decide; by intros [= <- <- <-].
Qed.

Lemma out_syms_src f g1 g2 x x' sf st : out_syms f g1 g2 x = Some (x', sf, st) ->
  lineno x' = lineno x /\ nosched x' = nosched x /\ pass x' = pass x.
Proof.
  revert x. induction f as [|f IH]; intros x H; [done|]. cbn [out_syms] in H.
  destruct (out_sym g1 x) as [[[x1 n1] w1]|] eqn:E1; [|done]. destruct (out_sym g2 x1) as [[[x2 n2] w2]|] eqn:E2; [|done].
  apply out_sym_src in E1 as (L1 & N1 & P1), E2 as (L2 & N2 & P2).
  destruct (w2 && (n2 =? n1)); [apply IH in H as (? & ? & ?)|injection H as <- <- <-]; split_and!; congruence.
Qed.

Lemma load_adr_keeps g y : lrel keeps (load_adr g y).
Proof.
  unfold load_adr, load_value. destruct (bool_decide _); [|destruct (bool_decide _)]; kgo.
Qed.

(** An instruction whose register is one, and that is no [HISTORY]. *)
Lemma ld_take_eq addlib c d p s :
  0 <= p_reg p <= NREG -> p_as p <> AHISTORY ->
  ld_take addlib c d p s = (pid ← new_prog p; ld_cases c d pid p) s.
Proof.
  intros Hr Ha. unfold ld_take, new_prog, mbind, L_bind. cbv zeta.
  rewrite (proj2 (Z.ltb_ge (p_reg p) 0)), (proj2 (Z.ltb_ge NREG (p_reg p))) by lia. cbn [orb].
  unfold lskip, mret, L_ret, ld_switch, mbind, L_bind, getp. simpl. rewrite lookup_insert_eq.
  by rewrite (proj2 (Z.eqb_neq _ _) Ha).
Qed.

Lemma ld_take_keeps addlib c d p : 0 <= p_reg p <= NREG -> p_as p <> AHISTORY -> lrel keeps (ld_take addlib c d p).
Proof.
  intros Hr Ha s n s' H. rewrite ld_take_eq in H by done. revert s n s' H.
  change (lrel keeps (pid ← new_prog p; ld_cases c d pid p)). kgo. apply ld_cases_keeps.
Qed.

(** The bytes of an instruction after the names. *)
Definition head_bytes (i : Instr) : list Z := map u8 (i_as i :: Z.lor (i_reg i) (i_nosched i) :: le4 (i_line i)).

Lemma reg_byte i : instr_ok i ->
  let b := u8 (Z.lor (i_reg i) (i_nosched i)) in
  Z.land b 0x7f = i_reg i /\ (if Z.land b 0x80 =? 0 then 0 else NOSCHED) = (if i_nosched i =? 0 then 0 else NOSCHED).
Proof.
  intros [_ Hr _ Hn _ _]. cbv zeta. unfold NREG in Hr.
  assert (forallb (fun r => forallb (fun n =>
    let b := u8 (Z.lor r n) in (Z.land b 0x7f =? r) && ((if Z.land b 0x80 =? 0 then 0 else NOSCHED) =? (if n =? 0 then 0 else NOSCHED)))
    [0; 0x80]) (seqZ 0 33) = true) as H by by vm_compute.
  assert (In (i_reg i) (seqZ 0 33)) as H1 by (apply list_elem_of_In, elem_of_seqZ; lia).
  assert (In (i_nosched i) [0; 0x80]) as H2 by (destruct Hn as [->| ->]; [by left|right; by left]).
  apply (proj1 (forallb_forall _ _) (proj1 (forallb_forall _ _) H _ H1)) in H2.
  cbv zeta in H2. rewrite andb_true_iff, !Z.eqb_eq in H2. exact H2.
Qed.

Section Emit.
Context (names : Z -> list Z) (addlib : L unit).

(** What the loop does with the outcome of an instruction. *)
Definition continue (f : nat) (r : Rd) (n : Next) : L unit :=
  match n with
  | Loop d => ld_loop addlib f r d
  | Newloop d => d ← ld_new d; ld_loop addlib f (mkRd (bloc r) (unread r) (left_ r) no_names) d
  | Return => lskip
  | Eof => diag "truncated object file: %s" []
  end.

Lemma ld_loop_step f r d s :
  ld_loop addlib (S f) r d s = (q ← ld_round addlib r d; continue f (fst q) (snd q)) s.
Proof. cbn [ld_loop]. apply bind_ext. by intros [r' n] s' _. Qed.

(** Reading an instruction whose symbols are known. *)
Lemma read_instr r i sf st b1 b2 str y1 y2 s :
  instr_ok i -> gen_value (i_from i) = Some b1 -> gen_value (i_to i) = Some b2 ->
  0 <= sf < NSYM -> 0 <= st < NSYM -> hs r !! Z.to_nat sf = Some y1 -> hs r !! Z.to_nat st = Some y2 ->
  at_stream r (head_bytes i ++ gen_bytes (i_from i) sf b1 ++ gen_bytes (i_to i) st b2 ++ str) ->
  exists r' k, at_stream r' str /\ hs r' = hs r
    /\ forall f d, ld_loop addlib (k + S f) r d s
       = (x ← load_adr (i_from i) y1; y ← load_adr (i_to i) y2;
          n ← ld_take addlib (Z.of_nat (length str)) d (instr_prog i x y); continue f r' n) s.
Proof.
  intros Hi Hb1 Hb2 Hsf Hst Hy1 Hy2 Hr. pose proof Hi as [[Has Hna] Hreg Hline _ Hf Ht].
  destruct (refill addlib r _ s Hr ltac:(done)) as (r1 & [k Hk] & Hr1 & Hh1 & Hbuf).
  pose proof (value_length _ _ Hf Hb1) as Hl1. pose proof (value_length _ _ Ht Hb2) as Hl2.
  set (g1 := gen_bytes (i_from i) sf b1) in *. set (g2 := gen_bytes (i_to i) st b2) in *.
  assert (length g1 = 4 + length b1)%nat as Eg1 by (subst g1; unfold gen_bytes; by rewrite length_map).
  assert (length g2 = 4 + length b2)%nat as Eg2 by (subst g2; unfold gen_bytes; by rewrite length_map).
  assert (length (head_bytes i) = 6%nat) as Eh by done.
  replace (head_bytes i ++ g1 ++ g2 ++ str) with ((head_bytes i ++ g1 ++ g2) ++ str) in Hr1 by (by rewrite <- !app_assoc).
  destruct (in_buffer r1 _ str Hr1) as (b & Hbl & Hbu).
  { destruct Hbuf as [Hbuf|Hbuf]; [left; rewrite !length_app; lia|by right]. }
  pose proof Hr1 as (_ & Hleft & _). rewrite !length_app, Eh, Eg1, Eg2 in Hleft.
  exists (mkRd b (unread r1) (Z.of_nat (length str)) (hs r1)), k. split_and!; [|done|].
  { split; [done|]. split; [done|]. destruct Hr1 as (_ & _ & Hm). rewrite Hbl, !length_app in Hm. cbn [bloc]. lia. }
  intros f d. rewrite Hk, ld_loop_step.
  assert (u8 (i_as i) = i_as i) as Eas by (unfold AXXX, ALAST in *; apply u8_id; lia).
  assert (ld_round addlib r1 d s = ld_prog addlib (i_as i) r1 d s) as Hround.
  { rewrite (round_at addlib (i_as i) (drop 1 (bloc r1))); try done.
    - rewrite (proj2 (Z.eqb_neq _ _)), (proj2 (Z.eqb_neq _ ASIGNAME)); [done|..]; intros E; apply Hna; rewrite E, !elem_of_cons; auto.
    - rewrite Hbl. unfold head_bytes. cbn [map app drop]. by rewrite Eas.
    - destruct Hr1 as (E & ? & ?). by rewrite E. }
  rewrite (bind_same _ _ _ _ Hround). unfold ld_prog. rewrite Hbl. unfold head_bytes at 1. cbn [map le4 app].
  destruct (reg_byte i Hi) as [-> ->]. rewrite le_int_bytes by done. rewrite <- !app_assoc.
  rewrite lbind_assoc. cbn [from pset_as pset_reg pset_mark pset_line prog0]. rewrite Hh1.
  rewrite (bind_same _ _ _ _ (zaddr_read _ _ _ _ y1 _ _ Hf Hb1 Hsf Hy1)), lbind_assoc. apply bind_ext. intros x s1 _.
  unfold mbind at 1, L_bind at 1, mret at 1, L_ret at 1. rewrite lbind_assoc.
  replace (drop (Z.to_nat (4 + Z.of_nat (length b1))) (gen_bytes (i_from i) sf b1 ++ g2 ++ b)) with (g2 ++ b).
  2:{ fold g1. replace (Z.to_nat _) with (length g1) by lia. by rewrite drop_app_length. }
  rewrite (bind_same _ _ _ _ (zaddr_read _ _ _ _ y2 _ _ Ht Hb2 Hst Hy2)), lbind_assoc. apply bind_ext. intros y s2 _.
  unfold mbind at 1, L_bind at 1, mret at 1, L_ret at 1. rewrite lbind_assoc.
  replace (drop (Z.to_nat (4 + Z.of_nat (length b2))) (gen_bytes (i_to i) st b2 ++ b)) with b.
  2:{ fold g2. replace (Z.to_nat _) with (length g2) by lia. by rewrite drop_app_length. }
  replace (left_ r1 - _) with (Z.of_nat (length str)) by lia.
  by apply bind_ext.
Qed.
(** [outcode], and the linker behind what it wrote. *)
Lemma emit_read x i x' r s bs str :
  agree names x (hs r) s -> instr_ok i -> emit i x = Some x' -> obuf x' = obuf x ++ bs -> at_stream r (bs ++ str) ->
  exists r' k, at_stream r' str
    /\ (forall f d, ld_loop addlib (k + S f) r d s
         = (n ← load names addlib (Z.of_nat (length str)) d i; continue f r' n) s)
    /\ forall c d n s', load names addlib c d i s = LOk n s' -> agree names x' (hs r') s'.
Proof.
  intros Ha Hi He Hbs Hst. pose proof Hi as [[Has Hna] Hreg _ _ Hf Ht]. unfold emit, outcode in He.
  set (x0 := vset_src (i_line i) (i_nosched i) x) in *.
  assert (agree names x0 (hs r) s) as Ha0 by (by apply (agree_out names x)).
  rewrite (proj2 (Z.eqb_neq _ 1)) in He by apply Ha0.
  destruct (out_syms 3 (i_from i) (i_to i) x0) as [[[x1 sf] st]|] eqn:Eo; [|done].
  destruct (out_syms_src _ _ _ _ _ _ _ Eo) as (El & En & Ep).
  unfold VaOut.zaddr in He. destruct (gen_value (i_from i)) as [b1|] eqn:Eb1; [|done].
  destruct (gen_value (i_to i)) as [b2|] eqn:Eb2; [|done].
  destruct (out_syms_obuf _ _ _ _ _ _ _ Eo) as [b0 Eb0].
  destruct (load_sym_ok names (i_from i) s (ag_tab _ _ _ _ Ha)) as (y1 & s1 & F1 & Q1 & _ & _).
  destruct (load_sym_ok names (i_to i) s1 (k_tab _ _ Q1)) as (y2 & s2 & F2 & Q2 & _ & _).
  assert (obuf x' = obuf x1 ++ head_bytes i ++ gen_bytes (i_from i) sf b1 ++ gen_bytes (i_to i) st b2) as Ebx.
  { assert (i_line i = lineno x1 /\ i_nosched i = nosched x1) as [L N] by done. unfold head_bytes. rewrite L, N.
    destruct (_ && _) in He; injection He as <-; cbn [vset_pc obuf]; rewrite !puts_obuf, <- !app_assoc; done. }
  assert (bs = b0 ++ head_bytes i ++ gen_bytes (i_from i) sf b1 ++ gen_bytes (i_to i) st b2) as ->.
  { apply (app_inv_head (obuf x)). rewrite <- Hbs, Ebx, Eb0. cbn [obuf x0 vset_src]. by rewrite <- app_assoc. }
  rewrite <- !app_assoc in Hst.
  destruct (out_syms_read names addlib _ _ _ _ _ _ _ r _ s y1 s1 y2 s2 b0 Ha0 Hf Ht Eo F1 F2 Eb0 Hst)
    as (r1 & [k1 Hk1] & Hr1 & Ha1 & Hsf & Hst1 & Hy1 & Hy2).
  destruct (read_instr r1 i sf st b1 b2 str y1 y2 s2 Hi Eb1 Eb2 Hsf Hst1 Hy1 Hy2 Hr1) as (r2 & k2 & Hr2 & Hh2 & Hk2).
  assert (forall c d, load names addlib c d i s
    = (f ← load_adr (i_from i) y1; t ← load_adr (i_to i) y2; ld_take addlib c d (instr_prog i f t)) s2) as Hload.
  { intros c d. unfold load. by rewrite (bind_to _ _ _ _ _ F1), (bind_to _ _ _ _ _ F2). }
  exists r2, (k1 + k2)%nat. split_and!; [done| |].
  - intros f d. replace (k1 + k2 + S f)%nat with (k1 + (k2 + S f))%nat by lia. rewrite Hk1, Hk2.
    rewrite (bind_move _ _ (continue f r2) _ _ (Hload _ _)), lbind_assoc.
    apply bind_ext. intros a s3 _. by rewrite lbind_assoc.
  - intros c d n s' H. rewrite Hload, Hh2 in *.
    assert (keeps s2 s') as Hk.
    { revert n H. generalize s2. apply (fun A => A).
      assert (lrel keeps (f ← load_adr (i_from i) y1; t ← load_adr (i_to i) y2; ld_take addlib c d (instr_prog i f t))) as HL.
      { kgo; try apply load_adr_keeps. apply ld_take_keeps; [done|]. cbn. intros E. apply Hna. rewrite E, !elem_of_cons. auto. }
      intros s0 n H. by eapply HL. }
    apply (agree_safe _ _ _ s2); [by apply Hk, Ha1|].
    apply (agree_out names x1); try done; destruct (_ && _) in He; by injection He as <-.
Qed.

Lemma ld_cases_loops c d pid p : p_as p <> AEND ->
  lret (fun n => exists d', n = Loop d') (ld_cases c d pid p).
Proof.
  intros H. unfold ld_cases. rewrite (proj2 (Z.eqb_neq _ _) H).
  assert (forall m : L unit, lret (fun n => exists d', n = Loop d') (m;; mret (Loop d))) as Hgo.
  { intros m. eapply lret_bind; [apply lret_any|]. intros _ _. apply lret_ret. by exists d. }
  assert (forall m : L Ld, lret (fun n => exists d', n = Loop d') (d ← m; mret (Loop d))) as Hgo'.
  { intros m. eapply lret_bind; [apply lret_any|]. intros e _. apply lret_ret. by exists e. }
  assert (forall A (m : L A) k, (forall a, lret (fun n => exists d', n = Loop d') (k a)) ->
    lret (fun n => exists d', n = Loop d') (x ← m; k x)) as Hb.
  { intros A m k Hk. eapply lret_bind; [apply lret_any|auto]. }
  cbv zeta. repeat first [apply Hgo|apply Hgo'|apply Hb; intros|progress case_match|apply lret_ret; by eexists].
Qed.

Lemma ld_cases_any c c' d pid p : p_as p <> AEND -> ld_cases c d pid p = ld_cases c' d pid p.
Proof. intros H. unfold ld_cases. by rewrite (proj2 (Z.eqb_neq _ _) H). Qed.
Lemma load_loops c d i : instr_ok i -> i_as i <> AEND ->
  (forall s, load names addlib c d i s = load names addlib 0 d i s)
  /\ lret (fun n => exists d', n = Loop d') (load names addlib c d i).
Proof.
  intros [[_ Ha] Hr _ _ _ _] He. assert (i_as i <> AHISTORY) as Hh by (intros E; apply Ha; rewrite E, !elem_of_cons; auto).
  split.
  - intros s. unfold load. do 4 (apply bind_ext; intros ? ? _). rewrite !ld_take_eq by done.
    apply bind_ext. intros pid s1 _. by rewrite (ld_cases_any c 0).
  - unfold load. do 4 (eapply lret_bind; [apply lret_any|intros ? _]).
    intros s n s' H. rewrite ld_take_eq in H by done. apply bind_ok in H as (pid & s1 & _ & H).
    revert H. by apply ld_cases_loops.
Qed.

(** ** The assembler writes every instruction *)

(** Between two instructions of the last pass. *)
Record asm_ok (x : va) : Prop := {
  am_len : length (vh x) = Z.to_nat NSYM;
  am_next : 1 <= sym x < NSYM;
  am_pass : pass x <> 1 }.

(** The symbol is one, and the number can be written. *)
Definition gen_known (x : va) (g : Gen) : Prop :=
  (forall y, g_sym g = Some y -> is_Some (vsyms x !! y))
  /\ (g_type g = D_FCONST -> is_Some (ieeedtod (g_dval g))).

Definition known (x : va) (i : Instr) : Prop := gen_known x (i_from i) /\ gen_known x (i_to i).

(** What [out_sym] does: nothing, or a new number. *)
Lemma out_sym_total g x : gen_known x g -> asm_ok x ->
  exists x' n new, out_sym g x = Some (x', n, new) /\ asm_ok x'
    /\ (forall y, is_Some (vsyms x !! y) -> is_Some (vsyms x' !! y))
    /\ (new = false -> x' = x)
    /\ (new = true -> n = sym x /\ sym x' <> n /\ exists y, g_sym g = Some y
          /\ vh x' = <[Z.to_nat n := (Some y, g_name g)]> (vh x)
          /\ (exists v, vsyms x' !! y = Some v /\ v_sym v = n) /\ forall z, z <> y -> vsyms x' !! z = vsyms x !! z).
Proof.
  intros [Hs _] [Hl Hn Hp]. unfold out_sym. destruct (g_sym g) as [y|]; [|by exists x, 0, false; split_and!].
  destruct (Hs y eq_refl) as [v Hv]. rewrite Hv. cbv zeta.
  case_bool_decide as E; [by eexists x, _, false; split_and!|].
  do 3 eexists. split; [reflexivity|]. unfold NSYM in *.
  destruct (Z.leb_spec 50 (sym x + 1)) as [Hx|Hx];
    (split_and!; [split; cbn [vh sym pass]; [by rewrite length_insert|unfold NSYM; lia|done]| |done|]);
    cbn [vsyms vh sym];
    try (intros z Hz; rewrite lookup_insert_is_Some'; by right);
    (intros _; split_and!; [done|lia|]; exists y; split_and!; try done;
     [eexists; split; [by rewrite lookup_insert_eq|apply wraps_id; [lia|unfold in_s; lia]]
     |intros z Hz; by rewrite lookup_insert_ne]).
Qed.

(** [out_sym] finds a number that stands for the symbol. *)
Lemma out_sym_found g x x' n y : g_sym g = Some y -> out_sym g x = Some (x', n, false) ->
  exists v, vsyms x !! y = Some v /\ vh x !! Z.to_nat n = Some (Some y, g_name g)
    /\ n = (if (v_sym v <? 0) || (NSYM <=? v_sym v) then 0 else v_sym v).
Proof.
  unfold out_sym. intros ->. destruct (vsyms x !! y) as [v|]; [|done]. cbv zeta.
  case_bool_decide; [|done]. intros [= <- <-]. by exists v.
Qed.

(** The second time around, the numbers differ. *)
Lemma out_syms_total g1 g2 x : gen_known x g1 -> gen_known x g2 -> asm_ok x ->
  exists x' sf st, out_syms 3 g1 g2 x = Some (x', sf, st) /\ asm_ok x'
    /\ (forall y, is_Some (vsyms x !! y) -> is_Some (vsyms x' !! y)).
Proof.
  intros H1 H2 Ha. cbn [out_syms].
  destruct (out_sym_total g1 x H1 Ha) as (x1 & n1 & w1 & E1 & A1 & K1 & F1 & T1). rewrite E1.
  destruct (out_sym_total g2 x1) as (x2 & n2 & w2 & E2 & A2 & K2 & F2 & T2); [by split; [intros y Hy; apply K1, H2|apply H2]|done|].
  rewrite E2. destruct (w2 && (n2 =? n1)) eqn:E; [|do 3 eexists; split_and!; [done|done|auto]].
  apply andb_true_iff in E as [-> ->%Z.eqb_eq]. destruct (T2 eq_refl) as (En & _ & y2 & G2 & V2 & (v2 & L2 & S2) & O2).
  destruct w1; [by destruct (T1 eq_refl) as (-> & ? & _)|]. pose proof (F1 eq_refl) as ->.
  destruct (out_sym_total g1 x2) as (x3 & n3 & w3 & E3 & A3 & K3 & F3 & T3); [by split; [intros y Hy; apply K2, H1|apply H1]|done|].
  rewrite E3.
  destruct (out_sym_total g2 x3) as (x4 & n4 & w4 & E4 & A4 & K4 & F4 & T4);
    [by split; [intros y Hy; apply K3, K2, H2|apply H2]|done|].
  rewrite E4. destruct (w4 && (n4 =? n3)) eqn:E; [|do 3 eexists; split_and!; [done|done|auto]].
  exfalso. apply andb_true_iff in E as [-> ->%Z.eqb_eq]. destruct (T4 eq_refl) as (En4 & _ & _).
  destruct w3; [by destruct (T3 eq_refl) as (-> & ? & _)|].
  (* the number of the first symbol has been taken *)
  destruct (g_sym g1) as [y1|] eqn:G1.
  2:{ unfold out_sym in E1. rewrite G1 in E1. injection E1 as <-. destruct Ha as [_ ? _]. lia. }
  destruct (out_sym_found g1 x _ n1 y1 G1 E1) as (v & Hv & Hs & En1).
  destruct (out_sym_found g1 x2 _ n3 y1 G1 E3) as (v' & Hv' & Hs' & En3).
  destruct Ha as [Hlen Hnx _]. rewrite V2 in Hs'.
  assert (n3 = n1) as ->.
  { destruct (decide (y1 = y2)) as [<-|Hne].
    - rewrite L2 in Hv'. injection Hv' as <-. rewrite S2 in En3.
      rewrite (proj2 (Z.ltb_ge _ _)), (proj2 (Z.leb_gt _ _)) in En3 by (rewrite En; lia). done.
    - rewrite O2 in Hv' by done. rewrite Hv in Hv'. injection Hv' as <-. by rewrite En1. }
  rewrite list_lookup_insert_eq in Hs' by (rewrite Hlen, En; lia). injection Hs' as -> Hname.
  assert (out_sym g2 x = Some (x, n1, false)) as E; [|by rewrite E in E2].
  unfold out_sym in E1 |- *. rewrite G2. rewrite G1 in E1. rewrite Hv in E1 |- *. cbv zeta in E1 |- *.
  rewrite Hname. revert E1. case_bool_decide; [|done]. by intros [= <-].
Qed.

Lemma gen_value_total x g : gen_ok g -> gen_known x g -> is_Some (gen_value g).
Proof.
  intros [Ht _ _ _ _] [_ Hf]. unfold gen_value.
  destruct (bool_decide (g_type g ∈ [D_NONE; _; _; _; _; _; _])) eqn:E1; [done|]. apply bool_decide_eq_false in E1.
  destruct (bool_decide _) eqn:E2; [done|]. apply bool_decide_eq_false in E2. rewrite number_types in E2.
  destruct Ht as [?|[?|[->|E]]]; [done|done|done|]. destruct (Hf E) as [[l h] Hlh]. rewrite E, Hlh. done.
Qed.

Lemma emit_total i x : instr_ok i -> known x i -> asm_ok x ->
  exists x', emit i x = Some x' /\ asm_ok x' /\ (forall j, known x j -> known x' j) /\ exists bs, obuf x' = obuf x ++ bs.
Proof.
  intros [_ _ _ _ Hf Ht] [K1 K2] Ha. unfold emit, outcode. set (x0 := vset_src (i_line i) (i_nosched i) x).
  assert (asm_ok x0) as Ha0 by (destruct Ha; by split).
  rewrite (proj2 (Z.eqb_neq _ 1)) by apply Ha0.
  destruct (out_syms_total (i_from i) (i_to i) x0) as (x1 & sf & st & Eo & A1 & Hd); [done..|]. rewrite Eo.
  destruct (out_syms_obuf _ _ _ _ _ _ _ Eo) as [b0 Eb0].
  unfold VaOut.zaddr. destruct (gen_value_total x _ Hf K1) as [b1 ->], (gen_value_total x _ Ht K2) as [b2 ->].
  eexists. split; [reflexivity|].
  split; [destruct A1; by destruct (_ && _); split|]. split.
  - intros j [[L1 L2] [L3 L4]]. split; (split; [intros y Hy|done]); destruct (_ && _); cbn; apply Hd; auto.
  - assert (obuf x0 = obuf x) as Ex by done. destruct (_ && _); cbn [obuf vset_pc]; rewrite !puts_obuf, Eb0, Ex, <- !app_assoc; by eexists.
Qed.

Lemma assemble_total l x : Forall instr_ok l -> Forall (known x) l -> asm_ok x ->
  exists x' bs, assemble l x = Some x' /\ obuf x' = obuf x ++ bs.
Proof.
  revert x. induction l as [|i l IH]; intros x Hi Hk Ha; [exists x, []; by rewrite app_nil_r|].
  apply list.Forall_cons in Hi as [Hi Hl], Hk as [Hk Hkl]. cbn [assemble].
  destruct (emit_total i x Hi Hk Ha) as (x1 & -> & A1 & K1 & b1 & B1).
  destruct (IH x1 Hl) as (x' & b2 & E & B2); [by eapply Forall_impl|done|].
  exists x', (b1 ++ b2). split; [done|]. by rewrite B2, B1, app_assoc.
Qed.

(** ** The whole object *)

(** The end of the object: nothing is left, and the loader returns. *)
Lemma load_end d e : i_as e = AEND -> 0 <= i_reg e <= NREG -> lret (fun n => n = Return) (load names addlib 0 d e).
Proof.
  intros He Hr. unfold load. do 2 (eapply lret_bind; [apply lret_any|intros ? _]).
  eapply lret_bind; [apply lret_any|intros a1 _]. eapply lret_bind; [apply lret_any|intros a2 _].
  intros s n s' H. rewrite ld_take_eq in H by (cbn; by rewrite ?He).
  apply bind_ok in H as (pid & s1 & _ & H). revert s1 n s' H.
  assert (lret (fun n => n = Return) (ld_cases 0 d pid (instr_prog e a1 a2))) as HL; [|exact HL].
  unfold ld_cases. cbn [instr_prog p_as]. rewrite He.
  do 3 (eapply lret_bind; [apply lret_any|intros ? _]). by apply lret_ret.
Qed.

Lemma agree_asm x h s : agree names x h s -> asm_ok x.
Proof. intros [H1 _ _ H4 H5 _ _ _]. by split. Qed.

Lemma object_read l e x x' bs r s d :
  Forall instr_ok l -> Forall (fun i => i_as i <> AEND) l -> instr_ok e -> i_as e = AEND ->
  Forall (known x) (l ++ [e]) -> agree names x (hs r) s ->
  assemble (l ++ [e]) x = Some x' -> obuf x' = obuf x ++ bs -> at_stream r bs ->
  exists k, forall f, ld_loop addlib (k + f) r d s = load_all names addlib l e d s.
Proof.
  revert x bs r s d. induction l as [|i l IH]; intros x bs r s d Hi Hn He Ee Hk Ha Hx Hb Hr.
  - cbn [app assemble] in Hx. destruct (emit e x) as [x1|] eqn:Ex; [|done]. injection Hx as ->.
    rewrite <- (app_nil_r bs) in Hr.
    destruct (emit_read x e x' r s bs [] Ha He Ex Hb Hr) as (r' & k & _ & Hk' & _).
    exists (k + 1)%nat. intros f. rewrite <- Nat.add_assoc. cbn [Nat.add].
    rewrite Hk'. cbn [load_all]. pose proof (load_end d e Ee (ok_ireg _ He)) as HL.
    unfold mbind, L_bind. destruct (load names addlib _ d e s) as [n s1| | |] eqn:E; [|done..].
    by rewrite (HL _ _ _ E).
  - apply list.Forall_cons in Hi as [Hi Hil], Hn as [Hn Hnl]. cbn [app] in Hk. apply list.Forall_cons in Hk as [Hk Hkl].
    cbn [app assemble] in Hx. destruct (emit_total i x Hi Hk (agree_asm _ _ _ Ha)) as (x1 & Ex & A1 & K1 & b1 & B1).
    rewrite Ex in Hx. assert (Forall (known x1) (l ++ [e])) as Hkl1 by (by eapply Forall_impl).
    destruct (assemble_total (l ++ [e]) x1) as (x2 & b2 & Ex2 & B2); [apply Forall_app; split; [done|by constructor]|done|done|].
    rewrite Hx in Ex2. injection Ex2 as <-.
    assert (bs = b1 ++ b2) as -> by (apply (app_inv_head (obuf x)); by rewrite <- Hb, B2, B1, app_assoc).
    destruct (emit_read x i x1 r s b1 b2 Ha Hi Ex B1 Hr) as (r' & k & Hr' & Hk' & Ha').
    destruct (load_loops (Z.of_nat (length b2)) d i Hi Hn) as [L1 L2].
    cbn [load_all]. destruct (load names addlib (Z.of_nat (length b2)) d i s) as [n s1| | |] eqn:E.
    2-4: exists (k + 1)%nat; intros f; rewrite <- Nat.add_assoc; cbn [Nat.add]; rewrite Hk';
      unfold mbind, L_bind; by rewrite <- L1, E.
    destruct (L2 _ _ _ E) as [d' ->].
    destruct (IH x1 b2 r' s1 d' Hil Hnl He Ee Hkl1 (Ha' _ _ _ _ E) Hx B2 Hr') as [k2 Hk2].
    exists (k + S k2)%nat. intros f. replace (k + S k2 + f)%nat with (k + S (k2 + f))%nat by lia.
    rewrite Hk', (bind_to _ _ _ _ _ E). cbn [continue]. rewrite Hk2.
    rewrite L1 in E. by rewrite (bind_to _ _ _ _ _ E).
Qed.
End Emit.

(** What the assembler may be given: instructions it knows, of symbols and numbers it knows, and
    the end of the object behind them. *)
Record object_ok (l : list Instr) (e : Instr) (x : va) (names : Z -> list Z) : Prop := {
  ob_instr : Forall instr_ok l;
  ob_noend : Forall (fun i => i_as i <> AEND) l;
  ob_end : instr_ok e /\ i_as e = AEND;
  ob_known : Forall (known x) (l ++ [e]);
  ob_pass : pass x <> 1;
  ob_obuf : obuf x = [];
  ob_names : forall y v, vsyms x !! y = Some v -> v_name v = names y /\ name_ok (names y) }.

(** The linker can take one more object file. *)
Record linker_ok (s : vl) : Prop := {
  lk_chain : forall h y, y ∈ chain h s -> is_Some (syms s !! y);
  lk_next : forall y, is_Some (syms s !! y) -> y < nexts s;
  lk_version : in_s 16 (version s + 1) }.

Lemma ld_new_state d s : ld_new d s = LOk (mkLd (di d) (pc s) false) (lset_histfrog [] (lset_version (s32 (version s + 1)) s)).
Proof. done. Qed.

Lemma agree_new names l e x d s n s' : object_ok l e x names -> linker_ok s -> ld_new d s = LOk n s' ->
  agree names (pinit_syms x) no_names s'.
Proof.
  intros [_ _ _ _ Hp _ Hn] [Hc Ht Hv]. rewrite ld_new_state. intros [= <- <-].
  assert (s32 (version s + 1) = version s + 1) as Ev by (apply wraps_id; [lia|unfold in_s in *; lia]).
  split; cbn [pinit_syms vh sym pass vsyms]; try done.
  - split; [exact Hc|exact Ht|]. by simpl; rewrite Ev.
  - intros i y t Hi. cbn [pinit_syms vh] in Hi; apply lookup_replicate_1 in Hi as [[=] _].
Qed.

(** C3: the object file the assembler writes for instructions (the names of their symbols where
    they are first used or their numbers have been given to others, the operands with their
    values, the end) is one that the linker's loop over the bytes, whatever way the file falls
    into its buffer, loads to the effect of loading the instructions one after the other: the
    same symbols, blocks, local variables, program and messages, without reading beyond the
    end. The assembler does write it, for every sequence of instructions it knows. *)
Theorem ldobj_assembled (names : Z -> list Z) (addlib : L unit) (l : list Instr) (e : Instr) (x : va) (s : vl) :
  object_ok l e x names -> linker_ok s ->
  exists x', assemble (l ++ [e]) (pinit_syms x) = Some x'
    /\ exists k, forall f,
         ldobj addlib (k + f) (obuf x') (Z.of_nat (length (obuf x'))) s
         = (d ← ld_new (mkLd None 0 false); load_all names addlib l e d) s.
Proof.
  intros Ho Hs. pose proof Ho as [Hi Hn [He Ee] Hk Hp Hb Hnm].
  set (x0 := pinit_syms x). assert (asm_ok x0) as Ha by (split; cbn; [done|done|done]).
  assert (Forall (known x0) (l ++ [e])) as Hk0 by exact Hk.
  destruct (assemble_total (l ++ [e]) x0) as (x' & bs & Ex & B); [apply Forall_app; split; [done|by constructor]|done|done|].
  exists x'. split; [done|]. assert (obuf x' = bs) as Eb by (rewrite B; cbn; by rewrite Hb). rewrite Eb.
  destruct (ld_new (mkLd None 0 false) s) as [d s1| | |] eqn:E; [|by rewrite ld_new_state in E..].
  pose proof (agree_new _ _ _ _ _ _ _ _ Ho Hs E) as Hag.
  destruct (object_read names addlib l e x0 x' bs (mkRd [] bs (Z.of_nat (length bs)) no_names) s1 d) as [k Hk1]; try done.
  exists k. intros f. unfold ldobj. by rewrite !(bind_to _ _ _ _ _ E).
Qed.

(** ** An object *)

Definition demo_names (y : Z) : list Z := if y =? 0 then [109; 97; 105; 110] else [120; 43; y].

Definition demo_syms : gmap Z VSym := {[0 := mkVSym (demo_names 0) 0; 1 := mkVSym (demo_names 1) 0]}.

Definition demo_va : va := mkva demo_syms [] 1 [] 1 0 0 2.

Definition greg (r : Z) : Gen := mkGen None 0 D_REG r D_NONE 0 (replicate 8 0).
Definition gmem (y n o : Z) : Gen := mkGen (Some y) o D_OREG NREG n 0 (replicate 8 0).
Definition gcon (v : Z) : Gen := mkGen None v D_CONST NREG D_NONE 0 (replicate 8 0).
Definition gfcon (v : Z) : Gen := mkGen None 0 D_FCONST NREG D_NONE v (replicate 8 0).
Definition gfreg (r : Z) : Gen := mkGen None 0 D_FREG r D_NONE 0 (replicate 8 0).

(** [TEXT main(SB), $8; MOVW x(SB), R1; MOVW R1, x-4(SP); MOVD $1.5, F2; RET] *)
Definition demo_instrs : list Instr :=
  [mkInstr ATEXT (gmem 0 D_EXTERN 0) NREG (gcon 8) 3 0;
   mkInstr AMOVW (gmem 1 D_EXTERN 0) NREG (greg 1) 4 0;
   mkInstr AMOVW (greg 1) NREG (gmem 1 D_AUTO (-4)) 5 0x80;
   mkInstr AMOVD (gfcon 0x3ff8000000000000) NREG (gfreg 2) 6 0;
   mkInstr ARET nullgen NREG nullgen 7 0].

Lemma demo_names_ok y : y = 0 \/ y = 1 -> name_ok (demo_names y).
Proof.
  intros [-> | ->]; (split; [|done]); repeat constructor; done.
Qed.

Lemma gen_ok_of g :
  (0 <= g_reg g <= NREG) /\ (0 <= g_name g < 128 /\ g_name g <> D_FILE) /\ in_s 32 (g_offset g) /\ length (g_sval g) = 8%nat ->
  g_type g ∈ [D_NONE; D_REG; D_FREG; D_MREG; D_FCREG; D_LO; D_HI; D_BRANCH; D_OREG; D_CONST; D_OCONST; D_SCONST; D_FCONST] ->
  gen_ok g.
Proof.
  intros (H1 & H2 & H3 & H4) Ht. split; try done. unfold is_nothing, is_number. rewrite !elem_of_cons in *.
  rewrite elem_of_nil in Ht. tauto.
Qed.

Definition instr_okb (i : Instr) : bool :=
  let gen_okb (g : Gen) :=
    (0 <=? g_reg g) && (g_reg g <=? NREG) && (0 <=? g_name g) && (g_name g <? 128) && negb (g_name g =? D_FILE)
    && (- 2 ^ 31 <=? g_offset g) && (g_offset g <? 2 ^ 31) && Nat.eqb (length (g_sval g)) 8
    && bool_decide (g_type g ∈ [D_NONE; D_REG; D_FREG; D_MREG; D_FCREG; D_LO; D_HI; D_BRANCH; D_OREG; D_CONST;
         D_OCONST; D_SCONST; D_FCONST]) in
  (AXXX <? i_as i) && (i_as i <? ALAST) && negb (bool_decide (i_as i ∈ [ANAME; ASIGNAME; AHISTORY]))
  && (0 <=? i_reg i) && (i_reg i <=? NREG) && (- 2 ^ 31 <=? i_line i) && (i_line i <? 2 ^ 31)
  && ((i_nosched i =? 0) || (i_nosched i =? 0x80)) && gen_okb (i_from i) && gen_okb (i_to i).

Lemma instr_okb_ok i : instr_okb i = true -> instr_ok i.
Proof.
  unfold instr_okb. rewrite !andb_true_iff, orb_true_iff, !negb_true_iff, !Z.ltb_lt, !Z.leb_le, !Z.eqb_eq, !Z.eqb_neq,
    !Nat.eqb_eq, !bool_decide_eq_true, bool_decide_eq_false.
  intros H. destruct_and! H. split; unfold in_s; try done; try lia;
    apply gen_ok_of; try done; unfold in_s; cbn; split_and!; first [lia|done].
Qed.

Lemma demo_object_ok : object_ok demo_instrs (end_instr 7 0) demo_va demo_names.
Proof.
  split; try done.
  - repeat (constructor; [by apply instr_okb_ok; vm_compute|]). constructor.
  - by repeat constructor.
  - split; [by apply instr_okb_ok; vm_compute|done].
  - repeat (constructor; [split; (split;
      [intros y Hy; first [discriminate Hy|injection Hy as <-; eexists; reflexivity]
      |intros Hf; first [discriminate Hf|eexists; reflexivity]])|]).
    constructor.
  - intros y v Hv. cbn in Hv. unfold demo_syms in Hv. apply lookup_insert_Some in Hv as [[<- <-]|[_ Hv]].
    + split; [done|]. apply demo_names_ok. by left.
    + apply lookup_singleton_Some in Hv as [<- <-]. split; [done|]. apply demo_names_ok. by right.
Qed.

(** The linker before its first object file. *)
Definition fresh : vl :=
  lset_syms ∅ (lset_hash ∅ (lset_textp None (lset_lastp (Some 0) (linker {[0 := ins AGOK none none NREG None None]} 1)))).

Lemma fresh_ok : linker_ok fresh.
Proof.
  split; [| |by unfold in_s].
  - intros h y. unfold chain, fresh. cbn [hash lset_syms lset_hash]. rewrite lookup_empty. by intros ?%not_elem_of_nil.
  - intros y [v Hv]. unfold fresh in Hv. cbn [syms lset_syms] in Hv. by rewrite lookup_empty in Hv.
Qed.

Lemma ldobj_assembled_witness :
  object_ok demo_instrs (end_instr 7 0) demo_va demo_names /\ linker_ok fresh
  /\ exists x', assemble (demo_instrs ++ [end_instr 7 0]) (pinit_syms demo_va) = Some x'
     /\ exists k, forall f,
          ldobj lskip (k + f) (obuf x') (Z.of_nat (length (obuf x'))) fresh
          = (d ← ld_new (mkLd None 0 false); load_all demo_names lskip demo_instrs (end_instr 7 0) d) fresh.
Proof.
  split; [exact demo_object_ok|]. split; [exact fresh_ok|].
  apply (ldobj_assembled demo_names lskip); [exact demo_object_ok|exact fresh_ok].
Defined.

(** The bytes, and what the linker has read. *)
Definition demo_read : option (nat * Z) :=
  match assemble (demo_instrs ++ [end_instr 7 0]) (pinit_syms demo_va) with
  | Some x =>
      match ldobj lskip 20 (obuf x) (Z.of_nat (length (obuf x))) fresh with
      | LOk _ s => Some (length (obuf x), pc s)
      | _ => None
      end
  | None => None
  end.

Example demo_object_read : demo_read = Some (130%nat, 4133).
Proof. vm_compute. reflexivity. Qed.
