(* ===== verification/VlExpand.v ===== *)
(** The prologues and returns [noops] writes out: the code they are, and that a function with
    them returns where it was called from, with the stack it was called with. *)
From S2P Require Import Prelude CInt VlObj VlSym VlSpan VlPass VlSched VlNoop VlWp VlDemo VlSchedThm.

(** ** The code, as a function of the instruction *)

Definition erase (p : Prog) : Prog := pset_link None p.

(** What is known of a function after its [TEXT]: whether its link register is saved, and the
    size of its frame. *)
Record fn := mkFn { f_leaf : bool; f_size : Z }.

(** A leaf that needs no frame. *)
Definition frameless (p : Prog) : bool := (s32 (a_offset (to p) + 4) <=? 4) && marked LEAF p.

Definition text_fn (p : Prog) : fn :=
  let sz := if frameless p then 0 else s32 (a_offset (to p) + 4) in
  mkFn (marked LEAF p || (sz =? 0)) sz.

(** [MOVW R31, 0(SP)] *)
Definition save_link (line : Z) : Prog :=
  pset_line line (pset_as AMOVW
    (with_adr (fun a => aset_offset 0 (reg_adr REGLINK a)) (fun a => aset_reg REGSP (aset_type D_OREG a)) zprg)).

Definition text_head (p : Prog) : Prog :=
  let q := if frameless p then pset_to (aset_offset (-4) (to p)) p else p in
  if f_leaf (text_fn p) && negb (marked LEAF p) then pset_mark (Z.lor (p_mark q) LEAF) q else q.

Definition text_code (p : Prog) : list Prog :=
  let f := text_fn p in
  text_head p
  :: (if f_size f =? 0 then [] else [add_sp (s32 (- f_size f)) (p_line p) zprg])
  ++ (if f_leaf f then [] else [save_link (p_line p)]).

(** [p->optab = 0; p->from.class = 0; p->to.class = 0;] *)
Definition uncached (p : Prog) : Prog :=
  pset_optab 0 (pset_from (aset_class 0 (from p)) (pset_to (aset_class 0 (to p)) p)).

Definition ret_code (f : fn) (p : Prog) : list Prog :=
  let p := uncached p in
  if a_type (from p) =? D_CONST then
    let jmp := pset_mark (Z.lor 0 BRANCH)
      (pset_cond (cond p) (pset_from zadr (pset_to (to p) (pset_line (p_line p) (pset_as AJMP zprg))))) in
    if f_leaf f then
      [pset_as AADD (pset_from (con_adr (f_size f) zadr) (pset_to (reg_adr REGSP zadr) p)); jmp]
    else
      [pset_as AMOVW (pset_from (ind_adr REGSP zadr) (pset_to (reg_adr REGLINK zadr) p));
       add_sp (f_size f) (p_line p) zprg; jmp]
  else if f_leaf f then
    if f_size f =? 0 then
      [pset_mark (Z.lor (p_mark p) BRANCH) (pset_as AJMP (pset_from zadr (pset_to (ind_adr REGLINK (to p)) p)))]
    else
      [pset_as AADD (with_adr (con_adr (f_size f)) (reg_adr REGSP) p); jmp_reg REGLINK (p_line p) zprg]
  else
    pset_as AMOVW (with_adr (ind_adr REGSP) (reg_adr 2) p)
    :: (if f_size f =? 0 then [] else [add_sp (f_size f) (p_line p) zprg])
    ++ [jmp_reg 2 (p_line p) zprg].

(** The program with its prologues and returns, from the instructions [ps] on, in function [f]. *)
Fixpoint expand (f : fn) (ps : list Prog) : list Prog :=
  match ps with
  | [] => []
  | p :: ps =>
      if p_as p =? ATEXT then text_code p ++ expand (text_fn p) ps
      else if p_as p =? ARET then ret_code f p ++ expand f ps
      else p :: expand f ps
  end.

(** ** One instruction *)

Lemma insert_after_run q f x s :
  progs s !! q = Some x -> q < nextp s ->
  insert_after q f s = LOk (nextp s) (lset_nextp (nextp s + 1)
    (lset_progs (<[q := pset_link (Some (nextp s)) x]> (<[nextp s := pset_link (link x) (f zprg)]> (progs s))) s)).
Proof.
  intros Hx Hlt. unfold insert_after, prg, getp, updp, mbind, L_bind. simpl.
  rewrite lookup_insert_ne, Hx by lia. simpl. rewrite lookup_insert_eq. simpl.
  rewrite !lookup_insert_ne, Hx by lia. simpl. by rewrite insert_insert_eq.
Qed.

(** In place of [p] at [pid] there is the code [cs], on [pid] and new instructions. *)
Definition grown (s s' : vl) (pid : Z) (p : Prog) (cs : list Prog) : Prop :=
  exists ids cs', lseg (progs s') (Some pid) (pid :: ids) (link p) /\ contents (progs s') (pid :: ids) cs'
    /\ erase <$> cs' = erase <$> cs /\ Forall (fun i => nextp s <= i < nextp s') ids /\ only_on [pid] s s'.

Lemma only_on_pid pid s s' :
  nextp s <= nextp s' -> (forall y, y <> pid -> y < nextp s -> progs s' !! y = progs s !! y) -> only_on [pid] s s'.
Proof. intros H1 H2. split; [done|]. intros y Hy. rewrite list_elem_of_singleton in Hy. auto. Qed.

Lemma grown_1 s s' pid p c cs :
  progs s' !! pid = Some c -> link c = link p -> erase <$> cs = [erase c] -> only_on [pid] s s' ->
  grown s s' pid p cs.
Proof.
  intros Hc Hl He Ho. exists [], [c]. split_and!; try done.
  - split; [done|]. by exists c.
  - by apply Forall2_cons_2; [|apply Forall2_nil_2].
Qed.

Lemma grown_2 s s' pid p c a d cs :
  progs s' !! pid = Some c -> link c = Some a -> progs s' !! a = Some d -> link d = link p ->
  nextp s <= a < nextp s' -> erase <$> cs = [erase c; erase d] -> only_on [pid] s s' -> grown s s' pid p cs.
Proof.
  intros Hc Hl Hd Hl' Ha He Ho. exists [a], [c; d]. split_and!; try done.
  - split; [done|]. exists c. split; [done|]. split; [done|]. by exists d.
  - repeat (apply Forall2_cons_2; [done|]). apply Forall2_nil_2.
  - by rewrite list.Forall_singleton.
Qed.

Lemma grown_3 s s' pid p c a d b e cs :
  progs s' !! pid = Some c -> link c = Some a -> progs s' !! a = Some d -> link d = Some b ->
  progs s' !! b = Some e -> link e = link p -> nextp s <= a < nextp s' -> nextp s <= b < nextp s' ->
  erase <$> cs = [erase c; erase d; erase e] -> only_on [pid] s s' -> grown s s' pid p cs.
Proof.
  intros Hc Hl Hd Hl' He Hl'' Ha Hb Hcs Ho. exists [a; b], [c; d; e]. split_and!; try done.
  - split; [done|]. exists c. split; [done|]. split; [done|]. exists d. split; [done|]. split; [done|]. by exists e.
  - repeat (apply Forall2_cons_2; [done|]). apply Forall2_nil_2.
  - by rewrite list.Forall_cons, list.Forall_singleton.
Qed.

(** Look-ups in a store that is a stack of updates. *)
Ltac look :=
  simpl; repeat first [ rewrite lookup_insert_eq | rewrite lookup_insert_ne by lia ]; try done.

(** *** TEXT *)

(** The function the pass is in: its [TEXT] is not among the instructions [l] to come. *)
Definition in_fn (s : vl) (f : fn) (l : list Z) : Prop :=
  autosize s = f_size f /\ exists t c, curtext s = Some t /\ progs s !! t = Some c /\ marked LEAF c = f_leaf f
    /\ (t ∉ l) /\ t < nextp s.

(** The symbols stay. *)
Definition same_syms (s s' : vl) : Prop := forall y, is_Some (syms s !! y) -> is_Some (syms s' !! y).

Lemma marked_lor p m : Z.land m m = m -> m <> 0 -> marked m (pset_mark (Z.lor (p_mark p) m) p) = true.
Proof.
  intros Hm H0. unfold marked. simpl. apply negb_true_iff, Z.eqb_neq. rewrite Z.land_lor_distr_l, Hm.
  by intros [_ ?]%Z.lor_eq_0_iff.
Qed.

(** [if(curtext->from.sym) curtext->from.sym->type = SLEAF;] *)
Lemma sleaf_run X (a : Adr) (Q : unit -> vl -> Prop) s :
  (forall y, a_sym a = Some y -> is_Some (syms s !! y)) ->
  (forall m, same_syms s (lset_syms m s) -> Q tt (lset_syms m s)) ->
  lwp X (match a_sym a with Some y => updsym y (sset_type SLEAF) | None => lskip end) Q s.
Proof.
  intros Hy H. destruct (a_sym a) as [y|].
  - destruct (Hy y eq_refl) as [x Hx]. eapply lwp_updsym'; [exact Hx|]. apply H.
    intros z [w Hz]. simpl. destruct (decide (z = y)) as [->|]; [by rewrite lookup_insert_eq|].
    rewrite lookup_insert_ne by done. by exists w.
  - eapply lwp_ok; [done|]. specialize (H (syms s)).
    assert (lset_syms (syms s) s = s) as E by (by destruct s). rewrite E in H. apply H. by intros ?.
Qed.

Section Text.
Context (pid : Z) (p : Prog) (s : vl) (l : list Z).
Context (Hp : progs s !! pid = Some p) (Hlt : pid < nextp s) (Hl : pid ∉ l).
Context (Hy : forall y, a_sym (from p) = Some y -> is_Some (syms s !! y)).

Definition text_done (s' : vl) : Prop :=
  grown s s' pid p (text_code p) /\ in_fn s' (text_fn p) l /\ same_syms s s' /\ firstp s' = firstp s.

(** The [TEXT] alone, as [c]. *)
Lemma text_done_1 c m s' :
  text_code p = [c] -> link c = link p -> marked LEAF c = f_leaf (text_fn p) -> f_size (text_fn p) = 0 ->
  progs s' = <[pid := c]> (progs s) -> nextp s' = nextp s -> curtext s' = Some pid -> autosize s' = 0 ->
  syms s' = syms s -> firstp s' = firstp s -> same_syms s' (lset_syms m s') -> text_done (lset_syms m s').
Proof.
  intros Hc Hlc Hm H0 Ep En Ec Ea Es Ef Hs. split; [|split; [|split]]; simpl; try done.
  - rewrite Hc. apply (grown_1 _ _ _ _ c); simpl; rewrite ?Ep; [look|done|done|].
    apply only_on_pid; simpl; [lia|]. intros y Hy' _. rewrite Ep. look.
  - split; [by rewrite H0|]. exists pid, c. simpl. rewrite Ep, En. split_and!; try done; look.
  - intros y H. rewrite <- Es in H. by apply Hs.
Qed.

(** No frame: the leaf stays as it is, or the function is one because it has no frame. *)
Lemma text_frameless : f_size (text_fn p) = 0 -> lwp noexit (text_step pid) (fun _ s' => text_done s') s.
Proof.
  intros H0. unfold text_step. apply lwp_modify. eapply lwp_getp; [done|]. apply lwp_modify, lwp_get. simpl.
  change ((s32 (a_offset (to p) + 4) <=? 4) && marked LEAF p) with (frameless p).
  destruct (frameless p) eqn:Ef.
  - assert (marked LEAF p = true) as Hm by (by apply andb_true_iff in Ef as [_ ?]).
    apply lwp_bind, lwp_bind. eapply lwp_updp'; [done|]. eapply lwp_ok; [done|]. apply lwp_get. simpl. rewrite Hm.
    apply lwp_bind, lwp_skip, lwp_ret. eapply lwp_getp; [look|].
    change (marked LEAF _) with (marked LEAF p). rewrite Hm. simpl. apply sleaf_run; [done|].
    intros m Hs. apply (text_done_1 (pset_to (aset_offset (-4) (to p)) p)); try done.
    + unfold text_code, text_head, text_fn. rewrite Ef, Hm. reflexivity.
    + unfold text_fn. rewrite Hm. done.
  - unfold text_fn in H0. rewrite Ef in H0. simpl in H0. apply lwp_skip, lwp_get. simpl. rewrite H0. simpl.
    apply lwp_bind, lwp_bind.
    assert (marked LEAF p = false) as Hm by (unfold frameless in Ef; rewrite H0 in Ef; exact Ef).
    rewrite Hm. eapply lwp_updp'; [done|]. apply lwp_ret. eapply lwp_getp; [look|].
    rewrite marked_lor by done. simpl. apply sleaf_run; [done|].
    intros m Hs. apply (text_done_1 (pset_mark (Z.lor (p_mark p) LEAF) p)); try done.
    + unfold text_code, text_head, text_fn. rewrite Ef, Hm, H0. reflexivity.
    + rewrite marked_lor by done. unfold text_fn. rewrite Ef, H0. simpl. by rewrite orb_true_r.
    + unfold text_fn. by rewrite Ef, H0.
Qed.

(** A frame: the stack pointer moves, and unless the function is a leaf the link is saved. *)
Lemma text_framed : f_size (text_fn p) <> 0 -> lwp noexit (text_step pid) (fun _ s' => text_done s') s.
Proof.
  intros H0. unfold text_step. apply lwp_modify. eapply lwp_getp; [done|]. apply lwp_modify, lwp_get. simpl.
  change ((s32 (a_offset (to p) + 4) <=? 4) && marked LEAF p) with (frameless p).
  assert (frameless p = false) as Ef.
  { unfold text_fn in H0. destruct (frameless p); [by destruct H0|done]. }
  assert (f_size (text_fn p) = s32 (a_offset (to p) + 4)) as Esz by (unfold text_fn; by rewrite Ef).
  rewrite Esz in H0. apply Z.eqb_neq in H0.
  assert (f_leaf (text_fn p) = marked LEAF p) as Elf by (unfold text_fn; rewrite Ef, H0; apply orb_false_r).
  rewrite Ef. apply lwp_skip, lwp_get. simpl. rewrite H0. simpl.
  eapply lwp_run; [apply insert_after_run; [exact Hp|exact Hlt]|]. simpl.
  eapply lwp_getp; [look|]. change (marked LEAF (pset_link _ _)) with (marked LEAF p).
  assert (text_code p = p :: add_sp (s32 (- s32 (a_offset (to p) + 4))) (p_line p) zprg
            :: (if marked LEAF p then [] else [save_link (p_line p)])) as Ecode.
  { unfold text_code, text_head. rewrite Esz, Elf, Ef, H0. simpl. by destruct (marked LEAF p). }
  destruct (marked LEAF p) eqn:Hm.
  - apply sleaf_run; [done|]. intros m Hs. unfold text_done. rewrite Ecode. split; [|split; [|split]]; simpl; try done.
    + eapply (grown_2 _ _ _ _ _ (nextp s)); simpl; [look|done|look|done|lia|done|].
      apply only_on_pid; simpl; [lia|]. intros y Hy' Hlt'. look.
    + split; [exact (eq_sym Esz)|]. do 2 eexists. simpl. split_and!; [done|look|exact (eq_trans Hm (eq_sym Elf))|done|lia].
  - eapply lwp_run.
    { apply insert_after_run; simpl; [look|lia]. }
    simpl. eapply lwp_ok; [done|]. unfold text_done. rewrite Ecode. split; [|split; [|split]]; simpl; try done.
    + eapply (grown_3 _ _ _ _ _ (nextp s) _ (nextp s + 1)); simpl;
        [look|done|look|done|look|done|lia|lia|done|].
      apply only_on_pid; simpl; [lia|]. intros y Hy' Hlt'. look.
    + split; [exact (eq_sym Esz)|]. do 2 eexists. simpl. split_and!; [done|look|exact (eq_trans Hm (eq_sym Elf))|done|lia].
    + by intros ?.
Qed.

Lemma text_run : lwp noexit (text_step pid) (fun _ s' => text_done s') s.
Proof.
  destruct (Z.eq_dec (f_size (text_fn p)) 0); [by apply text_frameless|by apply text_framed].
Qed.
End Text.

(** *** RET *)

Lemma in_fn_grown s s' pid p cs f l :
  in_fn s f l -> grown s s' pid p cs -> (forall t, curtext s = Some t -> t <> pid) ->
  autosize s' = autosize s -> curtext s' = curtext s -> in_fn s' f l.
Proof.
  intros (Ha & t & c & Ht & Hc & Hm & Hl & Hlt) (ids & cs' & _ & _ & _ & _ & Hn & Ho) Hne Ea Ec.
  split; [by rewrite Ea|]. exists t, c. rewrite Ec, Ho by (rewrite ?list_elem_of_singleton; auto).
  split_and!; (done || lia).
Qed.

Section Ret.
Context (pid : Z) (p : Prog) (s : vl) (l : list Z) (f : fn).
Context (Hp : progs s !! pid = Some p) (Hlt : pid < nextp s) (Hf : in_fn s f (pid :: l)).

Definition ret_done (s' : vl) : Prop :=
  grown s s' pid p (ret_code f p) /\ in_fn s' f l /\ same_syms s s' /\ firstp s' = firstp s.

Lemma ret_done_grown s' :
  grown s s' pid p (ret_code f p) -> autosize s' = autosize s -> curtext s' = curtext s -> syms s' = syms s ->
  firstp s' = firstp s -> ret_done s'.
Proof.
  intros Hg Ea Ec Es Ef. split; [done|]. split; [|split; [intros y; by rewrite Es|done]].
  eapply in_fn_grown; [|exact Hg|..]; try done.
  - destruct Hf as (H1 & t & c & H2 & H3 & H4 & H5 & H6). split; [done|]. exists t, c.
    split_and!; try done. intros Ht. apply H5. by right.
  - intros t Ht ->. destruct Hf as (_ & t & c & H2 & _ & _ & H5 & _). rewrite Ht in H2. injection H2 as <-.
    apply H5. by left.
Qed.

Lemma ret_run : lwp noexit (ret_step pid) (fun _ s' => ret_done s') s.
Proof.
  destruct Hf as (Ha & t & c & Ht & Hc & Hm & Hl & _).
  assert (t <> pid) as Hne by (intros ->; apply Hl; by left).
  unfold ret_step, nocache. eapply lwp_updp; [exact Hp|]. eapply lwp_getp; [look|]. apply lwp_get. simpl. rewrite Ht.
  unfold getpo. eapply lwp_getp; [look|]. apply lwp_get. simpl. rewrite Hm, Ha.
  assert (forall s', nextp s <= nextp s' -> (forall y, y <> pid -> y < nextp s -> progs s' !! y = progs s !! y) ->
            only_on [pid] s s') as Ho by (intros; by apply only_on_pid).
  pose proof ret_done_grown as Hd. unfold ret_code, uncached in Hd. revert Hd.
  set (u := pset_optab 0 (pset_from (aset_class 0 (from p)) (pset_to (aset_class 0 (to p)) p))).
  change (a_type (from u)) with (a_type (from p)). intros Hd. destruct (a_type (from p) =? D_CONST).
  { unfold become_ret. eapply lwp_getp; [look|].
    eapply lwp_run; [apply insert_after_run; simpl; [look|lia]|]. simpl. destruct (f_leaf f).
    - eapply lwp_updp'; [look|]. apply Hd; try done.
      eapply (grown_2 _ _ _ _ _ (nextp s)); simpl; [look|done|look|done|lia|done|].
      apply Ho; simpl; [lia|]. intros y Hy' Hlt'. look.
    - eapply lwp_run; [apply insert_after_run; simpl; [look|lia]|]. simpl.
      eapply lwp_updp'; [look|]. apply Hd; try done.
      eapply (grown_3 _ _ _ _ _ (nextp s + 1) _ (nextp s)); simpl; [look|done|look|done|look|done|lia|lia|done|].
      apply Ho; simpl; [lia|]. intros y Hy' Hlt'. look. }
  destruct (f_leaf f).
  { destruct (f_size f =? 0).
    - eapply lwp_updp'; [look|]. apply Hd; try done.
      eapply (grown_1 _ _ _ _ _); simpl; [look|done|done|]. apply Ho; simpl; [lia|]. intros y Hy' Hlt'. look.
    - eapply lwp_updp; [look|]. eapply lwp_run; [apply insert_after_run; simpl; [look|lia]|]. simpl.
      eapply lwp_ok; [done|]. apply Hd; try done.
      eapply (grown_2 _ _ _ _ _ (nextp s)); simpl; [look|done|look|done|lia|done|].
      apply Ho; simpl; [lia|]. intros y Hy' Hlt'. look. }
  eapply lwp_updp; [look|]. destruct (f_size f =? 0); simpl.
  - apply lwp_bind, lwp_ret. eapply lwp_run; [apply insert_after_run; simpl; [look|lia]|]. simpl.
    eapply lwp_ok; [done|]. apply Hd; try done.
    eapply (grown_2 _ _ _ _ _ (nextp s)); simpl; [look|done|look|done|lia|done|].
    apply Ho; simpl; [lia|]. intros y Hy' Hlt'. look.
  - eapply lwp_run; [apply insert_after_run; simpl; [look|lia]|]. simpl.
    eapply lwp_run; [apply insert_after_run; simpl; [look|lia]|]. simpl.
    eapply lwp_ok; [done|]. apply Hd; try done.
    eapply (grown_3 _ _ _ _ _ (nextp s) _ (nextp s + 1)); simpl; [look|done|look|done|look|done|lia|lia|done|].
    apply Ho; simpl; [lia|]. intros y Hy' Hlt'. look.
Qed.
End Ret.

(** ** The program *)

(** The instructions to come, in the function [f] unless a [TEXT] comes first. *)
Definition ready (s : vl) (f : fn) (l : list Z) (ps : list Prog) : Prop :=
  (exists p ps', ps = p :: ps' /\ p_as p = ATEXT) \/ in_fn s f l.

Definition texts_named (s : vl) (ps : list Prog) : Prop :=
  Forall (fun p => forall y, a_sym (from p) = Some y -> is_Some (syms s !! y)) ps.

(** Neither a [TEXT] nor a [RET]. *)
Definition inert (p : Prog) : bool := negb (p_as p =? ATEXT) && negb (p_as p =? ARET).

Lemma each_inert ids cs : forall n p e s,
  lseg (progs s) p ids e -> contents (progs s) ids cs -> Forall (fun c => inert c = true) cs ->
  (length ids <= n)%nat -> each_prog n expand_step p s = each_prog (n - length ids) expand_step e s.
Proof.
  revert cs. induction ids as [|i ids IH]; intros cs n p e s Hl Hc Hi Hn.
  { simpl in *. by rewrite Hl, Nat.sub_0_r. }
  apply list.Forall2_cons_inv_l in Hc as (c & cs' & Hc & Hcs & ->). destruct Hl as (-> & q & Hq & Hl).
  rewrite Hc in Hq. injection Hq as <-. apply list.Forall_cons in Hi as [Hi1 Hi].
  destruct n as [|n]; [simpl in Hn; lia|]. simpl. unfold mbind, L_bind, expand_step at 1, getp, mbind, L_bind. rewrite Hc.
  apply andb_true_iff in Hi1 as [E1 E2]. apply negb_true_iff in E1, E2. rewrite E1, E2.
  unfold lskip, mret, L_ret. simpl. rewrite ?Hc. apply (IH cs'); [done..|simpl in Hn; lia].
Qed.

(** The new code has at most two instructions more, and they are no [TEXT] and no [RET]. *)
Definition tail_ok (cs : list Prog) : Prop :=
  (length cs <= 3)%nat /\ Forall (fun c => inert c = true) (drop 1 cs).

Lemma text_tail p : tail_ok (text_code p).
Proof. unfold tail_ok, text_code. repeat case_match; simpl; (split; [lia|repeat constructor]). Qed.

Lemma ret_tail f p : tail_ok (ret_code f p).
Proof. unfold tail_ok, ret_code. repeat case_match; simpl; (split; [lia|repeat constructor]). Qed.

Lemma erase_inert cs cs' :
  erase <$> cs = erase <$> cs' -> Forall (fun c => inert c = true) cs' -> Forall (fun c => inert c = true) cs.
Proof.
  revert cs'. induction cs as [|c cs IH]; intros cs' E Hi; [constructor|].
  destruct cs' as [|c' cs']; [done|]. apply list.Forall_cons in Hi as [Hi1 Hi2].
  assert (erase c = erase c') as E1 by (injection E; intros; unfold erase, pset_link; congruence).
  assert (erase <$> cs = erase <$> cs') as E2 by by injection E.
  constructor; [|by apply (IH cs')]. unfold inert in *.
  pose proof (f_equal p_as E1) as Ea. simpl in Ea. by rewrite Ea.
Qed.

(** The loop, after one instruction has become the code [cs]. *)
Lemma each_grown n pid p s s' cs :
  progs s !! pid = Some p -> grown s s' pid p cs -> tail_ok cs -> expand_step pid s = LOk tt s' -> (3 <= n)%nat ->
  exists k, (n - 3 <= k)%nat /\ each_prog n expand_step (Some pid) s = each_prog k expand_step (link p) s'.
Proof.
  intros Hp (ids & cs' & Hl & Hc & He & _) [Hlen Ht] Hst Hn.
  destruct n as [|n]; [lia|]. simpl. unfold mbind, L_bind, getp. rewrite Hst.
  destruct Hl as (_ & q & Hq & Hl). rewrite Hq.
  apply list.Forall2_cons_inv_l in Hc as (c & cs'' & Hc & Hcs & ->).
  assert (length cs'' = length ids) as E1 by (symmetry; exact (Forall2_length Hcs)).
  assert (length cs = S (length ids)) as E2.
  { apply (f_equal length) in He. rewrite !length_fmap in He. simpl in He. lia. }
  exists (n - length ids)%nat. split; [lia|]. eapply each_inert; [done|done| |lia].
  destruct cs as [|c0 cs]; [done|]. injection He as _ He. by eapply erase_inert.
Qed.

Lemma grown_linked s s' pid p cs l2 :
  grown s s' pid p cs -> forall s2 l ps, only_on l s' s2 -> (pid ∉ l) -> pid < nextp s ->
  Forall (fun i => i < nextp s) l ->
  linked (progs s2) (link p) l2 -> contents (progs s2) l2 ps ->
  exists l3 ps', linked (progs s2) (Some pid) l3 /\ contents (progs s2) l3 ps' /\ erase <$> ps' = erase <$> (cs ++ ps).
Proof.
  intros (ids & cs' & Hl & Hc & He & Hr & Hn & _) s2 l ps Ho Hpl Hlt Hal H2 H3.
  assert (same_on (pid :: ids) (progs s') (progs s2)) as Hs.
  { apply (only_on_same l); [done|]. intros y [->|Hy]%elem_of_cons; [split; [done|lia]|].
    apply (proj1 (list.Forall_forall _ _) Hr) in Hy. simpl in Hy. split; [|lia]. intros Hy'.
    apply (proj1 (list.Forall_forall _ _) Hal) in Hy'. simpl in Hy'. lia. }
  exists ((pid :: ids) ++ l2), (cs' ++ ps). split_and!.
  - apply (lseg_same _ _ _ _ _ Hs) in Hl. revert Hl H2. clear. generalize (pid :: ids) (Some pid) (link p).
    intros k. induction k as [|x k IH]; intros a b; simpl; [by intros ->|].
    intros (-> & q & Hq & Hk) H2. split; [done|]. exists q. split; [done|]. by eapply IH.
  - apply Forall2_app; [|done]. by eapply contents_same.
  - by rewrite !fmap_app, He.
Qed.

Lemma lwp_returns {A} (m : L A) Q s : lwp noexit m Q s -> exists a s', m s = LOk a s' /\ Q a s'.
Proof. unfold lwp. destruct (m s) as [a s'| | |]; [|done..]. by exists a, s'. Qed.

(** The rest of the program after one instruction. *)
Definition expands (n : nat) (s : vl) (p : option Z) (l : list Z) (cs : list Prog) : Prop :=
  exists s' l2 cs', each_prog n expand_step p s = LOk tt s' /\ firstp s' = firstp s /\ only_on l s s'
    /\ linked (progs s') p l2 /\ contents (progs s') l2 cs' /\ erase <$> cs' = erase <$> cs.

Definition listing (s : vl) (p : option Z) (l : list Z) (ps : list Prog) : Prop :=
  chained s p l /\ contents (progs s) l ps.

Lemma listing_cons s pid l ps :
  listing s (Some pid) l ps ->
  exists p l' ps', l = pid :: l' /\ ps = p :: ps' /\ progs s !! pid = Some p /\ listing s (link p) l' ps'
    /\ (pid ∉ l') /\ pid < nextp s.
Proof.
  intros [Hc Hps]. destruct (chained_cons _ _ _ Hc) as (p & l' & -> & Hp & Hl & Hn & Hlt).
  apply list.Forall2_cons_inv_l in Hps as (q & ps' & Hq & Hps & ->). rewrite Hp in Hq. injection Hq as <-.
  by exists p, l', ps'.
Qed.

Lemma listing_only s s' l0 p l ps :
  listing s p l ps -> only_on l0 s s' -> (forall y, y ∈ l -> y ∉ l0) -> listing s' p l ps.
Proof.
  intros [Hc Hps] Ho Hd.
  assert (same_on l (progs s) (progs s')) as Hs.
  { apply (only_on_same l0); [done|]. intros y Hy. split; [by apply Hd|]. destruct Hc as (_ & _ & Hf).
    by apply (proj1 (list.Forall_forall _ _) Hf). }
  split; [|by eapply contents_same]. eapply chained_same; [done|by destruct Ho|done].
Qed.

Lemma expands_step n s pid p l cs f rest :
  listing s (Some pid) (pid :: l) (p :: f) -> (3 <= n)%nat -> tail_ok cs ->
  (exists s1, expand_step pid s = LOk tt s1 /\ grown s s1 pid p cs /\ firstp s1 = firstp s
     /\ forall k, (n - 3 <= k)%nat -> expands k s1 (link p) l rest) ->
  expands n s (Some pid) (pid :: l) (cs ++ rest).
Proof.
  intros Hls Hn Ht (s1 & Hst & Hg & Hf & IH).
  destruct (listing_cons _ _ _ _ Hls) as (p' & l' & ps' & [= <-] & [= <- <-] & Hp & Hl & Hni & Hlt).
  destruct (each_grown n pid p s s1 cs Hp Hg Ht Hst Hn) as (k & Hk & E).
  destruct (IH k Hk) as (s2 & l2 & cs2 & E2 & Hf2 & Ho2 & Hl2 & Hc2 & He2).
  pose proof Hl as [(_ & _ & Hal) _].
  destruct (grown_linked _ _ _ _ _ _ Hg s2 l cs2 Ho2 Hni Hlt Hal Hl2 Hc2) as (l3 & ps3 & Hl3 & Hc3 & He3).
  exists s2, l3, ps3. rewrite E, Hf2. split_and!; try done.
  - destruct Hg as (_ & _ & _ & _ & _ & _ & Ho). eapply only_on_trans; [exact Ho|exact Ho2|].
    intros y [? ?]%not_elem_of_cons. by rewrite list_elem_of_singleton.
  - by rewrite He3, !fmap_app, He2.
Qed.

Lemma grown_only s s' pid p cs : grown s s' pid p cs -> only_on [pid] s s'.
Proof. by intros (_ & _ & _ & _ & _ & _ & ?). Qed.

Lemma expand_loop ps : forall l f s p n,
  listing s p l ps -> texts_named s ps -> ready s f l ps -> (3 * length l <= n)%nat ->
  expands n s p l (expand f ps).
Proof.
  induction ps as [|p ps IH]; intros l f s pp n Hls Hy Hr Hn.
  { pose proof Hls as [(Hl & _) Hc]. apply list.Forall2_nil_inv_r in Hc as ->. simpl in Hl. subst pp.
    exists s, [], []. split; [by destruct n|]. split; [done|]. split; [by split|]. split; [done|]. split; [apply Forall2_nil_2|done]. }
  assert (exists pid, pp = Some pid) as [pid ->].
  { destruct Hls as [(Hl & _) Hc]. apply list.Forall2_cons_inv_r in Hc as (pid & l' & _ & _ & ->).
    destruct Hl as [-> _]. by exists pid. }
  destruct (listing_cons _ _ _ _ Hls) as (p' & l' & ps' & -> & [= <- <-] & Hp & Hl & Hni & Hlt).
  apply list.Forall_cons in Hy as [Hy1 Hy]. simpl length in Hn.
  assert (forall s1 cs, grown s s1 pid p cs -> listing s1 (link p) l' ps) as Hls1.
  { intros s1 cs Hg. eapply listing_only; [exact Hl|by eapply grown_only|].
    intros y Hyl. rewrite list_elem_of_singleton. by intros ->. }
  assert (forall s1, same_syms s s1 -> texts_named s1 ps) as Hty.
  { intros s1 Hs. eapply list.Forall_impl; [exact Hy|]. intros x Hx y Hxy. by apply Hs, Hx. }
  assert (expand_step pid s = (if p_as p =? ATEXT then text_step pid else if p_as p =? ARET then ret_step pid else lskip) s) as Est.
  { unfold expand_step, mbind, L_bind, getp. by rewrite Hp. }
  cbn [expand]. destruct (p_as p =? ATEXT) eqn:E1; [|destruct (p_as p =? ARET) eqn:E2].
  - destruct (lwp_returns _ _ _ (text_run pid p s l' Hp Hlt Hni Hy1)) as ([] & s1 & Hrun & Hg & Hin & Hs & Hf).
    eapply expands_step; [done|lia|apply text_tail|]. exists s1. split_and!; [by rewrite Est|done..|].
    intros k Hk. apply IH; [by eapply Hls1|by apply Hty|by right|lia].
  - assert (in_fn s f (pid :: l')) as Hin.
    { destruct Hr as [(q & ps' & [= <- <-] & Hq)|Hr]; [by rewrite Hq in E1|done]. }
    destruct (lwp_returns _ _ _ (ret_run pid p s l' f Hp Hlt Hin)) as ([] & s1 & Hrun & Hg & Hin1 & Hs & Hf).
    eapply expands_step; [done|lia|apply ret_tail|]. exists s1. split_and!; [by rewrite Est|done..|].
    intros k Hk. apply IH; [by eapply Hls1|by apply Hty|by right|lia].
  - assert (in_fn s f l') as Hin.
    { destruct Hr as [(q & ps' & [= <- <-] & Hq)|(H1 & t & c & H2 & H3 & H4 & H5 & H6)]; [by rewrite Hq in E1|].
      split; [done|]. exists t, c. apply not_elem_of_cons in H5 as [_ H5]. done. }
    assert (grown s s pid p [p]) as Hg by (apply (grown_1 _ _ _ _ p); [done..|by split]).
    change (p :: expand f ps) with ([p] ++ expand f ps).
    eapply expands_step; [done|lia|split; [simpl; lia|constructor]|].
    exists s. split_and!; [by rewrite Est|done..|].
    intros k Hk. apply IH; [done|done|by right|lia].
Qed.

(** C5: [noops] writes out prologues and returns: its third pass turns a program, a list of
    instructions that begins with a [TEXT], into the list in which every [TEXT] and every return is
    followed by the code for the frame of its function, and every other instruction stays. *)
Theorem noops_expands n s l p ps f :
  listing s (firstp s) l (p :: ps) -> p_as p = ATEXT -> texts_named s (p :: ps) -> (3 * length l <= n)%nat ->
  exists s' l2 cs, noops_expand n s = LOk tt s' /\ linked (progs s') (firstp s') l2
    /\ contents (progs s') l2 cs /\ erase <$> cs = erase <$> expand f (p :: ps).
Proof.
  intros Hl Hp Hy Hn.
  assert (ready s f l (p :: ps)) as Hr by (left; by exists p, ps).
  destruct (expand_loop (p :: ps) l f s (firstp s) n Hl Hy Hr Hn) as (s' & l2 & cs & E & Ef & _ & H).
  exists s', l2, cs. rewrite Ef. split; [exact E|done].
Qed.

(** ** Calls and returns *)

(** A machine of the instructions in prologues and returns: registers, memory, and where
    control goes. *)
Record Mach := mkMach { regs : Z -> Z; mem : Z -> Z; jump : option Z }.

Definition upd (g : Z -> Z) (k v : Z) : Z -> Z := fun x => if x =? k then v else g x.

Definition is_plain (t : Z) (a : Adr) : bool := (a_type a =? t) && (a_name a =? D_NONE).

Definition act (p : Prog) (m : Mach) : Mach :=
  let f := from p in let t := to p in
  if (p_as p =? AADD) && is_plain D_CONST f && is_plain D_REG t then
    let r := if p_reg p =? NREG then a_reg t else p_reg p in
    mkMach (upd (regs m) (a_reg t) (u32 (regs m r + a_offset f))) (mem m) (jump m)
  else if (p_as p =? AMOVW) && is_plain D_REG f && is_plain D_OREG t then
    mkMach (regs m) (upd (mem m) (u32 (regs m (a_reg t) + a_offset t)) (regs m (a_reg f))) (jump m)
  else if (p_as p =? AMOVW) && is_plain D_OREG f && is_plain D_REG t then
    mkMach (upd (regs m) (a_reg t) (mem m (u32 (regs m (a_reg f) + a_offset f)))) (mem m) (jump m)
  else if (p_as p =? AJMP) && is_plain D_OREG t then
    mkMach (regs m) (mem m) (Some (u32 (regs m (a_reg t) + a_offset t)))
  else m.

Definition acts (cs : list Prog) (m : Mach) : Mach := foldl (fun m p => act p m) m cs.

Lemma acts_erase cs cs' m : erase <$> cs = erase <$> cs' -> acts cs m = acts cs' m.
Proof.
  revert cs' m. induction cs as [|c cs IH]; intros [|c' cs'] m E; try done.
  assert (erase c = erase c') as E1 by (injection E; intros; unfold erase, pset_link; congruence).
  assert (erase <$> cs = erase <$> cs') as E2 by by injection E.
  simpl. change (act c m) with (act (erase c) m). rewrite E1. by apply IH.
Qed.

(** A return as the assembler makes it. *)
Definition plain_ret (r : Prog) : Prop :=
  a_type (from r) <> D_CONST /\ a_name (from r) = D_NONE /\ a_name (to r) = D_NONE /\ p_reg r = NREG.

(** What a body must keep: the stack pointer, and the link where it is. *)
Record body_keeps (f : fn) (m m' : Mach) : Prop := {
  bk_sp : regs m' REGSP = regs m REGSP;
  bk_link : if f_leaf f then regs m' REGLINK = regs m REGLINK else mem m' (regs m REGSP) = mem m (regs m REGSP) }.

Lemma frame_back sp sz : in_u 32 sp -> u32 (u32 (sp + s32 (- sz)) + sz) = sp.
Proof.
  intros H. unfold u32, s32, wraps, wrapu, in_u in *. change (2 ^ 32) with 4294967296 in *.
  change (2 ^ (32 - 1)) with 2147483648. Z.div_mod_to_equations. lia.
Qed.

Lemma u32_same x : in_u 32 x -> u32 (x + 0) = x.
Proof. intros H. rewrite Z.add_0_r. unfold u32, wrapu, in_u in *. by apply Z.mod_small. Qed.

Lemma act_add_sp sz line m :
  act (add_sp sz line zprg) m = mkMach (upd (regs m) REGSP (u32 (regs m REGSP + sz))) (mem m) (jump m).
Proof. done. Qed.

Lemma act_save_link line m :
  act (save_link line) m = mkMach (regs m) (upd (mem m) (u32 (regs m REGSP + 0)) (regs m REGLINK)) (jump m).
Proof. done. Qed.

Lemma act_jmp_reg r line m :
  act (jmp_reg r line zprg) m = mkMach (regs m) (mem m) (Some (u32 (regs m r + 0))).
Proof. done. Qed.

(** After the prologue. *)
Lemma prologue_acts p m :
  in_u 32 (regs m REGSP) ->
  let f := text_fn p in
  let m1 := acts (drop 1 (text_code p)) m in
  regs m1 REGSP = u32 (regs m REGSP + s32 (- f_size f)) /\ regs m1 REGLINK = regs m REGLINK
  /\ (f_leaf f = false -> mem m1 (regs m1 REGSP) = regs m REGLINK).
Proof.
  intros Hsp. cbv zeta. unfold text_code. cbv zeta. generalize (text_fn p) as f. intros f.
  cbn [drop]. rewrite drop_0.
  assert (in_u 32 (u32 (regs m REGSP + s32 (- f_size f)))) as Hu.
  { unfold in_u, u32, wrapu. by apply Z.mod_pos_bound. }
  destruct (Z.eqb_spec (f_size f) 0) as [E|E], (f_leaf f) eqn:El; unfold acts; cbn [app foldl];
    rewrite ?act_add_sp, ?act_save_link; rewrite ?E; unfold upd; simpl; rewrite ?u32_same by done;
    rewrite ?Z.eqb_refl; split_and!; try done.
Qed.

(** After the return. *)
Lemma return_acts f r m :
  plain_ret r -> in_u 32 (regs m REGSP) ->
  let m2 := acts (ret_code f r) m in
  jump m2 = Some (u32 ((if f_leaf f then regs m REGLINK else mem m (regs m REGSP)) + 0))
  /\ regs m2 REGSP = u32 (regs m REGSP + f_size f).
Proof.
  intros (Hc & Hnf & Hnt & Hr) Hsp. cbv zeta. unfold ret_code. apply Z.eqb_neq in Hc.
  change (a_type (from (uncached r))) with (a_type (from r)). rewrite Hc.
  destruct (f_leaf f) eqn:El, (Z.eqb_spec (f_size f) 0) as [E|E]; unfold acts; cbn [app foldl];
    rewrite ?act_add_sp, ?act_jmp_reg; unfold act, is_plain, uncached; simpl; rewrite Hnt, ?Hnf, ?Hr; simpl;
    unfold upd; simpl; rewrite ?E, ?(u32_same _ Hsp); done.
Qed.

(** Prologue, body and return: control goes back to the link, with the stack as it was. *)
Lemma frame_returns p r body m :
  plain_ret r -> in_u 32 (regs m REGSP) -> in_u 32 (regs m REGLINK) ->
  let f := text_fn p in
  let m1 := acts (drop 1 (text_code p)) m in
  body_keeps f m1 (body m1) ->
  let m2 := acts (ret_code f r) (body m1) in
  jump m2 = Some (regs m REGLINK) /\ regs m2 REGSP = regs m REGSP.
Proof.
  intros Hr Hsp Hlk f m1 [Hs Hl] m2. destruct (prologue_acts p m Hsp) as (P1 & P2 & P3).
  fold f m1 in P1, P2, P3.
  assert (in_u 32 (regs m1 REGSP)) as Hsp1 by (rewrite P1; unfold in_u, u32, wrapu; by apply Z.mod_pos_bound).
  destruct (return_acts f r (body m1) Hr) as [R1 R2]; [by rewrite Hs|]. fold m2 in R1, R2. split.
  - rewrite R1, Hs. destruct (f_leaf f); rewrite Hl, ?P2, ?P3 by done; by rewrite u32_same.
  - rewrite R2, Hs, P1. by apply frame_back.
Qed.

(** The instructions from [p] up to [e]. *)
Definition code_at (s : vl) (p e : option Z) (cs : list Prog) : Prop :=
  exists ids, lseg (progs s) p ids e /\ contents (progs s) ids cs.

Lemma grown_code s s' pid p cs :
  grown s s' pid p cs -> exists cs', code_at s' (Some pid) (link p) cs' /\ erase <$> cs' = erase <$> cs.
Proof. intros (ids & cs' & Hl & Hc & He & _). exists cs'. split; [by exists (pid :: ids)|done]. Qed.

(** C15: calls return. Take the code [noops] makes of a [TEXT], and of a plain return of the same
    function. Whatever the body does between them, as long as it keeps the stack pointer and the
    saved link (in a leaf, the link register), control goes back to where the link pointed at
    entry, and the stack pointer is what it was at entry. *)
Theorem calls_return pid p s l rid r s2 body m :
  progs s !! pid = Some p -> pid < nextp s -> pid ∉ l ->
  (forall y, a_sym (from p) = Some y -> is_Some (syms s !! y)) ->
  progs s2 !! rid = Some r -> rid < nextp s2 -> in_fn s2 (text_fn p) (rid :: l) -> plain_ret r ->
  in_u 32 (regs m REGSP) -> in_u 32 (regs m REGLINK) ->
  lwp noexit (text_step pid) (fun _ s1 => lwp noexit (ret_step rid) (fun _ s3 =>
    exists head pro epi, code_at s1 (Some pid) (link p) (head :: pro) /\ code_at s3 (Some rid) (link r) epi
      /\ (body_keeps (text_fn p) (acts pro m) (body (acts pro m)) ->
           let m2 := acts epi (body (acts pro m)) in
           jump m2 = Some (regs m REGLINK) /\ regs m2 REGSP = regs m REGSP)) s2) s.
Proof.
  intros Hp Hlt Hl Hy Hrp Hrlt Hin Hpl Hsp Hlk. eapply lwp_mono; [by apply (text_run pid p s l)|].
  intros [] s1 _ (G1 & _). eapply lwp_mono; [by apply (ret_run rid r s2 l (text_fn p))|].
  intros [] s3 _ (G3 & _). destruct (grown_code _ _ _ _ _ G1) as (cs1 & C1 & E1).
  destruct (grown_code _ _ _ _ _ G3) as (epi & C3 & E3). destruct cs1 as [|head pro]; [done|].
  exists head, pro, epi. split; [done|]. split; [done|].
  assert (erase <$> pro = erase <$> drop 1 (text_code p)) as E1'.
  { rewrite fmap_drop, <- E1. simpl. by rewrite drop_0. }
  rewrite (acts_erase _ _ m E1'). intros Hb. cbv zeta. rewrite (acts_erase _ _ _ E3).
  by apply (frame_returns p r body m).
Qed.

(** ** An example *)

(** [TEXT main, $8; JAL main; RET], which is no leaf *)
Definition fn_prog : gmap Z Prog :=
  list_to_map
    [(0, ins ATEXT (mkAdr 0 (Some 0) D_OREG NREG D_EXTERN 0) (acon 8) NREG None (Some 1));
     (1, ins AJAL none abranch NREG (Some 0) (Some 2));
     (2, ins ARET none none NREG None None)].
Definition fn_demo : vl := linker fn_prog 3.
Definition fn_list : list Prog := omap (fun i => fn_prog !! i) [0; 1; 2].

Lemma fn_listing : listing fn_demo (firstp fn_demo) [0; 1; 2] fn_list.
Proof.
  split; [split; [|split]|].
  - repeat (split; [done|eexists; split; [reflexivity|]]). done.
  - by apply (bool_decide_unpack _); vm_compute.
  - by apply (bool_decide_unpack _); vm_compute.
  - repeat (apply Forall2_cons_2; [reflexivity|]). apply Forall2_nil_2.
Qed.

Lemma fn_named : texts_named fn_demo fn_list.
Proof. repeat (constructor; [by intros y [= <-]|]). constructor. Qed.

Lemma noops_expands_witness :
  exists s' l2 cs, noops_expand 9 fn_demo = LOk tt s' /\ linked (progs s') (firstp s') l2
    /\ contents (progs s') l2 cs /\ erase <$> cs = erase <$> expand (mkFn true 0) fn_list.
Proof.
  apply (noops_expands 9 fn_demo [0; 1; 2] (ins ATEXT (mkAdr 0 (Some 0) D_OREG NREG D_EXTERN 0) (acon 8) NREG None (Some 1))
           (drop 1 fn_list)); [exact fn_listing|reflexivity|exact fn_named|simpl; lia].
Defined.

(** The code of the example: prologue, call, return. *)
Example fn_expanded :
  p_as <$> expand (mkFn true 0) fn_list = [ATEXT; AADD; AMOVW; AJAL; AMOVW; AADD; AJMP].
Proof. reflexivity. Qed.

(** A body that calls, hence destroys the link register. *)
Definition calling (m : Mach) : Mach := mkMach (upd (regs m) REGLINK 7) (mem m) (jump m).

Lemma calls_return_witness :
  lwp noexit (text_step 0) (fun _ s1 =>
    lwp noexit (ret_step 2) (fun _ s3 =>
      exists head pro epi, code_at s1 (Some 0) (Some 1) (head :: pro) /\ code_at s3 (Some 2) None epi
        /\ let m := mkMach (fun _ => 0x1000) (fun _ => 0) None in
           let m2 := acts epi (calling (acts pro m)) in
           jump m2 = Some 0x1000 /\ regs m2 REGSP = 0x1000)
      (lset_autosize 12 (lset_curtext (Some 0) fn_demo))) fn_demo.
Proof.
  eapply lwp_mono; [apply (calls_return 0 (ins ATEXT (mkAdr 0 (Some 0) D_OREG NREG D_EXTERN 0) (acon 8) NREG None (Some 1))
    fn_demo [] 2 (ins ARET none none NREG None None)
    (lset_autosize 12 (lset_curtext (Some 0) fn_demo)) calling (mkMach (fun _ => 0x1000) (fun _ => 0) None))|].
  - reflexivity.
  - by vm_compute.
  - apply not_elem_of_nil.
  - by intros y [= <-].
  - reflexivity.
  - by vm_compute.
  - split; [reflexivity|]. do 2 eexists. split; [reflexivity|]. split; [reflexivity|].
    split; [reflexivity|]. split; [|by vm_compute]. by rewrite list_elem_of_singleton.
  - by split.
  - by vm_compute.
  - by vm_compute.
  - intros [] s1 _ H. eapply lwp_mono; [exact H|]. intros [] s3 _ (hd & pro & epi & H1 & H2 & H3).
    exists hd, pro, epi. split; [exact H1|]. split; [exact H2|]. apply H3. by split.
Defined.
