(* ===== verification/VlBlocks.v ===== *)
(** The last pass of [noops]: it parts the program into blocks and has [sched] reorder each. *)
From stdpp Require Import relations.
From S2P Require Import Prelude CInt VlObj VlOptab VlSym VlWp VlSpan VlAsm VlTables VlLib VlDemo VlPass VlSched VlDep VlMoves VlRegs VlSchedThm VlNoop VlExpand.

(** ** What the pass needs of the program *)

(** The instructions [l] to come, in state [t]. *)
Record todo (t : vl) (l : list Z) : Prop := {
  td_nodup : NoDup l;
  td_alloc : Forall (fun i => i < nextp t) l;
  td_ok : Forall (ins_ok t) l;
  td_local : progs t !! local = None;
  td_fresh : local < nextp t;
  td_tabs : tabs t = tables;
  td_level : 1 <= optlevel t }.

(** The state after blocks of the instructions [c]. *)
Record after (c : list Z) (t t' : vl) : Prop := {
  af_only : only_on c t t';
  af_tabs : tabs t' = tabs t;
  af_level : optlevel t' = optlevel t;
  af_syms : same_syms t t' }.

#[export] Instance after_refl c : Reflexive (after c).
Proof. intros t. split; [by split|done|done|by intros ?]. Qed.

Lemma after_trans c c1 c2 t t1 t2 :
  after c1 t t1 -> after c2 t1 t2 -> (forall y, y ∉ c -> (y ∉ c1) /\ (y ∉ c2)) -> after c t t2.
Proof.
  intros [O1 T1 L1 S1] [O2 T2 L2 S2] H. split; [by eapply only_on_trans|congruence|congruence|].
  intros y Hy. by apply S2, S1.
Qed.

Lemma ins_ok_after c t t' i : after c t t' -> i ∉ c -> i < nextp t -> ins_ok t i -> ins_ok t' i.
Proof.
  intros [[_ Ho] _ _ Hs] Hi Hlt (p & Hp & [[A1 A2] [B1 B2]] & Hr). exists p. rewrite Ho by done.
  split; [done|]. split; [|done]. split; (split; [|done]); intros y Hy; apply Hs; auto.
Qed.

Lemma todo_after c t t' l :
  after c t t' -> todo t l -> (forall y, y ∈ l -> y ∉ c) -> (local ∉ c) -> todo t' l.
Proof.
  intros Ha [H1 H2 H3 H4 H5 H6 H7] Hd Hl. pose proof Ha as [[Hn Ho] Ht Hv _]. split; try done.
  - eapply list.Forall_impl; [exact H2|]. simpl. lia.
  - apply list.Forall_forall. intros i Hi. eapply ins_ok_after; [done|by apply Hd| |].
    + by apply (proj1 (list.Forall_forall _ _) H2).
    + by apply (proj1 (list.Forall_forall _ _) H3).
  - by rewrite Ho.
  - lia.
  - by rewrite Ht.
  - by rewrite Hv.
Qed.

Lemma todo_app t l1 l2 : todo t (l1 ++ l2) -> todo t l1 /\ todo t l2.
Proof.
  intros [H1 H2 H3 H4 H5 H6 H7]. apply list.NoDup_app in H1 as (? & _ & ?).
  apply list.Forall_app in H2 as [? ?]. apply list.Forall_app in H3 as [? ?]. by split; split.
Qed.

(** An address of the program is no local one. *)
Lemma todo_local t l : todo t l -> local ∉ l.
Proof.
  intros H Hl. apply (proj1 (list.Forall_forall _ _) (td_ok _ _ H)) in Hl as (p & Hp & _).
  by rewrite (td_local _ _ H) in Hp.
Qed.

(** ** One call of [sched] *)

(** Marks that end a block. *)
Definition no_end (t : vl) (i : Z) : Prop :=
  exists p, progs t !! i = Some p /\ marked BRANCH p = false.

(** [old] is a block of the program [t] that has become [new] in [t']. *)
Definition block_done (t t' : vl) (old new : list Z) : Prop :=
  (new = old /\ same_on old (progs t) (progs t'))
  \/ exists t1 t2 p0 e b b' cs, same_on old (progs t) (progs t1) /\ scheduled t1 t2 p0 old e b b' new cs
       /\ same_on new (progs t2) (progs t').

Lemma scheduled_after t t' p0 l e b b' l2 cs :
  scheduled t t' p0 l e b b' l2 cs -> after l t t'.
Proof.
  intros [_ _ _ _ _ _ Ho _ (t1 & Hs & n & m & ->)]. split; simpl.
  - done.
  - by rewrite (still_tabs _ _ Hs).
  - by destruct Hs.
  - intros y. by destruct Hs as [_ H _]; apply H.
Qed.

Lemma last_app_pred (l : list Z) x : list.last l = Some x -> exists l', l = l' ++ [x].
Proof. apply list.last_Some. Qed.

(** The block [c] from [q] to [e], before the instructions [r], is dealt with: from [t] to [t']. *)
Definition closed (t t' : vl) (q : option Z) (c : list Z) (e : option Z) (r : list Z) : Prop :=
  exists c2, lseg (progs t') q c2 e /\ lseg (progs t') e r None /\ todo t' r /\ after c t t'
    /\ Forall (fun i => i ∈ c \/ nextp t <= i < nextp t') c2
    /\ forall t2, same_on c2 (progs t') (progs t2) -> block_done t t2 c c2.

Lemma closed_same t q c e r :
  lseg (progs t) q c e -> lseg (progs t) e r None -> todo t (c ++ r) -> closed t t q c e r.
Proof.
  intros Hc Hr Htd. exists c. split; [done|]. split; [done|]. split; [by apply todo_app in Htd as [_ ?]|].
  split; [reflexivity|]. split; [|by intros t2 H2; left].
  apply list.Forall_forall. by left.
Qed.

(** The block [c], before the instructions [r]. *)
Lemma sched_block t p0 pe c e r :
  lseg (progs t) (Some p0) c e -> lseg (progs t) e r None -> todo t (c ++ r) ->
  list.last c = Some pe -> (length c <= 20)%nat ->
  (forall i, i ∈ c -> i <> pe -> no_end t i) ->
  lwp errs (sched p0 pe) (fun _ t' => closed t t' (Some p0) c e r) t.
Proof.
  intros Hc Hr Htd Hl Hlen Hne. pose proof (todo_app _ _ _ Htd) as [Hc1 Hr1].
  assert (forall y, y ∈ r -> y ∉ c) as Hdis.
  { intros y Hy Hyc. destruct Htd as [Hd _ _ _ _ _ _]. apply list.NoDup_app in Hd as (_ & Hd & _). by apply (Hd y). }
  assert (block t p0 pe c e) as Hb.
  { split; try (by destruct Hc1); try done.
    - intros x -> Hx. destruct r as [|y r]; [done|]. destruct Hr as [[= ->] _]. apply (Hdis y); [by left|done].
    - intros i p Hi Hp Hm. destruct (Z.eq_dec i pe) as [|Hn]; [done|]. destruct (Hne i Hi Hn) as (q & Hq & Hmq).
      rewrite Hp in Hq. injection Hq as <-. unfold marked in Hmq. apply negb_false_iff, Z.eqb_eq in Hmq. done. }
  pose proof (sched_run p0 pe c e t Hb (td_level _ _ Hc1)) as H.
  unfold lwp at 1 in H. destruct (build _ p0 pe t) as [b t1|t1| |] eqn:Eb; [| |done..].
  - eapply lwp_mono; [exact H|]. intros [] t' _ (b' & c2 & cs & Hs). exists c2.
    pose proof (scheduled_after _ _ _ _ _ _ _ _ _ Hs) as Ha.
    assert (same_on r (progs t) (progs t')) as Hsr.
    { apply (only_on_same c); [apply Ha|]. intros y Hy. split; [by apply Hdis|].
      by apply (proj1 (list.Forall_forall _ _) (td_alloc _ _ Hr1)). }
    split_and!; [apply Hs|by eapply lseg_same| |done|apply Hs|].
    + eapply todo_after; [done|done|done|]. by eapply todo_local.
    + intros t2 H2. right. exists t, t', p0, e, b, b', cs. split; [by intros y|done].
  - unfold sched, lwp, mbind, L_bind, lgets. destruct (Z.ltb_spec (optlevel t) 1).
    { destruct Hc1. lia. }
    by rewrite Eb.
Qed.

(** ** The blocks of a program *)

(** The instructions [l] from [q] on have become a list of blocks. *)
Definition blocks (t t' : vl) (q : option Z) (l : list Z) : Prop :=
  exists bs : list (list Z * list Z),
    concat bs.*1 = l /\ lseg (progs t') q (concat bs.*2) None /\ after l t t'
    /\ Forall (fun i => i ∈ l \/ nextp t <= i < nextp t') (concat bs.*2)
    /\ Forall (fun b => block_done t t' b.1 b.2) bs.

Lemma block_done_base t t1 t' old new :
  same_on old (progs t) (progs t1) -> block_done t1 t' old new -> block_done t t' old new.
Proof.
  intros Hs [[-> H]|(t2 & t3 & p0 & e & b & b' & cs & H1 & H2 & H3)].
  - left. split; [done|]. intros y Hy. rewrite H by done. by apply Hs.
  - right. exists t2, t3, p0, e, b, b', cs. split; [|done]. intros y Hy. rewrite H1 by done. by apply Hs.
Qed.

Lemma lseg_join m l1 : forall q l2 e e', lseg m q l1 e -> lseg m e l2 e' -> lseg m q (l1 ++ l2) e'.
Proof.
  induction l1 as [|x l1 IH]; intros q l2 e e'; simpl; [by intros ->|].
  intros (-> & p & Hp & H1) H2. split; [done|]. exists p. split; [done|]. by eapply IH.
Qed.

Lemma blocks_cons t t1 t' q c e r :
  todo t (c ++ r) -> closed t t1 q c e r -> blocks t1 t' e r -> blocks t t' q (c ++ r).
Proof.
  intros Htd (c2 & Hc & Hr & Htr & Ha & Hids & Hdone) (bs & Hf & Hs & Ha' & Hi & Hbs).
  destruct (todo_app _ _ _ Htd) as [Htc _].
  assert (forall y, y ∈ r -> (y ∉ c) /\ y < nextp t) as Hdis.
  { intros y Hy. destruct Htd as [Hd Hal _ _ _ _ _]. apply list.NoDup_app in Hd as (_ & Hd & _). split.
    - intros Hyc. by apply (Hd y).
    - apply (proj1 (list.Forall_forall _ _) Hal). apply list.elem_of_app. by right. }
  pose proof Ha as [[Hn1 Ho1] _ _ _]. pose proof Ha' as [[Hn2 Ho2] _ _ _].
  assert (same_on c2 (progs t1) (progs t')) as H2.
  { intros y Hy. apply (proj1 (list.Forall_forall _ _) Hids) in Hy. simpl in Hy. apply Ho2.
    - intros Hyr. destruct (Hdis y Hyr) as [? ?]. destruct Hy; [done|lia].
    - destruct Hy as [Hy|?]; [|lia].
      apply (proj1 (list.Forall_forall _ _) (td_alloc _ _ Htc)) in Hy. simpl in Hy. lia. }
  assert (concat ((c, c2) :: bs).*2 = c2 ++ concat bs.*2) as E by done.
  exists ((c, c2) :: bs). rewrite E. split; [simpl; f_equal; exact Hf|]. split; [|split; [|split]].
  - eapply lseg_join; [by eapply lseg_same|done].
  - eapply after_trans; [exact Ha|exact Ha'|]. intros y Hy. rewrite list.elem_of_app in Hy. tauto.
  - apply list.Forall_app. split.
    + eapply list.Forall_impl; [exact Hids|]. simpl. intros i [H|H]; [left; apply list.elem_of_app; by left|lia].
    + eapply list.Forall_impl; [exact Hi|]. simpl. intros i [H|H]; [left; apply list.elem_of_app; by right|lia].
  - constructor; [by apply Hdone|]. apply list.Forall_forall. intros [old new] Hb.
    apply (proj1 (list.Forall_forall _ _) Hbs) in Hb as Hd. simpl in *. eapply block_done_base; [|exact Hd].
    intros y Hy. assert (y ∈ r) as Hyr; [|by apply Ho1; apply Hdis].
    rewrite <- Hf. apply list_elem_of_In, in_concat. exists old. split; [|by apply list_elem_of_In].
    apply list_elem_of_In, list_elem_of_fmap. by exists (old, new).
Qed.

(** ** The loop *)

(** The loop is at [p], before the instructions [R]; the current block has the instructions
    [B], no branch among them. *)
Record cur (t : vl) (v : Blk) (B R : list Z) (p : option Z) : Prop := {
  c_todo : todo t (B ++ R);
  c_block : lseg (progs t) (top v) B p;
  c_rest : lseg (progs t) p R None;
  c_last : B <> [] -> last v = list.last B;
  c_room : (length B < 20)%nat;
  c_end : Forall (no_end t) B }.

(** What is done from [t] to [t'] is done in one go. *)
Definition goes_on (t t' : vl) (q q' : option Z) (l l' : list Z) : Prop :=
  forall t2, blocks t' t2 q' l' -> blocks t t2 q l.

Lemma todo_cons_fresh t B pid R : todo t (B ++ pid :: R) -> pid ∉ B.
Proof.
  intros [Hd _ _ _ _ _ _] Hi. apply list.NoDup_app in Hd as (_ & Hd & _). apply (Hd pid Hi). by left.
Qed.

(** The block before [pid] is closed. *)
Lemma close_cur t v B pid R :
  cur t v B (pid :: R) (Some pid) ->
  lwp errs (if bool_decide (top v = Some pid) then lskip else sched_opt (top v) (last v))
    (fun _ t1 => closed t t1 (top v) B (Some pid) (pid :: R)) t.
Proof.
  intros [Htd Hb Hr Hl Hroom He]. pose proof (todo_cons_fresh _ _ _ _ Htd) as Hf.
  destruct B as [|b B].
  - simpl in Hb. rewrite Hb, bool_decide_true by done. eapply lwp_ok; [done|]. by apply closed_same.
  - pose proof Hb as [Eb _]. rewrite Eb. rewrite bool_decide_false; [|intros [= ->]; apply Hf; by left].
    destruct (list.last (b :: B)) as [pe|] eqn:El; [|by apply list.last_None in El].
    rewrite Hl by done. simpl. apply sched_block; [by rewrite <- Eb|done|done|done|lia|].
    intros i Hi _. by apply (proj1 (list.Forall_forall _ _) He).
Qed.

(** The block up to [pid] is closed. *)
Lemma close_with t q B pid x R :
  lseg (progs t) q B (Some pid) -> progs t !! pid = Some x -> lseg (progs t) (link x) R None ->
  todo t (B ++ pid :: R) -> (length B < 20)%nat -> Forall (no_end t) B ->
  lwp errs (sched_opt q (Some pid)) (fun _ t1 => closed t t1 q (B ++ [pid]) (link x) R) t.
Proof.
  intros Hb Hx Hr Htd Hroom He.
  assert (lseg (progs t) q (B ++ [pid]) (link x)) as Hc by (eapply lseg_join; [exact Hb|split; [done|by exists x]]).
  destruct q as [p0|]; [|by destruct B as [|? ?]; [|destruct Hb]].
  simpl. apply sched_block; [done|done|by rewrite <- app_assoc|by rewrite list.last_snoc|rewrite length_app; simpl; lia|].
  intros i Hi Hn. apply list.elem_of_app in Hi as [Hi|Hi]; [|by rewrite list_elem_of_singleton in Hi].
  by apply (proj1 (list.Forall_forall _ _) He).
Qed.

Lemma goes_on_closed t t1 q c e r : todo t (c ++ r) -> closed t t1 q c e r -> goes_on t t1 q e (c ++ r) r.
Proof. intros Htd Hc t2. by apply blocks_cons. Qed.

Lemma goes_on_trans t t1 t2 q q1 q2 l l1 l2 :
  goes_on t t1 q q1 l l1 -> goes_on t1 t2 q1 q2 l1 l2 -> goes_on t t2 q q2 l l2.
Proof. intros H1 H2 t3 H3. by apply H1, H2. Qed.

(** A new block starts at a label. *)
Lemma label_step t v B pid x R (k : Blk -> L (Blk * option Z)) Q :
  cur t v B (pid :: R) (Some pid) -> progs t !! pid = Some x ->
  (forall t1 v1 B1, cur t1 v1 B1 (pid :: R) (Some pid) -> progs t1 !! pid = Some x ->
     count v1 = Z.of_nat (length B1) + 1 -> goes_on t t1 (top v) (top v1) (B ++ pid :: R) (B1 ++ pid :: R) ->
     lwp errs (k v1) Q t1) ->
  count v = Z.of_nat (length B) ->
  lwp errs (v ← (if marked (Z.lor LABEL SYNC) x then
                   (if bool_decide (top v = Some pid) then lskip else sched_opt (top v) (last v));;
                   mret (mkBlk (Some pid) (last v) 1)
                 else mret (mkBlk (top v) (last v) (count v + 1))); k v) Q t.
Proof.
  intros Hc Hx H Hn. apply lwp_bind. destruct (marked _ x).
  - apply lwp_bind. eapply lwp_mono; [by apply (close_cur _ _ B _ R)|]. intros [] t1 _ Hcl. apply lwp_ret.
    pose proof Hcl as (c2 & _ & Hr & Htd & Ha & _).
    apply (H t1 (mkBlk (Some pid) (last v) 1) []); [| |done|].
    + split; try done; first [simpl; lia|constructor].
    + destruct Ha as [[_ Ho] _ _ _]. rewrite Ho; [done| |].
      * eapply todo_cons_fresh. by apply (c_todo _ _ _ _ _ Hc).
      * pose proof (td_alloc _ _ (c_todo _ _ _ _ _ Hc)) as Hal. apply list.Forall_app in Hal as [_ Hal].
        by apply list.Forall_cons in Hal as [? _].
    + apply (goes_on_closed _ _ _ B); [by apply (c_todo _ _ _ _ _ Hc)|done].
  - apply lwp_ret. apply (H t _ B); [|done|simpl; lia|by intros t2].
    destruct Hc. by split.
Qed.

Lemma block_step_spec t v B pid R :
  cur t v B (pid :: R) (Some pid) -> count v = Z.of_nat (length B) ->
  lwp errs (block_step v pid) (fun r t' => exists B',
    cur t' r.1 B' R r.2 /\ count r.1 = Z.of_nat (length B')
    /\ goes_on t t' (top v) (top r.1) (B ++ pid :: R) (B' ++ R)) t.
Proof.
  intros Hc Hn. pose proof Hc as [_ _ (_ & x & Hx & Hr) _ _ _].
  unfold block_step. eapply lwp_getp; [exact Hx|]. cbv zeta. simpl.
  apply (label_step t v B pid x R); [done|done| |done].
  intros t1 v1 B1 [Htd Hb Hr1 Hl Hroom He] Hx1 Hn1 Hg1.
  assert (lseg (progs t1) (link x) R None) as Hrx.
  { destruct Hr1 as (_ & x' & Hx' & H). rewrite Hx1 in Hx'. by injection Hx' as <-. }
  assert (forall l, lwp errs (sched_opt (top v1) (Some pid)) (fun _ t2 =>
            cur t2 (mkBlk (link x) l 0) [] R (link x)
            /\ goes_on t t2 (top v) (link x) (B ++ pid :: R) R) t1) as Hsched.
  { intros l. eapply lwp_mono; [by apply (close_with t1 (top v1) B1 pid x R)|]. intros [] t2 _ Hcl.
    pose proof Hcl as (c2 & _ & Hr2 & Htd2 & _). split; [split; try done; first [simpl; lia|constructor]|].
    eapply goes_on_trans; [exact Hg1|]. rewrite cons_middle, app_assoc in Htd |- *.
    by apply (goes_on_closed t1 t2 _ (B1 ++ [pid])). }
  apply lwp_bind. destruct (marked (Z.lor BRANCH SYNC) x) eqn:Hm.
  - apply lwp_bind. eapply lwp_mono; [apply (Hsched (last v1))|]. intros [] t2 _ [Hc2 Hg2]. apply lwp_ret.
    apply lwp_bind, lwp_ret. eapply lwp_ok; [done|]. exists []. split; [|done].
    destruct Hc2. by split.
  - apply lwp_ret. apply lwp_bind. destruct (NSCHED <=? count v1) eqn:Hcount.
    + apply lwp_bind. eapply lwp_mono; [apply (Hsched (last v1))|]. intros [] t2 _ [Hc2 Hg2]. apply lwp_ret.
      eapply lwp_ok; [done|]. exists []. split; [|done]. destruct Hc2. by split.
    + apply lwp_ret. eapply lwp_ok; [done|]. exists (B1 ++ [pid]). simpl. apply Z.leb_gt in Hcount.
      unfold NSCHED in Hcount. split; [split|split].
      * by rewrite <- app_assoc.
      * simpl. eapply lseg_join; [exact Hb|]. split; [done|]. by exists x.
      * done.
      * intros _. simpl. by rewrite list.last_snoc.
      * rewrite length_app. simpl. lia.
      * apply list.Forall_app. split; [done|]. constructor; [|constructor]. exists x. split; [done|].
        unfold marked in *. rewrite Z.land_lor_distr_r in Hm. apply negb_false_iff, Z.eqb_eq, Z.lor_eq_0_iff in Hm as [-> _].
        done.
      * rewrite length_app. simpl. lia.
      * rewrite <- app_assoc. exact Hg1.
Qed.

(** Instructions that are not to be scheduled. *)
Lemma skip_run n : forall t p R q,
  lseg (progs t) p R None -> (length R <= n)%nat ->
  exists N R' p' q', R = N ++ R' /\ skip_nosched n p q t = LOk (p', q') t
    /\ lseg (progs t) p N p' /\ lseg (progs t) p' R' None.
Proof.
  induction n as [|n IH]; intros t p R q Hl Hn.
  { destruct R; [|simpl in Hn; lia]. simpl in Hl. subst p. by exists [], [], None, q. }
  destruct R as [|i R].
  { simpl in Hl. subst p. by exists [], [], None, q. }
  pose proof Hl as (-> & x & Hx & Hr). simpl. unfold mbind, L_bind, getp. rewrite Hx.
  destruct (marked NOSCHED x) eqn:Hm.
  - destruct (IH t (link x) R (Some i) Hr) as (N & R' & p' & q' & -> & E & H1 & H2); [simpl in Hn; lia|].
    exists (i :: N), R', p', q'. split_and!; try done. split; [done|]. by exists x.
  - exists [], (i :: R), (Some i), q. by split_and!.
Qed.

Lemma block_loop_spec n : forall t v B R p,
  cur t v B R p -> count v = Z.of_nat (length B) -> (length R <= n)%nat ->
  lwp errs (block_loop n v p) (fun _ t' => blocks t t' (top v) (B ++ R)) t.
Proof.
  induction n as [|n IH]; intros t v B R p Hc Hn HR.
  all: destruct R as [|pid R]; [|pose proof (c_rest _ _ _ _ _ Hc) as (-> & x & Hx & Hr)].
  1, 3: pose proof (c_rest _ _ _ _ _ Hc) as Ep; simpl in Ep; subst p; eapply lwp_ok; [done|];
    rewrite app_nil_r; exists [(B, B)]; simpl; rewrite app_nil_r;
    split; [done|split; [by apply (c_block _ _ _ _ _ Hc)|split; [reflexivity|]]];
    split; [by apply list.Forall_forall; left|]; repeat constructor; by left.
  { simpl in HR. lia. }
  simpl. eapply lwp_getp; [exact Hx|]. destruct (marked NOSCHED x) eqn:Em.
  - apply lwp_bind. eapply lwp_mono; [by apply (close_cur _ _ B _ R)|]. intros [] t1 _ Hcl.
    pose proof Hcl as (c2 & _ & Hr1 & Htd1 & [[_ Ho] _ _ _] & _).
    assert (progs t1 !! pid = Some x) as Hx1.
    { pose proof (c_todo _ _ _ _ _ Hc) as Htd. rewrite Ho; [done|by eapply todo_cons_fresh|].
      pose proof (td_alloc _ _ Htd) as Hal. apply list.Forall_app in Hal as [_ Hal].
      by apply list.Forall_cons in Hal as [? _]. }
    pose proof Hr1 as (_ & x1 & Hx1' & Hr1'). rewrite Hx1 in Hx1'. injection Hx1' as <-.
    apply lwp_bind. eapply lwp_getp; [exact Hx1|]. rewrite Em.
    destruct (skip_run n t1 (link x) R (Some pid) Hr1') as (N & R' & p' & q' & -> & E & H1 & H2);
      [simpl in HR; lia|]. eapply lwp_ok; [exact E|].
    assert (closed t1 t1 (Some pid) (pid :: N) p' R') as Hcn.
    { apply closed_same; [split; [done|by exists x]|done|done]. }
    eapply lwp_mono; [apply (IH t1 (mkBlk p' q' 0) [] R' p'); [|done|simpl in HR; rewrite length_app in HR; lia]|].
    + destruct (todo_app t1 (pid :: N) R' Htd1) as [_ ?]. split; try done; first [simpl; lia|constructor].
    + intros [] t2 _ Hb. apply (goes_on_closed _ _ _ _ _ _ (c_todo _ _ _ _ _ Hc) Hcl).
      by apply (goes_on_closed t1 t1 (Some pid) (pid :: N) p' R').
  - apply lwp_bind. eapply lwp_mono; [by apply (block_step_spec t v B pid R)|].
    intros [v' p1] t1 _ (B' & Hc' & Hn' & Hg). simpl in *.
    eapply lwp_mono; [apply (IH t1 v' B' R p1); [done|done|lia]|]. intros [] t2 _ H. by apply Hg.
Qed.


