(* ===== verification/MachSym.v ===== *)
(** [sym.c] of libmach, the library the debuggers read executables with: the table of line
    numbers ([pc2line], [line2addr]). *)
From S2P Require Import Prelude CInt.

(** ** The table of line numbers *)

(** [(c[1]<<24)|(c[2]<<16)|(c[3]<<8)|c[4]], an [int] *)
Definition be_int (c1 c2 c3 c4 : Z) : Z :=
  s32 (Z.lor (Z.lor (Z.lor (Z.shiftl c1 24) (Z.shiftl c2 16)) (Z.shiftl c3 8)) c4).

(** What the first entry of the table [t] says of [currpc] and [currline], and what is left of
    the table. [None]: the entry is cut off at the end of the table, and the code reads beyond. *)
Definition lc_entry (q : Z) (u : Z) (t : list Z) (currpc currline : Z) : option (Z * Z * list Z) :=
  if u =? 0 then
    match t with
    | c1 :: c2 :: c3 :: c4 :: t => Some (u64 (currpc + q), s32 (currline + be_int c1 c2 c3 c4), t)
    | _ => None
    end
  else if u <? 65 then Some (u64 (currpc + q), s32 (currline + u), t)
  else if u <? 129 then Some (u64 (currpc + q), s32 (currline - (u - 64)), t)
  else Some (u64 (u64 (currpc + q * (u - 129)) + q), currline, t).

(** [for(c = pcline; c < pclineend && currpc < pc; c++)]; [n] bounds the entries. *)
Fixpoint pc2line_loop (n : nat) (q pc : Z) (t : list Z) (currpc currline : Z) : option Z :=
  match n, t with
  | S n, u :: t =>
      if currpc <? pc then
        match lc_entry q u t currpc currline with
        | Some (currpc, currline, t) => pc2line_loop n q pc t currpc currline
        | None => None
        end
      else Some currline
  | _, _ => Some currline
  end.

(** The variables of the file: the size of an instruction ([mach->pcquant]), the text segment,
    the first instruction if the symbols say, and the table. *)
Record SymFile := mkSymFile {
  pcquant : Z; txtstart : Z; txtend : Z; firstinstr : Z; pcline : option (list Z) }.

Definition pc2line (m : SymFile) (pc : Z) : option Z :=
  match pcline m with
  | None => Some (-1)
  | Some t =>
      let currpc := u64 ((if firstinstr m =? 0 then txtstart m else firstinstr m) - pcquant m) in
      if (pc <? currpc) || (txtend m <? pc) then Some (-1)
      else pc2line_loop (length t) (pcquant m) pc t currpc 0
  end.

(** [line2addr]: the nearest address found, how far its line is off, and whether a line at or
    after [line] was seen. *)
Definition HUGEINT : Z := 0x7fffffff.
Definition none64 : Z := u64 (-1).

Fixpoint line2addr_loop (n : nat) (q line basepc endpc : Z) (t : list Z)
    (currpc currline pc delta : Z) (found : bool) : option Z :=
  match n, t with
  | S n, u :: t =>
      if negb (endpc =? 0) && (endpc <=? currpc) then Some (if found then pc else none64)
      else
        let inside := basepc <=? currpc in
        let d := if line <=? currline then s32 (currline - line) else s32 (line - currline) in
        let found := found || (inside && (line <=? currline)) in
        let '(pc, delta) := if inside && (d <? delta) then (currpc, d) else (pc, delta) in
        match lc_entry q u t currpc currline with
        | Some (currpc, currline, t) => line2addr_loop n q line basepc endpc t currpc currline pc delta found
        | None => None
        end
  | _, _ => Some (if found then pc else none64)
  end.

Definition line2addr (m : SymFile) (line basepc endpc : Z) : option Z :=
  match pcline m with
  | None => Some none64
  | Some t =>
      if line =? 0 then Some none64
      else line2addr_loop (length t) (pcquant m) line basepc endpc t
             (u64 (txtstart m - pcquant m)) 0 none64 HUGEINT false
  end.

(** ** Reading the table *)

(** Once the address is reached, the rest of the table does not matter. *)
Lemma pc2line_stop n q pc t cp cl : pc <= cp -> pc2line_loop n q pc t cp cl = Some cl.
Proof. intros H. destruct n, t as [|u t]; try done. cbn. by rewrite (proj2 (Z.ltb_ge cp pc)) by lia. Qed.

Lemma pc2line_step n q pc u t cp cl cp' cl' t' :
  cp < pc -> lc_entry q u t cp cl = Some (cp', cl', t') ->
  pc2line_loop (S n) q pc (u :: t) cp cl = pc2line_loop n q pc t' cp' cl'.
Proof. intros H E. cbn. by rewrite (proj2 (Z.ltb_lt cp pc)), E by lia. Qed.

(** ** The symbol table *)

(** A symbol, with the parts of [Sym] the file gives. *)
Record MSym := mkMSym { m_value : Z; m_type : Z; m_name : list Z }.

(** How many symbols there are of each kind, the largest index of a file name. *)
Record Counts := mkCounts { ntxt : Z; nglob : Z; nauto : Z; fmaxi : Z; nhist : Z; nfiles : Z }.

Definition NNAME : nat := 20.
(** The size of the buffer of a [Biobuf]. *)
Definition Bsize : Z := 8192.

(** The bytes up to the first zero, and those after it. *)
Fixpoint to_zero (l : list Z) : option (list Z * list Z) :=
  match l with
  | [] => None
  | c :: l => if c =? 0 then Some ([], l) else
      match to_zero l with Some (n, r) => Some (c :: n, r) | None => None end
  end.

(** Pairs of bytes up to a pair of zeros, which belongs to them. *)
Fixpoint to_zeros (l : list Z) : option (list Z * list Z) :=
  match l with
  | c1 :: c2 :: l =>
      if (c1 =? 0) && (c2 =? 0) then Some ([c1; c2], l) else
      match to_zeros l with Some (n, r) => Some (c1 :: c2 :: n, r) | None => None end
  | _ => None
  end.

(** [decodename]: the type without its mark, the name, the bytes after it and their number;
    [None]: the name cannot be read. *)
Definition decodename (type : Z) (bs : list Z) : option (Z * list Z * list Z * Z) :=
  if Z.land type 0x80 =? 0 then
    if (length bs <? NNAME)%nat then None
    else Some (type, map s8 (take NNAME bs), drop (NNAME + 3) bs, Z.of_nat NNAME + 3)
  else
    let type := s8 (Z.land type (Z.lnot 0x80)) in
    if (type =? 122) || (type =? 90) then
      match bs with
      | c :: bs =>
          match to_zeros bs with
          | Some (n, r) => Some (type, map s8 (c :: n), r, 1 + Z.of_nat (length n))
          | None => None
          end
      | [] => None
      end
    else
      match to_zero bs with
      | Some (n, r) =>
          if Z.of_nat (length n) <? Bsize then Some (type, map s8 n, r, Z.of_nat (length n) + 1) else None
      | None => None
      end.

(** [beswal], [beswav] of the bytes read *)
Definition be_value (l : list Z) : Z := fold_left (fun v c => Z.lor (Z.shiftl v 8) c) l 0.

Definition name_dotframe : list Z := [46; 102; 114; 97; 109; 101].

(** The name as a C string. *)
Fixpoint c_name (l : list Z) : list Z :=
  match l with [] => [] | c :: l => if c =? 0 then [] else c :: c_name l end.

(** [switch(p->type)]: the symbol as it is counted. *)
Definition count_sym (p : MSym) (c : Counts) : MSym * Counts :=
  let t := m_type p in
  if bool_decide (t ∈ [108; 76; 116; 84]) then
    (p, mkCounts (ntxt c + 1) (nglob c) (nauto c) (fmaxi c) (nhist c) (nfiles c))
  else if bool_decide (t ∈ [100; 68; 98; 66]) then
    (p, mkCounts (ntxt c) (nglob c + 1) (nauto c) (fmaxi c) (nhist c) (nfiles c))
  else if t =? 102 then
    if bool_decide (c_name (m_name p) = name_dotframe) then
      (mkMSym (m_value p) 109 (m_name p), mkCounts (ntxt c) (nglob c) (nauto c + 1) (fmaxi c) (nhist c) (nfiles c))
    else
      (p, mkCounts (ntxt c) (nglob c) (nauto c) (if fmaxi c <? m_value p then s32 (m_value p) else fmaxi c) (nhist c) (nfiles c))
  else if bool_decide (t ∈ [97; 112; 109]) then
    (p, mkCounts (ntxt c) (nglob c) (nauto c + 1) (fmaxi c) (nhist c) (nfiles c))
  else if t =? 122 then
    if m_value p =? 1 then
      (p, mkCounts (ntxt c) (nglob c) (nauto c) (fmaxi c) (nhist c + 2) (nfiles c + 1))
    else (p, mkCounts (ntxt c) (nglob c) (nauto c) (fmaxi c) (nhist c + 1) (nfiles c))
  else (p, c).

(** One round of the loop: the symbol, the bytes after it and their number. *)
Definition read_sym (wide : bool) (bs : list Z) : option (MSym * list Z * Z) :=
  let svalsz := if wide then 8%nat else 4%nat in
  if (length bs <? S svalsz)%nat then None
  else
    let v := be_value (take svalsz bs) in
    match drop svalsz bs with
    | [] => None
    | ty :: bs =>
        match decodename (s8 ty) bs with
        | None => None
        | Some (type, name, bs, i) =>
            Some (mkMSym (if wide then wraps 64 v else u32 v) type name, bs, i + Z.of_nat svalsz + 1)
        end
    end.

(** The symbols read, or an error, or symbols behind the end of the array [symbols]. *)
Inductive SymTab := Symbols (l : list MSym) (c : Counts) | SymError | SymFault.

(** [for(p = symbols; size < fp->symsz; p++, nsym++)]; the array has room for [cap] symbols. *)
Fixpoint sym_loop (fuel : nat) (wide : bool) (symsz cap size : Z) (bs : list Z) (l : list MSym) (c : Counts) : SymTab :=
  if symsz <=? size then Symbols l c
  else
    match fuel with
    | O => SymFault
    | S f =>
        if cap <=? Z.of_nat (length l) then SymFault
        else
          match read_sym wide bs with
          | None => SymError
          | Some (p, bs, n) =>
              let '(p, c) := count_sym p c in
              sym_loop f wide symsz cap (s32 (size + n)) bs (l ++ [p]) c
          end
    end.

(** The header of an executable, as far as [syminit] uses it; [fwide] stands for the test of
    [_magic] and [magic], [fnone] for the type [FNONE]. *)
Record Fhdr := mkFhdr {
  fnone : bool; fwide : bool; txtaddr : Z; txtsz : Z; symoff : Z; symsz : Z;
  sppcoff : Z; sppcsz : Z; lnpcoff : Z; lnpcsz : Z }.

(** [Bseek(&b, off, 0); Bread(&b, p, n)] *)
Definition read_at (file : list Z) (off n : Z) : option (list Z) :=
  let bs := take (Z.to_nat n) (drop (Z.to_nat off) file) in
  if (length bs <? Z.to_nat n)%nat then None else Some bs.

(** What [syminit] does: nothing, fail, go wrong, or set the variables of the file. *)
Inductive SymInit :=
  | NoSymbols | InitFailed | InitFault
  | Init (l : list MSym) (c : Counts) (spoff : option (list Z)) (m : SymFile).

(** A table that the header says there is. *)
Definition read_table (file : list Z) (off n : Z) : option (option (list Z)) :=
  if n =? 0 then Some None else
  match read_at file off n with Some t => Some (Some t) | None => None end.

Definition syminit (quant first : Z) (file : list Z) (fp : Fhdr) : SymInit :=
  if (symsz fp =? 0) || fnone fp then NoSymbols
  else
    match sym_loop (S (Z.to_nat (symsz fp))) (fwide fp) (symsz fp) (symsz fp / (4 + 1 + 2) + 1) 0
            (drop (Z.to_nat (symoff fp)) file) [] (mkCounts 0 0 0 0 0 0) with
    | SymFault => InitFault
    | SymError => InitFailed
    | Symbols l c =>
        match read_table file (sppcoff fp) (sppcsz fp), read_table file (lnpcoff fp) (lnpcsz fp) with
        | Some sp, Some pl =>
            Init l c sp (mkSymFile quant (txtaddr fp) (u64 (txtaddr fp + txtsz fp)) first pl)
        | _, _ => InitFailed
        end
    end.
