(* ===== verification/VlLines.v ===== *)
(** [asmlc] of [asm.c]: the table of line numbers. *)
From S2P Require Import Prelude CInt VlObj VlOptab VlSym VlSpan VlAsm.

Definition MINLC : Z := 4.

(** [lcsize += n] *)
Definition lc_more (n : Z) : L unit := lmodify (fun s => lset_lcsize (s32 (lcsize s + n)) s).

(** [while(v) { s = 127; if(v < 127) s = v; CPUT(s+128); v -= s; lcsize++; }] *)
Fixpoint lc_pcs (fuel : nat) (v : Z) : L unit :=
  if v =? 0 then lskip
  else
    match fuel with
    | O => ldiverge
    | S f =>
        let s := if v <? 127 then v else 127 in
        CPUT (s + 128);; lc_more 1;; lc_pcs f (v - s)
    end.

(** The entry for a change of the line by [s]. *)
Definition lc_line (s : Z) : L unit :=
  if (64 <? s) || (s <? -64) then
    CPUT 0;; CPUT (Z.shiftr s 24);; CPUT (Z.shiftr s 16);; CPUT (Z.shiftr s 8);; CPUT s;;
    lc_more 5
  else
    (if 0 <? s then CPUT s else CPUT (64 - s));;
    lc_more 1.

(** [oldpc] and [oldlc] after the instruction [pid]. *)
Definition lc_step (oldpc oldlc pid : Z) : L (Z * Z) :=
  p ← getp pid;
  if (p_line p =? oldlc) || (p_as p =? ATEXT) || (p_as p =? ANOP) then
    (if p_as p =? ATEXT then lmodify (lset_curtext (Some pid)) else lskip);;
    mret (oldpc, oldlc)
  else
    let v := Z.quot (s32 (p_pc p - oldpc)) MINLC in
    lc_pcs (S (S (Z.to_nat (v / 127)))) v;;
    lc_line (s32 (p_line p - oldlc));;
    mret (s32 (p_pc p + MINLC), p_line p).

Fixpoint lc_loop (fuel : nat) (oldpc oldlc : Z) (p : option Z) : L unit :=
  match p with
  | None => lskip
  | Some pid =>
      match fuel with
      | O => ldiverge
      | S f =>
          '(oldpc, oldlc) ← lc_step oldpc oldlc pid;
          x ← getp pid;
          lc_loop f oldpc oldlc (link x)
      end
  end.

(** [while(lcsize & 1) { CPUT(129); lcsize++; }]: once is enough, the size is then even. *)
Definition lc_pad : L unit :=
  n ← lgets lcsize;
  if Z.odd n then CPUT 129;; lc_more 1 else lskip.

Definition asmlc (fuel : nat) : L unit :=
  t ← lgets INITTEXT;
  p ← lgets firstp;
  lc_loop fuel t 0 p;;
  lc_pad.
