(* ===== verification/VlOut.v ===== *)
(** The rest of [asm.c]: the symbol table ([asmsym], [putsymb]), the entry point and [asmb]. *)
From S2P Require Import Prelude CInt VlObj VlOptab VlSym VlSpan VlAsm VlPass VlData VlLd VlDat VlLines.

(** ** putsymb *)

(** The bytes of a C string. *)
Fixpoint cstring (l : list Z) : list Z :=
  match l with
  | [] => []
  | c :: l => if c =? 0 then [] else c :: cstring l
  end.

(** [CPUT], for each *)
Fixpoint CPUTs (l : list Z) : L unit :=
  match l with [] => lskip | c :: l => CPUT c;; CPUTs l end.

(** [for(i=1; s[i] != 0 || s[i+1] != 0; i += 2)]: pairs of bytes; behind the name memory is zero. *)
Fixpoint pairs (l : list Z) : list Z :=
  match l with
  | a :: b :: l => if (a =? 0) && (b =? 0) then [] else a :: b :: pairs l
  | [a] => if a =? 0 then [] else [a; 0]
  | [] => []
  end.

(** [t == 'Z' || t == 'z'] *)
Definition is_path (t : Z) : bool := (t =? 90) || (t =? 122).

Definition putsymb (s : list Z) (t v ver : Z) : L unit :=
  let s := if t =? 102 then drop 1 s else s in
  LBEPUT v;;
  let t := if ver =? 0 then t else t + 32 in
  CPUT (t + 0x80);;
  if is_path t then
    let ps := pairs (drop 1 s) in
    CPUT (default 0 (s !! 0%nat));; CPUTs ps;; CPUT 0;; CPUT 0;;
    lmodify (fun st => lset_symsize (s32 (symsize st + (4 + 1 + (1 + Z.of_nat (length ps) + 1) + 1))) st)
  else
    let cs := cstring s in
    CPUTs cs;; CPUT 0;;
    lmodify (fun st => lset_symsize (s32 (symsize st + (4 + 1 + Z.of_nat (length cs) + 1))) st).

(** ** asmsym *)

Definition name_etext : list Z := [101; 116; 101; 120; 116].
Definition name_frame : list Z := [46; 102; 114; 97; 109; 101].

(** [switch(s->type)] in the loop over the symbols *)
Definition sym_entry (y : Z) : L unit :=
  x ← getsym y;
  b ← lgets INITDAT;
  let t := s_type x in
  if t =? SCONST then putsymb (s_name x) 68 (s_value x) (s_version x)
  else if t =? SSTRING then putsymb (s_name x) 84 (s_value x) (s_version x)
  else if t =? SDATA then putsymb (s_name x) 68 (s32 (s_value x + b)) (s_version x)
  else if t =? SBSS then putsymb (s_name x) 66 (s32 (s_value x + b)) (s_version x)
  else if t =? SFILE then putsymb (s_name x) 102 (s_value x) (s_version x)
  else lskip.

Fixpoint sym_entries (l : list Z) : L unit :=
  match l with [] => lskip | y :: l => sym_entry y;; sym_entries l end.

(** [for(a=p->to.autom; a; a=a->link)] *)
Fixpoint each_auto (fuel : nat) (f : Auto -> L unit) (u : option Z) : L unit :=
  match u with
  | None => lskip
  | Some u =>
      match fuel with
      | O => ldiverge
      | S n => a ← geta u; f a;; each_auto n f (au_link a)
      end
  end.

Definition auto_file (a : Auto) : L unit :=
  x ← getsym (asym a);
  if au_type a =? D_FILE then putsymb (s_name x) 122 (aoffset a) 0
  else if au_type a =? D_FILE1 then putsymb (s_name x) 90 (aoffset a) 0
  else lskip.

Definition auto_local (a : Auto) : L unit :=
  x ← getsym (asym a);
  if au_type a =? D_AUTO then putsymb (s_name x) 97 (s32 (- aoffset a)) 0
  else if au_type a =? D_PARAM then putsymb (s_name x) 112 (aoffset a) 0
  else lskip.

(** A function: its source files, itself, its frame and its variables. *)
Definition text_entry (m : nat) (pid : Z) : L unit :=
  p ← getp pid;
  y ← datum_sym p;
  x ← getsym y;
  if negb (s_type x =? STEXT) && negb (s_type x =? SLEAF) then lskip
  else
    each_auto m auto_file (a_sym (to p));;
    putsymb (s_name x) (if s_type x =? STEXT then 84 else 76) (s_value x) (s_version x);;
    putsymb name_frame 109 (s32 (a_offset (to p) + 4)) 0;;
    each_auto m auto_local (a_sym (to p)).

Fixpoint text_entries (fuel m : nat) (p : option Z) : L unit :=
  match p with
  | None => lskip
  | Some pid =>
      match fuel with
      | O => ldiverge
      | S f => text_entry m pid;; x ← getp pid; text_entries f m (cond x)
      end
  end.

(** [n] bounds the functions, [m] the variables of one. *)
Definition asmsym (n m : nat) : L unit :=
  y ← lookup name_etext 0;
  x ← getsym y;
  (if s_type x =? STEXT then putsymb (s_name x) 84 (s_value x) (s_version x) else lskip);;
  l ← lgets all_syms;
  sym_entries l;;
  p ← lgets textp;
  text_entries n m p.

(** ** asmb *)

Section Asmb.
(** The options [-H], [-E] and [-s], the size of the header, the order of bytes of the host, and
    [elf32], which writes the header of an ELF file. *)
Context (HEADTYPE HEADR : Z) (INITENTRY : list Z) (debug_s : bool) (host_le : bool) (elf32 : L unit).

Definition entryvalue : L Z :=
  let c := default 0 (INITENTRY !! 0%nat) in
  if (48 <=? c) && (c <=? 57) then mret (atolwhex INITENTRY)
  else
    y ← lookup INITENTRY 0;
    x ← getsym y;
    if s_type x =? 0 then lgets INITTEXT
    else
      (if negb (s_type x =? STEXT) && negb (s_type x =? SLEAF) then diag "entry not text: %s" [y] else lskip);;
      mret (s_value x).

(** A part of the file: where it starts ([None]: where the last one ended), and its bytes. *)
Definition part (off : option Z) (m : L unit) : L (option Z * list Z) :=
  w ← lgets (fun s => length (written s));
  m;;
  bs ← lgets (fun s => drop w (written s));
  mret (off, bs).

Definition after_text : L (option Z) :=
  t ← lgets textsize;
  r ← lgets INITRND;
  mret (if HEADTYPE =? 0 then Some (rnd (s32 (HEADR + t)) 4096)
        else if HEADTYPE =? 2 then Some (s32 (HEADR + t))
        else if HEADTYPE =? 7 then Some (rnd (s32 (HEADR + t)) r)
        else None).

Definition after_data : L (option Z) :=
  t ← lgets textsize;
  d ← lgets datsize;
  mret (if HEADTYPE =? 0 then Some (s32 (rnd (s32 (HEADR + t)) 4096 + d))
        else if HEADTYPE =? 2 then Some (s32 (s32 (HEADR + t) + d))
        else None).

Fixpoint lputs (l : list Z) : L unit :=
  match l with [] => lskip | v :: l => LBEPUT v;; lputs l end.

(** The header of a boot image of the MIPS company, and that of Plan 9. *)
Definition header0 : L unit :=
  t ← lgets textsize;
  d ← lgets datsize;
  b ← lgets bsssize;
  y ← lgets symsize;
  let e := rnd (s32 (HEADR + t)) 4096 in
  lputs [0x160 * 2 ^ 16; 0; s32 (e + d); y; 0x38 * 2 ^ 16 + 7; 267 * 2 ^ 16 + 287; e; d; b];;
  v ← entryvalue;
  it ← lgets INITTEXT;
  id ← lgets INITDAT;
  lputs [v; s32 (it - HEADR); id; s32 (id + d); -1; 0; 0; 0; 0; -1].

Definition _MAGIC (f b : Z) : Z := Z.lor f ((4 * b + 0) * b + 7).

Definition header2 : L unit :=
  le ← lgets little;
  t ← lgets textsize;
  d ← lgets datsize;
  b ← lgets bsssize;
  y ← lgets symsize;
  lputs [_MAGIC 0 (if le : bool then 24 else 16); t; d; b; y];;
  v ← entryvalue;
  z ← lgets lcsize;
  lputs [v; 0; z].

(** [n] bounds the instructions, data statements and functions, [m] the variables of a function. *)
Definition asmb (n m : nat) : L (list (option Z * list Z)) :=
  le ← lgets little;
  let nx := nuxiinit host_le le in
  text ← part (Some HEADR)
    (t ← lgets INITTEXT; lmodify (lset_pc t);;
     p ← lgets firstp; asmb_text n p;;
     cflush;;
     t ← lgets pc;
     e ← lgets (fun s => s32 (INITTEXT s + textsize s));
     datblks host_le n nx true n t e;;
     cflush);
  lmodify (lset_curtext None);;
  off ← after_text;
  data ← part off (d ← lgets datsize; datblks host_le n nx false n 0 d);
  lmodify (lset_symsize 0);; lmodify (lset_lcsize 0);;
  tables ← (if debug_s then mret []
            else
              off ← after_data;
              tab ← part off (asmsym n m;; asmlc n;; cflush);
              mret [tab]);
  head ← part (Some 0)
    ((if HEADTYPE =? 0 then header0
      else if HEADTYPE =? 2 then header2
      else if HEADTYPE =? 7 then elf32
      else lskip);;
     cflush);
  mret (text :: data :: tables ++ [head]).
End Asmb.
