(* ===== verification/VlOutThm.v ===== *)
(** The symbol table between the linker and the debuggers: [syminit] of libmach reads the symbols
    that [asmsym] has written. *)
From S2P Require Import Prelude CInt VlObj VlOptab VlSym VlSpan VlAsm VlPass VlData VlLd VlDat VlLib VlWp VlDemo MachSym VlOut.

(** ** The entries *)

(** An entry of the table: its type, its value, and its name without what ends it. *)
Record Entry := mkEntry { e_type : Z; e_value : Z; e_name : list Z }.

Definition e_bytes (e : Entry) : list Z :=
  be_bytes (e_value e) ++ [u8 (e_type e + 0x80)] ++ map u8 (e_name e) ++ (if is_path (e_type e) then [0; 0] else [0]).
Definition t_bytes (es : list Entry) : list Z := flat_map e_bytes es.

(** What [putsymb] makes of its arguments. *)
Definition put (s : list Z) (t v ver : Z) : Entry :=
  let s := if t =? 102 then drop 1 s else s in
  let t := if ver =? 0 then t else t + 32 in
  mkEntry t v (if is_path t then default 0 (s !! 0%nat) :: pairs (drop 1 s) else cstring s).

(** The entry of a symbol, if it has one, with the data segment at [b]. *)
Definition global_entry (b : Z) (x : Sym) : list Entry :=
  let t := s_type x in
  if t =? SCONST then [put (s_name x) 68 (s_value x) (s_version x)]
  else if t =? SSTRING then [put (s_name x) 84 (s_value x) (s_version x)]
  else if t =? SDATA then [put (s_name x) 68 (s32 (s_value x + b)) (s_version x)]
  else if t =? SBSS then [put (s_name x) 66 (s32 (s_value x + b)) (s_version x)]
  else if t =? SFILE then [put (s_name x) 102 (s_value x) (s_version x)]
  else [].

Definition file_entry (ax : Auto * Sym) : list Entry :=
  if au_type (fst ax) =? D_FILE then [put (s_name (snd ax)) 122 (aoffset (fst ax)) 0]
  else if au_type (fst ax) =? D_FILE1 then [put (s_name (snd ax)) 90 (aoffset (fst ax)) 0]
  else [].

Definition local_entry (ax : Auto * Sym) : list Entry :=
  if au_type (fst ax) =? D_AUTO then [put (s_name (snd ax)) 97 (s32 (- aoffset (fst ax))) 0]
  else if au_type (fst ax) =? D_PARAM then [put (s_name (snd ax)) 112 (aoffset (fst ax)) 0]
  else [].

(** A function of the program, with its symbol, its variables and files. *)
Record Fn := mkFn { f_prog : Prog; f_sym : Sym; f_autos : list (Auto * Sym) }.

Definition is_text (x : Sym) : bool := (s_type x =? STEXT) || (s_type x =? SLEAF).

Definition fn_entries (f : Fn) : list Entry :=
  if is_text (f_sym f) then
    flat_map file_entry (f_autos f)
    ++ [put (s_name (f_sym f)) (if s_type (f_sym f) =? STEXT then 84 else 76) (s_value (f_sym f)) (s_version (f_sym f));
        put name_frame 109 (s32 (a_offset (to (f_prog f)) + 4)) 0]
    ++ flat_map local_entry (f_autos f)
  else [].

(** The whole table: [etext], the symbols of the hash table, the functions. *)
Definition table_entries (b : Z) (etext : Sym) (xs : list Sym) (fs : list Fn) : list Entry :=
  (if s_type etext =? STEXT then [put (s_name etext) 84 (s_value etext) (s_version etext)] else [])
  ++ flat_map (global_entry b) xs ++ flat_map fn_entries fs.

(** ** The writing *)

(** Bytes are put out; only the buffer changes. *)
Definition outs (bs : list Z) (s s' : vl) : Prop :=
  exists w cb c, s' = lset_cbc c (lset_cbuf cb (lset_written w s)) /\ w ++ cb = (written s ++ cbuf s) ++ bs.

Lemma outs_trans bs bs' s1 s2 s3 : outs bs s1 s2 -> outs bs' s2 s3 -> outs (bs ++ bs') s1 s3.
Proof.
  intros (w & cb & c & -> & H) (w' & cb' & c' & -> & H'). exists w', cb', c'. split; [done|].
  simpl in H'. by rewrite H', H, app_assoc.
Qed.

Lemma outs_nil s : outs [] s s.
Proof. exists (written s), (cbuf s), (cbc s). split; [by destruct s|by rewrite app_nil_r]. Qed.

Lemma putbytes_outs bs s : exists s', putbytes bs s = LOk tt s' /\ outs bs s s'.
Proof.
  unfold putbytes, cflush, mbind, L_bind, lmodify, lgets. destruct (_ <=? 0); eexists; (split; [reflexivity|]).
  - exists (written s ++ (cbuf s ++ bs)), [], MAXIO. split; [done|]. by rewrite app_nil_r, app_assoc.
  - exists (written s), (cbuf s ++ bs), (cbc s - Z.of_nat (length bs)). split; [by destruct s|by rewrite app_assoc].
Qed.

(** Entries are put out and counted. *)
Definition tabled (es : list Entry) (s s' : vl) : Prop :=
  exists s1, outs (t_bytes es) s s1 /\ s' = lset_symsize (s32 (symsize s + Z.of_nat (length (t_bytes es)))) s1.

Lemma tabled_trans es es' s1 s2 s3 : tabled es s1 s2 -> tabled es' s2 s3 -> tabled (es ++ es') s1 s3.
Proof.
  intros (s1' & (w & cb & c & -> & H) & ->) (s2' & (w' & cb' & c' & -> & H') & ->).
  unfold tabled, t_bytes in *. rewrite flat_map_app.
  exists (lset_cbc c' (lset_cbuf cb' (lset_written w' s1))). split.
  - exists w', cb', c'. split; [done|]. simpl in H'. by rewrite H', H, app_assoc.
  - assert (s32 (symsize s1 + Z.of_nat (length (flat_map e_bytes es ++ flat_map e_bytes es')))
      = s32 (s32 (symsize s1 + Z.of_nat (length (flat_map e_bytes es))) + Z.of_nat (length (flat_map e_bytes es')))) as ->.
    { rewrite length_app, Nat2Z.inj_add, Z.add_assoc. unfold s32. by rewrite wrapu_add_wraps by lia. }
    done.
Qed.

Lemma tabled_nil s : in_s 32 (symsize s) -> tabled [] s s.
Proof.
  intros H. exists s. split; [apply outs_nil|]. cbn. rewrite Z.add_0_r. unfold s32. rewrite wraps_id by done. by destruct s.
Qed.

(** The entries leave alone what the table is made of. *)
Record same_tab (s s' : vl) : Prop := {
  st_syms : syms s' = syms s; st_progs : progs s' = progs s; st_autos : autos s' = autos s;
  st_dat : INITDAT s' = INITDAT s; st_range : in_s 32 (symsize s') }.

Lemma tabled_same es s s' : tabled es s s' -> same_tab s s'.
Proof. intros (s1 & (w & cb & c & -> & _) & ->). split; try done. apply wraps_range. lia. Qed.

Lemma CPUT_outs c s : exists s', CPUT c s = LOk tt s' /\ outs [u8 c] s s'.
Proof. apply putbytes_outs. Qed.

Lemma CPUTs_outs l s : exists s', CPUTs l s = LOk tt s' /\ outs (map u8 l) s s'.
Proof.
  revert s. induction l as [|c l IH]; intros s; [exists s; split; [done|apply outs_nil]|].
  destruct (CPUT_outs c s) as (s1 & E1 & H1). destruct (IH s1) as (s2 & E2 & H2). exists s2. split.
  - cbn [CPUTs]. by rewrite (bind_to _ _ _ _ _ E1).
  - cbn [map]. change (u8 c :: map u8 l) with ([u8 c] ++ map u8 l). by eapply outs_trans.
Qed.

(** [putsymb] writes one entry. *)
Lemma putsymb_tabled s t v ver st : exists st', putsymb s t v ver st = LOk tt st' /\ tabled [put s t v ver] st st'.
Proof.
  unfold putsymb, put. set (n := if t =? 102 then drop 1 s else s). set (t' := if ver =? 0 then t else t + 32).
  destruct (putbytes_outs (be_bytes v) st) as (s1 & E1 & H1). unfold LBEPUT. rewrite (bind_to _ _ _ _ _ E1).
  destruct (CPUT_outs (t' + 0x80) s1) as (s2 & E2 & H2). rewrite (bind_to _ _ _ _ _ E2).
  pose proof (outs_trans _ _ _ _ _ H1 H2) as H12. cbv zeta. unfold tabled, t_bytes, e_bytes.
  cbn [flat_map e_type e_value e_name]. rewrite app_nil_r. destruct (is_path t').
  - destruct (CPUT_outs (default 0 (n !! 0%nat)) s2) as (s3 & E3 & H3). rewrite (bind_to _ _ _ _ _ E3).
    destruct (CPUTs_outs (pairs (drop 1 n)) s3) as (s4 & E4 & H4). rewrite (bind_to _ _ _ _ _ E4).
    destruct (CPUT_outs 0 s4) as (s5 & E5 & H5). rewrite (bind_to _ _ _ _ _ E5).
    destruct (CPUT_outs 0 s5) as (s6 & E6 & H6). rewrite (bind_to _ _ _ _ _ E6).
    pose proof (outs_trans _ _ _ _ _ H12 (outs_trans _ _ _ _ _ H3 (outs_trans _ _ _ _ _ H4 (outs_trans _ _ _ _ _ H5 H6)))) as H.
    eexists. split; [reflexivity|]. exists s6. split.
    + destruct H as (w & cb & c & -> & H). exists w, cb, c. split; [done|]. rewrite H. cbn [map].
      by rewrite <- !app_assoc.
    + destruct H as (w & cb & c & -> & _). f_equal. f_equal. cbn [symsize lset_cbc lset_cbuf lset_written].
      f_equal. rewrite !length_app, length_map. cbn [length be_bytes]. lia.
  - destruct (CPUTs_outs (cstring n) s2) as (s3 & E3 & H3). rewrite (bind_to _ _ _ _ _ E3).
    destruct (CPUT_outs 0 s3) as (s4 & E4 & H4). rewrite (bind_to _ _ _ _ _ E4).
    pose proof (outs_trans _ _ _ _ _ H12 (outs_trans _ _ _ _ _ H3 H4)) as H.
    eexists. split; [reflexivity|]. exists s4. split.
    + destruct H as (w & cb & c & -> & H). exists w, cb, c. split; [done|]. rewrite H. by rewrite <- !app_assoc.
    + destruct H as (w & cb & c & -> & _). f_equal. f_equal. cbn [symsize lset_cbc lset_cbuf lset_written].
      f_equal. rewrite !length_app, length_map. cbn [length be_bytes]. lia.
Qed.

(** The variables of a function in the store, from [u] on. *)
Fixpoint auto_list (s : vl) (u : option Z) (l : list (Auto * Sym)) : Prop :=
  match l with
  | [] => u = None
  | ax :: l => exists i, u = Some i /\ autos s !! i = Some (fst ax) /\ syms s !! asym (fst ax) = Some (snd ax)
                         /\ auto_list s (au_link (fst ax)) l
  end.

(** The functions of the program in the store, from [p] on. *)
Fixpoint fn_list (s : vl) (p : option Z) (l : list Fn) : Prop :=
  match l with
  | [] => p = None
  | f :: l => exists i y, p = Some i /\ progs s !! i = Some (f_prog f)
                /\ a_sym (from (f_prog f)) = Some y /\ syms s !! y = Some (f_sym f)
                /\ auto_list s (a_sym (to (f_prog f))) (f_autos f) /\ fn_list s (cond (f_prog f)) l
  end.

Lemma auto_list_same s s' u l : same_tab s s' -> auto_list s u l -> auto_list s' u l.
Proof.
  intros [H1 _ H3 _ _]. revert u. induction l as [|ax l IH]; intros u; [done|]. cbn [auto_list].
  intros (i & E1 & E2 & E3 & E4). exists i. rewrite H1, H3. auto.
Qed.

Lemma fn_list_same s s' p l : same_tab s s' -> fn_list s p l -> fn_list s' p l.
Proof.
  intros H. pose proof H as [H1 H2 _ _ _]. revert p. induction l as [|f l IH]; intros p; [done|]. cbn [fn_list].
  intros (i & y & E1 & E2 & E3 & E4 & E5 & E6). exists i, y. rewrite H1, H2. split_and!; auto.
  by eapply auto_list_same.
Qed.

Lemma getsym_at {B} y x (k : Sym -> L B) s : syms s !! y = Some x -> (x ← getsym y; k x) s = k x s.
Proof. intros H. apply bind_to. unfold getsym. by rewrite H. Qed.

Lemma getp_at {B} i p (k : Prog -> L B) s : progs s !! i = Some p -> (x ← getp i; k x) s = k p s.
Proof. intros H. apply bind_to. unfold getp. by rewrite H. Qed.

(** One entry, or none. *)
Ltac one_entry := first [apply putsymb_tabled | eexists; split; [reflexivity|by apply tabled_nil]].

Lemma sym_entry_tabled y x s : syms s !! y = Some x -> in_s 32 (symsize s) ->
  exists s', sym_entry y s = LOk tt s' /\ tabled (global_entry (INITDAT s) x) s s'.
Proof.
  intros Hx Hs. unfold sym_entry, global_entry. rewrite (getsym_at _ _ _ _ Hx).
  unfold mbind, L_bind, lgets. cbv zeta. repeat (case_match; [one_entry|]). one_entry.
Qed.

Lemma sym_entries_tabled l xs s : Forall2 (fun y x => syms s !! y = Some x) l xs -> in_s 32 (symsize s) ->
  exists s', sym_entries l s = LOk tt s' /\ tabled (flat_map (global_entry (INITDAT s)) xs) s s'.
Proof.
  revert xs s. induction l as [|y l IH]; intros xs s H Hs; inversion H as [|? x ? xs' Hx Hl]; subst.
  { exists s. split; [done|by apply tabled_nil]. }
  destruct (sym_entry_tabled y x s Hx Hs) as (s1 & E1 & T1). pose proof (tabled_same _ _ _ T1) as [S1 _ _ S4 S5].
  destruct (IH xs' s1) as (s2 & E2 & T2); [by rewrite S1|done|]. rewrite S4 in T2.
  exists s2. split; [cbn [sym_entries]; by rewrite (bind_to _ _ _ _ _ E1)|by eapply tabled_trans].
Qed.

Lemma each_auto_tabled (f : Auto -> L unit) (g : Auto * Sym -> list Entry) n u l s :
  (forall a x s, syms s !! asym a = Some x -> in_s 32 (symsize s) ->
     exists s', f a s = LOk tt s' /\ tabled (g (a, x)) s s') ->
  auto_list s u l -> (length l <= n)%nat -> in_s 32 (symsize s) ->
  exists s', each_auto n f u s = LOk tt s' /\ tabled (flat_map g l) s s'.
Proof.
  intros Hf. revert u l s. induction n as [|n IH]; intros u l s Hl Hn Hs.
  1: { destruct l; [|simpl in Hn; lia]. simpl in Hl. subst u. exists s. split; [done|by apply tabled_nil]. }
  destruct l as [|[a x] l]; [simpl in Hl; subst u; exists s; split; [done|by apply tabled_nil]|].
  destruct Hl as (i & -> & Ha & Hx & Hl). cbn [fst snd] in *.
  destruct (Hf a x s Hx Hs) as (s1 & E1 & T1). pose proof (tabled_same _ _ _ T1) as S1.
  destruct (IH (au_link a) l s1) as (s2 & E2 & T2); [by eapply auto_list_same|simpl in Hn; lia|apply S1|].
  exists s2. split; [|by eapply tabled_trans]. cbn [each_auto].
  assert (geta i s = LOk a s) as Eg by (unfold geta; by rewrite Ha). by rewrite (bind_to _ _ _ _ _ Eg), (bind_to _ _ _ _ _ E1).
Qed.

Lemma auto_file_tabled a x s : syms s !! asym a = Some x -> in_s 32 (symsize s) ->
  exists s', auto_file a s = LOk tt s' /\ tabled (file_entry (a, x)) s s'.
Proof.
  intros Hx Hs. unfold auto_file, file_entry. rewrite (getsym_at _ _ _ _ Hx). cbn [fst snd].
  repeat (case_match; [one_entry|]). one_entry.
Qed.

Lemma auto_local_tabled a x s : syms s !! asym a = Some x -> in_s 32 (symsize s) ->
  exists s', auto_local a s = LOk tt s' /\ tabled (local_entry (a, x)) s s'.
Proof.
  intros Hx Hs. unfold auto_local, local_entry. rewrite (getsym_at _ _ _ _ Hx). cbn [fst snd].
  repeat (case_match; [one_entry|]). one_entry.
Qed.

Lemma text_entry_tabled m i y f s :
  progs s !! i = Some (f_prog f) -> a_sym (from (f_prog f)) = Some y -> syms s !! y = Some (f_sym f) ->
  auto_list s (a_sym (to (f_prog f))) (f_autos f) -> (length (f_autos f) <= m)%nat -> in_s 32 (symsize s) ->
  exists s', text_entry m i s = LOk tt s' /\ tabled (fn_entries f) s s'.
Proof.
  intros Hp Hy Hx Hl Hm Hs. unfold text_entry, datum_sym, fn_entries, is_text. rewrite (getp_at _ _ _ _ Hp), Hy.
  unfold mbind at 1, L_bind at 1, mret at 1, L_ret at 1. rewrite (getsym_at _ _ _ _ Hx).
  rewrite <- negb_orb. destruct ((s_type (f_sym f) =? STEXT) || (s_type (f_sym f) =? SLEAF)); cbn [negb].
  2: { exists s. split; [done|by apply tabled_nil]. }
  destruct (each_auto_tabled auto_file file_entry m _ _ s auto_file_tabled Hl Hm Hs) as (s1 & E1 & T1).
  rewrite (bind_to _ _ _ _ _ E1).
  destruct (putsymb_tabled (s_name (f_sym f)) (if s_type (f_sym f) =? STEXT then 84 else 76) (s_value (f_sym f)) (s_version (f_sym f)) s1)
    as (s2 & E2 & T2). rewrite (bind_to _ _ _ _ _ E2).
  destruct (putsymb_tabled name_frame 109 (s32 (a_offset (to (f_prog f)) + 4)) 0 s2) as (s3 & E3 & T3). rewrite (bind_to _ _ _ _ _ E3).
  pose proof (tabled_trans _ _ _ _ _ T1 (tabled_trans _ _ _ _ _ T2 T3)) as T.
  destruct (each_auto_tabled auto_local local_entry m (a_sym (to (f_prog f))) (f_autos f) s3 auto_local_tabled) as (s4 & E4 & T4).
  { eapply auto_list_same; [by eapply tabled_same|done]. }
  { done. }
  { by apply (tabled_same _ _ _ T3). }
  exists s4. split; [done|]. pose proof (tabled_trans _ _ _ _ _ T T4) as G. by rewrite <- app_assoc in G.
Qed.

Lemma text_entries_tabled n m p fs s :
  fn_list s p fs -> (length fs <= n)%nat -> Forall (fun f => (length (f_autos f) <= m)%nat) fs -> in_s 32 (symsize s) ->
  exists s', text_entries n m p s = LOk tt s' /\ tabled (flat_map fn_entries fs) s s'.
Proof.
  revert p fs s. induction n as [|n IH]; intros p fs s Hl Hn Hm Hs.
  1: { destruct fs; [|simpl in Hn; lia]. simpl in Hl. subst p. exists s. split; [done|by apply tabled_nil]. }
  destruct fs as [|f fs]; [simpl in Hl; subst p; exists s; split; [done|by apply tabled_nil]|].
  destruct Hl as (i & y & -> & Hp & Hy & Hx & Ha & Hl). apply list.Forall_cons in Hm as [Hm Hms].
  destruct (text_entry_tabled m i y f s Hp Hy Hx Ha Hm Hs) as (s1 & E1 & T1). pose proof (tabled_same _ _ _ T1) as S1.
  destruct (IH (cond (f_prog f)) fs s1) as (s2 & E2 & T2); [by eapply fn_list_same|simpl in Hn; lia|done|apply S1|].
  exists s2. split; [|by eapply tabled_trans]. cbn [text_entries]. rewrite (bind_to _ _ _ _ _ E1).
  by rewrite (getp_at i (f_prog f)) by (by rewrite (st_progs _ _ S1)).
Qed.

(** What the table is made of: the symbols of the hash table, the functions, and [etext], which
    [dodata] has defined. *)
Record tab_of (s : vl) (etext : Sym) (xs : list Sym) (fs : list Fn) : Prop := {
  to_etext : exists y, lookup name_etext 0 s = LOk y s /\ syms s !! y = Some etext;
  to_syms : Forall2 (fun y x => syms s !! y = Some x) (all_syms s) xs;
  to_fns : fn_list s (textp s) fs;
  to_size : in_s 32 (symsize s) }.

Lemma chains_hash n h s s' : hash s' = hash s -> chains n h s' = chains n h s.
Proof. intros H. revert h. induction n as [|n IH]; intros h; [done|]. cbn [chains]. unfold chain. by rewrite H, IH. Qed.

Lemma asmsym_tabled n m s etext xs fs :
  tab_of s etext xs fs -> (length fs <= n)%nat -> Forall (fun f => (length (f_autos f) <= m)%nat) fs ->
  exists s', asmsym n m s = LOk tt s' /\ tabled (table_entries (INITDAT s) etext xs fs) s s'.
Proof.
  intros [(y & Hy & Hx) Hxs Hfs Hs] Hn Hm. unfold asmsym, table_entries. rewrite (bind_to _ _ _ _ _ Hy), (getsym_at _ _ _ _ Hx).
  set (es := if s_type etext =? STEXT then _ else []).
  assert (exists s1, (if s_type etext =? STEXT then putsymb (s_name etext) 84 (s_value etext) (s_version etext) else lskip) s = LOk tt s1
    /\ tabled es s s1 /\ hash s1 = hash s /\ textp s1 = textp s) as (s1 & E1 & T1 & Hh & Ht).
  { subst es. destruct (s_type etext =? STEXT).
    - destruct (putsymb_tabled (s_name etext) 84 (s_value etext) (s_version etext) s) as (s1 & E1 & T1).
      exists s1. split; [done|]. split; [done|]. by destruct T1 as (s2 & (w & cb & c & -> & _) & ->).
    - exists s. split; [done|]. split; [by apply tabled_nil|done]. }
  rewrite (bind_to _ _ _ _ _ E1). pose proof (tabled_same _ _ _ T1) as S1.
  assert (all_syms s1 = all_syms s) as Hall by (unfold all_syms; by apply chains_hash).
  unfold mbind at 1, L_bind at 1, lgets at 1. rewrite Hall.
  destruct (sym_entries_tabled (all_syms s) xs s1) as (s2 & E2 & T2); [by rewrite (st_syms _ _ S1)|apply S1|].
  rewrite (st_dat _ _ S1) in T2. rewrite (bind_to _ _ _ _ _ E2). pose proof (tabled_same _ _ _ T2) as S2.
  assert (textp s2 = textp s) as Ht2 by (destruct T2 as (s3 & (w & cb & c & -> & _) & ->); exact Ht).
  unfold mbind at 1, L_bind at 1, lgets at 1. rewrite Ht2.
  destruct (text_entries_tabled n m (textp s) fs s2) as (s3 & E3 & T3); [by eapply fn_list_same, fn_list_same|done|done|apply S2|].
  exists s3. split; [done|]. eapply tabled_trans; [exact T1|]. by eapply tabled_trans.
Qed.

(** ** The reading *)

(** Pairs of bytes, none of them zero in both. *)
Fixpoint pairs_ok (l : list Z) : Prop :=
  match l with
  | [] => True
  | a :: b :: l => in_s 8 a /\ in_s 8 b /\ (a <> 0 \/ b <> 0) /\ pairs_ok l
  | _ => False
  end.

(** What can be read back: a type that is a character, a name of characters, and not an empty
    one; the line buffer of libmach bounds its length. *)
Record entry_ok (e : Entry) : Prop := {
  eo_type : 0 <= e_type e < 128;
  eo_name : if is_path (e_type e) then exists c ps, e_name e = c :: ps /\ in_s 8 c /\ pairs_ok ps
            else Forall (fun c => in_s 8 c /\ c <> 0) (e_name e) /\ e_name e <> []
                 /\ Z.of_nat (length (e_name e)) < Bsize }.

(** The symbol in memory. *)
Definition msym (e : Entry) : MSym :=
  mkMSym (u32 (e_value e)) (e_type e) (if is_path (e_type e) then e_name e ++ [0; 0] else e_name e).

Definition counts0 : Counts := mkCounts 0 0 0 0 0 0.

(** As the switch of [syminit] leaves it. *)
Definition final (p : MSym) : MSym := fst (count_sym p counts0).

Lemma count_final p c : fst (count_sym p c) = final p.
Proof. unfold final, count_sym. repeat case_match; done. Qed.

Lemma u8_zero c : in_s 8 c -> u8 c = 0 -> c = 0.
Proof. intros H E. rewrite <- (wraps_id 8 c) by (lia || done). rewrite <- (wraps_wrapu 8 8) by lia. fold (u8 c). by rewrite E. Qed.

Lemma s8_of_u8 c : in_s 8 c -> s8 (u8 c) = c.
Proof. intros H. unfold s8, u8. rewrite wraps_wrapu by lia. by apply wraps_id. Qed.

Lemma chars_back l : Forall (fun c => in_s 8 c) l -> map s8 (map u8 l) = l.
Proof. induction 1 as [|c l Hc Hl IH]; [done|]. cbn [map]. by rewrite s8_of_u8, IH. Qed.

Lemma to_zero_name n rest : Forall (fun c => in_s 8 c /\ c <> 0) n ->
  to_zero (map u8 n ++ 0 :: rest) = Some (map u8 n, rest).
Proof.
  induction 1 as [|c n [Hc Hz] Hn IH]; [done|]. cbn [map app to_zero].
  rewrite (proj2 (Z.eqb_neq _ 0)), IH; [done|]. intros E. by apply Hz, u8_zero.
Qed.

Lemma to_zeros_pairs k l rest : (length l <= k)%nat -> pairs_ok l ->
  to_zeros (map u8 l ++ 0 :: 0 :: rest) = Some (map u8 l ++ [0; 0], rest).
Proof.
  revert l. induction k as [|k IH]; intros l Hk Hl.
  { by destruct l; [|simpl in Hk; lia]. }
  destruct l as [|a [|b l]]; [done|done|]. destruct Hl as (Ha & Hb & Hab & Hl). cbn [map app to_zeros].
  rewrite (IH l) by (simpl in Hk; lia || done).
  assert ((u8 a =? 0) && (u8 b =? 0) = false) as ->; [|done].
  apply andb_false_iff. rewrite !Z.eqb_neq. destruct Hab as [H|H]; [left|right]; intros E; by apply H, u8_zero.
Qed.

Lemma pairs_in_s k l : (length l <= k)%nat -> pairs_ok l -> Forall (fun c => in_s 8 c) l.
Proof.
  revert l. induction k as [|k IH]; intros l Hk Hl.
  { by destruct l; [|simpl in Hk; lia]. }
  destruct l as [|a [|b l]]; [constructor|done|]. destruct Hl as (Ha & Hb & _ & Hl).
  constructor; [done|]. constructor; [done|]. apply IH; [simpl in Hk; lia|done].
Qed.

Lemma be_value_bytes v : u32 (be_value (be_bytes v)) = u32 v.
Proof. unfold be_value, be_bytes. cbn [fold_left]. cbits. Qed.

Lemma type_back t : 0 <= t < 128 ->
  Z.land (s8 (u8 (t + 0x80))) 0x80 <> 0 /\ s8 (Z.land (s8 (u8 (t + 0x80))) (Z.lnot 0x80)) = t.
Proof.
  intros H. assert (forallb (fun t => negb (Z.land (s8 (u8 (t + 0x80))) 0x80 =? 0)
    && (s8 (Z.land (s8 (u8 (t + 0x80))) (Z.lnot 0x80)) =? t)) (seqZ 0 128) = true) as Hall by by vm_compute.
  rewrite forallb_forall in Hall. specialize (Hall t). rewrite andb_true_iff, negb_true_iff, Z.eqb_neq, Z.eqb_eq in Hall.
  apply Hall, list_elem_of_In, elem_of_seqZ. lia.
Qed.

Lemma decode_entry e rest : entry_ok e ->
  exists n, decodename (s8 (u8 (e_type e + 0x80))) (map u8 (e_name e) ++ (if is_path (e_type e) then [0; 0] else [0]) ++ rest)
            = Some (e_type e, m_name (msym e), rest, n)
    /\ 5 + n = Z.of_nat (length (e_bytes e)) /\ 2 <= n.
Proof.
  intros [Ht Hn]. destruct (type_back _ Ht) as [H1 H2]. unfold decodename, msym, e_bytes. cbn [m_name].
  rewrite (proj2 (Z.eqb_neq _ 0)), H2 by done. rewrite orb_comm. fold (is_path (e_type e)). cbv zeta.
  destruct (is_path (e_type e)).
  - destruct Hn as (c & ps & -> & Hc & Hps). cbn [map app]. rewrite (to_zeros_pairs (length ps)) by done.
    rewrite map_app, s8_of_u8 by done. rewrite (chars_back ps) by (by apply (pairs_in_s (length ps))).
    eexists. split; [reflexivity|split].
    + rewrite !length_app, !length_map. cbn [length be_bytes map]. rewrite length_app, length_map. cbn [length]. lia.
    + rewrite length_app. cbn [length]. lia.
  - destruct Hn as (Hc & Hne & Hl). cbn [app]. rewrite to_zero_name by done. rewrite length_map, (proj2 (Z.ltb_lt _ _)) by done.
    rewrite chars_back by (eapply list.Forall_impl; [exact Hc|]; by intros ? [? _]).
    eexists. split; [reflexivity|split].
    + rewrite length_app. cbn [length be_bytes]. rewrite length_app, length_map. cbn [length]. lia.
    + destruct (e_name e); [done|]. cbn [length]. lia.
Qed.

Lemma read_entry e rest : entry_ok e ->
  read_sym false (e_bytes e ++ rest) = Some (msym e, rest, Z.of_nat (length (e_bytes e)))
  /\ 7 <= Z.of_nat (length (e_bytes e)).
Proof.
  intros He. destruct (decode_entry e rest He) as (n & Hd & Hn & Hn2). split; [|lia].
  unfold read_sym. cbv zeta.
  replace (e_bytes e ++ rest) with (be_bytes (e_value e) ++ u8 (e_type e + 0x80) ::
    (map u8 (e_name e) ++ (if is_path (e_type e) then [0; 0] else [0]) ++ rest)) by (unfold e_bytes; by rewrite <- !app_assoc).
  assert (length (be_bytes (e_value e)) = 4%nat) as Hb by done.
  rewrite (proj2 (Nat.ltb_ge _ _)) by (rewrite length_app; cbn [length]; lia).
  rewrite (take_app_length' _ _ 4), (drop_app_length' _ _ 4) by done. rewrite Hd, be_value_bytes.
  unfold msym. cbn [m_name]. do 2 f_equal. lia.
Qed.

Lemma sym_loop_reads es f cap size l c rest symsz :
  Forall entry_ok es -> (length es <= f)%nat -> symsz = size + Z.of_nat (length (t_bytes es)) -> symsz < 2 ^ 31 ->
  0 <= size -> 7 * Z.of_nat (length l) <= size -> cap = symsz / 7 + 1 ->
  exists c', sym_loop f false symsz cap size (t_bytes es ++ rest) l c = Symbols (l ++ map (fun e => final (msym e)) es) c'.
Proof.
  revert f size l c. induction es as [|e es IH]; intros f size l c He Hf -> Hlt Hs Hl ->; cbn [t_bytes flat_map map] in *.
  { rewrite app_nil_r. exists c. destruct f; cbn [sym_loop]; by rewrite (proj2 (Z.leb_le _ _)) by (simpl; lia). }
  apply list.Forall_cons in He as [He Hes]. fold (t_bytes es) in *. rewrite <- app_assoc. rewrite !length_app, Nat2Z.inj_add in *.
  destruct (read_entry e (t_bytes es ++ rest) He) as [Hr Hlen].
  destruct f as [|f]; [simpl in Hf; lia|]. cbn [sym_loop]. rewrite (proj2 (Z.leb_gt _ size)) by lia.
  rewrite (proj2 (Z.leb_gt _ (Z.of_nat (length l)))).
  2: { pose proof (Z.div_le_lower_bound (size + (Z.of_nat (length (e_bytes e)) + Z.of_nat (length (t_bytes es)))) 7 (Z.of_nat (length l))). lia. }
  rewrite Hr. pose proof (count_final (msym e) c) as Hfin. destruct (count_sym (msym e) c) as [p c1]. cbn [fst] in Hfin. subst p.
  assert (s32 (size + Z.of_nat (length (e_bytes e))) = size + Z.of_nat (length (e_bytes e))) as -> by (apply wraps_id; unfold in_s; lia).
  destruct (IH f (size + Z.of_nat (length (e_bytes e))) (l ++ [final (msym e)]) c1) as (c' & E).
  { done. }
  { simpl in Hf. lia. }
  { rewrite Z.add_assoc. done. }
  { lia. }
  { lia. }
  { rewrite length_app. cbn [length]. lia. }
  { by rewrite Z.add_assoc. }
  rewrite Z.add_assoc in *. exists c'. rewrite E. by rewrite <- app_assoc.
Qed.

Lemma entries_length es : Forall entry_ok es -> 7 * Z.of_nat (length es) <= Z.of_nat (length (t_bytes es)).
Proof.
  induction 1 as [|e es He Hes IH]; [done|]. unfold t_bytes in *. cbn [flat_map length]. rewrite length_app.
  pose proof (proj2 (read_entry e [] He)). lia.
Qed.

(** C12: the symbol table [asmsym] writes is the one libmach reads: with the number of bytes the
    linker has counted and the place of the table in the header, [syminit] finds exactly the
    symbols of the program in their order, [etext], the global constants, strings, data and
    files, and for each function its source files, itself, its frame, its variables and
    parameters, with the type (small for a static one), the value and the name of each, without
    an error and within its array; and it loads the line table. *)
Theorem symbols_read (n m : nat) (s : vl) (etext : Sym) (xs : list Sym) (fs : list Fn) :
  let es := table_entries (INITDAT s) etext xs fs in
  tab_of s etext xs fs -> (length fs <= n)%nat -> Forall (fun f => (length (f_autos f) <= m)%nat) fs ->
  symsize s = 0 -> Forall entry_ok es -> es <> [] -> Z.of_nat (length (t_bytes es)) < 2 ^ 31 ->
  exists s' bs, asmsym n m s = LOk tt s' /\ output s' = output s ++ bs /\ symsize s' = Z.of_nat (length bs)
    /\ forall quant first file rest fp lines,
         drop (Z.to_nat (symoff fp)) file = bs ++ rest -> symsz fp = symsize s' ->
         fnone fp = false -> fwide fp = false -> sppcsz fp = 0 ->
         read_at file (lnpcoff fp) (lnpcsz fp) = Some lines -> lnpcsz fp <> 0 ->
         exists c, syminit quant first file fp
           = Init (map (fun e => final (msym e)) es) c None
               (mkSymFile quant (txtaddr fp) (u64 (txtaddr fp + txtsz fp)) first (Some lines)).
Proof.
  intros es Ht Hn Hm Hz He Hne Hlt. destruct (asmsym_tabled n m s etext xs fs Ht Hn Hm) as (s' & E & T).
  exists s', (t_bytes es). split; [done|]. fold es in T. pose proof (entries_length es He) as Hlen.
  destruct T as (s1 & (w & cb & c & -> & Hout) & ->). split; [exact Hout|].
  assert (s32 (symsize s + Z.of_nat (length (t_bytes es))) = Z.of_nat (length (t_bytes es))) as Es.
  { rewrite Hz. apply wraps_id; unfold in_s; lia. }
  split; [exact Es|]. intros quant first file rest fp lines Hf Hsz Hno Hw Hsp Hl Hl0.
  cbn [symsize lset_symsize] in Hsz. rewrite Es in Hsz.
  assert (0 < Z.of_nat (length es)) by (destruct es; [done|simpl; lia]).
  unfold syminit. rewrite (proj2 (Z.eqb_neq _ 0)), Hno, Hw, Hf by lia. cbn [orb].
  destruct (sym_loop_reads es (S (Z.to_nat (symsz fp))) (symsz fp / (4 + 1 + 2) + 1) 0 [] counts0 rest (symsz fp)) as (c' & Ec); try done; try lia.
  fold counts0. rewrite Ec. unfold read_table. rewrite Hsp, (proj2 (Z.eqb_neq (lnpcsz fp) 0)), Hl by done.
  by exists c'.
Qed.

(** ** A symbol table *)

(** The symbols [etext], [main] with the local [i] and the source file [/a], the static [x]. *)
Definition tab_syms : list (Z * Sym) :=
  [(0, mkSym name_etext STEXT 0 0 0 0x1100); (1, mkSym [109; 97; 105; 110] STEXT 0 0 0 0x1020);
   (2, mkSym [120] SDATA 3 0 0 8); (3, mkSym [105] 0 0 0 0 0); (4, mkSym [60; 97] SFILE 0 0 0 1);
   (5, mkSym [0; 0; 1] 0 0 0 0 0)].

Definition tab_autos : list (Auto * Sym) :=
  [(mkAuto 3 (Some 1) (-4) D_AUTO, mkSym [105] 0 0 0 0 0); (mkAuto 5 None 1 D_FILE, mkSym [0; 0; 1] 0 0 0 0 0)].

Definition tab_main : Prog := ins ATEXT (mkAdr 0 (Some 1) D_OREG NREG D_EXTERN 0) (mkAdr 8 (Some 0) D_CONST NREG D_NONE 0) NREG None None.

Definition tab_hash : gmap Z (list Z) := <[129 := [2]]> (<[277 := [4]]> (<[2691 := [0]]> {[4241 := [1]]})).

Definition tab_demo : vl :=
  lset_syms (list_to_map tab_syms)
    (lset_autos (list_to_map [(0, (mkAuto 3 (Some 1) (-4) D_AUTO)); (1, mkAuto 5 None 1 D_FILE)])
      (lset_hash tab_hash (linker {[0 := tab_main]} 1))).

Definition tab_fns : list Fn := [mkFn tab_main (mkSym [109; 97; 105; 110] STEXT 0 0 0 0x1020) tab_autos].

Lemma tab_demo_syms : all_syms tab_demo = [2; 4; 0; 1].
Proof. vm_compute. reflexivity. Qed.

Definition tab_xs : list Sym := omap (fun y => list_to_map (M := gmap Z Sym) tab_syms !! y) [2; 4; 0; 1].

Lemma tab_demo_of : tab_of tab_demo (mkSym name_etext STEXT 0 0 0 0x1100) tab_xs tab_fns.
Proof.
  split.
  - exists 0. by split.
  - rewrite tab_demo_syms. by repeat constructor.
  - do 2 eexists. split_and!; try reflexivity.
    do 2 (eexists; split_and!; try reflexivity).
  - by unfold in_s.
Qed.

Definition tab_entries : list Entry := table_entries (INITDAT tab_demo) (mkSym name_etext STEXT 0 0 0 0x1100) tab_xs tab_fns.

(** Each entry by a test. *)
Definition entry_okb (e : Entry) : bool :=
  (0 <=? e_type e) && (e_type e <? 128)
  && (if is_path (e_type e) then
        match e_name e with
        | [c; a; b] => bool_decide (in_s 8 c) && bool_decide (in_s 8 a) && bool_decide (in_s 8 b) && negb ((a =? 0) && (b =? 0))
        | _ => false
        end
      else forallb (fun c => bool_decide (in_s 8 c) && negb (c =? 0)) (e_name e) && negb (bool_decide (e_name e = []))
           && (Z.of_nat (length (e_name e)) <? Bsize)).

Lemma entry_okb_ok e : entry_okb e = true -> entry_ok e.
Proof.
  unfold entry_okb. rewrite !andb_true_iff, Z.leb_le, Z.ltb_lt. intros [[H1 H2] H]. split; [lia|].
  destruct (is_path (e_type e)).
  - destruct (e_name e) as [|c [|a [|b [|? ?]]]]; try done.
    rewrite !andb_true_iff, !bool_decide_eq_true, negb_true_iff, andb_false_iff, !Z.eqb_neq in H.
    destruct H as [[[Hc Ha] Hb] Hab]. exists c, [a; b]. done.
  - rewrite !andb_true_iff, forallb_forall, Z.ltb_lt, negb_true_iff, bool_decide_eq_false in H. destruct H as [[Hf Hn] Hl].
    split; [|done]. apply list.Forall_forall. intros c Hc. apply list_elem_of_In, Hf in Hc.
    by rewrite andb_true_iff, bool_decide_eq_true, negb_true_iff, Z.eqb_neq in Hc.
Qed.

Lemma tab_entries_ok : Forall entry_ok tab_entries.
Proof.
  assert (forallb entry_okb tab_entries = true) as H by (vm_compute; reflexivity).
  apply list.Forall_forall. intros e He. apply entry_okb_ok. rewrite forallb_forall in H. by apply H, list_elem_of_In.
Qed.

Lemma symbols_read_witness :
  tab_of tab_demo (mkSym name_etext STEXT 0 0 0 0x1100) tab_xs tab_fns /\ Forall entry_ok tab_entries
  /\ exists s' bs, asmsym 1 2 tab_demo = LOk tt s' /\ output s' = output tab_demo ++ bs /\ symsize s' = Z.of_nat (length bs)
    /\ forall quant first file rest fp lines,
         drop (Z.to_nat (symoff fp)) file = bs ++ rest -> symsz fp = symsize s' ->
         fnone fp = false -> fwide fp = false -> sppcsz fp = 0 ->
         read_at file (lnpcoff fp) (lnpcsz fp) = Some lines -> lnpcsz fp <> 0 ->
         exists c, syminit quant first file fp
           = Init (map (fun e => final (msym e)) tab_entries) c None
               (mkSymFile quant (txtaddr fp) (u64 (txtaddr fp + txtsz fp)) first (Some lines)).
Proof.
  split; [exact tab_demo_of|]. split; [exact tab_entries_ok|].
  apply (symbols_read 1 2 tab_demo (mkSym name_etext STEXT 0 0 0 0x1100) tab_xs tab_fns tab_demo_of).
  - done.
  - repeat constructor.
  - done.
  - exact tab_entries_ok.
  - done.
  - vm_compute. reflexivity.
Defined.

Example tab_demo_read : map (fun e => (m_type (final (msym e)), m_value (final (msym e)))) tab_entries
  = [(84, 0x1100); (100, 8); (102, 1); (122, 1); (84, 0x1020); (109, 12); (97, 4)].
Proof. vm_compute. reflexivity. Qed.
