(* ===== verification/VlAsmb.v ===== *)
(** The whole output of the linker: the parts [asmb] writes, where they are in the file and how
    long they are, against the header. *)
From S2P Require Import Prelude CInt VlObj VlOptab VlSym VlSpan VlAsm VlPass VlData VlLd VlDat VlLines VlLib VlEmit VlTables VlLayout VlWp VlDemo MachSym VlOut VlOutThm.

(** ** What the parts leave alone *)

(** The variables the header is made of, but for the sizes of the tables. *)
Definition frame (s : vl) := (little s, textsize s, datsize s, bsssize s, INITTEXT s, INITDAT s, INITRND s).

Definition framed (s s' : vl) : Prop := frame s' = frame s.

#[export] Instance framed_refl : Reflexive framed.
Proof. done. Qed.
#[export] Instance framed_trans : Transitive framed.
Proof. intros a b c H1 H2. unfold framed in *. congruence. Qed.

Lemma quiet_framed s s' : quiet s s' -> framed s s'.
Proof. intros [_ Hv _]. unfold vars in Hv. simplify_eq. unfold framed, frame. congruence. Qed.

Lemma lrel_quiet_framed {A} (m : L A) : lrel quiet m -> lrel framed m.
Proof. apply lrel_weaken, quiet_framed. Qed.
#[export] Hint Extern 2 (lrel framed _) => apply lrel_quiet_framed : vl.

Lemma modify_framed f : (forall s, frame (f s) = frame s) -> lrel framed (lmodify f).
Proof. intros H. apply lrel_modify. exact H. Qed.

Lemma updp_framed p f : lrel framed (updp p f).
Proof. intros s a s'. unfold updp. case_match; [|done]. by intros [= <- <-]. Qed.

Lemma cflush_framed : lrel framed cflush.
Proof. by apply modify_framed. Qed.

Lemma putbytes_framed bs : lrel framed (putbytes bs).
Proof.
  unfold putbytes. apply lrel_bind; [apply _|by apply modify_framed|]. intros _.
  apply lrel_bind; [apply _|apply lrel_gets, _|]. intros n. destruct (n <=? 0); [apply cflush_framed|apply lrel_ret, _].
Qed.
#[export] Hint Resolve updp_framed cflush_framed putbytes_framed : vl.

Lemma LPUT_framed w : lrel framed (LPUT w).
Proof. unfold LPUT, LLEPUT, LBEPUT. lgo. Qed.
#[export] Hint Resolve LPUT_framed : vl.

Lemma LPUTs_framed ws : lrel framed (LPUTs ws).
Proof. induction ws as [|w ws IH]; cbn [LPUTs]; lgo; apply IH. Qed.
#[export] Hint Resolve LPUTs_framed : vl.

Lemma oplook_framed pid : lrel framed (oplook pid).
Proof. unfold oplook, set_optab, class_from, class_to. lgo. Qed.
#[export] Hint Resolve oplook_framed : vl.

Lemma asmout_framed f pid o a : lrel framed (asmout f pid o a).
Proof. revert pid o a. induction f as [|f IH]; intros pid o a; [apply lrel_diverge|]. cbn [asmout]. lgo; apply IH. Qed.
#[export] Hint Resolve asmout_framed : vl.

Lemma pc_framed f : lrel framed (lmodify (fun s => lset_pc (f s) s)).
Proof. by apply modify_framed. Qed.
#[export] Hint Resolve pc_framed : vl.

Lemma asmb_body_framed f pid : lrel framed (asmb_body asmb_phase f pid).
Proof. unfold asmb_body, asmb_phase. lgo. Qed.
#[export] Hint Resolve asmb_body_framed : vl.

Lemma asmb_text_framed f p : lrel framed (asmb_text f p).
Proof.
  unfold asmb_text. revert p. induction f as [|f IH]; intros p; cbn [asmb_loop]; [apply lrel_diverge|].
  destruct p as [pid|]; lgo.
Qed.

(** ** What the tables add to the sizes *)

(** [bs] is put out, [n] of it counted in [symsize] and [k] in [lcsize]. *)
Record grew (n k : Z) (bs : list Z) (s s' : vl) : Prop := {
  gr_frame : framed s s';
  gr_out : output s' = output s ++ bs;
  gr_sym : u32 (symsize s') = u32 (symsize s + n);
  gr_lc : u32 (lcsize s') = u32 (lcsize s + k) }.

Lemma u32_add a a' b n m : u32 a' = u32 (a + n) -> u32 b = u32 (a' + m) -> u32 b = u32 (a + (n + m)).
Proof.
  unfold u32, wrapu. intros H1 ->. rewrite <- Zplus_mod_idemp_l, H1, Zplus_mod_idemp_l. f_equal. lia.
Qed.

Lemma grew_trans n k bs n' k' bs' s1 s2 s3 :
  grew n k bs s1 s2 -> grew n' k' bs' s2 s3 -> grew (n + n') (k + k') (bs ++ bs') s1 s3.
Proof.
  intros [F1 O1 S1 L1] [F2 O2 S2 L2]. split; [by etrans|by rewrite O2, O1, app_assoc|by eapply u32_add|by eapply u32_add].
Qed.

(** Symbols are put out and counted; lines are. *)
Definition symbols_out (s s' : vl) : Prop := exists bs, grew (Z.of_nat (length bs)) 0 bs s s'.
Definition lines_out (s s' : vl) : Prop := exists bs, grew 0 (Z.of_nat (length bs)) bs s s'.

Lemma grew_none s s' : framed s s' -> output s' = output s -> symsize s' = symsize s -> lcsize s' = lcsize s -> grew 0 0 [] s s'.
Proof. intros H1 H2 H3 H4. split; rewrite ?Z.add_0_r, ?app_nil_r; congruence. Qed.

#[export] Instance symbols_out_refl : Reflexive symbols_out.
Proof. intros s. exists []. by apply grew_none. Qed.
#[export] Instance lines_out_refl : Reflexive lines_out.
Proof. intros s. exists []. by apply grew_none. Qed.

#[export] Instance symbols_out_trans : Transitive symbols_out.
Proof.
  intros a b c [x Hx] [y Hy]. exists (x ++ y). rewrite length_app, Nat2Z.inj_add. exact (grew_trans _ _ _ _ _ _ _ _ _ Hx Hy).
Qed.
#[export] Instance lines_out_trans : Transitive lines_out.
Proof.
  intros a b c [x Hx] [y Hy]. exists (x ++ y). rewrite length_app, Nat2Z.inj_add. exact (grew_trans _ _ _ _ _ _ _ _ _ Hx Hy).
Qed.

Lemma quiet_grew s s' : quiet s s' -> grew 0 0 [] s s'.
Proof.
  intros H. pose proof (quiet_framed _ _ H) as Hf. destruct H as [_ Hv _]. unfold vars in Hv. simplify_eq.
  apply grew_none; unfold output; congruence.
Qed.

Lemma lrel_quiet_symbols {A} (m : L A) : lrel quiet m -> lrel symbols_out m.
Proof. apply lrel_weaken. intros s s' H. exists []. by apply quiet_grew. Qed.
Lemma lrel_quiet_lines {A} (m : L A) : lrel quiet m -> lrel lines_out m.
Proof. apply lrel_weaken. intros s s' H. exists []. by apply quiet_grew. Qed.
#[export] Hint Extern 2 (lrel symbols_out _) => apply lrel_quiet_symbols : vl.
#[export] Hint Extern 2 (lrel lines_out _) => apply lrel_quiet_lines : vl.

Lemma putsymb_out s t v ver : lrel symbols_out (putsymb s t v ver).
Proof.
  intros st a st' H. destruct (putsymb_tabled s t v ver st) as (st2 & E & (st1 & (w & cb & c & -> & Ho) & ->)).
  rewrite E in H. injection H as <- <-. exists (t_bytes [put s t v ver]). split; try done.
  - unfold u32. simpl. unfold s32. by rewrite wrapu_wraps by lia.
  - simpl. by rewrite Z.add_0_r.
Qed.

Lemma chain_find_same symb v l s r s' : chain_find symb v l s = LOk r s' -> s' = s.
Proof.
  induction l as [|y l IH]; [by intros [= <- <-]|]. cbn [chain_find]. unfold mbind, L_bind, getsym.
  destruct (syms s !! y); [|done]. case_bool_decide; [by intros [= <- <-]|done].
Qed.

Lemma lookup_grew symb v s y s' : lookup symb v s = LOk y s' -> grew 0 0 [] s s'.
Proof.
  unfold lookup, mbind, L_bind, lgets. destruct (chain_find _ _ _ s) as [r s1| | |] eqn:E; [|done..].
  apply chain_find_same in E as ->. destruct r; intros [= <- <-]; by apply grew_none.
Qed.

Lemma lookup_out symb v : lrel symbols_out (lookup symb v).
Proof. intros s y s' H. exists []. by eapply lookup_grew. Qed.

Lemma geta_quiet u : lrel quiet (geta u).
Proof. intros s a s'. unfold geta. case_match; [|done]. by intros [= <- <-]. Qed.
Lemma datum_sym_quiet p : lrel quiet (datum_sym p).
Proof. unfold datum_sym. lgo. Qed.
#[export] Hint Resolve putsymb_out lookup_out geta_quiet datum_sym_quiet : vl.

Lemma sym_entry_out y : lrel symbols_out (sym_entry y).
Proof. unfold sym_entry. lgo. Qed.
#[export] Hint Resolve sym_entry_out : vl.
Lemma sym_entries_out l : lrel symbols_out (sym_entries l).
Proof. induction l as [|y l IH]; cbn [sym_entries]; lgo; apply IH. Qed.
Lemma each_auto_out n f u : (forall a, lrel symbols_out (f a)) -> lrel symbols_out (each_auto n f u).
Proof. intros Hf. revert u. induction n as [|n IH]; intros u; cbn [each_auto]; lgo; first [apply Hf|apply IH]. Qed.
Lemma auto_file_out a : lrel symbols_out (auto_file a).
Proof. unfold auto_file. lgo. Qed.
Lemma auto_local_out a : lrel symbols_out (auto_local a).
Proof. unfold auto_local. lgo. Qed.
#[export] Hint Resolve sym_entries_out : vl.
Lemma text_entry_out m pid : lrel symbols_out (text_entry m pid).
Proof. unfold text_entry. lgo; apply each_auto_out; intros; first [apply auto_file_out|apply auto_local_out]. Qed.
#[export] Hint Resolve text_entry_out : vl.
Lemma text_entries_out n m p : lrel symbols_out (text_entries n m p).
Proof. revert p. induction n as [|n IH]; intros p; cbn [text_entries]; lgo; apply IH. Qed.
#[export] Hint Resolve text_entries_out : vl.
Lemma asmsym_out n m : lrel symbols_out (asmsym n m).
Proof. unfold asmsym. lgo. Qed.

(** [CPUT(...); lcsize += n], as many as there are bytes *)
Lemma counted_out bs n s s1 a s' :
  outs bs s s1 -> n = Z.of_nat (length bs) -> lc_more n s1 = LOk a s' -> lines_out s s'.
Proof.
  intros (w & cb & c & -> & Ho) -> [= <- <-]. exists bs. split; try done.
  - simpl. by rewrite Z.add_0_r.
  - simpl. unfold u32, s32. by rewrite wrapu_wraps by lia.
Qed.

Lemma lc_pcs_out f v : lrel lines_out (lc_pcs f v).
Proof.
  revert v. induction f as [|f IH]; intros v; cbn [lc_pcs]; destruct (v =? 0); try (apply lrel_ret, _); [apply lrel_diverge|].
  cbv zeta. set (c := (if v <? 127 then v else 127)). intros s a s' H.
  destruct (CPUT_outs (c + 128) s) as (s1 & E1 & H1). rewrite (bind_to _ _ _ _ _ E1) in H.
  apply bind_ok in H as ([] & s2 & H2 & H). etrans; [by apply (counted_out _ 1 _ _ _ _ H1) in H2|]. by eapply IH.
Qed.

Lemma lc_line_out c : lrel lines_out (lc_line c).
Proof.
  unfold lc_line. intros s a s' H. destruct (_ || _).
  - destruct (CPUT_outs 0 s) as (s1 & E1 & H1), (CPUT_outs (Z.shiftr c 24) s1) as (s2 & E2 & H2),
      (CPUT_outs (Z.shiftr c 16) s2) as (s3 & E3 & H3), (CPUT_outs (Z.shiftr c 8) s3) as (s4 & E4 & H4),
      (CPUT_outs c s4) as (s5 & E5 & H5).
    rewrite (bind_to _ _ _ _ _ E1), (bind_to _ _ _ _ _ E2), (bind_to _ _ _ _ _ E3), (bind_to _ _ _ _ _ E4), (bind_to _ _ _ _ _ E5) in H.
    pose proof (outs_trans _ _ _ _ _ H1 (outs_trans _ _ _ _ _ H2 (outs_trans _ _ _ _ _ H3 (outs_trans _ _ _ _ _ H4 H5)))) as Ho.
    by apply (counted_out _ 5 _ _ _ _ Ho) in H.
  - destruct (0 <? c); apply bind_ok in H as ([] & s1 & H1 & H);
      [destruct (CPUT_outs c s) as (s2 & E2 & H2)|destruct (CPUT_outs (64 - c) s) as (s2 & E2 & H2)];
      rewrite E2 in H1; injection H1 as <-; by apply (counted_out _ 1 _ _ _ _ H2) in H.
Qed.
#[export] Hint Resolve lc_pcs_out lc_line_out : vl.

Lemma lc_step_out oldpc oldlc pid : lrel lines_out (lc_step oldpc oldlc pid).
Proof. unfold lc_step. lgo. Qed.
#[export] Hint Resolve lc_step_out : vl.

Lemma lc_loop_out f oldpc oldlc p : lrel lines_out (lc_loop f oldpc oldlc p).
Proof. revert oldpc oldlc p. induction f as [|f IH]; intros oldpc oldlc p; cbn [lc_loop]; lgo; apply IH. Qed.
#[export] Hint Resolve lc_loop_out : vl.

Lemma asmlc_out f : lrel lines_out (asmlc f).
Proof.
  unfold asmlc. lgo. unfold lc_pad. apply lrel_bind; [apply _|apply lrel_gets, _|]. intros n. destruct (Z.odd n); [|lgo].
  intros st u st' H. destruct (CPUT_outs 129 st) as (s1 & E1 & H1). rewrite (bind_to _ _ _ _ _ E1) in H. by apply (counted_out _ 1 _ _ _ _ H1) in H.
Qed.

(** ** The data *)

Lemma get_block_quiet b : lrel quiet (get_block b).
Proof. intros s a s'. unfold get_block. case_match; [|done]. by intros [= <- <-]. Qed.
#[export] Hint Resolve get_block_quiet : vl.
Lemma ieeedtof_quiet l h : lrel quiet (ieeedtof l h).
Proof. unfold ieeedtof. lgo. Qed.
Lemma datum_const_quiet a : lrel quiet (datum_const a).
Proof. unfold datum_const. lgo. Qed.
#[export] Hint Resolve ieeedtof_quiet datum_const_quiet : vl.

Section Data.
Context (host : bool) (nx : Nuxi).

Lemma datum_value_quiet p c i : lrel quiet (datum_value host nx p c i).
Proof. unfold datum_value. lgo. Qed.
Hint Resolve datum_value_quiet : vl.

Lemma dat_step_quiet t n str pid dbuf : lrel quiet (dat_step host nx t n str pid dbuf).
Proof. unfold dat_step. lgo. Qed.
Hint Resolve dat_step_quiet : vl.

Lemma dat_loop_quiet t n str f p dbuf : lrel quiet (dat_loop host nx t n str f p dbuf).
Proof. revert p dbuf. induction f as [|f IH]; intros p dbuf; cbn [dat_loop]; lgo; apply IH. Qed.

Lemma fill_length k byte i l dbuf dbuf' : fill k byte i l dbuf = Some dbuf' -> length dbuf' = length dbuf.
Proof.
  revert i l dbuf. induction k as [|k IH]; intros i l dbuf; cbn [fill]; [by intros [= <-]|].
  destruct (byte i); [|done]. destruct (dbuf !! _); [|done]. intros H. by rewrite (IH _ _ _ H), length_insert.
Qed.

Lemma dat_step_length t n str pid dbuf : lret (fun d => length d = length dbuf) (dat_step host nx t n str pid dbuf).
Proof.
  unfold dat_step. do 4 (eapply lret_bind; [apply lret_any|intros ? _]).
  destruct (negb _); [by apply lret_ret|]. cbv zeta. destruct (_ && _); [by apply lret_ret|].
  destruct (n <=? _); [by apply lret_ret|]. do 2 (eapply lret_bind; [apply lret_any|intros ? _]).
  case_match; [|by apply lret_ret]. case_match eqn:E; [|by intros ? ?]. apply fill_length in E. by apply lret_ret.
Qed.

Lemma dat_loop_length t n str f p dbuf : lret (fun d => length d = length dbuf) (dat_loop host nx t n str f p dbuf).
Proof.
  revert p dbuf. induction f as [|f IH]; intros p dbuf; cbn [dat_loop]; (destruct p; [|by apply lret_ret]); [by intros ? ?|].
  eapply lret_bind; [apply dat_step_length|]. intros d <-. eapply lret_bind; [apply lret_any|]. intros x _. apply IH.
Qed.
End Data.

(** [bs] is put out and flushed. *)
Record wrote_raw (bs : list Z) (s s' : vl) : Prop := {
  wr_framed : framed s s';
  wr_output : output s' = output s ++ bs;
  wr_flushed : cbuf s' = [] }.

Lemma wrote_raw_trans bs bs' s1 s2 s3 : framed s1 s2 -> output s2 = output s1 ++ bs -> wrote_raw bs' s2 s3 -> wrote_raw (bs ++ bs') s1 s3.
Proof. intros F O [F' O' C]. split; [by etrans|by rewrite O', O, app_assoc|done]. Qed.

Lemma datblk_size host nx t n str f s s' : 0 <= n -> cbuf s = [] -> datblk host nx t n str f s = LOk tt s' ->
  exists bs, Z.of_nat (length bs) = n /\ wrote_raw bs s s'.
Proof.
  intros Hn Hc H. unfold datblk in H. apply bind_ok in H as (d & s1 & [= <- <-] & H).
  apply bind_ok in H as (dbuf & s1 & H1 & [= <-]).
  pose proof (dat_loop_length _ _ _ _ _ _ _ _ _ _ _ H1) as Hl. rewrite length_replicate in Hl.
  pose proof (dat_loop_quiet _ _ _ _ _ _ _ _ _ _ _ H1) as Hq. pose proof (quiet_framed _ _ Hq) as Hf.
  pose proof (quiet_vars _ _ Hq) as Hv. unfold vars in Hv. simplify_eq.
  assert (cbuf s1 = []) as Hc1 by congruence. assert (written s1 = written s) as Hw by congruence.
  exists (take (Z.to_nat n) dbuf). split; [rewrite length_take; lia|].
  split; [exact Hf| |by simpl; rewrite Hc1].
  unfold output. simpl. rewrite Hc1, Hw, Hc. cbn [length take]. by rewrite !app_nil_r.
Qed.

Lemma datblks_size host r nx str f t e s s' :
  0 <= t -> e + DATBLK < 2 ^ 31 -> cbuf s = [] -> datblks host r nx str f t e s = LOk tt s' ->
  exists bs, Z.of_nat (length bs) = Z.max 0 (e - t) /\ wrote_raw bs s s'.
Proof.
  intros Ht He. revert t s Ht. unfold DATBLK, MAXIO in *. induction r as [|r IH]; intros t s Ht Hc H; cbn [datblks] in H.
  all: destruct (Z.leb_spec e t); [injection H as <-; exists []; split; [simpl; lia|by split; [|rewrite app_nil_r|]]|].
  { done. }
  apply bind_ok in H as ([] & s1 & H1 & H).
  set (n := if DATBLK <? e - t then DATBLK else e - t) in H1.
  assert ((0 < n <= e - t /\ n <= 2 * 8192 - 100) /\ (n < e - t -> n = 2 * 8192 - 100)) as [Hn Hn'] by (subst n; unfold DATBLK, MAXIO; destruct (Z.ltb_spec (2 * 8192 - 100) (e - t)); lia).
  assert (e <= t + DATBLK -> n = e - t) as Hn2 by (subst n; unfold DATBLK, MAXIO; destruct (Z.ltb_spec (2 * 8192 - 100) (e - t)); lia).
  unfold DATBLK, MAXIO in Hn2. clearbody n.
  assert (0 <= n) as Hn0 by lia.
  destruct (datblk_size _ _ _ _ _ _ _ _ Hn0 Hc H1) as (b1 & L1 & W1).
  assert (s32 (t + DATBLK) = t + DATBLK) as Es by (apply wraps_id; unfold in_s, DATBLK, MAXIO; lia).
  rewrite Es in H. unfold DATBLK, MAXIO in H.
  destruct (IH (t + (2 * 8192 - 100)) s1 ltac:(lia) (wr_flushed _ _ _ W1) H) as (b2 & L2 & W2).
  exists (b1 ++ b2). split.
  - rewrite length_app, Nat2Z.inj_add, L1, L2. destruct (Z.lt_ge_cases n (e - t)) as [Hlt|]; [specialize (Hn' Hlt)|]; lia.
  - eapply wrote_raw_trans; [apply W1|apply W1|exact W2].
Qed.

Lemma cflush_raw s s' : cflush s = LOk tt s' -> wrote_raw [] s s'.
Proof. intros [= <-]. split; [done| |done]. unfold output. simpl. by rewrite !app_nil_r. Qed.

(** ** The parts *)

Lemma part_ok off m s o bs s' : cbuf s = [] -> part off m s = LOk (o, bs) s' ->
  m s = LOk tt s' /\ o = off /\ (forall b, output s' = output s ++ b -> cbuf s' = [] -> bs = b).
Proof.
  intros Hc H. unfold part in H. apply bind_ok in H as (w & s1 & [= <- <-] & H). apply bind_ok in H as ([] & s1 & H1 & H).
  apply bind_ok in H as (d & s2 & [= <- <-] & H). injection H as <- <- <-. split; [done|]. split; [done|].
  intros b Ho Hc'. unfold output in Ho. rewrite Hc, Hc', !app_nil_r in Ho. by rewrite Ho, drop_app_length.
Qed.

Section Layout.
Context (HEADR : Z) (INITENTRY : list Z) (host : bool) (elf32 : L unit).

Lemma entryvalue_grew s v s' : entryvalue INITENTRY s = LOk v s' -> grew 0 0 [] s s'.
Proof.
  unfold entryvalue. cbv zeta. destruct (_ && _); [intros [= <- <-]; by apply grew_none|]. intros H.
  apply bind_ok in H as (y & s1 & H1 & H). apply lookup_grew in H1. apply bind_ok in H as (x & s2 & H2 & H).
  apply (lrel_getsym quiet) in H2. apply quiet_grew in H2. pose proof (grew_trans _ _ _ _ _ _ _ _ _ H1 H2) as H12.
  destruct (s_type x =? 0); [injection H as <- <-; exact H12|].
  apply bind_ok in H as ([] & s3 & H3 & H). injection H as <- <-.
  assert (quiet s2 s3) as H4 by (revert H3; destruct (_ && _); [apply diag_quiet|apply lrel_ret, _]).
  exact (grew_trans _ _ _ _ _ _ _ _ _ H12 (quiet_grew _ _ H4)).
Qed.

Lemma lputs_outs l s : exists s', lputs l s = LOk tt s' /\ outs (flat_map be_bytes l) s s'.
Proof.
  revert s. induction l as [|v l IH]; intros s; [exists s; split; [done|apply outs_nil]|].
  destruct (putbytes_outs (be_bytes v) s) as (s1 & E1 & H1). destruct (IH s1) as (s2 & E2 & H2). exists s2. split.
  - cbn [lputs]. unfold LBEPUT. by rewrite (bind_to _ _ _ _ _ E1).
  - cbn [flat_map]. by eapply outs_trans.
Qed.

Lemma outs_grew bs s s' : outs bs s s' -> grew 0 0 bs s s'.
Proof. intros (w & cb & c & -> & H). split; simpl; rewrite ?Z.add_0_r; done. Qed.

(** The header of a Plan 9 executable. *)
Lemma header2_says s u s' : header2 INITENTRY s = LOk u s' ->
  exists v z, u32 z = u32 (lcsize s)
    /\ grew 0 0 (flat_map be_bytes [_MAGIC 0 (if little s then 24 else 16); textsize s; datsize s; bsssize s; symsize s; v; 0; z]) s s'.
Proof.
  intros H. unfold header2 in H. do 5 (apply bind_ok in H as (? & ? & [= <- <-] & H)).
  set (l1 := [_; textsize s; _; _; _]) in H.
  destruct (lputs_outs l1 s) as (s1 & E1 & H1). rewrite (bind_to _ _ _ _ _ E1) in H. apply outs_grew in H1.
  apply bind_ok in H as (v & s2 & H2 & H). apply entryvalue_grew in H2. apply bind_ok in H as (z & s3 & [= <- <-] & H).
  destruct (lputs_outs [v; 0; lcsize s2] s2) as (s4 & E4 & H4). rewrite E4 in H. injection H as <- <-. apply outs_grew in H4.
  pose proof (grew_trans _ _ _ _ _ _ _ _ _ H1 H2) as H12. exists v, (lcsize s2). split.
  - rewrite (gr_lc _ _ _ _ _ H12). f_equal. lia.
  - pose proof (grew_trans _ _ _ _ _ _ _ _ _ H12 H4) as H. rewrite app_nil_r in H. exact H.
Qed.

(** The text, and the strings behind it. *)
Definition text_part (n : nat) (nx : Nuxi) : L unit :=
  t ← lgets INITTEXT; lmodify (lset_pc t);;
  p ← lgets firstp; asmb_text n p;;
  cflush;;
  t ← lgets pc;
  e ← lgets (fun s => s32 (INITTEXT s + textsize s));
  datblks host n nx true n t e;;
  cflush.

Lemma text_part_size n nx s u s' e :
  tabs s = tables -> laid s (firstp s) (INITTEXT s) e -> 0 <= e <= INITTEXT s + textsize s ->
  INITTEXT s + textsize s + DATBLK < 2 ^ 31 -> 0 <= INITTEXT s -> text_part n nx s = LOk u s' ->
  exists bs, Z.of_nat (length bs) mod 2 ^ 32 = textsize s mod 2 ^ 32 /\ wrote_raw bs s s'.
Proof.
  intros Ht Hl He Hr Hi H. unfold text_part in H. apply bind_ok in H as (t & s1 & [= <- <-] & H).
  apply bind_ok in H as ([] & s2 & [= <-] & H). apply bind_ok in H as (p & s3 & [= <- <-] & H).
  set (s0 := lset_pc (INITTEXT s) s) in *. apply bind_ok in H as ([] & s1 & H1 & H).
  assert (laid s0 (firstp s0) (pc s0) e) as Hl0 by by apply (laid_progs s).
  pose proof (asmb_text_framed _ _ _ _ _ H1) as F1. unfold asmb_text in H1.
  change (firstp s) with (firstp s0) in H1.
  rewrite (loop_in_phase n (firstp s0) s0 e Ht Hl0) in H1.
  destruct (loop_advances n (firstp s0) s0 s1 e Ht Hl0 H1) as (Hpc & b1 & Hb1 & Hm).
  apply bind_ok in H as ([] & s2 & H2 & H). pose proof (cflush_raw _ _ H2) as W2.
  assert (pc s2 = e) as Hpc2 by (injection H2 as <-; exact Hpc).
  apply bind_ok in H as (t & s3 & [= <- <-] & H). apply bind_ok in H as (et & s3 & [= <- <-] & H).
  assert (framed s s2) as F2 by (etrans; [exact F1|apply W2]).
  assert (s32 (INITTEXT s2 + textsize s2) = INITTEXT s + textsize s) as Eet.
  { unfold framed, frame in F2. replace (INITTEXT s2) with (INITTEXT s) by congruence.
    replace (textsize s2) with (textsize s) by congruence. apply wraps_id; unfold in_s, DATBLK, MAXIO in *; lia. }
  rewrite Eet, Hpc2 in H. apply bind_ok in H as ([] & s4 & H4 & H).
  assert (0 <= e) as He0 by lia.
  destruct (datblks_size _ _ _ _ _ _ _ _ _ He0 Hr (wr_flushed _ _ _ W2) H4) as (b2 & L2 & W4).
  destruct u. pose proof (cflush_raw _ _ H) as W5.
  assert (framed s s1) as Fs1 by exact F1. assert (output s1 = output s ++ b1) as Os1 by exact Hb1.
  pose proof (wrote_raw_trans _ _ _ _ _ Fs1 Os1 W2) as W. rewrite app_nil_r in W.
  pose proof (wrote_raw_trans _ _ _ _ _ (wr_framed _ _ _ W) (wr_output _ _ _ W) W4) as W'.
  pose proof (wrote_raw_trans _ _ _ _ _ (wr_framed _ _ _ W') (wr_output _ _ _ W') W5) as W''. rewrite app_nil_r in W''.
  exists (b1 ++ b2). split; [|exact W'']. rewrite length_app, Nat2Z.inj_add, L2, Z.max_r by lia.
  change (pc s0) with (INITTEXT s) in Hm.
  assert (Z.of_nat (length b1) mod 2 ^ 32 = (e - INITTEXT s) mod 2 ^ 32) as Hb.
  { replace (Z.of_nat (length b1)) with (INITTEXT s + Z.of_nat (length b1) - INITTEXT s) by lia.
    by rewrite <- Zminus_mod_idemp_l, Hm, Zminus_mod_idemp_l. }
  rewrite <- Zplus_mod_idemp_l, Hb, Zplus_mod_idemp_l. f_equal. lia.
Qed.

(** What is in the file that [asmb] writes for Plan 9: the parts, their places and sizes. *)
Record laid_in_file (s : vl) (parts : list (option Z * list Z)) : Prop := {
  lf_parts : exists T D Y Z' H v y z,
    parts = [(Some HEADR, T); (Some (s32 (HEADR + textsize s)), D);
             (Some (s32 (s32 (HEADR + textsize s) + datsize s)), Y ++ Z'); (Some 0, H)]
    /\ Z.of_nat (length T) mod 2 ^ 32 = textsize s mod 2 ^ 32
    /\ Z.of_nat (length D) = datsize s
    /\ Z.of_nat (length Y) mod 2 ^ 32 = y mod 2 ^ 32
    /\ Z.of_nat (length Z') mod 2 ^ 32 = z mod 2 ^ 32
    /\ H = flat_map be_bytes [_MAGIC 0 (if little s then 24 else 16); textsize s; datsize s; bsssize s; y; v; 0; z] }.

End Layout.

(** ** A whole executable *)

(** [TEXT main, $8; ADD R1, R2, R3], as [span] leaves it: at 0x1020, the entries of the table
    remembered, the text of eight bytes, the data of 16. *)
Definition file_prog : gmap Z Prog :=
  {[0 := pset_optab 151 (pset_pc 0x1020 (ins ATEXT (mkAdr 0 (Some 0) D_OREG NREG D_EXTERN 0) (mkAdr 8 None D_CONST NREG D_NONE 0) NREG None (Some 1)));
    1 := pset_optab 3 (pset_line 7 (pset_pc 0x1020 (ins AADD (areg 1) (areg 3) 2 None None)))]}.

Definition file_demo : vl := lset_datsize 16 (lset_textsize 8 (linker file_prog 2)).

Lemma file_demo_laid : laid file_demo (firstp file_demo) (INITTEXT file_demo) 0x1024.
Proof.
  eapply (laid_cons _ 0 _ (mkOptab ATEXT 24 0 14 0 0 0)); [reflexivity| |reflexivity|].
  { split_and!; [done|with_strategy transparent [tables] reflexivity|done]. }
  eapply (laid_cons _ 1 _ (mkOptab AADD 1 1 1 2 4 0)); [reflexivity| |reflexivity|apply laid_nil].
  split_and!; [done|with_strategy transparent [tables] reflexivity|done].
Qed.

Lemma file_demo_returns :
  is_ok (asmb 2 32 [109; 97; 105; 110] false true lskip 5 5 file_demo) = true.
Proof. vm_compute. reflexivity. Qed.


(** The numbers of bytes of its parts. *)
Definition file_sizes : list nat :=
  match asmb 2 32 [109; 97; 105; 110] false true lskip 5 5 file_demo with
  | LOk parts _ => map (fun p => length (snd p)) parts
  | _ => []
  end.

Example file_demo_sizes : file_sizes = [8%nat; 16%nat; 24%nat; 32%nat].
Proof. vm_compute. reflexivity. Qed.
