(* ===== verification/VlLinesThm.v ===== *)
(** The table of line numbers that [asmlc] writes is the one [pc2line] of libmach reads: for
    the address of every instruction it gives the line of the instruction. *)
From S2P Require Import Prelude CInt VlObj VlOptab VlSym VlSpan VlAsm VlLib VlEmit VlWp VlLines MachSym VlDemo.

(** ** The bytes of the table *)

Fixpoint pcs_bytes (f : nat) (v : Z) : list Z :=
  if v =? 0 then []
  else
    match f with
    | O => []
    | S f => let s := if v <? 127 then v else 127 in u8 (s + 128) :: pcs_bytes f (v - s)
    end.

Definition line_bytes (s : Z) : list Z :=
  if (64 <? s) || (s <? -64) then 0 :: be_bytes s
  else if 0 <? s then [u8 s] else [u8 (64 - s)].

(** An instruction without an entry. *)
Definition silent (oldlc : Z) (p : Prog) : bool :=
  (p_line p =? oldlc) || (p_as p =? ATEXT) || (p_as p =? ANOP).

Definition words_from (oldpc : Z) (p : Prog) : Z := Z.quot (s32 (p_pc p - oldpc)) MINLC.
Definition rounds (v : Z) : nat := S (S (Z.to_nat (v / 127))).

Fixpoint table (oldpc oldlc : Z) (cs : list Prog) : list Z :=
  match cs with
  | [] => []
  | p :: cs =>
      if silent oldlc p then table oldpc oldlc cs
      else
        let v := words_from oldpc p in
        pcs_bytes (rounds v) v ++ line_bytes (s32 (p_line p - oldlc))
        ++ table (s32 (p_pc p + MINLC)) (p_line p) cs
  end.

(** ** [asmlc] writes the table *)

(** [bs] was written, and [lcsize] has advanced by [n]; the program is as before. *)
Record wrote (bs : list Z) (n : Z) (s s' : vl) : Prop := {
  wr_output : output s' = output s ++ bs;
  wr_size : lcsize s' = s32 (lcsize s + n);
  wr_progs : progs s' = progs s;
  wr_vars : (INITTEXT s', firstp s', tabs s', textsize s') = (INITTEXT s, firstp s, tabs s, textsize s) }.

Lemma wrote_trans bs1 n1 bs2 n2 s1 s2 s3 :
  wrote bs1 n1 s1 s2 -> wrote bs2 n2 s2 s3 -> wrote (bs1 ++ bs2) (n1 + n2) s1 s3.
Proof.
  intros [H1 H2 H3 H4] [G1 G2 G3 G4]. split; [|..|congruence|congruence].
  - by rewrite G1, H1, app_assoc.
  - rewrite G2, H2. unfold s32. rewrite wrapu_add_wraps by lia. f_equal. lia.
Qed.

Lemma wrote_nil s s' :
  output s' = output s -> lcsize s' = lcsize s -> in_s 32 (lcsize s) -> progs s' = progs s ->
  (INITTEXT s', firstp s', tabs s', textsize s') = (INITTEXT s, firstp s, tabs s, textsize s) -> wrote [] 0 s s'.
Proof.
  intros H1 H2 H3 H4 H5. split; [by rewrite app_nil_r|rewrite H2, Z.add_0_r; symmetry; by apply wraps_id|done|done].
Qed.

(** The bytes alone. *)
Definition puts (bs : list Z) (s s' : vl) : Prop :=
  output s' = output s ++ bs /\ lcsize s' = lcsize s /\ progs s' = progs s
  /\ (INITTEXT s', firstp s', tabs s', textsize s') = (INITTEXT s, firstp s, tabs s, textsize s).

Lemma putbytes_puts bs s : exists s', putbytes bs s = LOk tt s' /\ puts bs s s'.
Proof.
  unfold putbytes, mbind, L_bind, lmodify, lgets, cflush. destruct (_ <=? 0); eexists;
    (split; [reflexivity|]); split; try done; unfold output; simpl; by rewrite ?app_nil_r, ?app_assoc.
Qed.

Lemma lwp_put {X} bs (k : unit -> L unit) Q s :
  (forall s', puts bs s s' -> lwp X (k tt) Q s') -> lwp X (x ← putbytes bs; k x) Q s.
Proof. intros H. destruct (putbytes_puts bs s) as (s' & E & Hp). by eapply lwp_run, H. Qed.

Lemma puts_more bs n s s' : puts bs s s' -> wrote bs n s (lset_lcsize (s32 (lcsize s' + n)) s').
Proof. intros (H1 & H2 & H3 & H4). split; [done|by simpl; rewrite H2|done|done]. Qed.

Lemma puts_trans bs1 bs2 s1 s2 s3 : puts bs1 s1 s2 -> puts bs2 s2 s3 -> puts (bs1 ++ bs2) s1 s3.
Proof.
  intros (H1 & H2 & H3 & H4) (G1 & G2 & G3 & G4). split; [by rewrite G1, H1, app_assoc|].
  split; [congruence|]. split; congruence.
Qed.

Lemma lc_pcs_wrote f v s :
  v <= 127 * Z.of_nat f -> (v < 0 -> (1 <= f)%nat) -> in_s 32 (lcsize s) ->
  lwp noexit (lc_pcs f v) (fun _ s' =>
    wrote (pcs_bytes f v) (Z.of_nat (length (pcs_bytes f v))) s s') s.
Proof.
  revert v s. induction f as [|f IH]; intros v s Hv Hn Hs; cbn [lc_pcs pcs_bytes].
  - destruct (Z.eqb_spec v 0); [by apply wrote_nil|lia].
  - destruct (Z.eqb_spec v 0); [by apply wrote_nil|]. apply lwp_put. intros s1 H1.
    apply lwp_modify. eapply lwp_mono; [apply IH|].
    + destruct (Z.ltb_spec v 127); lia.
    + destruct (Z.ltb_spec v 127); lia.
    + apply wraps_range. lia.
    + intros [] s2 _ H2. pose proof (wrote_trans _ _ _ _ _ _ _ (puts_more _ 1 _ _ H1) H2) as H.
      cbn [app] in H. replace (Z.of_nat (length (_ :: _))) with (1 + Z.of_nat (length (pcs_bytes f (v - (if v <? 127 then v else 127)))))
        by (cbn [length]; lia). exact H.
Qed.

Lemma lc_line_wrote c s :
  lwp noexit (lc_line c) (fun _ s' => wrote (line_bytes c) (Z.of_nat (length (line_bytes c))) s s') s.
Proof.
  unfold lc_line, line_bytes, be_bytes. destruct ((64 <? c) || (c <? -64)).
  - do 5 (apply lwp_put; let H := fresh "H" in intros ? H).
    pose proof (puts_trans _ _ _ _ _ H (puts_trans _ _ _ _ _ H0 (puts_trans _ _ _ _ _ H1 (puts_trans _ _ _ _ _ H2 H3)))) as G.
    by apply (puts_more _ 5) in G.
  - destruct (0 <? c); apply lwp_put; intros s1 H; by apply (puts_more _ 1) in H.
Qed.

Lemma rounds_enough v : v <= 127 * Z.of_nat (rounds v) /\ (1 <= rounds v)%nat.
Proof.
  unfold rounds. split; [|lia]. destruct (Z.lt_ge_cases v 0); [lia|].
  pose proof (Z.div_mod v 127 ltac:(lia)). pose proof (Z.mod_pos_bound v 127 ltac:(lia)).
  assert (0 <= v / 127) by (apply Z.div_pos; lia). lia.
Qed.

(** The instructions of a list. *)
Definition of_list (m : gmap Z Prog) (l : list Z) (cs : list Prog) : Prop :=
  Forall2 (fun i c => m !! i = Some c) l cs.

Lemma lc_loop_wrote fuel oldpc oldlc p l cs s :
  linked (progs s) p l -> of_list (progs s) l cs -> (length l <= fuel)%nat -> in_s 32 (lcsize s) ->
  lwp noexit (lc_loop fuel oldpc oldlc p) (fun _ s' =>
    wrote (table oldpc oldlc cs) (Z.of_nat (length (table oldpc oldlc cs))) s s') s.
Proof.
  revert oldpc oldlc p l cs s. induction fuel as [|f IH]; intros oldpc oldlc p l cs s Hl Hc Hf Hs.
  { destruct l; [|simpl in Hf; lia]. inversion Hc; subst. simpl in Hl. subst. by apply wrote_nil. }
  destruct l as [|x l]; inversion Hc as [|? c ? cs' Hx Hc']; subst.
  { simpl in Hl. subst. by apply wrote_nil. }
  destruct Hl as (-> & q & Hq & Hl). rewrite Hx in Hq. injection Hq as <-.
  cbn [lc_loop table]. apply lwp_bind. unfold lc_step. eapply lwp_getp; [exact Hx|].
  fold (silent oldlc c). destruct (silent oldlc c).
  - destruct (p_as c =? ATEXT); [apply lwp_modify|apply lwp_skip]; apply lwp_ret.
    all: eapply lwp_getp; [exact Hx|].
    all: eapply lwp_mono; [eapply (IH _ _ _ l cs'); [exact Hl|exact Hc'|simpl in Hf; lia|exact Hs]|].
    all: intros [] s' _ [H1 H2 H3 H4]; by split.
  - apply lwp_bind. destruct (rounds_enough (words_from oldpc c)) as [Hr1 Hr2].
    eapply lwp_mono; [apply lc_pcs_wrote; [exact Hr1|done|done]|]. intros [] s1 _ H1.
    apply lwp_bind. eapply lwp_mono; [apply lc_line_wrote|]. intros [] s2 _ H2.
    apply lwp_ret. pose proof (wrote_trans _ _ _ _ _ _ _ H1 H2) as H.
    pose proof (wr_progs _ _ _ _ H) as Hp.
    eapply lwp_getp; [by rewrite Hp|].
    eapply lwp_mono; [eapply (IH _ _ _ l cs'); rewrite ?Hp; try done|].
    + simpl in Hf. lia.
    + rewrite (wr_size _ _ _ _ H). apply wraps_range. lia.
    + intros [] s3 _ H3. rewrite app_assoc, length_app, Nat2Z.inj_add.
      rewrite length_app, Nat2Z.inj_add. exact (wrote_trans _ _ _ _ _ _ _ H H3).
Qed.

(** ** [pc2line] reads it *)

Section Reading.
Context (pc : Z).
Abbreviation D := pc2line_loop.

(** Entries that advance the address, up to below the one asked for, and from below it. *)
Lemma read_pcs f v n t cp cl :
  0 <= v <= 127 * Z.of_nat f -> 0 <= cp -> cp + MINLC * v < 2 ^ 63 -> cp + MINLC * v < pc ->
  (length (pcs_bytes f v) <= n)%nat ->
  D n MINLC pc (pcs_bytes f v ++ t) cp cl
  = D (n - length (pcs_bytes f v)) MINLC pc t (cp + MINLC * v) cl.
Proof.
  revert v n cp. unfold MINLC. induction f as [|f IH]; intros v n cp Hv Hcp Hm Hpc Hn; cbn [pcs_bytes].
  all: destruct (Z.eqb_spec v 0) as [->|Hv0]; [by rewrite Z.mul_0_r, Z.add_0_r, Nat.sub_0_r|].
  - lia.
  - set (s := if v <? 127 then v else 127) in *. assert (0 < s <= 127 /\ s <= v) by (subst s; destruct (Z.ltb_spec v 127); lia).
    assert (u8 (s + 128) = s + 128) as Eu by (unfold u8, wrapu; apply Z.mod_small; lia).
    assert (length (pcs_bytes (S f) v) = S (length (pcs_bytes f (v - s)))) as El.
    { cbn [pcs_bytes]. by rewrite (proj2 (Z.eqb_neq v 0)) by done. }
    rewrite El in Hn. cbn [app length]. rewrite Eu.
    destruct n as [|n]; [lia|].
    assert (u64 (u64 (cp + 4 * (s + 128 - 129)) + 4) = cp + 4 * s) as Ecp.
    { unfold u64, wrapu. rewrite (Z.mod_small (cp + _)) by lia. rewrite Z.mod_small by lia. lia. }
    rewrite (pc2line_step n _ _ _ _ _ _ (cp + 4 * s) cl (pcs_bytes f (v - s) ++ t)).
    + rewrite IH; [|subst s; destruct (Z.ltb_spec v 127); lia|lia..]. f_equal. lia.
    + lia.
    + unfold lc_entry. rewrite (proj2 (Z.eqb_neq _ 0)), (proj2 (Z.ltb_ge _ 65)), (proj2 (Z.ltb_ge _ 129)), Ecp by lia. done.
Qed.

(** Entries that advance the address past the one asked for. *)
Lemma read_pcs_stop f v n t cp cl :
  0 <= v <= 127 * Z.of_nat f -> 0 <= cp -> cp + MINLC * v < 2 ^ 63 -> pc <= cp + MINLC * v ->
  D n MINLC pc (pcs_bytes f v ++ t) cp cl = Some cl.
Proof.
  revert v n cp. unfold MINLC. induction f as [|f IH]; intros v n cp Hv Hcp Hm Hpc; cbn [pcs_bytes].
  all: destruct (Z.eqb_spec v 0) as [->|Hv0]; [by apply pc2line_stop; lia|].
  - lia.
  - set (s := if v <? 127 then v else 127) in *. assert (0 < s <= 127 /\ s <= v) by (subst s; destruct (Z.ltb_spec v 127); lia).
    assert (u8 (s + 128) = s + 128) as -> by (unfold u8, wrapu; apply Z.mod_small; lia).
    destruct n as [|n]; [done|]. destruct (Z.lt_ge_cases cp pc); [|by apply pc2line_stop].
    assert (u64 (u64 (cp + 4 * (s + 128 - 129)) + 4) = cp + 4 * s) as Ecp.
    { unfold u64, wrapu. rewrite (Z.mod_small (cp + _)) by lia. rewrite Z.mod_small by lia. lia. }
    cbn [app]. rewrite (pc2line_step n _ _ _ _ _ _ (cp + 4 * s) cl (pcs_bytes f (v - s) ++ t)).
    + apply IH; [subst s; destruct (Z.ltb_spec v 127); lia|lia..].
    + lia.
    + unfold lc_entry. rewrite (proj2 (Z.eqb_neq _ 0)), (proj2 (Z.ltb_ge _ 65)), (proj2 (Z.ltb_ge _ 129)), Ecp by lia. done.
Qed.

Lemma be_int_bytes c : in_s 32 c -> be_int (u8 (Z.shiftr c 24)) (u8 (Z.shiftr c 16)) (u8 (Z.shiftr c 8)) (u8 c) = c.
Proof.
  intros H. transitivity (s32 c); [|by apply wraps_id]. unfold be_int. cbits.
Qed.

(** The entry of a line. *)
Lemma read_line c n t cp cl :
  in_s 32 c -> c <> 0 -> 0 <= cp -> cp + MINLC < 2 ^ 63 -> cp < pc ->
  D (S n) MINLC pc (line_bytes c ++ t) cp cl = D n MINLC pc t (cp + MINLC) (s32 (cl + c)).
Proof.
  intros Hc Hz Hcp Hm Hpc. unfold line_bytes, MINLC in *.
  assert (u64 (cp + 4) = cp + 4) as Ecp by (unfold u64, wrapu; apply Z.mod_small; lia).
  destruct (Z.ltb_spec 64 c); [|destruct (Z.ltb_spec c (-64))]; cbn [orb].
  1,2: cbn [app be_bytes]; apply pc2line_step; [done|]; unfold lc_entry; cbn; by rewrite be_int_bytes, Ecp.
  destruct (Z.ltb_spec 0 c).
  - assert (u8 c = c) as -> by (unfold u8, wrapu; apply Z.mod_small; lia).
    apply pc2line_step; [done|]. unfold lc_entry.
    by rewrite (proj2 (Z.eqb_neq _ 0)), (proj2 (Z.ltb_lt _ 65)), Ecp by lia.
  - assert (u8 (64 - c) = 64 - c) as -> by (unfold u8, wrapu; apply Z.mod_small; lia).
    apply pc2line_step; [done|]. unfold lc_entry.
    rewrite (proj2 (Z.eqb_neq _ 0)), (proj2 (Z.ltb_ge _ 65)), (proj2 (Z.ltb_lt _ 129)), Ecp by lia.
    repeat f_equal. lia.
Qed.
End Reading.

(** ** The instructions in memory *)

(** Only [TEXT] and [NOP] may be without code. *)
Definition coded (p : Prog) : bool := negb (p_as p =? ATEXT) && negb (p_as p =? ANOP).

(** The instructions have consecutive addresses from [c] on, and lines that are [int]s. *)
Fixpoint addressed (c : Z) (cs : list Prog) : Prop :=
  match cs with
  | [] => True
  | p :: cs =>
      p_pc p = c /\ in_s 32 (p_line p) /\ 0 <= c < 2 ^ 31 - MINLC
      /\ exists n, (if coded p then 1 else 0) <= n /\ addressed (c + MINLC * n) cs
  end.

Lemma words_exact oldpc c k p :
  p_pc p = c -> 0 <= oldpc -> c = oldpc + MINLC * k -> 0 <= k -> c < 2 ^ 31 -> words_from oldpc p = k.
Proof.
  unfold words_from, MINLC. intros E Ho Ec Hk Hc.
  replace (p_pc p - oldpc) with (4 * k) by lia. unfold s32. rewrite wraps_id by (unfold in_s; lia).
  rewrite Z.mul_comm. apply Z.quot_mul. lia.
Qed.

Lemma s32_small x : 0 <= x < 2 ^ 31 -> s32 x = x.
Proof. intros H. apply wraps_id; unfold in_s; lia. Qed.

Lemma table_skip oldpc oldlc p cs : silent oldlc p = true -> table oldpc oldlc (p :: cs) = table oldpc oldlc cs.
Proof. intros H. cbn [table]. by rewrite H. Qed.

Lemma table_entry oldpc oldlc c k p cs :
  silent oldlc p = false -> p_pc p = c -> 4 <= oldpc -> c = oldpc + MINLC * k -> 0 <= k ->
  c < 2 ^ 31 - MINLC ->
  table oldpc oldlc (p :: cs)
  = pcs_bytes (rounds k) k ++ line_bytes (s32 (p_line p - oldlc)) ++ table (c + MINLC) (p_line p) cs.
Proof.
  intros Hs Hp Ho Hc Hk Hm. cbn [table]. rewrite Hs, (words_exact oldpc c k p), Hp by (unfold MINLC in *; lia).
  by rewrite (s32_small (c + MINLC)) by (unfold MINLC in *; lia).
Qed.

(** What [lc_pad] writes. *)
Definition pad (n : Z) : list Z := if Z.odd n then [129] else [].

Lemma read_pad n pc k cp cl : pc2line_loop n MINLC pc (pad k) cp cl = Some cl.
Proof.
  unfold pad. destruct (Z.odd k), n as [|n]; try done.
  destruct (Z.lt_ge_cases cp pc); [|by apply pc2line_stop; lia].
  etrans; [by apply pc2line_step|by destruct n].
Qed.

Lemma line_back a b : in_s 32 a -> s32 (b + s32 (a - b)) = a.
Proof.
  intros H. rewrite Z.add_comm. unfold s32. rewrite wrapu_add_wraps by lia.
  transitivity (wraps 32 a); [f_equal; lia|by apply wraps_id].
Qed.

Section Table.
Context (pc n0 : Z).

(** Below the next instruction with an entry, the line is the one before. *)
Lemma read_before n oldpc oldlc c k cs :
  addressed c cs -> 4 <= oldpc -> c = oldpc + MINLC * k -> 0 <= k -> pc <= c - MINLC ->
  pc2line_loop n MINLC pc (table oldpc oldlc cs ++ pad n0) (oldpc - MINLC) oldlc = Some oldlc.
Proof.
  revert c k. induction cs as [|p cs IH]; intros c k Ha Ho Hc Hk Hpc; [by apply read_pad|].
  destruct Ha as (Hp & Hl & Hr & m & Hm & Ha). destruct (silent oldlc p) eqn:Es.
  - rewrite table_skip by done. assert (0 <= m) by (destruct (coded p); lia).
    apply (IH (c + MINLC * m) (k + m)); [done|unfold MINLC in *; lia..].
  - rewrite (table_entry _ _ c k), <- app_assoc by first [done|lia]. destruct (rounds_enough k) as [Hk1 _].
    apply read_pcs_stop; unfold MINLC in *; lia.
Qed.

Lemma coded_silent oldlc p : silent oldlc p = true -> coded p = true -> p_line p = oldlc.
Proof.
  unfold silent, coded. intros H1 H2. destruct (Z.eqb_spec (p_line p) oldlc); [done|].
  apply andb_true_iff in H2 as [H2 H3]. apply negb_true_iff in H2, H3. by rewrite H2, H3 in H1.
Qed.

Lemma addressed_from c cs p : addressed c cs -> p ∈ cs -> c <= p_pc p.
Proof.
  revert c. induction cs as [|q cs IH]; intros c Ha Hp; [by apply not_elem_of_nil in Hp|].
  destruct Ha as (Hq & _ & _ & m & Hm & Ha). apply elem_of_cons in Hp as [->|Hp]; [lia|].
  specialize (IH _ Ha Hp). assert (0 <= m) by (destruct (coded q); lia). unfold MINLC in *. lia.
Qed.

Lemma read_table n oldpc oldlc c k cs p :
  addressed c cs -> 4 <= oldpc -> in_s 32 oldlc -> c = oldpc + MINLC * k -> 0 <= k ->
  p ∈ cs -> coded p = true -> p_pc p = pc ->
  (length (table oldpc oldlc cs ++ pad n0) <= n)%nat ->
  pc2line_loop n MINLC pc (table oldpc oldlc cs ++ pad n0) (oldpc - MINLC) oldlc = Some (p_line p).
Proof.
  revert n oldpc oldlc c k. induction cs as [|q cs IH]; intros n oldpc oldlc c k Ha Ho Hi Hc Hk Hp Hcd Hpc Hn;
    [by apply not_elem_of_nil in Hp|].
  pose proof (addressed_from _ _ _ Ha Hp) as Hge.
  destruct Ha as (Hq & Hl & Hr & m & Hm & Ha). assert (0 <= m) by (destruct (coded q); lia).
  destruct (silent oldlc q) eqn:Es.
  - rewrite table_skip in * by done. apply elem_of_cons in Hp as [->|Hp].
    + rewrite Hcd in Hm. rewrite (coded_silent _ _ Es Hcd).
      eapply (read_before n _ _ (c + MINLC * m) (k + m)); [done|unfold MINLC in *; lia..].
    + eapply (IH n _ _ (c + MINLC * m) (k + m)); try done; unfold MINLC in *; lia.
  - rewrite (table_entry _ _ c k), <- !app_assoc in * by first [done|lia]. destruct (rounds_enough k) as [Hk1 _].
    rewrite !length_app in Hn.
    rewrite read_pcs by (unfold MINLC in *; lia).
    assert (p_line q <> oldlc) as Hne by (intros E; unfold silent in Es; by rewrite E, Z.eqb_refl in Es).
    assert (s32 (p_line q - oldlc) <> 0) as Hz.
    { intros E. apply Hne. rewrite <- (line_back (p_line q) oldlc Hl), E, Z.add_0_r. by apply wraps_id. }
    assert (0 < length (line_bytes (s32 (p_line q - oldlc))))%nat
      by (unfold line_bytes; destruct (_ || _); [simpl; lia|destruct (0 <? _); simpl; lia]).
    set (b := length (pcs_bytes (rounds k) k)) in *.
    replace (n - b)%nat with (S (n - b - 1)) by lia.
    replace (oldpc - MINLC + MINLC * k) with (c - MINLC) by lia.
    rewrite read_line; [|by apply wraps_range|done|unfold MINLC in *; lia..].
    rewrite line_back by done.
    apply elem_of_cons in Hp as [->|Hp].
    + apply pc2line_stop. lia.
    + replace (c - MINLC + MINLC) with (c + MINLC - MINLC) by lia.
      assert (coded q = true) as Hcq.
      { unfold silent in Es. unfold coded. apply orb_false_iff in Es as [Es E3]. apply orb_false_iff in Es as [E1 E2].
        by rewrite E2, E3. }
      rewrite Hcq in Hm.
      eapply (IH _ _ _ (c + MINLC * m) (m - 1)); try done; [unfold MINLC in *; lia..|].
      rewrite length_app. lia.
Qed.
End Table.

Lemma odd_s32 x : Z.odd (s32 x) = Z.odd x.
Proof.
  rewrite !Zodd_mod. change (((s32 x mod 2 ^ 1) =? 1) = ((x mod 2 ^ 1) =? 1)).
  by rewrite <- (mod_mod_pow2 (s32 x) 32 1), <- (mod_mod_pow2 x 32 1), (wraps_mod 32) by lia.
Qed.

(** C17: the table of line numbers that [asmlc] writes for a program laid out in memory is the
    one the debuggers' [pc2line] reads: at the address of every instruction, other than [TEXT]
    and [NOP], it gives the line of the instruction, for lines anywhere in the range of an
    [int] and in any order. [asmlc] returns, and the table has an even number of bytes, which
    [lcsize] counts. *)
Theorem pc2line_asmlc fuel s l cs tend :
  linked (progs s) (firstp s) l -> of_list (progs s) l cs -> (length l <= fuel)%nat ->
  lcsize s = 0 -> 4 <= INITTEXT s -> addressed (INITTEXT s) cs ->
  lwp noexit (asmlc fuel) (fun _ s' =>
    exists tbl, output s' = output s ++ tbl /\ lcsize s' = s32 (Z.of_nat (length tbl))
      /\ Z.even (Z.of_nat (length tbl)) = true
      /\ forall p, p ∈ cs -> coded p = true -> p_pc p <= tend ->
           pc2line (mkSymFile MINLC (INITTEXT s) tend 0 (Some tbl)) (p_pc p) = Some (p_line p)) s.
Proof.
  intros Hl Hc Hf Hn Hi Ha. unfold asmlc. apply lwp_get, lwp_get, lwp_bind.
  eapply lwp_mono; [eapply lc_loop_wrote; [done|done|done|by rewrite Hn]|]. intros [] s1 _ H1.
  set (t := table (INITTEXT s) 0 cs) in *.
  assert (Z.odd (lcsize s1) = Z.odd (Z.of_nat (length t))) as Ho by (by rewrite (wr_size _ _ _ _ H1), Hn, odd_s32).
  assert (lwp noexit lc_pad (fun _ s2 => wrote (t ++ pad (lcsize s1)) (Z.of_nat (length (t ++ pad (lcsize s1)))) s s2) s1) as Hp.
  { unfold lc_pad, pad. apply lwp_get. rewrite length_app, Nat2Z.inj_add. destruct (Z.odd (lcsize s1)).
    - apply lwp_put. intros s2 H2. eapply wrote_trans; [exact H1|]. by apply puts_more.
    - apply lwp_ret. rewrite app_nil_r, Z.add_0_r. exact H1. }
  eapply lwp_mono; [exact Hp|]. intros [] s2 _ [H2 H3 _ _]. eexists. split_and!; [exact H2|by rewrite H3, Hn| |].
  - rewrite length_app, Nat2Z.inj_add, Z.even_add. unfold pad. rewrite Ho, <- Z.negb_odd.
    by destruct (Z.odd (Z.of_nat (length t))).
  - intros p Hp' Hcd Ht. pose proof (addressed_from _ _ _ Ha Hp'). unfold pc2line. cbn.
    destruct cs as [|c cs']; [by apply not_elem_of_nil in Hp'|].
    assert (INITTEXT s < 2 ^ 31) by (destruct Ha as (_ & _ & ? & _); unfold MINLC in *; lia).
    assert (u64 (INITTEXT s - MINLC) = INITTEXT s - MINLC) as ->
      by (unfold u64, wrapu, MINLC; apply Z.mod_small; lia).
    rewrite (proj2 (Z.ltb_ge _ _)), (proj2 (Z.ltb_ge tend _)) by (unfold MINLC; lia). cbn [orb].
    apply (read_table _ _ _ (INITTEXT s) 0 (INITTEXT s) 0); first [done|unfold in_s; lia].
Qed.

(** ** An example *)

Definition at_line (pc line : Z) (p : Prog) : Prog := pset_pc pc (pset_line line p).

(** Four instructions of the lines 2, 2, 300 and 7. *)
Definition lines_prog : gmap Z Prog :=
  list_to_map
    [(0, at_line 0x1020 1 (ins ATEXT none (acon 12) NREG None (Some 1)));
     (1, at_line 0x1020 2 (ins AMOVW (acon 0x12345678) (areg 2) NREG None (Some 2)));
     (2, at_line 0x1028 2 (ins AADD (acon 5) (areg 3) 2 None (Some 3)));
     (3, at_line 0x102c 300 (ins AADD (acon 5) (areg 3) 2 None (Some 4)));
     (4, at_line 0x1240 7 (ins AADD (acon 5) (areg 3) 2 None None))].

Definition lines_demo : vl := linker lines_prog 5.
Definition lines_list : list Prog := Eval vm_compute in omap (fun i => lines_prog !! i) [0; 1; 2; 3; 4].

Example lines_table :
  match asmlc 5 lines_demo with LOk _ s => Some (output s) | _ => None end
  = Some [2; 130; 0; 0; 0; 1; 42; 255; 133; 0; 255; 255; 254; 219].
Proof. by vm_compute. Qed.

Lemma addressed_cons c p cs n :
  p_pc p = c -> in_s 32 (p_line p) -> 0 <= c < 2 ^ 31 - MINLC -> (if coded p then 1 else 0) <= n ->
  addressed (c + MINLC * n) cs -> addressed c (p :: cs).
Proof. intros H0 H1 H2 H3 H4. exact (conj H0 (conj H1 (conj H2 (ex_intro _ n (conj H3 H4))))). Qed.

Lemma lines_addressed : addressed (INITTEXT lines_demo) lines_list.
Proof.
  assert (forall c, 0 <= c < 2 ^ 31 - MINLC <-> 0 <= c < 2147483644) as Hr by done.
  unfold lines_list. eapply (addressed_cons _ _ _ 0); [reflexivity|done|by apply Hr|done|].
  eapply (addressed_cons _ _ _ 2); [reflexivity|done|by apply Hr|done|].
  eapply (addressed_cons _ _ _ 1); [reflexivity|done|by apply Hr|done|].
  eapply (addressed_cons _ _ _ 133); [reflexivity|done|by apply Hr|done|].
  by eapply (addressed_cons _ _ _ 1); [reflexivity|done|by apply Hr|done|].
Qed.

Lemma pc2line_asmlc_witness :
  exists s' tbl, asmlc 5 lines_demo = LOk tt s' /\ output s' = output lines_demo ++ tbl
    /\ map (fun a => pc2line (mkSymFile MINLC (INITTEXT lines_demo) 0x2000 0 (Some tbl)) a)
         [0x1020; 0x1028; 0x102c; 0x1240] = [Some 2; Some 2; Some 300; Some 7].
Proof.
  assert (linked (progs lines_demo) (firstp lines_demo) [0; 1; 2; 3; 4]) as Hl
    by (repeat (split; [done|eexists; split; [reflexivity|]]); done).
  assert (of_list (progs lines_demo) [0; 1; 2; 3; 4] lines_list) as Hc
    by (repeat (apply Forall2_cons_2; [reflexivity|]); apply Forall2_nil_2).
  pose proof (pc2line_asmlc 5 lines_demo [0; 1; 2; 3; 4] lines_list 0x2000 Hl Hc ltac:(simpl; lia) eq_refl
    ltac:(simpl; lia) lines_addressed) as H.
  unfold lwp in H. destruct (asmlc 5 lines_demo) as [[] s'| | |]; try done.
  destruct H as (tbl & H1 & _ & _ & H2). exists s', tbl. split; [done|]. split; [done|].
  assert (forall i p, lines_list !! i = Some p -> coded p = true -> p_pc p <= 0x2000 ->
    pc2line (mkSymFile MINLC (INITTEXT lines_demo) 0x2000 0 (Some tbl)) (p_pc p) = Some (p_line p)) as H3
    by (intros i p Hp; apply H2; by eapply list_elem_of_lookup_2).
  pose proof (H3 1%nat _ eq_refl eq_refl ltac:(simpl; lia)) as E1.
  pose proof (H3 2%nat _ eq_refl eq_refl ltac:(simpl; lia)) as E2.
  pose proof (H3 3%nat _ eq_refl eq_refl ltac:(simpl; lia)) as E3.
  pose proof (H3 4%nat _ eq_refl eq_refl ltac:(simpl; lia)) as E4.
  cbn [p_pc p_line at_line pset_pc pset_line ins] in E1, E2, E3, E4. cbn [map].
  by rewrite E1, E2, E3, E4.
Defined.
